(** * suitcase.mongo_embedded: the embedding pipeline, in Rocq

    A shallow embedding of [suitcase/mongo_embedded/__init__.py]: the page
    buffer ([Embedder]), the document store it writes to, the [Serializer]
    with its three background workers, and the freeze protocol.

    Python objects are modelled as follows.
    - A document is an insertion-ordered dictionary: an association list.
    - Methods that mutate [self] and may raise are computations in a state
      and exception monad; the state reached before an exception is kept,
      as it is in Python.
    - The three worker threads are modelled by one loop iteration each
      ([tick]); a call that waits (a full queue, a join) is given the worker
      iterations that happen while it waits.
    - [bson.BSON.encode] and MongoDB are external: the encoder is a
      parameter, the store is modelled from its documented behaviour. *)

From Stdlib Require Import ZArith List String Ascii Bool Lia.
From Stdlib Require Import Init.Byte Strings.Byte DecimalString.
Import ListNotations.

Set Warnings "-register-all".

Open Scope string_scope.
Open Scope list_scope.
Open Scope Z_scope.

(** ** Python values *)

(** The values documents are made of.  Floating-point numbers are left out;
    no property below depends on a number's representation. *)
Inductive value : Type :=
| VNone
| VBool (b : bool)
| VInt (n : Z)
| VStr (s : string)
| VList (l : list value)
| VDict (d : list (string * value)).

(** ** Dictionaries

    Python's [dict] keeps insertion order; assigning to an existing key keeps
    its position. *)
Module Dict.
Section Ops.
Context {V : Type}.

Definition t : Type := list (string * V).

Fixpoint get (k : string) (d : t) : option V :=
  match d with
  | [] => None
  | (k', v) :: r => if String.eqb k k' then Some v else get k r
  end.

Fixpoint set (k : string) (v : V) (d : t) : t :=
  match d with
  | [] => [(k, v)]
  | (k', v') :: r =>
      if String.eqb k k' then (k', v) :: r else (k', v') :: set k v r
  end.

Definition mem (k : string) (d : t) : bool :=
  match get k d with Some _ => true | None => false end.

Definition keys (d : t) : list string := map fst d.
Definition values (d : t) : list V := map snd d.

(** [d[k]] on a [defaultdict] whose factory returns [dflt]. *)
Definition get_default (dflt : V) (k : string) (d : t) : V :=
  match get k d with Some v => v | None => dflt end.
End Ops.
Arguments t : clear implicits.

(** [sum(d.values())] *)
Definition sum (d : t Z) : Z := fold_right Z.add 0 (values d).

(** [d[k] += n] on a [defaultdict(lambda: 0)] *)
Definition add (k : string) (n : Z) (d : t Z) : t Z :=
  set k (get_default 0 k d + n) d.

(** [{**a, **b}] *)
Definition merge {V} (a b : t V) : t V :=
  fold_left (fun acc kv => set (fst kv) (snd kv) acc) b a.
End Dict.

Definition doc : Type := Dict.t value.

(** ** Exceptions *)

Inductive exn_class : Type :=
| KeyError | TypeError | AttributeError | ValueError | AssertionError
| RuntimeError | IOError
| PyMongoError      (* any error raised by the store driver *).

(** [Exn cls msg cause]: [raise cls(msg) from cause]. *)
Inductive exn : Type :=
| Exn (cls : exn_class) (msg : string) (cause : option exn).

(** ** The state and exception monad *)

(** How a call ends.  [Blocked]: the call is still waiting, on a full queue
    or on a worker that has not finished, after every worker iteration it
    was given. *)
Inductive outcome (A : Type) : Type :=
| Ok (a : A)
| Raise (e : exn)
| Blocked.
Arguments Ok {A} a.
Arguments Raise {A} e.
Arguments Blocked {A}.

Definition M (S A : Type) : Type := S -> outcome A * S.

Definition ret {S A} (a : A) : M S A := fun s => (Ok a, s).

Definition bind {S A B} (c : M S A) (k : A -> M S B) : M S B :=
  fun s =>
    match c s with
    | (Ok a, s') => k a s'
    | (Raise e, s') => (Raise e, s')
    | (Blocked, s') => (Blocked, s')
    end.

Definition raise {S A} (e : exn) : M S A := fun s => (Raise e, s).
Definition get {S} : M S S := fun s => (Ok s, s).
Definition modify {S} (f : S -> S) : M S unit := fun s => (Ok tt, f s).

(** What a function without effects returns: a value, or the exception it
    raises. *)
Inductive result (A : Type) : Type :=
| Done (a : A)
| Error (e : exn).
Arguments Done {A} a.
Arguments Error {A} e.

(** The call of such a function. *)
Definition lift {S A} (r : result A) : M S A :=
  fun s =>
    match r with
    | Done a => (Ok a, s)
    | Error e => (Raise e, s)
    end.

(** Run a computation on a component of the state. *)
Definition zoom {S T A} (proj : S -> T) (upd : T -> S -> S) (c : M T A)
  : M S A :=
  fun s => let (r, t') := c (proj s) in (r, upd t' s).

Declare Scope monad_scope.
Delimit Scope monad_scope with monad.
Notation "x <- c ;; k" := (bind c (fun x => k))
  (at level 61, c at next level, right associativity) : monad_scope.
Notation "' pat <- c ;; k" := (bind c (fun x => match x with pat => k end))
  (at level 61, pat pattern, c at next level, right associativity)
  : monad_scope.
Notation "c ;; k" := (bind c (fun _ => k))
  (at level 61, right associativity) : monad_scope.
Open Scope monad_scope.

(** [for x in xs: body(x)] *)
Fixpoint for_each {S A} (xs : list A) (body : A -> M S unit) : M S unit :=
  match xs with
  | [] => ret tt
  | x :: r => body x ;; for_each r body
  end.

(** [[f(x) for x in xs]] *)
Fixpoint comprehension {S A B} (xs : list A) (f : A -> M S B)
  : M S (list B) :=
  match xs with
  | [] => ret []
  | x :: r => y <- f x ;; ys <- comprehension r f ;; ret (y :: ys)
  end.

(** ** The wire encoder

    [bson.BSON.encode] belongs to the store driver; the pipeline only takes
    the length of what it returns. *)
Class Bson : Type := bson_encode : doc -> list byte.

(** [len(x)] of a Python list, as an integer. *)
Definition len {A} (l : list A) : Z := Z.of_nat (List.length l).

(** * The page buffer *)

Module Embedder.

(** What has been embedded for one stream.  Python keeps one [defaultdict]
    per stream, whose entries are lists (array keys), [defaultdict]s of lists
    (dataframe keys) or plain values (every other key).  Which of the three
    an entry is depends on its key alone, so the model keeps them apart. *)
Record Page : Type := {
  arrays : Dict.t (list value);
  frames : Dict.t (Dict.t (list value));
  scalars : Dict.t value
}.

Definition empty_page : Page :=
  {| arrays := []; frames := []; scalars := [] |}.

Record t : Type := {
  _embedder : Dict.t Page;
  current_size : Z;
  stream_size : Dict.t Z;
  _max_size : Z;
  _array_keys : list string;
  _dataframe_keys : list string;
  _stream_id_key : string
}.

Definition with_embedder (x : Dict.t Page) (e : t) : t :=
  {| _embedder := x; current_size := current_size e;
     stream_size := stream_size e; _max_size := _max_size e;
     _array_keys := _array_keys e; _dataframe_keys := _dataframe_keys e;
     _stream_id_key := _stream_id_key e |}.

Definition with_current_size (x : Z) (e : t) : t :=
  {| _embedder := _embedder e; current_size := x;
     stream_size := stream_size e; _max_size := _max_size e;
     _array_keys := _array_keys e; _dataframe_keys := _dataframe_keys e;
     _stream_id_key := _stream_id_key e |}.

Definition with_stream_size (x : Dict.t Z) (e : t) : t :=
  {| _embedder := _embedder e; current_size := current_size e;
     stream_size := x; _max_size := _max_size e;
     _array_keys := _array_keys e; _dataframe_keys := _dataframe_keys e;
     _stream_id_key := _stream_id_key e |}.

Definition invalid_max_size : exn :=
  Exn ValueError
      "Invalid max_size, max_size must be between 1000 and 15000000 inclusive."
      None.

Definition invalid_doc_type : exn :=
  Exn ValueError "Invalid doc_type, doc_type must be either 'event' or 'datum'"
      None.

(** The buffer [Embedder('event', max_size)] starts with. *)
Definition event_buffer (max_size : Z) : t :=
  {| _embedder := []; current_size := 0; stream_size := [];
     _max_size := max_size;
     _array_keys := ["seq_num"; "time"; "uid"];
     _dataframe_keys := ["data"; "timestamps"; "filled"];
     _stream_id_key := "descriptor" |}.

(** The buffer [Embedder('datum', max_size)] starts with. *)
Definition datum_buffer (max_size : Z) : t :=
  {| _embedder := []; current_size := 0; stream_size := [];
     _max_size := max_size;
     _array_keys := ["datum_id"];
     _dataframe_keys := ["datum_kwargs"];
     _stream_id_key := "resource" |}.

(** [Embedder(doc_type, max_size)] *)
Definition __init__ (doc_type : string) (max_size : Z) : result t :=
  if (1000 <=? max_size) && (max_size <=? 15000000) then
    if String.eqb doc_type "event" then Done (event_buffer max_size)
    else if String.eqb doc_type "datum" then Done (datum_buffer max_size)
    else Error invalid_doc_type
  else Error invalid_max_size.

(** [key in keys] *)
Definition key_in (key : string) (keys : list string) : bool :=
  existsb (String.eqb key) keys.

(** [doc[self._stream_id_key]].  Streams are keyed by uid strings, as the
    documents of the event model are; an identifier of another type is
    outside the model and is reported as a [TypeError]. *)
Definition stream_of (d : doc) : M t string :=
  e <- get ;;
  match Dict.get (_stream_id_key e) d with
  | None => raise (Exn KeyError (_stream_id_key e) None)
  | Some (VStr sid) => ret sid
  | Some _ => raise (Exn TypeError "stream identifier is not a string" None)
  end.

(** [self._embedder[sid]], creating the entry as a [defaultdict] does, then
    [f] applied to it. *)
Definition on_page (sid : string) (f : Page -> Page) : M t unit :=
  modify (fun e =>
    with_embedder
      (Dict.set sid (f (Dict.get_default empty_page sid (_embedder e)))
                (_embedder e)) e).

(** [page[key] = list(page[key]); page[key].append(value)] *)
Definition append_array (key : string) (v : value) (p : Page) : Page :=
  {| arrays := Dict.set key (Dict.get_default [] key (arrays p) ++ [v])
                        (arrays p);
     frames := frames p; scalars := scalars p |}.

(** [page[key][inner_key].append(inner_value)] *)
Definition append_frame (key inner_key : string) (v : value) (p : Page)
  : Page :=
  let frame := Dict.get_default [] key (frames p) in
  {| arrays := arrays p;
     frames := Dict.set key
                 (Dict.set inner_key
                    (Dict.get_default [] inner_key frame ++ [v]) frame)
                 (frames p);
     scalars := scalars p |}.

(** [page[key] = value] *)
Definition set_scalar (key : string) (v : value) (p : Page) : Page :=
  {| arrays := arrays p; frames := frames p;
     scalars := Dict.set key v (scalars p) |}.

(** [doc[key].items()] *)
Definition items_of (key : string) (d : doc) : M t (list (string * value)) :=
  match Dict.get key d with
  | None => raise (Exn KeyError key None)
  | Some (VDict inner) => ret inner
  | Some _ => raise (Exn AttributeError "object has no attribute 'items'" None)
  end.

(** The body of the loop over [doc.items()] in [insert]. *)
Definition embed_item (d : doc) (kv : string * value) : M t unit :=
  let (key, v) := kv in
  e <- get ;;
  if key_in key (_array_keys e) then
    sid <- stream_of d ;;
    on_page sid (append_array key v)
  else if key_in key (_dataframe_keys e) then
    inner <- items_of key d ;;
    for_each inner (fun iv =>
      sid <- stream_of d ;;
      on_page sid (append_frame key (fst iv) (snd iv)))
  else
    sid <- stream_of d ;;
    on_page sid (set_scalar key v).

Section WithEncoder.
Context {encoder : Bson}.

(** [len(bson.BSON.encode(doc))] *)
Definition doc_size (d : doc) : Z := len (bson_encode d).

(** [Embedder.insert]: [Some doc] is the document handed back, [None] is
    Python's [None]. *)
Definition insert (d : doc) : M t (option doc) :=
  e <- get ;;
  if current_size e + doc_size d >? _max_size e then ret (Some d)
  else
    for_each d (embed_item d) ;;
    modify (fun e => with_current_size (current_size e + doc_size d) e) ;;
    sid <- stream_of d ;;
    modify (fun e =>
      with_stream_size (Dict.add sid (doc_size d) (stream_size e)) e) ;;
    ret None.
End WithEncoder.

(** [Embedder.dump] *)
Definition dump : M t (Dict.t Page * Dict.t Z) :=
  e <- get ;;
  let embedder_dump := _embedder e in
  modify (with_embedder []) ;;
  let dump_sizes := stream_size e in
  modify (with_stream_size []) ;;
  modify (with_current_size 0) ;;
  ret (embedder_dump, dump_sizes).

(** [Embedder.empty] *)
Definition empty (e : t) : bool := current_size e =? 0.

End Embedder.

(** ** Python operations on values *)

Definition type_error {A} (msg : string) : result A :=
  Error (Exn TypeError msg None).

(** [len(v)] *)
Definition py_len (v : value) : result Z :=
  match v with
  | VList l => Done (len l)
  | VDict d => Done (len d)
  | VStr s => Done (Z.of_nat (String.length s))
  | _ => type_error "object has no len()"
  end.

Fixpoint chars (s : string) : list value :=
  match s with
  | EmptyString => []
  | String c r => VStr (String c EmptyString) :: chars r
  end.

(** [for x in v] *)
Definition py_iter (v : value) : result (list value) :=
  match v with
  | VList l => Done l
  | VDict d => Done (map VStr (Dict.keys d))
  | VStr s => Done (chars s)
  | _ => type_error "object is not iterable"
  end.

(** [v[key]] for a string key *)
Definition py_getitem (v : value) (key : string) : result value :=
  match v with
  | VDict d =>
      match Dict.get key d with
      | Some x => Done x
      | None => Error (Exn KeyError key None)
      end
  | _ => type_error "indices must be integers, or object is not subscriptable"
  end.

(** [v.items()] *)
Definition py_items (v : value) : result (list (string * value)) :=
  match v with
  | VDict d => Done d
  | _ => Error (Exn AttributeError "object has no attribute 'items'" None)
  end.

(** Whether [v] can be a dictionary key. *)
Definition hashable (v : value) : bool :=
  match v with
  | VList _ | VDict _ => false
  | _ => true
  end.

(** [a == b] in Python: dictionaries compare without regard to order, and
    [True == 1]. *)
Fixpoint py_eq (a b : value) {struct a} : bool :=
  match a, b with
  | VNone, VNone => true
  | VBool x, VBool y => Bool.eqb x y
  | VBool x, VInt n => n =? (if x then 1 else 0)
  | VInt n, VBool x => n =? (if x then 1 else 0)
  | VInt n, VInt m => n =? m
  | VStr s, VStr u => String.eqb s u
  | VList l, VList m =>
      (fix all2 (l m : list value) {struct l} : bool :=
         match l, m with
         | [], [] => true
         | x :: l', y :: m' => py_eq x y && all2 l' m'
         | _, _ => false
         end) l m
  | VDict d, VDict e =>
      (List.length d =? List.length e)%nat &&
      (fix all (d : list (string * value)) : bool :=
         match d with
         | [] => true
         | (k, v) :: d' =>
             match Dict.get k e with
             | Some w => py_eq v w
             | None => false
             end && all d'
         end) d
  | _, _ => false
  end.

(** [page[key]] on a dumped page: the entry, or the empty [defaultdict] that
    the access creates. *)
Definition page_getitem (key : string) (p : Embedder.Page) : value :=
  match Dict.get key (Embedder.arrays p) with
  | Some l => VList l
  | None =>
      match Dict.get key (Embedder.frames p) with
      | Some f => VDict (map (fun kl => (fst kl, VList (snd kl))) f)
      | None =>
          match Dict.get key (Embedder.scalars p) with
          | Some v => v
          | None => VDict []
          end
      end
  end.

(** * The document store

    Modelled from MongoDB's documented behaviour, for the operations the
    pipeline issues.  The store-assigned [_id] is left out: every read
    projects it away and [_insert_run] deletes it from what it inserted. *)

Module Mongo.

Definition collection : Type := list doc.

Inductive coll_name : Type := Header | Event | Datum.

(** [fault]: set while the store refuses every operation with that error. *)
Record Database : Type := {
  header : collection;
  event : collection;
  datum : collection;
  fault : option exn
}.

Definition coll (c : coll_name) (db : Database) : collection :=
  match c with
  | Header => header db
  | Event => event db
  | Datum => datum db
  end.

Definition with_coll (c : coll_name) (x : collection) (db : Database)
  : Database :=
  match c with
  | Header => {| header := x; event := event db; datum := datum db;
                 fault := fault db |}
  | Event => {| header := header db; event := x; datum := datum db;
                fault := fault db |}
  | Datum => {| header := header db; event := event db; datum := x;
                fault := fault db |}
  end.

Definition with_fault (f : option exn) (db : Database) : Database :=
  {| header := header db; event := event db; datum := datum db; fault := f |}.

Definition empty_db : Database :=
  {| header := []; event := []; datum := []; fault := None |}.

Definition write_error {A} (msg : string) : result A :=
  Error (Exn PyMongoError msg None).

(** Equality of stored values: same type, same fields in the same order. *)
Fixpoint value_beq (a b : value) {struct a} : bool :=
  match a, b with
  | VNone, VNone => true
  | VBool x, VBool y => Bool.eqb x y
  | VInt n, VInt m => n =? m
  | VStr s, VStr u => String.eqb s u
  | VList l, VList m =>
      (fix all2 (l m : list value) {struct l} : bool :=
         match l, m with
         | [], [] => true
         | x :: l', y :: m' => value_beq x y && all2 l' m'
         | _, _ => false
         end) l m
  | VDict d, VDict e =>
      (fix all2 (d e : list (string * value)) {struct d} : bool :=
         match d, e with
         | [], [] => true
         | (k, x) :: d', (k', y) :: e' =>
             String.eqb k k' && value_beq x y && all2 d' e'
         | _, _ => false
         end) d e
  | _, _ => false
  end.

(** The query conditions the pipeline uses: [{field: v}] and
    [{field: {'$lt': bound}}]. *)
Inductive cond : Type :=
| Eq (field : string) (v : value)
| Lt (field : string) (bound : Z).

Definition filter : Type := list cond.

(** [{field: None}] also selects the documents without the field.  The
    fields queried here are never arrays. *)
Definition holds (c : cond) (d : doc) : bool :=
  match c with
  | Eq k v =>
      match Dict.get k d with
      | Some w => value_beq w v
      | None => value_beq VNone v
      end
  | Lt k bound =>
      match Dict.get k d with
      | Some (VInt n) => n <? bound
      | _ => false
      end
  end.

Definition matches (f : filter) (d : doc) : bool :=
  forallb (fun c => holds c d) f.

(** The update operators the pipeline uses. *)
Inductive update_op : Type :=
| Push (field : string) (v : value)      (* {'$push': {field: v}} *)
| PushEach (field : string) (vs : value) (* {'$push': {field: {'$each': vs}}} *)
| Inc (field : string) (n : Z)
| Min (field : string) (n : Z)
| Max (field : string) (n : Z)
| SetField (field : string) (v : value).

(** A field name is a path: ["data.x"] is field [x] of the embedded document
    [data]. *)
Fixpoint split_dots (s : string) : list string :=
  match s with
  | EmptyString => [EmptyString]
  | String c r =>
      if Ascii.eqb c "."%char then EmptyString :: split_dots r
      else
        match split_dots r with
        | [] => [String c EmptyString]
        | seg :: segs => String c seg :: segs
        end
  end.

Definition obind {A B} (r : result A) (k : A -> result B) : result B :=
  match r with
  | Done a => k a
  | Error e => Error e
  end.

(** Rewrite the value at [path] with [f], creating the embedded documents on
    the way.  Paths through arrays are not used by the pipeline and are
    refused. *)
Fixpoint update_at (path : list string) (f : option value -> result value)
    (d : doc) : result doc :=
  match path with
  | [] => write_error "An empty update path is not valid."
  | k :: rest =>
      if String.eqb k "" then
        write_error "The update path contains an empty field name."
      else
        match rest with
        | [] => obind (f (Dict.get k d)) (fun v => Done (Dict.set k v d))
        | _ :: _ =>
            match Dict.get k d with
            | None =>
                obind (update_at rest f [])
                      (fun sub => Done (Dict.set k (VDict sub) d))
            | Some (VDict sub) =>
                obind (update_at rest f sub)
                      (fun sub' => Done (Dict.set k (VDict sub') d))
            | Some _ => write_error "Cannot create field in element"
            end
        end
  end.

(** [$min] and [$max] follow the store's order of types: null, then numbers,
    then every other type of the model. *)
Definition min_with (n : Z) (cur : option value) : result value :=
  match cur with
  | None => Done (VInt n)
  | Some (VInt m) => Done (VInt (Z.min m n))
  | Some VNone => Done VNone
  | Some _ => Done (VInt n)
  end.

Definition max_with (n : Z) (cur : option value) : result value :=
  match cur with
  | None => Done (VInt n)
  | Some (VInt m) => Done (VInt (Z.max m n))
  | Some VNone => Done (VInt n)
  | Some other => Done other
  end.

Definition push_all (new : list value) (cur : option value) : result value :=
  match cur with
  | None => Done (VList new)
  | Some (VList l) => Done (VList (l ++ new))
  | Some _ => write_error "The field must be an array"
  end.

Definition inc_by (n : Z) (cur : option value) : result value :=
  match cur with
  | None => Done (VInt n)
  | Some (VInt m) => Done (VInt (m + n))
  | Some _ => write_error "Cannot apply $inc to a value of non-numeric type"
  end.

Definition apply_op (u : update_op) (d : doc) : result doc :=
  match u with
  | Push k v => update_at (split_dots k) (push_all [v]) d
  | PushEach k (VList new) => update_at (split_dots k) (push_all new) d
  | PushEach k _ => write_error "The argument to $each must be an array"
  | Inc k n => update_at (split_dots k) (inc_by n) d
  | Min k n => update_at (split_dots k) (min_with n) d
  | Max k n => update_at (split_dots k) (max_with n) d
  | SetField k v => update_at (split_dots k) (fun _ => Done v) d
  end.

Fixpoint apply_update (u : list update_op) (d : doc) : result doc :=
  match u with
  | [] => Done d
  | op :: r => obind (apply_op op d) (apply_update r)
  end.

(** The document an upsert starts from: the equalities of the filter. *)
Fixpoint seed (f : filter) : doc :=
  match f with
  | [] => []
  | Eq k v :: r => (k, v) :: seed r
  | Lt _ _ :: r => seed r
  end.

(** [pymongo.UpdateOne(filter, update, upsert=...)] *)
Record UpdateOne : Type := {
  uo_filter : filter;
  uo_update : list update_op;
  uo_upsert : bool
}.

(** One update against a collection: the first matching document is
    updated; without a match an upsert appends a new one. *)
Fixpoint update_first (f : filter) (u : list update_op) (c : collection)
  : option (result collection) :=
  match c with
  | [] => None
  | d :: r =>
      if matches f d then
        Some (obind (apply_update u d) (fun d' => Done (d' :: r)))
      else
        match update_first f u r with
        | Some res => Some (obind res (fun r' => Done (d :: r')))
        | None => None
        end
  end.

Definition run_update (op : UpdateOne) (c : collection)
  : result collection :=
  match update_first (uo_filter op) (uo_update op) c with
  | Some res => res
  | None =>
      if uo_upsert op then
        obind (apply_update (uo_update op) (seed (uo_filter op)))
              (fun d => Done (c ++ [d]))
      else Done c
  end.

(** Every operation first finds out whether the store answers at all. *)
Definition available : M Database unit :=
  db <- get ;;
  match fault db with
  | Some e => raise e
  | None => ret tt
  end.

(** [db[c].update_one(filter, update, upsert=upsert)] *)
Definition update_one (c : coll_name) (f : filter) (u : list update_op)
    (upsert : bool) : M Database unit :=
  available ;;
  db <- get ;;
  c' <- lift (run_update {| uo_filter := f; uo_update := u;
                            uo_upsert := upsert |} (coll c db)) ;;
  modify (with_coll c c').

(** Unordered execution: every operation is tried, the failed ones are left
    out, and the first failure is reported at the end. *)
Fixpoint run_unordered (ops : list UpdateOne) (c : collection)
  : collection * option exn :=
  match ops with
  | [] => (c, None)
  | op :: r =>
      match run_update op c with
      | Done c' => run_unordered r c'
      | Error e =>
          let (c', _) := run_unordered r c in (c', Some e)
      end
  end.

(** [db[c].bulk_write(ops, ordered=False)] *)
Definition bulk_write (c : coll_name) (ops : list UpdateOne)
  : M Database unit :=
  match ops with
  | [] => raise (Exn PyMongoError "No operations to execute" None)
  | _ :: _ =>
      available ;;
      db <- get ;;
      let (c', err) := run_unordered ops (coll c db) in
      modify (with_coll c c') ;;
      match err with
      | Some e => raise (Exn PyMongoError "batch op errors occurred" (Some e))
      | None => ret tt
      end
  end.

(** [db[c].insert_one(doc)] *)
Definition insert_one (c : coll_name) (d : doc) : M Database unit :=
  available ;;
  modify (fun db => with_coll c (coll c db ++ [d]) db).

(** [list(db[c].find(filter, {'_id': False}))] *)
Definition find (c : coll_name) (f : filter) : M Database (list doc) :=
  available ;;
  db <- get ;;
  ret (List.filter (matches f) (coll c db)).

(** [db[c].find_one(filter, {'_id': False})] *)
Definition find_one (c : coll_name) (f : filter) : M Database (option doc) :=
  available ;;
  db <- get ;;
  ret (List.find (matches f) (coll c db)).

(** [db[c].remove(filter)]: every matching document goes. *)
Definition remove (c : coll_name) (f : filter) : M Database unit :=
  available ;;
  modify (fun db =>
    with_coll c (List.filter (fun d => negb (matches f d)) (coll c db)) db).

(** [db[c].drop()]: the collection goes, with everything in it. *)
Definition drop (c : coll_name) : M Database unit :=
  available ;;
  modify (with_coll c []).

End Mongo.

(** * The pipeline *)

Module Serializer.
Import Mongo.

(** What travels through a queue: a document, or the [False] that tells the
    worker to finish. *)
Inductive item : Type :=
| Doc (d : doc)
| Sentinel.

Inductive thread_status : Type :=
| Running
| Finished
| Failed (e : exn).

(** A stream worker between two iterations of its loop: [local] is the loop
    variable ([event], [datum]); Python's [None] is [None]. *)
Record Worker : Type := {
  local : option item;
  status : thread_status
}.

(** What a local variable of the count worker refers to: a dictionary of its
    own, or one of the pipeline's counters, which it then shares. *)
Inductive counts_ref : Type :=
| OwnCounts (d : Dict.t Z)
| SelfDbEventCount
| SelfDbDatumCount.

Record CountWorker : Type := {
  last_event_count : counts_ref;
  last_datum_count : counts_ref;
  count_status : thread_status
}.

(** One loop iteration of one worker.  [late]: whether, at the flush test,
    [time.monotonic()] has passed [last_push + self._MAX_INSERT]. *)
Inductive tick : Type :=
| EventTick (late : bool)
| DatumTick (late : bool)
| CountTick.

(** The attributes of a [Serializer], the state of its three threads, and
    [env]: the worker iterations that will happen while a call waits. *)
Record t : Type := {
  _QUEUE_SIZE : Z;
  _EMBED_SIZE : Z;
  _PAGE_SIZE : Z;
  _MAX_INSERT : Z;
  _permanent_db : Database;
  _volatile_db : Database;
  _event_queue : list item;
  _datum_queue : list item;
  _event_embedder : Embedder.t;
  _datum_embedder : Embedder.t;
  _start_found : bool;
  _run_uid : value;
  _frozen : bool;
  _count : bool;
  _worker_error : option exn;
  _stop_doc : value;
  _event_count : Dict.t Z;
  _datum_count : Dict.t Z;
  _db_event_count : Dict.t Z;
  _db_datum_count : Dict.t Z;
  event_thread : Worker;
  datum_thread : Worker;
  count_thread : CountWorker;
  env : list tick
}.

Definition with_permanent_db (x : Database) (s : t) : t :=
  {| _QUEUE_SIZE := _QUEUE_SIZE s; _EMBED_SIZE := _EMBED_SIZE s;
     _PAGE_SIZE := _PAGE_SIZE s; _MAX_INSERT := _MAX_INSERT s;
     _permanent_db := x; _volatile_db := _volatile_db s;
     _event_queue := _event_queue s; _datum_queue := _datum_queue s;
     _event_embedder := _event_embedder s;
     _datum_embedder := _datum_embedder s; _start_found := _start_found s;
     _run_uid := _run_uid s; _frozen := _frozen s; _count := _count s;
     _worker_error := _worker_error s; _stop_doc := _stop_doc s;
     _event_count := _event_count s; _datum_count := _datum_count s;
     _db_event_count := _db_event_count s;
     _db_datum_count := _db_datum_count s; event_thread := event_thread s;
     datum_thread := datum_thread s; count_thread := count_thread s;
     env := env s |}.

Definition with_volatile_db (x : Database) (s : t) : t :=
  {| _QUEUE_SIZE := _QUEUE_SIZE s; _EMBED_SIZE := _EMBED_SIZE s;
     _PAGE_SIZE := _PAGE_SIZE s; _MAX_INSERT := _MAX_INSERT s;
     _permanent_db := _permanent_db s; _volatile_db := x;
     _event_queue := _event_queue s; _datum_queue := _datum_queue s;
     _event_embedder := _event_embedder s;
     _datum_embedder := _datum_embedder s; _start_found := _start_found s;
     _run_uid := _run_uid s; _frozen := _frozen s; _count := _count s;
     _worker_error := _worker_error s; _stop_doc := _stop_doc s;
     _event_count := _event_count s; _datum_count := _datum_count s;
     _db_event_count := _db_event_count s;
     _db_datum_count := _db_datum_count s; event_thread := event_thread s;
     datum_thread := datum_thread s; count_thread := count_thread s;
     env := env s |}.

Definition with_event_queue (x : list item) (s : t) : t :=
  {| _QUEUE_SIZE := _QUEUE_SIZE s; _EMBED_SIZE := _EMBED_SIZE s;
     _PAGE_SIZE := _PAGE_SIZE s; _MAX_INSERT := _MAX_INSERT s;
     _permanent_db := _permanent_db s; _volatile_db := _volatile_db s;
     _event_queue := x; _datum_queue := _datum_queue s;
     _event_embedder := _event_embedder s;
     _datum_embedder := _datum_embedder s; _start_found := _start_found s;
     _run_uid := _run_uid s; _frozen := _frozen s; _count := _count s;
     _worker_error := _worker_error s; _stop_doc := _stop_doc s;
     _event_count := _event_count s; _datum_count := _datum_count s;
     _db_event_count := _db_event_count s;
     _db_datum_count := _db_datum_count s; event_thread := event_thread s;
     datum_thread := datum_thread s; count_thread := count_thread s;
     env := env s |}.

Definition with_datum_queue (x : list item) (s : t) : t :=
  {| _QUEUE_SIZE := _QUEUE_SIZE s; _EMBED_SIZE := _EMBED_SIZE s;
     _PAGE_SIZE := _PAGE_SIZE s; _MAX_INSERT := _MAX_INSERT s;
     _permanent_db := _permanent_db s; _volatile_db := _volatile_db s;
     _event_queue := _event_queue s; _datum_queue := x;
     _event_embedder := _event_embedder s;
     _datum_embedder := _datum_embedder s; _start_found := _start_found s;
     _run_uid := _run_uid s; _frozen := _frozen s; _count := _count s;
     _worker_error := _worker_error s; _stop_doc := _stop_doc s;
     _event_count := _event_count s; _datum_count := _datum_count s;
     _db_event_count := _db_event_count s;
     _db_datum_count := _db_datum_count s; event_thread := event_thread s;
     datum_thread := datum_thread s; count_thread := count_thread s;
     env := env s |}.

Definition with_event_embedder (x : Embedder.t) (s : t) : t :=
  {| _QUEUE_SIZE := _QUEUE_SIZE s; _EMBED_SIZE := _EMBED_SIZE s;
     _PAGE_SIZE := _PAGE_SIZE s; _MAX_INSERT := _MAX_INSERT s;
     _permanent_db := _permanent_db s; _volatile_db := _volatile_db s;
     _event_queue := _event_queue s; _datum_queue := _datum_queue s;
     _event_embedder := x; _datum_embedder := _datum_embedder s;
     _start_found := _start_found s; _run_uid := _run_uid s;
     _frozen := _frozen s; _count := _count s;
     _worker_error := _worker_error s; _stop_doc := _stop_doc s;
     _event_count := _event_count s; _datum_count := _datum_count s;
     _db_event_count := _db_event_count s;
     _db_datum_count := _db_datum_count s; event_thread := event_thread s;
     datum_thread := datum_thread s; count_thread := count_thread s;
     env := env s |}.

Definition with_datum_embedder (x : Embedder.t) (s : t) : t :=
  {| _QUEUE_SIZE := _QUEUE_SIZE s; _EMBED_SIZE := _EMBED_SIZE s;
     _PAGE_SIZE := _PAGE_SIZE s; _MAX_INSERT := _MAX_INSERT s;
     _permanent_db := _permanent_db s; _volatile_db := _volatile_db s;
     _event_queue := _event_queue s; _datum_queue := _datum_queue s;
     _event_embedder := _event_embedder s; _datum_embedder := x;
     _start_found := _start_found s; _run_uid := _run_uid s;
     _frozen := _frozen s; _count := _count s;
     _worker_error := _worker_error s; _stop_doc := _stop_doc s;
     _event_count := _event_count s; _datum_count := _datum_count s;
     _db_event_count := _db_event_count s;
     _db_datum_count := _db_datum_count s; event_thread := event_thread s;
     datum_thread := datum_thread s; count_thread := count_thread s;
     env := env s |}.

Definition with_start_found (x : bool) (s : t) : t :=
  {| _QUEUE_SIZE := _QUEUE_SIZE s; _EMBED_SIZE := _EMBED_SIZE s;
     _PAGE_SIZE := _PAGE_SIZE s; _MAX_INSERT := _MAX_INSERT s;
     _permanent_db := _permanent_db s; _volatile_db := _volatile_db s;
     _event_queue := _event_queue s; _datum_queue := _datum_queue s;
     _event_embedder := _event_embedder s;
     _datum_embedder := _datum_embedder s; _start_found := x;
     _run_uid := _run_uid s; _frozen := _frozen s; _count := _count s;
     _worker_error := _worker_error s; _stop_doc := _stop_doc s;
     _event_count := _event_count s; _datum_count := _datum_count s;
     _db_event_count := _db_event_count s;
     _db_datum_count := _db_datum_count s; event_thread := event_thread s;
     datum_thread := datum_thread s; count_thread := count_thread s;
     env := env s |}.

Definition with_run_uid (x : value) (s : t) : t :=
  {| _QUEUE_SIZE := _QUEUE_SIZE s; _EMBED_SIZE := _EMBED_SIZE s;
     _PAGE_SIZE := _PAGE_SIZE s; _MAX_INSERT := _MAX_INSERT s;
     _permanent_db := _permanent_db s; _volatile_db := _volatile_db s;
     _event_queue := _event_queue s; _datum_queue := _datum_queue s;
     _event_embedder := _event_embedder s;
     _datum_embedder := _datum_embedder s; _start_found := _start_found s;
     _run_uid := x; _frozen := _frozen s; _count := _count s;
     _worker_error := _worker_error s; _stop_doc := _stop_doc s;
     _event_count := _event_count s; _datum_count := _datum_count s;
     _db_event_count := _db_event_count s;
     _db_datum_count := _db_datum_count s; event_thread := event_thread s;
     datum_thread := datum_thread s; count_thread := count_thread s;
     env := env s |}.

Definition with_frozen (x : bool) (s : t) : t :=
  {| _QUEUE_SIZE := _QUEUE_SIZE s; _EMBED_SIZE := _EMBED_SIZE s;
     _PAGE_SIZE := _PAGE_SIZE s; _MAX_INSERT := _MAX_INSERT s;
     _permanent_db := _permanent_db s; _volatile_db := _volatile_db s;
     _event_queue := _event_queue s; _datum_queue := _datum_queue s;
     _event_embedder := _event_embedder s;
     _datum_embedder := _datum_embedder s; _start_found := _start_found s;
     _run_uid := _run_uid s; _frozen := x; _count := _count s;
     _worker_error := _worker_error s; _stop_doc := _stop_doc s;
     _event_count := _event_count s; _datum_count := _datum_count s;
     _db_event_count := _db_event_count s;
     _db_datum_count := _db_datum_count s; event_thread := event_thread s;
     datum_thread := datum_thread s; count_thread := count_thread s;
     env := env s |}.

Definition with_count (x : bool) (s : t) : t :=
  {| _QUEUE_SIZE := _QUEUE_SIZE s; _EMBED_SIZE := _EMBED_SIZE s;
     _PAGE_SIZE := _PAGE_SIZE s; _MAX_INSERT := _MAX_INSERT s;
     _permanent_db := _permanent_db s; _volatile_db := _volatile_db s;
     _event_queue := _event_queue s; _datum_queue := _datum_queue s;
     _event_embedder := _event_embedder s;
     _datum_embedder := _datum_embedder s; _start_found := _start_found s;
     _run_uid := _run_uid s; _frozen := _frozen s; _count := x;
     _worker_error := _worker_error s; _stop_doc := _stop_doc s;
     _event_count := _event_count s; _datum_count := _datum_count s;
     _db_event_count := _db_event_count s;
     _db_datum_count := _db_datum_count s; event_thread := event_thread s;
     datum_thread := datum_thread s; count_thread := count_thread s;
     env := env s |}.

Definition with_worker_error (x : option exn) (s : t) : t :=
  {| _QUEUE_SIZE := _QUEUE_SIZE s; _EMBED_SIZE := _EMBED_SIZE s;
     _PAGE_SIZE := _PAGE_SIZE s; _MAX_INSERT := _MAX_INSERT s;
     _permanent_db := _permanent_db s; _volatile_db := _volatile_db s;
     _event_queue := _event_queue s; _datum_queue := _datum_queue s;
     _event_embedder := _event_embedder s;
     _datum_embedder := _datum_embedder s; _start_found := _start_found s;
     _run_uid := _run_uid s; _frozen := _frozen s; _count := _count s;
     _worker_error := x; _stop_doc := _stop_doc s;
     _event_count := _event_count s; _datum_count := _datum_count s;
     _db_event_count := _db_event_count s;
     _db_datum_count := _db_datum_count s; event_thread := event_thread s;
     datum_thread := datum_thread s; count_thread := count_thread s;
     env := env s |}.

Definition with_stop_doc (x : value) (s : t) : t :=
  {| _QUEUE_SIZE := _QUEUE_SIZE s; _EMBED_SIZE := _EMBED_SIZE s;
     _PAGE_SIZE := _PAGE_SIZE s; _MAX_INSERT := _MAX_INSERT s;
     _permanent_db := _permanent_db s; _volatile_db := _volatile_db s;
     _event_queue := _event_queue s; _datum_queue := _datum_queue s;
     _event_embedder := _event_embedder s;
     _datum_embedder := _datum_embedder s; _start_found := _start_found s;
     _run_uid := _run_uid s; _frozen := _frozen s; _count := _count s;
     _worker_error := _worker_error s; _stop_doc := x;
     _event_count := _event_count s; _datum_count := _datum_count s;
     _db_event_count := _db_event_count s;
     _db_datum_count := _db_datum_count s; event_thread := event_thread s;
     datum_thread := datum_thread s; count_thread := count_thread s;
     env := env s |}.

Definition with_event_count (x : Dict.t Z) (s : t) : t :=
  {| _QUEUE_SIZE := _QUEUE_SIZE s; _EMBED_SIZE := _EMBED_SIZE s;
     _PAGE_SIZE := _PAGE_SIZE s; _MAX_INSERT := _MAX_INSERT s;
     _permanent_db := _permanent_db s; _volatile_db := _volatile_db s;
     _event_queue := _event_queue s; _datum_queue := _datum_queue s;
     _event_embedder := _event_embedder s;
     _datum_embedder := _datum_embedder s; _start_found := _start_found s;
     _run_uid := _run_uid s; _frozen := _frozen s; _count := _count s;
     _worker_error := _worker_error s; _stop_doc := _stop_doc s;
     _event_count := x; _datum_count := _datum_count s;
     _db_event_count := _db_event_count s;
     _db_datum_count := _db_datum_count s; event_thread := event_thread s;
     datum_thread := datum_thread s; count_thread := count_thread s;
     env := env s |}.

Definition with_datum_count (x : Dict.t Z) (s : t) : t :=
  {| _QUEUE_SIZE := _QUEUE_SIZE s; _EMBED_SIZE := _EMBED_SIZE s;
     _PAGE_SIZE := _PAGE_SIZE s; _MAX_INSERT := _MAX_INSERT s;
     _permanent_db := _permanent_db s; _volatile_db := _volatile_db s;
     _event_queue := _event_queue s; _datum_queue := _datum_queue s;
     _event_embedder := _event_embedder s;
     _datum_embedder := _datum_embedder s; _start_found := _start_found s;
     _run_uid := _run_uid s; _frozen := _frozen s; _count := _count s;
     _worker_error := _worker_error s; _stop_doc := _stop_doc s;
     _event_count := _event_count s; _datum_count := x;
     _db_event_count := _db_event_count s;
     _db_datum_count := _db_datum_count s; event_thread := event_thread s;
     datum_thread := datum_thread s; count_thread := count_thread s;
     env := env s |}.

Definition with_db_event_count (x : Dict.t Z) (s : t) : t :=
  {| _QUEUE_SIZE := _QUEUE_SIZE s; _EMBED_SIZE := _EMBED_SIZE s;
     _PAGE_SIZE := _PAGE_SIZE s; _MAX_INSERT := _MAX_INSERT s;
     _permanent_db := _permanent_db s; _volatile_db := _volatile_db s;
     _event_queue := _event_queue s; _datum_queue := _datum_queue s;
     _event_embedder := _event_embedder s;
     _datum_embedder := _datum_embedder s; _start_found := _start_found s;
     _run_uid := _run_uid s; _frozen := _frozen s; _count := _count s;
     _worker_error := _worker_error s; _stop_doc := _stop_doc s;
     _event_count := _event_count s; _datum_count := _datum_count s;
     _db_event_count := x; _db_datum_count := _db_datum_count s;
     event_thread := event_thread s; datum_thread := datum_thread s;
     count_thread := count_thread s; env := env s |}.

Definition with_db_datum_count (x : Dict.t Z) (s : t) : t :=
  {| _QUEUE_SIZE := _QUEUE_SIZE s; _EMBED_SIZE := _EMBED_SIZE s;
     _PAGE_SIZE := _PAGE_SIZE s; _MAX_INSERT := _MAX_INSERT s;
     _permanent_db := _permanent_db s; _volatile_db := _volatile_db s;
     _event_queue := _event_queue s; _datum_queue := _datum_queue s;
     _event_embedder := _event_embedder s;
     _datum_embedder := _datum_embedder s; _start_found := _start_found s;
     _run_uid := _run_uid s; _frozen := _frozen s; _count := _count s;
     _worker_error := _worker_error s; _stop_doc := _stop_doc s;
     _event_count := _event_count s; _datum_count := _datum_count s;
     _db_event_count := _db_event_count s; _db_datum_count := x;
     event_thread := event_thread s; datum_thread := datum_thread s;
     count_thread := count_thread s; env := env s |}.

Definition with_event_thread (x : Worker) (s : t) : t :=
  {| _QUEUE_SIZE := _QUEUE_SIZE s; _EMBED_SIZE := _EMBED_SIZE s;
     _PAGE_SIZE := _PAGE_SIZE s; _MAX_INSERT := _MAX_INSERT s;
     _permanent_db := _permanent_db s; _volatile_db := _volatile_db s;
     _event_queue := _event_queue s; _datum_queue := _datum_queue s;
     _event_embedder := _event_embedder s;
     _datum_embedder := _datum_embedder s; _start_found := _start_found s;
     _run_uid := _run_uid s; _frozen := _frozen s; _count := _count s;
     _worker_error := _worker_error s; _stop_doc := _stop_doc s;
     _event_count := _event_count s; _datum_count := _datum_count s;
     _db_event_count := _db_event_count s;
     _db_datum_count := _db_datum_count s; event_thread := x;
     datum_thread := datum_thread s; count_thread := count_thread s;
     env := env s |}.

Definition with_datum_thread (x : Worker) (s : t) : t :=
  {| _QUEUE_SIZE := _QUEUE_SIZE s; _EMBED_SIZE := _EMBED_SIZE s;
     _PAGE_SIZE := _PAGE_SIZE s; _MAX_INSERT := _MAX_INSERT s;
     _permanent_db := _permanent_db s; _volatile_db := _volatile_db s;
     _event_queue := _event_queue s; _datum_queue := _datum_queue s;
     _event_embedder := _event_embedder s;
     _datum_embedder := _datum_embedder s; _start_found := _start_found s;
     _run_uid := _run_uid s; _frozen := _frozen s; _count := _count s;
     _worker_error := _worker_error s; _stop_doc := _stop_doc s;
     _event_count := _event_count s; _datum_count := _datum_count s;
     _db_event_count := _db_event_count s;
     _db_datum_count := _db_datum_count s; event_thread := event_thread s;
     datum_thread := x; count_thread := count_thread s; env := env s |}.

Definition with_count_thread (x : CountWorker) (s : t) : t :=
  {| _QUEUE_SIZE := _QUEUE_SIZE s; _EMBED_SIZE := _EMBED_SIZE s;
     _PAGE_SIZE := _PAGE_SIZE s; _MAX_INSERT := _MAX_INSERT s;
     _permanent_db := _permanent_db s; _volatile_db := _volatile_db s;
     _event_queue := _event_queue s; _datum_queue := _datum_queue s;
     _event_embedder := _event_embedder s;
     _datum_embedder := _datum_embedder s; _start_found := _start_found s;
     _run_uid := _run_uid s; _frozen := _frozen s; _count := _count s;
     _worker_error := _worker_error s; _stop_doc := _stop_doc s;
     _event_count := _event_count s; _datum_count := _datum_count s;
     _db_event_count := _db_event_count s;
     _db_datum_count := _db_datum_count s; event_thread := event_thread s;
     datum_thread := datum_thread s; count_thread := x; env := env s |}.

Definition with_env (x : list tick) (s : t) : t :=
  {| _QUEUE_SIZE := _QUEUE_SIZE s; _EMBED_SIZE := _EMBED_SIZE s;
     _PAGE_SIZE := _PAGE_SIZE s; _MAX_INSERT := _MAX_INSERT s;
     _permanent_db := _permanent_db s; _volatile_db := _volatile_db s;
     _event_queue := _event_queue s; _datum_queue := _datum_queue s;
     _event_embedder := _event_embedder s;
     _datum_embedder := _datum_embedder s; _start_found := _start_found s;
     _run_uid := _run_uid s; _frozen := _frozen s; _count := _count s;
     _worker_error := _worker_error s; _stop_doc := _stop_doc s;
     _event_count := _event_count s; _datum_count := _datum_count s;
     _db_event_count := _db_event_count s;
     _db_datum_count := _db_datum_count s; event_thread := event_thread s;
     datum_thread := datum_thread s; count_thread := count_thread s; env := x |}.

Definition with_local (x : option item) (w : Worker) : Worker :=
  {| local := x; status := status w |}.

Definition with_status (x : thread_status) (w : Worker) : Worker :=
  {| local := local w; status := x |}.

Definition with_count_status (x : thread_status) (w : CountWorker)
  : CountWorker :=
  {| last_event_count := last_event_count w;
     last_datum_count := last_datum_count w; count_status := x |}.

Inductive which_db : Type := Volatile | Permanent.

(** Run a store operation on one of the two databases. *)
Definition on_db {A} (w : which_db) (c : M Database A) : M t A :=
  match w with
  | Volatile => zoom _volatile_db with_volatile_db c
  | Permanent => zoom _permanent_db with_permanent_db c
  end.

Definition on_event_embedder {A} (c : M Embedder.t A) : M t A :=
  zoom _event_embedder with_event_embedder c.

Definition on_datum_embedder {A} (c : M Embedder.t A) : M t A :=
  zoom _datum_embedder with_datum_embedder c.

(** The attributes [Serializer.__init__] sets, with the workers it starts. *)
Definition boot (volatile_db permanent_db : Database)
    (queue_size embedder_size page_size max_insert_time : Z)
    (event_embedder datum_embedder : Embedder.t) : t :=
  {| _QUEUE_SIZE := queue_size; _EMBED_SIZE := embedder_size;
     _PAGE_SIZE := page_size; _MAX_INSERT := max_insert_time;
     _permanent_db := permanent_db; _volatile_db := volatile_db;
     _event_queue := []; _datum_queue := [];
     _event_embedder := event_embedder;
     _datum_embedder := datum_embedder;
     _start_found := false; _run_uid := VNone; _frozen := false;
     _count := false; _worker_error := None; _stop_doc := VNone;
     _event_count := []; _datum_count := [];
     _db_event_count := []; _db_datum_count := [];
     event_thread := {| local := None; status := Running |};
     datum_thread := {| local := None; status := Running |};
     count_thread := {| last_event_count := OwnCounts [];
                        last_datum_count := OwnCounts [];
                        count_status := Running |};
     env := [] |}.

(** [Serializer(volatile_db, permanent_db, num_threads, queue_size,
    embedder_size, page_size, max_insert_time)] *)
Definition __init__ (volatile_db permanent_db : Database)
    (num_threads queue_size embedder_size page_size max_insert_time : Z)
  : result t :=
  if (num_threads >? 10) || (num_threads <? 1) then
    Error (Exn ValueError "num_threads must be between 1 and 10inclusive."
               None)
  else if page_size <? 1000 then
    Error (Exn ValueError "page_size must be >= 1000" None)
  else if embedder_size + page_size >? 15000000 then
    Error (Exn ValueError
               "embedder_size + page_size is greater then 15000000." None)
  else
    obind (Embedder.__init__ "event" embedder_size) (fun event_embedder =>
    obind (Embedder.__init__ "datum" embedder_size) (fun datum_embedder =>
    Done (boot volatile_db permanent_db queue_size embedder_size page_size
             max_insert_time event_embedder datum_embedder))).

(** ** Header updates *)

(** [Serializer._insert_header] *)
Definition _insert_header (name : string) (d : value) : M t unit :=
  s <- get ;;
  on_db Volatile
    (update_one Header [Eq "run_id" (_run_uid s)] [Push name d] true).

(** [Serializer._set_header] *)
Definition _set_header (name : string) (d : value) : M t unit :=
  s <- get ;;
  on_db Volatile
    (update_one Header [Eq "run_id" (_run_uid s)] [SetField name d] false).

(** ** The page writer *)

(** [{prefix + key: {'$each': value_array} for key, value_array in items}] *)
Definition each_string (prefix : string) (items : list (string * value))
  : Dict.t value :=
  fold_left (fun acc kv => Dict.set (prefix ++ fst kv)%string (snd kv) acc)
            items [].

(** [{'$push': {field: {'$each': values}, ...}}] *)
Definition pushes (fields : Dict.t value) : list update_op :=
  map (fun kv => PushEach (fst kv) (snd kv)) fields.

(** [Serializer._updateone_eventpage] *)
Definition _updateone_eventpage (descriptor_id : string)
    (event_page : Embedder.Page) (size : Z) : M t UpdateOne :=
  let event_size := size in
  data <- lift (py_items (page_getitem "data" event_page)) ;;
  let data_string := each_string "data." data in
  timestamps <- lift (py_items (page_getitem "timestamps" event_page)) ;;
  let timestamp_string := each_string "timestamps." timestamps in
  filled <- lift (py_items (page_getitem "filled" event_page)) ;;
  let filled_string := each_string "filled." filled in
  let update_string :=
    Dict.merge (Dict.merge data_string timestamp_string) filled_string in
  count <- lift (py_len (page_getitem "seq_num" event_page)) ;;
  modify (fun s =>
    with_event_count (Dict.add descriptor_id count (_event_count s)) s) ;;
  s <- get ;;
  let counter := Dict.get_default 0 descriptor_id (_event_count s) in
  ret {| uo_filter := [Eq "descriptor" (VStr descriptor_id);
                       Lt "size" (_PAGE_SIZE s)];
         uo_update :=
           pushes (Dict.merge
                     [("uid", page_getitem "uid" event_page);
                      ("time", page_getitem "time" event_page);
                      ("seq_num", page_getitem "seq_num" event_page)]
                     update_string)
           ++ [Inc "size" event_size;
               Min "first_index" (counter - count);
               Max "last_index" (counter - 1)];
         uo_upsert := true |}.

(** [Serializer._updateone_datumpage] *)
Definition _updateone_datumpage (resource_id : string)
    (datum_page : Embedder.Page) (size : Z) : M t UpdateOne :=
  let datum_size := size in
  kwargs <- lift (py_items (page_getitem "datum_kwargs" datum_page)) ;;
  let kwargs_string := each_string "datum_kwargs." kwargs in
  count <- lift (py_len (page_getitem "datum_id" datum_page)) ;;
  modify (fun s =>
    with_datum_count (Dict.add resource_id count (_datum_count s)) s) ;;
  s <- get ;;
  let counter := Dict.get_default 0 resource_id (_datum_count s) in
  ret {| uo_filter := [Eq "resource" (VStr resource_id);
                       Lt "size" (_PAGE_SIZE s)];
         uo_update :=
           pushes (Dict.merge
                     [("datum_id", page_getitem "datum_id" datum_page)]
                     kwargs_string)
           ++ [Inc "size" datum_size;
               Min "first_index" (counter - count);
               Max "last_index" (counter - 1)];
         uo_upsert := true |}.

(** [dump_sizes[stream]] on a plain [dict] *)
Definition size_for (stream : string) (dump_sizes : Dict.t Z) : M t Z :=
  match Dict.get stream dump_sizes with
  | Some n => ret n
  | None => raise (Exn KeyError stream None)
  end.

(** [Serializer._bulkwrite_event] *)
Definition _bulkwrite_event (event_buffer : Dict.t Embedder.Page)
    (dump_sizes : Dict.t Z) : M t unit :=
  operations <- comprehension event_buffer (fun entry =>
    size <- size_for (fst entry) dump_sizes ;;
    _updateone_eventpage (fst entry) (snd entry) size) ;;
  on_db Volatile (bulk_write Event operations).

(** [Serializer._bulkwrite_datum] *)
Definition _bulkwrite_datum (datum_buffer : Dict.t Embedder.Page)
    (dump_sizes : Dict.t Z) : M t unit :=
  operations <- comprehension datum_buffer (fun entry =>
    size <- size_for (fst entry) dump_sizes ;;
    _updateone_datumpage (fst entry) (snd entry) size) ;;
  on_db Volatile (bulk_write Datum operations).

(** A call that leaves out a required positional argument. *)
Definition missing_argument {A} (function argument : string) : M t A :=
  raise (Exn TypeError
             (function ++ "() missing 1 required positional argument: '"
                       ++ argument ++ "'")%string None).

(** [obj.name] on a [defaultdict], for a name that is not one of its
    attributes. *)
Definition defaultdict_attribute {A} (name : string) : M t A :=
  raise (Exn AttributeError
             ("'collections.defaultdict' object has no attribute '"
                ++ name ++ "'")%string None).

(** ** The workers *)

(** [_try_wrapper]: an exception that leaves a worker is recorded in
    [self._worker_error] and raised again. *)
Definition _try_wrapper (f : M t unit) : M t unit :=
  fun s =>
    match f s with
    | (Raise error, s') => (Raise error, with_worker_error (Some error) s')
    | r => r
    end.

Definition count_up (counters : Dict.t Z) (prefix : string)
    (stream : string) (n : Z) : Dict.t Z :=
  Dict.add (prefix ++ stream)%string n counters.

Section WithEncoder.
Context {encoder : Bson}.

(** The flush of the event worker: the body of its last [if]. *)
Definition event_flush : M t unit :=
  s <- get ;;
  if negb (Embedder.empty (_event_embedder s)) then
    dumped <- on_event_embedder Embedder.dump ;;
    let event_dump := fst dumped in
    let dump_sizes := snd dumped in
    _bulkwrite_event event_dump dump_sizes ;;
    for_each event_dump (fun entry =>
      n <- lift (py_len (page_getitem "seq_num" (snd entry))) ;;
      modify (fun s =>
        with_db_event_count
          (count_up (_db_event_count s) "count_" (fst entry) n) s))
  else ret tt.

(** The flush of the datum worker.  Its call reads
    [self._bulkwrite_datum(datum_dump. dump_sizes)]: the one argument is
    the attribute [dump_sizes] of the dumped [defaultdict]. *)
Definition datum_flush : M t unit :=
  s <- get ;;
  if negb (Embedder.empty (_datum_embedder s)) then
    dumped <- on_datum_embedder Embedder.dump ;;
    let datum_dump := fst dumped in
    (@defaultdict_attribute unit "dump_sizes") ;;
    (@missing_argument unit "_bulkwrite_datum" "dump_sizes") ;;
    for_each datum_dump (fun entry =>
      n <- lift (py_len (page_getitem "datum_id" (snd entry))) ;;
      modify (fun s =>
        with_db_datum_count
          (count_up (_db_datum_count s) "count_" (fst entry) n) s))
  else ret tt.

(** One iteration of the [while] loop of [_event_worker]. *)
Definition _event_worker_iteration (late : bool) : M t unit :=
  s <- get ;;
  let event := local (event_thread s) in
  (* try: if event is None: event = self._event_queue.get(timeout=0.5) *)
  got <- match event with
         | None =>
             match _event_queue s with
             | [] => ret (None, true)            (* except queue.Empty *)
             | x :: q => modify (with_event_queue q) ;; ret (Some x, false)
             end
         | Some _ => ret (event, false)
         end ;;
  let do_push := snd got in
  (* else: if event is not False: event = self._event_embedder.insert(event) *)
  event <- (if do_push then ret (fst got)
            else
              match fst got with
              | Some (Doc d) =>
                  r <- on_event_embedder (Embedder.insert d) ;;
                  ret (option_map Doc r)
              | other => ret other
              end) ;;
  modify (fun s => with_event_thread (with_local event (event_thread s)) s) ;;
  if match event with Some _ => true | None => false end || do_push || late
  then event_flush
  else ret tt.

(** One iteration of the [while] loop of [_datum_worker]. *)
Definition _datum_worker_iteration (late : bool) : M t unit :=
  s <- get ;;
  let datum := local (datum_thread s) in
  got <- match datum with
         | None =>
             match _datum_queue s with
             | [] => ret (None, true)
             | x :: q => modify (with_datum_queue q) ;; ret (Some x, false)
             end
         | Some _ => ret (datum, false)
         end ;;
  let do_push := snd got in
  datum <- (if do_push then ret (fst got)
            else
              match fst got with
              | Some (Doc d) =>
                  r <- on_datum_embedder (Embedder.insert d) ;;
                  ret (option_map Doc r)
              | other => ret other
              end) ;;
  modify (fun s => with_datum_thread (with_local datum (datum_thread s)) s) ;;
  if match datum with Some _ => true | None => false end || do_push || late
  then datum_flush
  else ret tt.

(** [while event is not False] *)
Definition after_iteration (w : Worker) : Worker :=
  match local w with
  | Some Sentinel => with_status Finished w
  | _ => w
  end.

(** [_event_worker], one iteration at a time. *)
Definition _event_worker (late : bool) (s : t) : t :=
  match status (event_thread s) with
  | Running =>
      match _try_wrapper (_event_worker_iteration late) s with
      | (Ok _, s') =>
          with_event_thread (after_iteration (event_thread s')) s'
      | (Raise e, s') =>
          with_event_thread (with_status (Failed e) (event_thread s')) s'
      | (Blocked, s') => s'
      end
  | _ => s
  end.

(** [_datum_worker], one iteration at a time. *)
Definition _datum_worker (late : bool) (s : t) : t :=
  match status (datum_thread s) with
  | Running =>
      match _try_wrapper (_datum_worker_iteration late) s with
      | (Ok _, s') =>
          with_datum_thread (after_iteration (datum_thread s')) s'
      | (Raise e, s') =>
          with_datum_thread (with_status (Failed e) (datum_thread s')) s'
      | (Blocked, s') => s'
      end
  | _ => s
  end.

(** The dictionary a local variable of the count worker refers to. *)
Definition deref (r : counts_ref) (s : t) : Dict.t Z :=
  match r with
  | OwnCounts d => d
  | SelfDbEventCount => _db_event_count s
  | SelfDbDatumCount => _db_datum_count s
  end.

(** [{'$set': counts}] *)
Definition sets (counts : Dict.t Z) : list update_op :=
  map (fun kv => SetField (fst kv) (VInt (snd kv))) counts.

(** The body of the [while] loop of [_count_worker], from the moment
    [self._count.wait(timeout=5)] returns. *)
Definition _count_worker_iteration : M t unit :=
  s <- get ;;
  let w := count_thread s in
  if (Dict.sum (_db_event_count s)
        >? Dict.sum (deref (last_event_count w) s))
     || (Dict.sum (_db_datum_count s)
           >? Dict.sum (deref (last_datum_count w) s))
  then
    on_db Volatile
      (update_one Header [Eq "run_id" (_run_uid s)]
         (sets (Dict.merge (_db_event_count s) (_db_datum_count s)))
         false) ;;
    (* last_event_count = self._db_event_count
       last_datum_count = self._db_datum_count *)
    modify (fun s =>
      with_count_thread
        {| last_event_count := SelfDbEventCount;
           last_datum_count := SelfDbDatumCount;
           count_status := count_status (count_thread s) |} s)
  else ret tt.

(** [_count_worker], one wake at a time.  The thread is followed from its
    first [wait] on, so [while not self._frozen] is tested after the body. *)
Definition _count_worker (s : t) : t :=
  match count_status (count_thread s) with
  | Running =>
      match _try_wrapper _count_worker_iteration s with
      | (Ok _, s') =>
          if _frozen s' then
            with_count_thread (with_count_status Finished (count_thread s'))
                              s'
          else s'
      | (Raise e, s') =>
          with_count_thread (with_count_status (Failed e) (count_thread s'))
                            s'
      | (Blocked, s') => s'
      end
  | _ => s
  end.

(** One worker iteration. *)
Definition step (tk : tick) (s : t) : t :=
  match tk with
  | EventTick late => _event_worker late s
  | DatumTick late => _datum_worker late s
  | CountTick => _count_worker s
  end.

(** ** Waiting *)

(** Wait until [ready] holds, while the workers take the iterations of
    [sch]. *)
Fixpoint await_on (sch : list tick) (ready : t -> bool) (s : t)
  : outcome unit * t :=
  if ready s then (Ok tt, with_env sch s)
  else
    match sch with
    | [] => (Blocked, with_env [] s)
    | tk :: sch' => await_on sch' ready (step tk s)
    end.

Definition await (ready : t -> bool) : M t unit :=
  fun s => await_on (env s) ready s.

(** [queue.Queue(maxsize)]: without a positive [maxsize] the queue is
    unbounded. *)
Definition has_room (maxsize : Z) (q : list item) : bool :=
  (maxsize <=? 0) || (len q <? maxsize).

(** [self._event_queue.put(x)] *)
Definition put_event (x : item) : M t unit :=
  await (fun s => has_room (_QUEUE_SIZE s) (_event_queue s)) ;;
  modify (fun s => with_event_queue (_event_queue s ++ [x]) s).

(** [self._datum_queue.put(x)] *)
Definition put_datum (x : item) : M t unit :=
  await (fun s => has_room (_QUEUE_SIZE s) (_datum_queue s)) ;;
  modify (fun s => with_datum_queue (_datum_queue s ++ [x]) s).

Definition stopped (st : thread_status) : bool :=
  match st with
  | Running => false
  | _ => true
  end.

(** [executor.shutdown(wait=True)] *)
Definition join_count : M t unit :=
  await (fun s => stopped (count_status (count_thread s))).
Definition join_event : M t unit :=
  await (fun s => stopped (status (event_thread s))).
Definition join_datum : M t unit :=
  await (fun s => stopped (status (datum_thread s))).

(** ** Moving a run *)

Definition run : Type := list (coll_name * doc).

Fixpoint fold_m {A B} (xs : list A) (acc : B) (body : B -> A -> M t B)
  : M t B :=
  match xs with
  | [] => ret acc
  | x :: r => acc' <- body acc x ;; fold_m r acc' body
  end.

(** [Serializer._get_run] *)
Definition _get_run (db : which_db) (run_uid : value) : M t run :=
  header <- on_db db (find_one Header [Eq "run_id" run_uid]) ;;
  match header with
  | None => raise (Exn RuntimeError "Run not found in volatile_db." None)
  | Some header =>
      let run := [(Header, header)] in
      run <- (if Dict.mem "descriptors" header then
                descriptors <- lift (obind (py_getitem (VDict header)
                                                       "descriptors")
                                           py_iter) ;;
                fold_m descriptors run (fun run descriptor =>
                  uid <- lift (py_getitem descriptor "uid") ;;
                  docs <- on_db db (find Event [Eq "descriptor" uid]) ;;
                  ret (run ++ map (pair Event) docs))
              else ret run) ;;
      run <- (if Dict.mem "resources" header then
                resources <- lift (obind (py_getitem (VDict header)
                                                     "resources")
                                         py_iter) ;;
                fold_m resources run (fun run resource =>
                  uid <- lift (py_getitem resource "uid") ;;
                  docs <- on_db db (find Datum [Eq "resource" uid]) ;;
                  ret (run ++ map (pair Datum) docs))
              else ret run) ;;
      ret run
  end.

(** [Serializer._insert_run] *)
Definition _insert_run (db : which_db) (r : run) : M t unit :=
  for_each r (fun entry => on_db db (insert_one (fst entry) (snd entry))).

(** [Serializer._delete_run]; the header is removed from
    [self._volatile_db] whatever [db] is. *)
Definition _delete_run (db : which_db) (run_uid : value) : M t unit :=
  header <- on_db db (find_one Header [Eq "run_id" run_uid]) ;;
  match header with
  | None => raise (Exn RuntimeError "Cannot delete run, run not found."
                       None)
  | Some header =>
      (if Dict.mem "descriptors" header then
         descriptors <- lift (obind (py_getitem (VDict header)
                                                "descriptors") py_iter) ;;
         for_each descriptors (fun descriptor =>
           uid <- lift (py_getitem descriptor "uid") ;;
           on_db db (remove Event [Eq "descriptor" uid]))
       else ret tt) ;;
      (if Dict.mem "resources" header then
         resources <- lift (obind (py_getitem (VDict header) "resources")
                                  py_iter) ;;
         for_each resources (fun resource =>
           uid <- lift (py_getitem resource "uid") ;;
           on_db db (remove Datum [Eq "resource" uid]))
       else ret tt) ;;
      on_db Volatile (remove Header [Eq "run_id" run_uid])
  end.

Definition coll_name_eqb (a b : coll_name) : bool :=
  match a, b with
  | Header, Header | Event, Event | Datum, Datum => true
  | _, _ => false
  end.

(** [volatile_run == permanent_run]: two lists of pairs. *)
Fixpoint run_eq (a b : run) : bool :=
  match a, b with
  | [], [] => true
  | (c, d) :: a', (c', d') :: b' =>
      coll_name_eqb c c' && py_eq (VDict d) (VDict d') && run_eq a' b'
  | _, _ => false
  end.

Definition worker_exception (error : exn) : exn :=
  Exn RuntimeError "Worker exception: " (Some error).

Definition move_failed : exn :=
  Exn IOError "Failed to move data to permanent database." None.

(** [assert b] *)
Definition assert (b : bool) : M t unit :=
  if b then ret tt else raise (Exn AssertionError "" None).

(** [Serializer.freeze], up to the insertion of the stop document. *)
Definition freeze_drain : M t unit :=
  modify (with_frozen true) ;;
  put_event Sentinel ;;
  put_datum Sentinel ;;
  modify (with_count true) ;;
  join_count ;;
  join_event ;;
  join_datum ;;
  s <- get ;;
  _set_header "event_count" (VInt (Dict.sum (_event_count s))) ;;
  _set_header "datum_count" (VInt (Dict.sum (_datum_count s))) ;;
  s <- get ;;
  match _worker_error s with
  | Some error => raise (worker_exception error)
  | None =>
      assert (match _event_queue s with [] => true | _ => false end) ;;
      assert (match _datum_queue s with [] => true | _ => false end) ;;
      assert (Embedder.empty (_event_embedder s)) ;;
      assert (Embedder.empty (_datum_embedder s)) ;;
      _insert_header "stop" (_stop_doc s)
  end.

(** [Serializer.freeze], from the copy on. *)
Definition freeze_move (run_uid : value) : M t unit :=
  volatile_run <- _get_run Volatile run_uid ;;
  _insert_run Permanent volatile_run ;;
  permanent_run <- _get_run Permanent run_uid ;;
  if negb (run_eq volatile_run permanent_run) then raise move_failed
  else _delete_run Volatile run_uid.

(** [Serializer.freeze] *)
Definition freeze (run_uid : value) : M t unit :=
  freeze_drain ;;
  freeze_move run_uid.

(** [Serializer.close] *)
Definition close : M t unit :=
  s <- get ;;
  freeze (_run_uid s).

(** [Serializer.explicit_freeze]; [self._count_executor.shutdown(wait=False)]
    returns at once and the count worker is not woken. *)
Definition explicit_freeze (run_uid : value) : M t unit :=
  modify (with_frozen true) ;;
  put_event Sentinel ;;
  put_datum Sentinel ;;
  join_event ;;
  join_datum ;;
  s <- get ;;
  match _worker_error s with
  | Some error => raise (worker_exception error)
  | None =>
      assert (match _event_queue s with [] => true | _ => false end) ;;
      assert (match _datum_queue s with [] => true | _ => false end) ;;
      assert (Embedder.empty (_event_embedder s)) ;;
      assert (Embedder.empty (_datum_embedder s)) ;;
      volatile_run <- _get_run Volatile run_uid ;;
      _insert_run Permanent volatile_run ;;
      permanent_run <- _get_run Permanent run_uid ;;
      if negb (run_eq volatile_run permanent_run) then raise move_failed
      else
        on_db Volatile (drop Header) ;;
        on_db Volatile (drop Event) ;;
        on_db Volatile (drop Datum)
  end.

(** ** The handlers *)

Definition two_starts : exn :=
  Exn RuntimeError
      "The serializer in suitcase-mongo expects documents from one run only. Two `start` documents were received."
      None.

(** [Serializer._check_start] *)
Definition _check_start (d : doc) : M t unit :=
  s <- get ;;
  if _start_found s then raise two_starts
  else modify (with_start_found true).

(** [Serializer.start] *)
Definition start (d : doc) : M t doc :=
  _check_start d ;;
  uid <- lift (py_getitem (VDict d) "uid") ;;
  modify (with_run_uid uid) ;;
  _insert_header "start" (VDict d) ;;
  _insert_header "event_count" (VDict d) ;;
  _insert_header "datum_count" (VDict d) ;;
  ret d.

(** [Serializer.stop] *)
Definition stop (d : doc) : M t doc :=
  modify (with_stop_doc (VDict d)) ;;
  close ;;
  ret d.

(** [Serializer.descriptor] *)
Definition descriptor (d : doc) : M t doc :=
  _insert_header "descriptors" (VDict d) ;;
  ret d.

(** [Serializer.resource] *)
Definition resource (d : doc) : M t doc :=
  _insert_header "resources" (VDict d) ;;
  ret d.

(** [Serializer.event] *)
Definition event (d : doc) : M t doc :=
  put_event (Doc d) ;;
  ret d.

(** [Serializer.datum] *)
Definition datum (d : doc) : M t doc :=
  put_datum (Doc d) ;;
  ret d.

(** [{doc[key]: doc}]: the key must be there and be hashable. *)
Definition single_stream (key : string) (d : doc) : M t unit :=
  k <- lift (py_getitem (VDict d) key) ;;
  if hashable k then ret tt
  else raise (Exn TypeError "unhashable type" None).

(** [Serializer.event_page]: it calls
    [self._bulkwrite_event({doc['descriptor']: doc})], with one argument
    where [_bulkwrite_event] takes two. *)
Definition event_page (d : doc) : M t doc :=
  single_stream "descriptor" d ;;
  (@missing_argument unit "_bulkwrite_event" "dump_sizes") ;;
  ret d.

(** [Serializer.datum_page]: it calls
    [self._bulkwrite_datum({doc['resource']: doc})], with one argument
    where [_bulkwrite_datum] takes two. *)
Definition datum_page (d : doc) : M t doc :=
  single_stream "resource" d ;;
  (@missing_argument unit "_bulkwrite_datum" "dump_sizes") ;;
  ret d.

Inductive doc_name : Type :=
| NStart | NStop | NDescriptor | NResource
| NEvent | NDatum | NEventPage | NDatumPage.

(** [event_model.DocumentRouter.__call__]: the handler named by the
    document's type; its result is returned with the name. *)
Definition dispatch (name : doc_name) (d : doc) : M t (doc_name * doc) :=
  out <- match name with
         | NStart => start d
         | NStop => stop d
         | NDescriptor => descriptor d
         | NResource => resource d
         | NEvent => event d
         | NDatum => datum d
         | NEventPage => event_page d
         | NDatumPage => datum_page d
         end ;;
  ret (name, out).

Definition frozen_serializer : exn :=
  Exn RuntimeError "Cannot insert documents into frozen Serializer." None.

(** [Serializer.__call__]; [event_model.sanitize_doc] turns numpy objects
    into the values of the model and has nothing to do here. *)
Definition __call__ (name : doc_name) (d : doc) : M t (doc_name * doc) :=
  let sanitized_doc := d in
  s <- get ;;
  match _worker_error s with
  | Some error => raise (worker_exception error)
  | None =>
      if _frozen s then raise frozen_serializer
      else dispatch name sanitized_doc
  end.
End WithEncoder.

End Serializer.

(** * A reference encoder

    The BSON encoding of the values of the model, used to run the pipeline
    on concrete documents.  Integers that do not fit 32 bits are written on
    64 bits. *)

Module BsonRef.

Definition byte_of (n : Z) : byte :=
  match Byte.of_N (Z.to_N (n mod 256)) with
  | Some b => b
  | None => x00
  end.

Definition little_endian (width : nat) (n : Z) : list byte :=
  map (fun i => byte_of (Z.shiftr n (8 * Z.of_nat i))) (seq 0 width).

Definition int32 (n : Z) : list byte := little_endian 4 n.
Definition int64 (n : Z) : list byte := little_endian 8 n.

Definition cstring (s : string) : list byte :=
  list_byte_of_string s ++ [x00].

Definition index_key (i : nat) : string :=
  NilZero.string_of_uint (Nat.to_uint i).

(** [4 bytes of length, the elements, a closing zero] *)
Definition document (elements : list byte) : list byte :=
  int32 (len elements + 5) ++ elements ++ [x00].

(** The type tag and the payload of a value. *)
Fixpoint element (v : value) : byte * list byte :=
  match v with
  | VNone => (x0a, [])
  | VBool b => (x08, [if b then x01 else x00])
  | VInt n =>
      if (- 2 ^ 31 <=? n) && (n <? 2 ^ 31) then (x10, int32 n)
      else (x12, int64 n)
  | VStr s => (x02, int32 (Z.of_nat (String.length s) + 1) ++ cstring s)
  | VList l =>
      (x04,
       document
         ((fix elements (l : list value) (i : nat) : list byte :=
             match l with
             | [] => []
             | x :: r =>
                 fst (element x) :: cstring (index_key i)
                   ++ snd (element x) ++ elements r (S i)
             end) l 0%nat))
  | VDict d =>
      (x03,
       document
         ((fix elements (d : list (string * value)) : list byte :=
             match d with
             | [] => []
             | (k, x) :: r =>
                 fst (element x) :: cstring k ++ snd (element x) ++ elements r
             end) d))
  end.

Definition encode (d : doc) : list byte := snd (element (VDict d)).

#[export] Instance encoder : Bson := encode.

End BsonRef.

(** * Vocabulary of the properties *)

(** A computation keeps [P]: whatever its outcome, [P] holds afterwards if
    it held before. *)
Definition preserves {S A} (P : S -> Prop) (c : M S A) : Prop :=
  forall s r s', c s = (r, s') -> P s -> P s'.

(** What the buffer needs of one field of a document: under a dataframe key
    the document holds a dictionary. *)
Definition field_ok (e : Embedder.t) (d : doc) (kv : string * value) : bool :=
  if Embedder.key_in (fst kv) (Embedder._array_keys e) then true
  else if Embedder.key_in (fst kv) (Embedder._dataframe_keys e) then
    match Dict.get (fst kv) d with
    | Some (VDict _) => true
    | _ => false
    end
  else true.

(** A document the buffer can embed: its stream identifier is a string and
    its dataframe fields are dictionaries. *)
Definition well_formed (e : Embedder.t) (d : doc) : bool :=
  match Dict.get (Embedder._stream_id_key e) d with
  | Some (VStr _) => true
  | _ => false
  end
  && forallb (field_ok e d) d.

(** The size recorded for a stream; a [defaultdict] reads 0 where nothing
    was recorded. *)
Definition size_of (sid : string) (sizes : Dict.t Z) : Z :=
  Dict.get_default 0 sid sizes.

(** What a caller can do to a buffer. *)
Inductive buffer_op : Type :=
| Insert (d : doc)
| Dump.

(** Everything a buffer holds besides the pages: its two size accounts and
    its configuration. *)
Definition accounts (e : Embedder.t) :=
  (Embedder.current_size e, Embedder.stream_size e, Embedder._max_size e,
   Embedder._array_keys e, Embedder._dataframe_keys e,
   Embedder._stream_id_key e).

(** The configuration of a buffer. *)
Definition configuration (e : Embedder.t) :=
  (Embedder._max_size e, Embedder._array_keys e, Embedder._dataframe_keys e,
   Embedder._stream_id_key e).

Section BufferRuns.
Context {encoder : Bson}.

(** The buffer after a call, however the call ended. *)
Definition apply_op (e : Embedder.t) (o : buffer_op) : Embedder.t :=
  match o with
  | Insert d => snd (Embedder.insert d e)
  | Dump => snd (Embedder.dump e)
  end.

Definition run_ops (ops : list buffer_op) (e : Embedder.t) : Embedder.t :=
  fold_left apply_op ops e.
End BufferRuns.

(** The empty buffer with the configuration of [e]: what the constructor
    builds. *)
Definition cleared (e : Embedder.t) : Embedder.t :=
  {| Embedder._embedder := []; Embedder.current_size := 0;
     Embedder.stream_size := [];
     Embedder._max_size := Embedder._max_size e;
     Embedder._array_keys := Embedder._array_keys e;
     Embedder._dataframe_keys := Embedder._dataframe_keys e;
     Embedder._stream_id_key := Embedder._stream_id_key e |}.

(** What every buffer built by the constructor and used through its methods
    satisfies. *)
Definition sound_buffer (max : Z) (e : Embedder.t) : Prop :=
  0 <= Embedder.current_size e /\ Embedder._max_size e = max.

Definition no_dump_sizes : exn :=
  Exn AttributeError
      "'collections.defaultdict' object has no attribute 'dump_sizes'" None.

Section Schedules.
Context {encoder : Bson}.

(** The pipeline after the workers have taken the iterations of [ticks],
    in that order. *)
Definition run_ticks (ticks : list Serializer.tick) (s : Serializer.t)
  : Serializer.t :=
  fold_left (fun s tk => Serializer.step tk s) ticks s.
End Schedules.

(** [c], started where [Pre] holds, ends in an outcome and a state that
    satisfy [Post]. *)
Definition hoare {S A} (Pre : S -> Prop) (c : M S A)
    (Post : outcome A -> S -> Prop) : Prop :=
  forall s r s', c s = (r, s') -> Pre s -> Post r s'.

(** What of the pipeline only the event worker writes. *)
Definition event_side (s : Serializer.t) :=
  (Serializer.event_thread s, Serializer._event_embedder s,
   Serializer._event_queue s).

(** The worker holds [d], has not finished, and its buffer is sound. *)
Definition stuck_with (max : Z) (d : doc) (s : Serializer.t) : Prop :=
  Serializer.local (Serializer.event_thread s) = Some (Serializer.Doc d)
  /\ Serializer.status (Serializer.event_thread s) <> Serializer.Finished
  /\ sound_buffer max (Serializer._event_embedder s).

(** What the body of a worker's loop never writes: the permanent store, the
    recorded error, and whether each thread runs. *)
Definition control (s : Serializer.t) :=
  (Serializer._permanent_db s, Serializer._worker_error s,
   Serializer.status (Serializer.event_thread s),
   Serializer.status (Serializer.datum_thread s),
   Serializer.count_status (Serializer.count_thread s)).

(** Between [s] and [s'] a thread that ran in [s] has failed with [e]. *)
Definition recorded_while (s s' : Serializer.t) (e : exn) : Prop :=
  (Serializer.status (Serializer.event_thread s) = Serializer.Running
   /\ Serializer.status (Serializer.event_thread s') = Serializer.Failed e)
  \/ (Serializer.status (Serializer.datum_thread s) = Serializer.Running
      /\ Serializer.status (Serializer.datum_thread s')
         = Serializer.Failed e)
  \/ (Serializer.count_status (Serializer.count_thread s)
      = Serializer.Running
      /\ Serializer.count_status (Serializer.count_thread s')
         = Serializer.Failed e).

(** What holds of the pipeline all along a freeze that started in [s0] with
    the error [e] recorded. *)
Record draining (s0 : Serializer.t) (e : exn) (s : Serializer.t) : Prop := {
  dr_permanent : Serializer._permanent_db s = Serializer._permanent_db s0;
  dr_event :
    Serializer.status (Serializer.event_thread s) = Serializer.Running ->
    Serializer.status (Serializer.event_thread s0) = Serializer.Running;
  dr_datum :
    Serializer.status (Serializer.datum_thread s) = Serializer.Running ->
    Serializer.status (Serializer.datum_thread s0) = Serializer.Running;
  dr_count :
    Serializer.count_status (Serializer.count_thread s)
    = Serializer.Running ->
    Serializer.count_status (Serializer.count_thread s0)
    = Serializer.Running;
  dr_error :
    exists e', Serializer._worker_error s = Some e'
               /\ (e' = e \/ recorded_while s0 s e')
}.

(** How a freeze ends once a worker error is recorded: it is still waiting,
    or the store refused a write, or it raises with the recorded error as
    cause. *)
Definition ends_on_error {A} (r : outcome A) (s : Serializer.t) : Prop :=
  match r with
  | Ok _ => False
  | Blocked => True
  | Raise e0 =>
      Mongo.fault (Serializer._volatile_db s) = Some e0
      \/ exists e', e0 = Serializer.worker_exception e'
                    /\ Serializer._worker_error s = Some e'
  end.

(** A wait ends normally or is still waiting; it never raises. *)
Definition no_raise {A} (r : outcome A) : Prop :=
  match r with
  | Raise _ => False
  | _ => True
  end.

(** Every document of the run [r] is in its collection of [db]. *)
Definition within (db : Mongo.Database) (r : list (Mongo.coll_name * doc))
  : Prop :=
  forall c d, In (c, d) r -> In d (Mongo.coll c db).

(** ** Pages and their index ranges *)

(** [(first_index, last_index)] of a stored page. *)
Definition page_range (p : doc) : option (Z * Z) :=
  match Dict.get "first_index" p, Dict.get "last_index" p with
  | Some (VInt f), Some (VInt l) => Some (f, l)
  | _, _ => None
  end.

(** The pages of a stream, in the order of the collection. *)
Definition pages_of (id_key stream : string) (c : Mongo.collection)
  : list doc :=
  List.filter (Mongo.holds (Mongo.Eq id_key (VStr stream))) c.

(** A page that accepts no further appends. *)
Definition closed (page_size : Z) (p : doc) : Prop :=
  Mongo.holds (Mongo.Lt "size" page_size) p = false.

(** The ranges follow one another from [from] up to [upto - 1]: each starts
    where the one before ended. *)
Fixpoint tiles (from : Z) (ranges : list (Z * Z)) (upto : Z) : Prop :=
  match ranges with
  | [] => from = upto
  | (f, l) :: r => f = from /\ from <= l + 1 /\ tiles (l + 1) r upto
  end.

(** The same of a list of pages, all closed but the last. *)
Fixpoint paged (page_size : Z) (from : Z) (ps : list doc) (upto : Z)
  : Prop :=
  match ps with
  | [] => from = upto
  | p :: r =>
      exists l, page_range p = Some (from, l)
                /\ from <= l + 1
                /\ (r <> [] -> closed page_size p)
                /\ paged page_size (l + 1) r upto
  end.

(** The first segment of a field path. *)
Definition head_of (k : string) : string := hd "" (Mongo.split_dots k).

(** The fields the page writer keeps for itself. *)
Definition reserved : list string :=
  ["descriptor"; "resource"; "size"; "first_index"; "last_index"].

Definition free_head (k : string) : bool :=
  negb (existsb (String.eqb (head_of k)) reserved).

(** The shape of the updates of the page writer: for the open page of a
    stream, appends to fields of its own, a size increment, and the two
    index bounds [a] and [b]. *)
Definition page_op (id_key stream : string) (page_size a b : Z)
    (op : Mongo.UpdateOne) : Prop :=
  Mongo.uo_filter op
  = [Mongo.Eq id_key (VStr stream); Mongo.Lt "size" page_size]
  /\ Mongo.uo_upsert op = true
  /\ exists fields size,
       Mongo.uo_update op
       = Serializer.pushes fields
           ++ [Mongo.Inc "size" size; Mongo.Min "first_index" a;
               Mongo.Max "last_index" b]
       /\ Forall (fun kv => free_head (fst kv) = true) fields.

(** The operations of one bulk write, as they concern one stream: its own
    operations carry consecutive ranges from [c] on. *)
Inductive chain (id_key stream : string) (page_size : Z)
  : Z -> list Mongo.UpdateOne -> Z -> Prop :=
| chain_nil c : chain id_key stream page_size c [] c
| chain_here c n op ops c' :
    0 <= n ->
    page_op id_key stream page_size c (c + n - 1) op ->
    chain id_key stream page_size (c + n) ops c' ->
    chain id_key stream page_size c (op :: ops) c'
| chain_other c other a b op ops c' :
    other <> stream ->
    page_op id_key other page_size a b op ->
    chain id_key stream page_size c ops c' ->
    chain id_key stream page_size c (op :: ops) c'.

(** The ranges cover [0 .. n - 1] exactly: every index is in a range, every
    range is within the indices, and a later range lies after an earlier
    one. *)
Definition covers (ranges : list (Z * Z)) (n : Z) : Prop :=
  (forall i, 0 <= i < n <-> exists r, In r ranges /\ fst r <= i <= snd r)
  /\ (forall j1 j2 r1 r2,
        (j1 < j2)%nat ->
        nth_error ranges j1 = Some r1 -> nth_error ranges j2 = Some r2 ->
        snd r1 < fst r2).

(** The number of documents a dumped page holds, as the page writer counts
    them: the length of one of its arrays. *)
Definition count_of (array_key : string) (p : Embedder.Page) : Z :=
  match py_len (page_getitem array_key p) with
  | Done n => n
  | Error _ => 0
  end.

(** The documents of a stream in one dumped buffer, and in a list of them. *)
Definition batch_total (array_key stream : string)
    (buffer : Dict.t Embedder.Page) : Z :=
  fold_right (fun entry acc =>
                (if String.eqb (fst entry) stream
                 then count_of array_key (snd entry) else 0) + acc)
             0 buffer.

Definition total (array_key stream : string)
    (batches : list (Dict.t Embedder.Page * Dict.t Z)) : Z :=
  fold_right (fun b acc => batch_total array_key stream (fst b) + acc)
             0 batches.

(** The page writer called on one dumped buffer after the other. *)
Definition write_event_batches
    (batches : list (Dict.t Embedder.Page * Dict.t Z))
  : M Serializer.t unit :=
  for_each batches (fun b => Serializer._bulkwrite_event (fst b) (snd b)).

Definition write_datum_batches
    (batches : list (Dict.t Embedder.Page * Dict.t Z))
  : M Serializer.t unit :=
  for_each batches (fun b => Serializer._bulkwrite_datum (fst b) (snd b)).

(** The counter of a stream: where its next index range starts. *)
Definition event_counter (stream : string) (s : Serializer.t) : Z :=
  Dict.get_default 0 stream (Serializer._event_count s).

Definition datum_counter (stream : string) (s : Serializer.t) : Z :=
  Dict.get_default 0 stream (Serializer._datum_count s).

(** The list comprehension of the two bulk writers, [build] being
    [_updateone_eventpage] or [_updateone_datumpage]. *)
Definition operations
    (build : string -> Embedder.Page -> Z
             -> M Serializer.t Mongo.UpdateOne)
    (buffer : Dict.t Embedder.Page) (sizes : Dict.t Z)
  : M Serializer.t (list Mongo.UpdateOne) :=
  comprehension buffer (fun entry =>
    size <- Serializer.size_for (fst entry) sizes ;;
    build (fst entry) (snd entry) size).

(** ** Runs of a buffer *)

(** The page of a stream; a [defaultdict] reads the empty page where the
    stream has none. *)
Definition page_at (sid : string) (e : Embedder.t) : Embedder.Page :=
  Dict.get_default Embedder.empty_page sid (Embedder._embedder e).

(** [list(page[key])] of an array key: empty before the first append. *)
Definition array_at (key : string) (p : Embedder.Page) : list value :=
  Dict.get_default [] key (Embedder.arrays p).

(** [page[key][inner_key]] of a dataframe key. *)
Definition frame_at (key inner_key : string) (p : Embedder.Page)
  : list value :=
  Dict.get_default [] inner_key (Dict.get_default [] key (Embedder.frames p)).

Section BufferReturns.
Context {encoder : Bson}.

(** No call of [ops], made one after the other on [e], raised. *)
Fixpoint all_returned (ops : list buffer_op) (e : Embedder.t) : bool :=
  match ops with
  | [] => true
  | o :: r =>
      match o with
      | Insert d =>
          match fst (Embedder.insert d e) with
          | Ok _ => true
          | _ => false
          end
      | Dump => true
      end
      && all_returned r (apply_op e o)
  end.
End BufferReturns.

(** ** What the workers leave alone *)

(** [P] looks at neither the threads, nor the recorded error, nor the
    schedule of the workers. *)
Definition thread_blind (P : Serializer.t -> Prop) : Prop :=
  (forall x s, P s -> P (Serializer.with_worker_error x s))
  /\ (forall x s, P s -> P (Serializer.with_event_thread x s))
  /\ (forall x s, P s -> P (Serializer.with_datum_thread x s))
  /\ (forall x s, P s -> P (Serializer.with_count_thread x s))
  /\ (forall x s, P s -> P (Serializer.with_env x s)).

Section Loops.
Context {encoder : Bson}.

(** The body of the loop of each worker keeps [P]. *)
Definition loops_keep (P : Serializer.t -> Prop) : Prop :=
  (forall late, preserves P (Serializer._event_worker_iteration late))
  /\ (forall late, preserves P (Serializer._datum_worker_iteration late))
  /\ preserves P Serializer._count_worker_iteration.
End Loops.

(** The collections of the volatile store the pipeline never writes while
    it takes documents in, with the permanent store. *)
Definition out_of_reach (s : Serializer.t) :=
  (Mongo.datum (Serializer._volatile_db s), Serializer._permanent_db s).

(** The database a call is made on. *)
Definition store_of (db : Serializer.which_db) (s : Serializer.t)
  : Mongo.Database :=
  match db with
  | Serializer.Volatile => Serializer._volatile_db s
  | Serializer.Permanent => Serializer._permanent_db s
  end.

(** The header of the run [run_uid], as [find_one] finds it. *)
Definition header_of (run_uid : value) (db : Mongo.Database) : option doc :=
  List.find (Mongo.matches [Mongo.Eq "run_id" run_uid]) (Mongo.header db).

(** A document of a run other than its header: a page that is in its
    collection of [db]. *)
Definition page_in (db : Mongo.Database) (cd : Mongo.coll_name * doc)
  : Prop :=
  fst cd <> Mongo.Header /\ In (snd cd) (Mongo.coll (fst cd) db).

(** The count of a stream the event worker reports for the header:
    [self._db_event_count['count_' + stream]]. *)
Definition reported (stream : string) (s : Serializer.t) : Z :=
  Dict.get_default 0 ("count_" ++ stream)%string
                   (Serializer._db_event_count s).

(** A computation that never waits. *)
Definition never_blocks {S A} (c : M S A) : Prop :=
  forall s, fst (c s) <> Blocked.

(** ** The size of the stored pages *)

(** A stored page whose recorded size is below [limit]. *)
Definition page_sized (limit : Z) (p : doc) : Prop :=
  exists n, Dict.get "size" p = Some (VInt n) /\ n < limit.

(** An update of the page writer that adds at most [bound] to the size of
    a page. *)
Definition bounded_op (page_size bound : Z) (op : Mongo.UpdateOne) : Prop :=
  exists id_key stream fields size a b,
    In id_key ["descriptor"; "resource"]
    /\ Mongo.uo_filter op
       = [Mongo.Eq id_key (VStr stream); Mongo.Lt "size" page_size]
    /\ Mongo.uo_update op
       = Serializer.pushes fields
           ++ [Mongo.Inc "size" size; Mongo.Min "first_index" a;
               Mongo.Max "last_index" b]
    /\ Forall (fun kv => free_head (fst kv) = true) fields
    /\ size <= bound.

(** A buffer whose sizes are within [bound]: no stream size is negative and
    together they are at most [current_size], which is at most [bound].
    This holds of a buffer however its calls ended. *)
Definition buffer_ok (bound : Z) (e : Embedder.t) : Prop :=
  Embedder._max_size e = bound
  /\ Forall (fun kv => 0 <= snd kv) (Embedder.stream_size e)
  /\ Dict.sum (Embedder.stream_size e) <= Embedder.current_size e <= bound.

(** The event pages of the volatile store are small: each is below the page
    size plus what the event buffer can hold. *)
Definition small_pages (page_size bound : Z) (s : Serializer.t) : Prop :=
  Serializer._PAGE_SIZE s = page_size
  /\ 0 < page_size
  /\ buffer_ok bound (Serializer._event_embedder s)
  /\ Forall (page_sized (page_size + bound))
            (Mongo.event (Serializer._volatile_db s)).

(** What [small_pages] looks at. *)
Definition event_store (s : Serializer.t) :=
  (Serializer._PAGE_SIZE s, Serializer._event_embedder s,
   Mongo.event (Serializer._volatile_db s)).

(** ** Sessions *)

(** What happens to a pipeline: a document is handed to it, a worker takes
    an iteration, or the iterations that will happen while the next calls
    wait are fixed. *)
Inductive action : Type :=
| Call (name : Serializer.doc_name) (d : doc)
| Tick (tk : Serializer.tick)
| Meanwhile (sch : list Serializer.tick).

Section Sessions.
Context {encoder : Bson}.

(** The pipeline after an action, however a call ended. *)
Definition act (s : Serializer.t) (a : action) : Serializer.t :=
  match a with
  | Call name d => snd (Serializer.__call__ name d s)
  | Tick tk => Serializer.step tk s
  | Meanwhile sch => Serializer.with_env sch s
  end.

Definition session (acts : list action) (s : Serializer.t) : Serializer.t :=
  fold_left act acts s.
End Sessions.

(** ** The queues *)

(** What the bound of the queues looks at. *)
Definition queues (s : Serializer.t) :=
  (Serializer._QUEUE_SIZE s, Serializer._event_queue s,
   Serializer._datum_queue s).

(** Neither queue holds more than [n] items. *)
Definition queues_bounded (n : Z) (s : Serializer.t) : Prop :=
  Serializer._QUEUE_SIZE s = n /\ 0 < n
  /\ len (Serializer._event_queue s) <= n
  /\ len (Serializer._datum_queue s) <= n.

(** [P] does not look at what the handlers set on the pipeline itself. *)
Definition handler_blind (P : Serializer.t -> Prop) : Prop :=
  (forall x s, P s -> P (Serializer.with_start_found x s))
  /\ (forall x s, P s -> P (Serializer.with_run_uid x s))
  /\ (forall x s, P s -> P (Serializer.with_stop_doc x s))
  /\ (forall x s, P s -> P (Serializer.with_frozen x s))
  /\ (forall x s, P s -> P (Serializer.with_count x s)).

(** * A run of the pipeline

    One small run, on the reference encoder, and the states of it that the
    properties below are read on. *)

Module Scenario.
Import Mongo Serializer BsonRef.

Definition start_doc : doc := [("uid", VStr "run1"); ("time", VInt 0)].

Definition descriptor_doc : doc :=
  [("uid", VStr "d1"); ("run_start", VStr "run1")].

Definition resource_doc : doc :=
  [("uid", VStr "r1"); ("run_start", VStr "run1")].

Definition event_doc (n : Z) : doc :=
  [("descriptor", VStr "d1"); ("seq_num", VInt n); ("time", VInt 100);
   ("uid", VStr "e"); ("data", VDict [("x", VInt n)]);
   ("timestamps", VDict [("x", VInt 7)]); ("filled", VDict [])].

Definition datum_doc (n : Z) : doc :=
  [("resource", VStr "r1"); ("datum_id", VStr "r1/0");
   ("datum_kwargs", VDict [("i", VInt n)])].

Definition stop_doc : doc :=
  [("uid", VStr "stop1"); ("run_start", VStr "run1")].

Fixpoint padding (n : nat) : string :=
  match n with
  | O => EmptyString
  | S m => String "a" (padding m)
  end.

(** An event whose encoding is longer than the buffer is large. *)
Definition big_doc : doc :=
  [("descriptor", VStr "d1"); ("seq_num", VInt 9); ("time", VInt 100);
   ("uid", VStr (padding 1100))].

(** [Serializer(volatile_db, permanent_db, embedder_size=1000,
    page_size=1000)] on the two databases given. *)
Definition pipeline (volatile_db permanent_db : Database) : t :=
  boot volatile_db permanent_db 20 1000 1000 10
       (Embedder.event_buffer 1000) (Embedder.datum_buffer 1000).

Definition fresh : t := pipeline empty_db empty_db.

(** The pipeline after a call, however the call ended. *)
Definition after {A} (c : M t A) (s : t) : t := snd (c s).

(** The start, descriptor and resource documents have been received. *)
Definition described (s : t) : t :=
  after (__call__ NResource resource_doc)
    (after (__call__ NDescriptor descriptor_doc)
       (after (__call__ NStart start_doc) s)).

(** The store stops answering, and answers again. *)
Definition store_down : exn := Exn PyMongoError "connection refused" None.

Definition unplug (s : t) : t :=
  with_volatile_db (with_fault (Some store_down) (_volatile_db s)) s.

Definition replug (s : t) : t :=
  with_volatile_db (with_fault None (_volatile_db s)) s.

(** Two events are in the volatile store and counted. *)
Definition two_events : t :=
  run_ticks [EventTick false; EventTick false; EventTick false]
    (after (__call__ NEvent (event_doc 2))
       (after (__call__ NEvent (event_doc 1)) (described fresh))).

(** The count worker has woken and written the counts. *)
Definition counted : t := snd (_count_worker_iteration two_events).

(** A third event is in the volatile store and counted. *)
Definition three_events : t :=
  run_ticks [EventTick false; EventTick false]
    (after (__call__ NEvent (event_doc 3)) counted).

(** One datum is in the buffer of the datum worker. *)
Definition datum_buffered : t :=
  run_ticks [DatumTick false]
    (after (__call__ NDatum (datum_doc 1)) (described fresh)).

(** The event worker has taken [big_doc] from its queue. *)
Definition holding_big : t :=
  run_ticks [EventTick false]
    (after (__call__ NEvent big_doc) (described fresh)).

(** The event worker has failed on a store that did not answer; the store
    answers again. *)
Definition event_failed : t :=
  with_env [CountTick; EventTick false; DatumTick false]
    (replug
       (run_ticks [EventTick false]
          (unplug
             (run_ticks [EventTick false]
                (after (__call__ NEvent (event_doc 1)) (described fresh)))))).

(** The same, with one datum in the buffer of the datum worker. *)
Definition event_failed_datum_buffered : t :=
  with_env [CountTick; EventTick false; DatumTick false]
    (replug
       (run_ticks [EventTick false]
          (unplug
             (run_ticks [EventTick false; DatumTick false]
                (after (__call__ NDatum (datum_doc 1))
                   (after (__call__ NEvent (event_doc 1))
                      (described fresh))))))).

(** A run is complete in the volatile store, and the permanent store already
    holds a header with the identifier of the run. *)
Definition stale_permanent : Database :=
  {| Mongo.header := [[("run_id", VStr "run1"); ("start", VList [])]];
     Mongo.event := []; Mongo.datum := []; Mongo.fault := None |}.

Definition ready_to_freeze : t :=
  with_env [CountTick; EventTick false; DatumTick false]
    (with_stop_doc (VDict stop_doc)
       (run_ticks [EventTick false; EventTick false]
          (after (__call__ NEvent (event_doc 1))
             (described (pipeline empty_db stale_permanent))))).

(** A dumped buffer: what [buffer] holds after the inserts of [docs]. *)
Definition dumped (buffer : Embedder.t) (docs : list doc)
  : Dict.t Embedder.Page * Dict.t Z :=
  let e := run_ops (map Insert docs) buffer in
  (Embedder._embedder e, Embedder.stream_size e).

Definition event_batches : list (Dict.t Embedder.Page * Dict.t Z) :=
  [dumped (Embedder.event_buffer 1000)
          [event_doc 1; event_doc 2; event_doc 3; event_doc 4;
           event_doc 5];
   dumped (Embedder.event_buffer 1000)
          [event_doc 6; event_doc 7; event_doc 8; event_doc 9];
   dumped (Embedder.event_buffer 1000) [event_doc 10; event_doc 11]].

Definition datum_batches : list (Dict.t Embedder.Page * Dict.t Z) :=
  [dumped (Embedder.datum_buffer 1000) [datum_doc 1; datum_doc 2];
   dumped (Embedder.datum_buffer 1000) [datum_doc 3]].

(** The value a call returned, or [dflt]. *)
Definition returned {A} (dflt : A) (r : outcome A * t) : A :=
  match fst r with
  | Ok a => a
  | _ => dflt
  end.

(** The steps of [freeze] on [ready_to_freeze]. *)
Definition drained : t := snd (freeze_drain ready_to_freeze).

Definition volatile_run : run :=
  returned [] (_get_run Volatile (VStr "run1") drained).

Definition run_read : t := snd (_get_run Volatile (VStr "run1") drained).

Definition copied : t := snd (_insert_run Permanent volatile_run run_read).

Definition permanent_run : run :=
  returned [] (_get_run Permanent (VStr "run1") copied).

Definition read_back : t := snd (_get_run Permanent (VStr "run1") copied).

(** A buffer that [event_doc 1] does not fit in any more. *)
Definition nearly_full : Embedder.t :=
  run_ops (map Insert [event_doc 1; event_doc 2; event_doc 3; event_doc 4;
                       event_doc 5; event_doc 6; event_doc 7; event_doc 8])
          (Embedder.event_buffer 1000).

End Scenario.

(** * Further runs

    The states and sessions the further properties are read on. *)

Module Runs.
Import Mongo Serializer BsonRef Scenario.

(** An event without its [descriptor]. *)
Definition orphan_doc : doc := [("seq_num", VInt 1); ("time", VInt 100)].

(** The event buffer after one event. *)
Definition one_event : Embedder.t :=
  run_ops [Insert (event_doc 1)] (Embedder.event_buffer 1000).

(** Calls on a buffer, one of which raises. *)
Definition mixed_calls : list buffer_op :=
  [Insert (event_doc 1); Insert orphan_doc; Dump; Insert (event_doc 2)].

Definition quiet_calls : list buffer_op :=
  [Insert (event_doc 1); Insert (event_doc 2); Dump; Insert (event_doc 3)].

(** Two events are queued. *)
Definition two_queued : t :=
  after (__call__ NEvent (event_doc 2))
    (after (__call__ NEvent (event_doc 1)) (described fresh)).

(** One event of the run is in the volatile store; the permanent store is
    empty and the workers will take their last iterations. *)
Definition ready_to_move : t :=
  with_env [CountTick; EventTick false; DatumTick false]
    (with_stop_doc (VDict stop_doc)
       (run_ticks [EventTick false; EventTick false]
          (after (__call__ NEvent (event_doc 1)) (described fresh)))).

(** The same, for [explicit_freeze]: the count worker is not waited for. *)
Definition ready_to_rescue : t :=
  with_env [EventTick false; DatumTick false]
    (run_ticks [EventTick false; EventTick false]
       (after (__call__ NEvent (event_doc 1)) (described fresh))).

(** A whole run, from the start document to the stop document. *)
Definition whole_run : list action :=
  [Call NStart start_doc; Call NDescriptor descriptor_doc;
   Call NResource resource_doc;
   Call NEvent (event_doc 1); Call NEvent (event_doc 2);
   Tick (EventTick false); Tick (EventTick false); Tick (EventTick false);
   Tick CountTick;
   Meanwhile [CountTick; EventTick false; DatumTick false];
   Call NStop stop_doc].

(** The pipeline after its first start document. *)
Definition started : t := after (__call__ NStart start_doc) fresh.

End Runs.

(** * Properties *)

(** ** Dictionaries *)

Lemma get_set_same {V} (k : string) (v : V) (d : Dict.t V) :
  Dict.get k (Dict.set k v d) = Some v.
Proof.
  induction d as [|[k' v'] r IH]; simpl.
  - now rewrite String.eqb_refl.
  - destruct (String.eqb k k') eqn:E; simpl; rewrite E; auto.
Qed.

Lemma get_set_other {V} (k k' : string) (v : V) (d : Dict.t V) :
  k <> k' -> Dict.get k (Dict.set k' v d) = Dict.get k d.
Proof.
  intros Hne. induction d as [|[k0 v0] r IH]; simpl.
  - destruct (String.eqb k k') eqn:E; auto.
    apply String.eqb_eq in E. contradiction.
  - destruct (String.eqb k' k0) eqn:E; simpl.
    + apply String.eqb_eq in E. subst k0.
      destruct (String.eqb k k') eqn:E'; auto.
      apply String.eqb_eq in E'. contradiction.
    + destruct (String.eqb k k0); auto.
Qed.

Lemma get_default_add_same (k : string) (n : Z) (d : Dict.t Z) :
  Dict.get_default 0 k (Dict.add k n d) = Dict.get_default 0 k d + n.
Proof.
  unfold Dict.add, Dict.get_default at 1. now rewrite get_set_same.
Qed.

Lemma get_default_add_other (k k' : string) (n : Z) (d : Dict.t Z) :
  k <> k' ->
  Dict.get_default 0 k (Dict.add k' n d) = Dict.get_default 0 k d.
Proof.
  intros Hne. unfold Dict.add, Dict.get_default.
  now rewrite get_set_other.
Qed.

(** ** The monad *)

Lemma bind_ok {S A B} (c : M S A) (k : A -> M S B) s a s' :
  c s = (Ok a, s') -> bind c k s = k a s'.
Proof. intros H. unfold bind. now rewrite H. Qed.

(** What [bind c k] returns comes from [k] after a normal end of [c], or is
    how [c] itself ended. *)
Lemma bind_inv {S A B} (c : M S A) (k : A -> M S B) s r s' :
  bind c k s = (r, s') ->
  (exists a s1, c s = (Ok a, s1) /\ k a s1 = (r, s'))
  \/ (exists e, c s = (Raise e, s') /\ r = Raise e)
  \/ (c s = (Blocked, s') /\ r = Blocked).
Proof.
  unfold bind. destruct (c s) as [[a|e|] s1]; intros H.
  - left. eauto.
  - right. left. inversion H; subst. eauto.
  - right. right. inversion H; subst. eauto.
Qed.

Section Preservation.
Context {S : Type} (P : S -> Prop).

Lemma preserves_ret {A} (a : A) : preserves P (ret a).
Proof. intros s r s' H. inversion H; subst. auto. Qed.

Lemma preserves_raise {A} (e : exn) : preserves P (@raise S A e).
Proof. intros s r s' H. inversion H; subst. auto. Qed.

Lemma preserves_lift {A} (x : result A) : preserves P (lift x).
Proof.
  intros s r s' H. unfold lift in H. destruct x; inversion H; subst; auto.
Qed.

Lemma preserves_get : preserves P get.
Proof. intros s r s' H. inversion H; subst. auto. Qed.

Lemma preserves_modify (f : S -> S) :
  (forall s, P s -> P (f s)) -> preserves P (modify f).
Proof. intros Hf s r s' H. inversion H; subst. auto. Qed.

Lemma preserves_bind {A B} (c : M S A) (k : A -> M S B) :
  preserves P c -> (forall a, preserves P (k a)) -> preserves P (bind c k).
Proof.
  intros Hc Hk s r s' H HP.
  destruct (bind_inv _ _ _ _ _ H) as [(a & s1 & H1 & H2)|[(e & H1 & _)|[H1 _]]].
  - eapply Hk; eauto.
  - eapply Hc; eauto.
  - eapply Hc; eauto.
Qed.

Lemma preserves_for_each {A} (xs : list A) (body : A -> M S unit) :
  (forall x, preserves P (body x)) -> preserves P (for_each xs body).
Proof.
  intros Hb. induction xs as [|x r IH]; simpl.
  - apply preserves_ret.
  - apply preserves_bind; auto.
Qed.

Lemma preserves_comprehension {A B} (xs : list A) (f : A -> M S B) :
  (forall x, preserves P (f x)) -> preserves P (comprehension xs f).
Proof.
  intros Hb. induction xs as [|x r IH]; simpl.
  - apply preserves_ret.
  - apply preserves_bind; auto. intros y.
    apply preserves_bind; auto. intros ys. apply preserves_ret.
Qed.
End Preservation.

(** A computation on a component keeps [P] when [P] does not look at that
    component. *)
Lemma preserves_zoom_frame {S T A} (P : S -> Prop) (proj : S -> T)
    (upd : T -> S -> S) (c : M T A) :
  (forall x s, P s -> P (upd x s)) -> preserves P (zoom proj upd c).
Proof.
  intros Hupd s r s' H HP. unfold zoom in H.
  destruct (c (proj s)) as [r0 t']. inversion H; subst. auto.
Qed.

(** A computation on a component keeps [P] when it keeps what [P] says of
    the component. *)
Lemma preserves_zoom {S T A} (P : S -> Prop) (Q : T -> Prop) (proj : S -> T)
    (upd : T -> S -> S) (c : M T A) :
  preserves Q c ->
  (forall s, P s -> Q (proj s)) ->
  (forall x s, P s -> Q x -> P (upd x s)) ->
  preserves P (zoom proj upd c).
Proof.
  intros Hc HPQ Hupd s r s' H HP. unfold zoom in H.
  destruct (c (proj s)) as [r0 t'] eqn:E. inversion H; subst.
  apply Hupd; auto. eapply Hc; eauto.
Qed.

(** ** The page buffer *)

Section BufferFacts.
Context {encoder : Bson}.

Lemma stream_of_keeps (P : Embedder.t -> Prop) (d : doc) :
  preserves P (Embedder.stream_of d).
Proof.
  unfold Embedder.stream_of. apply preserves_bind.
  - apply preserves_get.
  - intros e. destruct (Dict.get _ d) as [[| | |sid| |]|];
      try apply preserves_raise. apply preserves_ret.
Qed.

Lemma on_page_accounts x sid f :
  preserves (fun e => accounts e = x) (Embedder.on_page sid f).
Proof. apply preserves_modify. intros e H. exact H. Qed.

Lemma items_of_keeps (P : Embedder.t -> Prop) key (d : doc) :
  preserves P (Embedder.items_of key d).
Proof.
  unfold Embedder.items_of.
  destruct (Dict.get key d) as [[| | | | |inner]|];
    try apply preserves_raise. apply preserves_ret.
Qed.

(** Embedding touches the pages only. *)
Lemma embed_item_accounts x d kv :
  preserves (fun e => accounts e = x) (Embedder.embed_item d kv).
Proof.
  destruct kv as [key v]. unfold Embedder.embed_item.
  apply preserves_bind; [apply preserves_get|]. intros e.
  destruct (Embedder.key_in key (Embedder._array_keys e)).
  - apply preserves_bind; [apply stream_of_keeps|].
    intros sid. apply on_page_accounts.
  - destruct (Embedder.key_in key (Embedder._dataframe_keys e)).
    + apply preserves_bind; [apply items_of_keeps|]. intros inner.
      apply preserves_for_each. intros iv.
      apply preserves_bind; [apply stream_of_keeps|].
      intros sid. apply on_page_accounts.
    + apply preserves_bind; [apply stream_of_keeps|].
      intros sid. apply on_page_accounts.
Qed.

Lemma embed_all_accounts x d items :
  preserves (fun e => accounts e = x)
            (for_each items (Embedder.embed_item d)).
Proof. apply preserves_for_each. intros kv. apply embed_item_accounts. Qed.

Lemma stream_of_ok e d sid :
  Dict.get (Embedder._stream_id_key e) d = Some (VStr sid) ->
  Embedder.stream_of d e = (Ok sid, e).
Proof.
  intros H. unfold Embedder.stream_of, bind, get. now rewrite H.
Qed.

Lemma on_page_ok e sid f :
  exists e', Embedder.on_page sid f e = (Ok tt, e')
             /\ accounts e' = accounts e.
Proof. eexists. split; reflexivity. Qed.

Lemma append_frames_ok d key sid inner :
  forall e,
    Dict.get (Embedder._stream_id_key e) d = Some (VStr sid) ->
    exists e',
      for_each inner (fun iv =>
        sid <- Embedder.stream_of d ;;
        Embedder.on_page sid (Embedder.append_frame key (fst iv) (snd iv)))
        e = (Ok tt, e')
      /\ accounts e' = accounts e.
Proof.
  induction inner as [|iv r IH]; intros e Hsid; simpl.
  - eexists. split; reflexivity.
  - erewrite bind_ok.
    2:{ erewrite bind_ok by (apply stream_of_ok; eassumption).
        reflexivity. }
    destruct (IH (Embedder.with_embedder
                    (Dict.set sid
                       (Embedder.append_frame key (fst iv) (snd iv)
                          (Dict.get_default Embedder.empty_page sid
                             (Embedder._embedder e)))
                       (Embedder._embedder e)) e) Hsid)
      as (e' & Hrun & Hacc).
    exists e'. split; [exact Hrun|exact Hacc].
Qed.

Lemma embed_item_ok e d sid kv :
  Dict.get (Embedder._stream_id_key e) d = Some (VStr sid) ->
  field_ok e d kv = true ->
  exists e', Embedder.embed_item d kv e = (Ok tt, e')
             /\ accounts e' = accounts e.
Proof.
  intros Hsid Hok. destruct kv as [key v].
  unfold field_ok in Hok. simpl in Hok.
  unfold Embedder.embed_item. unfold bind at 1, get at 1.
  destruct (Embedder.key_in key (Embedder._array_keys e)).
  - erewrite bind_ok by (apply stream_of_ok; eassumption).
    apply on_page_ok.
  - destruct (Embedder.key_in key (Embedder._dataframe_keys e)).
    + destruct (Dict.get key d) as [[| | | | |inner]|] eqn:Hget;
        try discriminate.
      erewrite bind_ok.
      2:{ unfold Embedder.items_of. rewrite Hget. reflexivity. }
      apply (append_frames_ok d key sid). exact Hsid.
    + erewrite bind_ok by (apply stream_of_ok; eassumption).
      apply on_page_ok.
Qed.

Lemma field_ok_accounts e e' d kv :
  accounts e' = accounts e -> field_ok e' d kv = field_ok e d kv.
Proof.
  unfold accounts, field_ok. intros H. inversion H. congruence.
Qed.

Lemma embed_all_ok d sid items :
  forall e,
    Dict.get (Embedder._stream_id_key e) d = Some (VStr sid) ->
    forallb (field_ok e d) items = true ->
    exists e', for_each items (Embedder.embed_item d) e = (Ok tt, e')
               /\ accounts e' = accounts e.
Proof.
  induction items as [|kv r IH]; intros e Hsid Hall; simpl.
  - eexists. split; reflexivity.
  - simpl in Hall. apply andb_true_iff in Hall. destruct Hall as [Hkv Hr].
    destruct (embed_item_ok e d sid kv Hsid Hkv) as (e1 & H1 & Hacc1).
    erewrite bind_ok by exact H1.
    destruct (IH e1) as (e' & H' & Hacc').
    + unfold accounts in Hacc1. inversion Hacc1. congruence.
    + rewrite <- Hr. clear -Hacc1. induction r as [|x r IHr]; simpl; auto.
      rewrite IHr. f_equal. apply field_ok_accounts. exact Hacc1.
    + exists e'. split; [exact H'|congruence].
Qed.

Lemma doc_size_nonneg d : 0 <= Embedder.doc_size d.
Proof. unfold Embedder.doc_size, len. lia. Qed.
End BufferFacts.

Lemma preserves_via {S A X} (f : S -> X) (Q : X -> Prop) (c : M S A) :
  (forall x, preserves (fun s => f s = x) c) ->
  preserves (fun s => Q (f s)) c.
Proof.
  intros H s r s' Hc HQ.
  rewrite (H (f s) s r s' Hc eq_refl). exact HQ.
Qed.

Section BufferClaims.
Context {encoder : Bson}.

Lemma insert_rejects e d :
  Embedder.current_size e + Embedder.doc_size d > Embedder._max_size e ->
  Embedder.insert d e = (Ok (Some d), e).
Proof.
  intros H. unfold Embedder.insert, bind, get.
  replace (_ >? _) with true; [reflexivity|].
  symmetry. rewrite Z.gtb_ltb. apply Z.ltb_lt. lia.
Qed.

Lemma insert_accepts e d sid :
  Embedder.current_size e + Embedder.doc_size d <= Embedder._max_size e ->
  Dict.get (Embedder._stream_id_key e) d = Some (VStr sid) ->
  forallb (field_ok e d) d = true ->
  exists e',
    Embedder.insert d e = (Ok None, e')
    /\ Embedder.current_size e'
       = Embedder.current_size e + Embedder.doc_size d
    /\ Embedder.stream_size e'
       = Dict.add sid (Embedder.doc_size d) (Embedder.stream_size e)
    /\ configuration e' = configuration e.
Proof.
  intros Hfit Hsid Hok.
  destruct (embed_all_ok d sid d e Hsid Hok) as (e1 & Hrun & Hacc).
  unfold accounts in Hacc. inversion Hacc as [[Hcs Hss Hmax Hak Hdk Hsk]].
  unfold Embedder.insert. unfold bind at 1, get at 1.
  replace (_ >? _) with false.
  2:{ symmetry. rewrite Z.gtb_ltb. apply Z.ltb_ge. lia. }
  erewrite bind_ok by exact Hrun.
  unfold bind at 1, modify at 1.
  erewrite bind_ok.
  2:{ apply stream_of_ok. simpl. rewrite Hsk. exact Hsid. }
  eexists. split; [reflexivity|]. simpl.
  unfold configuration. simpl. rewrite Hcs, Hss, Hmax, Hak, Hdk, Hsk.
  repeat split.
Qed.

(** C4.  A document that would take [current_size] past the configured
    maximum is handed back and the buffer is left exactly as it was; any
    other well-formed document is consumed ([None] is returned) and both
    [current_size] and the size of its stream grow by its encoded length. *)
Theorem insert_backpressure (e : Embedder.t) (d : doc) :
  (Embedder.current_size e + Embedder.doc_size d > Embedder._max_size e ->
   Embedder.insert d e = (Ok (Some d), e))
  /\ (Embedder.current_size e + Embedder.doc_size d
        <= Embedder._max_size e ->
      well_formed e d = true ->
      exists sid e',
        Dict.get (Embedder._stream_id_key e) d = Some (VStr sid)
        /\ Embedder.insert d e = (Ok None, e')
        /\ Embedder.current_size e'
           = Embedder.current_size e + Embedder.doc_size d
        /\ size_of sid (Embedder.stream_size e')
           = size_of sid (Embedder.stream_size e) + Embedder.doc_size d
        /\ (forall other, other <> sid ->
              size_of other (Embedder.stream_size e')
              = size_of other (Embedder.stream_size e))
        /\ configuration e' = configuration e).
Proof.
  split.
  - apply insert_rejects.
  - intros Hfit Hwf. unfold well_formed in Hwf.
    apply andb_true_iff in Hwf. destruct Hwf as [Hid Hfields].
    destruct (Dict.get (Embedder._stream_id_key e) d)
      as [[| | |sid| |]|] eqn:Hsid; try discriminate.
    destruct (insert_accepts e d sid Hfit Hsid Hfields)
      as (e' & Hins & Hcs & Hss & Hcfg).
    exists sid, e'. repeat split; auto.
    + rewrite Hss. apply get_default_add_same.
    + intros other Hne. rewrite Hss.
      now apply get_default_add_other.
Qed.

Lemma dump_clears e :
  Embedder.dump e
  = (Ok (Embedder._embedder e, Embedder.stream_size e), cleared e).
Proof. reflexivity. Qed.

(** C5.  [dump] returns the pages and the per-stream sizes as they were,
    and leaves the empty buffer of the same configuration: [empty] holds,
    every size is zero, no page is left, and what the buffer held before
    has no influence on the buffer that later calls work on. *)
Theorem dump_isolation (e : Embedder.t) :
  Embedder.dump e
  = (Ok (Embedder._embedder e, Embedder.stream_size e), cleared e)
  /\ Embedder.empty (cleared e) = true
  /\ Embedder.current_size (cleared e) = 0
  /\ (forall sid, size_of sid (Embedder.stream_size (cleared e)) = 0)
  /\ Embedder._embedder (cleared e) = []
  /\ (forall pages size sizes,
        snd (Embedder.dump
               (Embedder.with_embedder pages
                  (Embedder.with_current_size size
                     (Embedder.with_stream_size sizes e))))
        = snd (Embedder.dump e))
  /\ (forall d ops,
        run_ops (Insert d :: ops) (snd (Embedder.dump e))
        = run_ops (Insert d :: ops) (cleared e)).
Proof.
  rewrite dump_clears. repeat split.
Qed.

Lemma insert_sound max d :
  preserves (sound_buffer max) (Embedder.insert d).
Proof.
  unfold Embedder.insert.
  apply preserves_bind; [apply preserves_get|]. intros e.
  destruct (_ >? _); [apply preserves_ret|].
  apply preserves_bind.
  { apply (preserves_via accounts
             (fun x => 0 <= fst (fst (fst (fst (fst x))))
                       /\ snd (fst (fst (fst x))) = max)).
    intros x. apply embed_all_accounts. }
  intros _. apply preserves_bind.
  { apply preserves_modify. intros s [Hpos Hmax]. split; simpl; auto.
    pose proof (doc_size_nonneg d). lia. }
  intros _. apply preserves_bind; [apply stream_of_keeps|].
  intros sid. apply preserves_bind; [|intros; apply preserves_ret].
  apply preserves_modify. intros s H. exact H.
Qed.

Lemma dump_sound max : preserves (sound_buffer max) Embedder.dump.
Proof.
  intros s r s' H [Hpos Hmax]. rewrite dump_clears in H.
  inversion H; subst. split; simpl; auto. lia.
Qed.

Lemma run_ops_sound max ops :
  forall e, sound_buffer max e -> sound_buffer max (run_ops ops e).
Proof.
  induction ops as [|o r IH]; intros e He; simpl; auto.
  apply IH. destruct o as [d|]; unfold apply_op.
  - destruct (Embedder.insert d e) as [res e'] eqn:E.
    exact (insert_sound max d e res e' E He).
  - destruct (Embedder.dump e) as [res e'] eqn:E.
    exact (dump_sound max e res e' E He).
Qed.

Lemma init_sound doc_type max e0 :
  Embedder.__init__ doc_type max = Done e0 -> sound_buffer max e0.
Proof.
  unfold Embedder.__init__. intros H.
  destruct (_ && _); [|discriminate].
  destruct (String.eqb doc_type "event").
  - inversion H. split; simpl; auto. lia.
  - destruct (String.eqb doc_type "datum"); [|discriminate].
    inversion H. split; simpl; auto. lia.
Qed.

(** A document longer than the maximum is handed back by every buffer. *)
Lemma oversize_rejected max e d :
  sound_buffer max e -> Embedder.doc_size d > max ->
  Embedder.insert d e = (Ok (Some d), e).
Proof.
  intros [Hpos Hmax] Hbig. apply insert_rejects. lia.
Qed.
End BufferClaims.

(** ** The buffer over a run of calls *)

Section BufferRunsFacts.
Context {encoder : Bson}.

Lemma sum_add k n (d : Dict.t Z) :
  Dict.sum (Dict.add k n d) = Dict.sum d + n.
Proof.
  unfold Dict.add, Dict.get_default, Dict.sum, Dict.values.
  induction d as [|[k' v] r IH]; simpl.
  - lia.
  - destruct (String.eqb k k') eqn:E; simpl; [lia|].
    rewrite IH. lia.
Qed.

Lemma sizes_bounded sid (d : Dict.t Z) :
  Forall (fun kv => 0 <= snd kv) d ->
  0 <= size_of sid d <= Dict.sum d /\ 0 <= Dict.sum d.
Proof.
  unfold size_of, Dict.get_default, Dict.sum, Dict.values.
  induction 1 as [|[k v] r Hv Hr IH]; simpl.
  - lia.
  - simpl in Hv. destruct (String.eqb sid k); lia.
Qed.

Lemma nonneg_add k n (d : Dict.t Z) :
  0 <= n ->
  Forall (fun kv => 0 <= snd kv) d ->
  Forall (fun kv => 0 <= snd kv) (Dict.add k n d).
Proof.
  intros Hn Hd.
  pose proof (proj1 (sizes_bounded k d Hd)) as Hk.
  unfold size_of in Hk. unfold Dict.add.
  assert (Hv : 0 <= Dict.get_default 0 k d + n) by lia.
  revert Hv. generalize (Dict.get_default 0 k d + n). intros v Hv.
  induction Hd as [|[k' v'] r Hx Hr IH]; simpl.
  - constructor; [exact Hv|constructor].
  - destruct (String.eqb k k'); constructor;
      try assumption; try exact Hv.
    apply IH. exact (proj1 (sizes_bounded k r Hr)).
Qed.

Lemma in_mem {V} k (v : V) (d : Dict.t V) :
  In (k, v) d -> Dict.mem k d = true.
Proof.
  unfold Dict.mem. induction d as [|[k' v'] r IH]; simpl; [tauto|].
  intros [H|H].
  - inversion H; subst. now rewrite String.eqb_refl.
  - destruct (String.eqb k k'); auto.
Qed.

Lemma mem_add_same k n (d : Dict.t Z) : Dict.mem k (Dict.add k n d) = true.
Proof. unfold Dict.mem, Dict.add. now rewrite get_set_same. Qed.

Lemma mem_add_other k k' n (d : Dict.t Z) :
  k <> k' -> Dict.mem k (Dict.add k' n d) = Dict.mem k d.
Proof.
  intros Hne. unfold Dict.mem, Dict.add. now rewrite get_set_other.
Qed.

(** The call [on_page] makes on the page of the document's stream. *)
Lemma on_stream_page e d sid f :
  Dict.get (Embedder._stream_id_key e) d = Some (VStr sid) ->
  (sid <- Embedder.stream_of d ;; Embedder.on_page sid f) e
  = (Ok tt, snd (Embedder.on_page sid f e)).
Proof.
  intros H. erewrite bind_ok by (apply stream_of_ok; exact H). reflexivity.
Qed.

Lemma page_at_on_page sid f e :
  page_at sid (snd (Embedder.on_page sid f e)) = f (page_at sid e).
Proof.
  unfold page_at, Embedder.on_page, modify. simpl.
  unfold Dict.get_default at 1. now rewrite get_set_same.
Qed.

Lemma other_on_page sid other f e :
  other <> sid ->
  Dict.get other (Embedder._embedder (snd (Embedder.on_page sid f e)))
  = Dict.get other (Embedder._embedder e).
Proof. intros Hne. simpl. now apply get_set_other. Qed.

Lemma array_at_append k' k v p :
  array_at k' (Embedder.append_array k v p)
  = if String.eqb k' k then array_at k' p ++ [v] else array_at k' p.
Proof.
  unfold array_at, Embedder.append_array. simpl.
  destruct (String.eqb k' k) eqn:E.
  - apply String.eqb_eq in E. subst k'.
    unfold Dict.get_default at 1. now rewrite get_set_same.
  - apply String.eqb_neq in E. unfold Dict.get_default at 1.
    now rewrite get_set_other.
Qed.

Lemma frame_at_append k' ik' k ik v p :
  frame_at k' ik' (Embedder.append_frame k ik v p)
  = if String.eqb k' k && String.eqb ik' ik then frame_at k' ik' p ++ [v]
    else frame_at k' ik' p.
Proof.
  unfold frame_at, Embedder.append_frame. simpl.
  destruct (String.eqb k' k) eqn:E; simpl.
  - apply String.eqb_eq in E. subst k'.
    unfold Dict.get_default at 2. rewrite get_set_same.
    destruct (String.eqb ik' ik) eqn:E'.
    + apply String.eqb_eq in E'. subst ik'.
      unfold Dict.get_default at 1. now rewrite get_set_same.
    + apply String.eqb_neq in E'. unfold Dict.get_default at 1.
      now rewrite get_set_other.
  - apply String.eqb_neq in E. unfold Dict.get_default at 2.
    now rewrite get_set_other.
Qed.

Lemma in_get {V} k (v : V) (d : Dict.t V) :
  NoDup (Dict.keys d) -> In (k, v) d -> Dict.get k d = Some v.
Proof.
  unfold Dict.keys. induction d as [|[k' v'] r IH]; simpl; [tauto|].
  intros Hnd [H|H].
  - inversion H; subst. now rewrite String.eqb_refl.
  - inversion Hnd; subst. destruct (String.eqb k k') eqn:E; auto.
    apply String.eqb_eq in E. subst k'. exfalso. apply H2.
    apply (in_map fst) in H. exact H.
Qed.

(** The loop over the items of a dataframe field. *)
Lemma append_frames_page d key sid inner :
  forall e e1,
    NoDup (Dict.keys inner) ->
    Dict.get (Embedder._stream_id_key e) d = Some (VStr sid) ->
    for_each inner (fun iv =>
      sid <- Embedder.stream_of d ;;
      Embedder.on_page sid (Embedder.append_frame key (fst iv) (snd iv)))
      e = (Ok tt, e1) ->
    accounts e1 = accounts e
    /\ (forall other, other <> sid ->
          Dict.get other (Embedder._embedder e1)
          = Dict.get other (Embedder._embedder e))
    /\ Embedder.arrays (page_at sid e1) = Embedder.arrays (page_at sid e)
    /\ Embedder.scalars (page_at sid e1) = Embedder.scalars (page_at sid e)
    /\ (forall ik iv, In (ik, iv) inner ->
          frame_at key ik (page_at sid e1)
          = frame_at key ik (page_at sid e) ++ [iv])
    /\ (forall k ik, k <> key \/ ~ In ik (Dict.keys inner) ->
          frame_at k ik (page_at sid e1) = frame_at k ik (page_at sid e)).
Proof.
  induction inner as [|[ik0 iv0] r IH]; intros e e1 Hnd Hsid H; simpl in H.
  - inversion H; subst. repeat split; auto. intros ik iv [].
  - rewrite (bind_ok _ _ _ _ _ (on_stream_page e d sid _ Hsid)) in H.
    inversion Hnd as [|? ? Hnotin Hnd']; subst.
    apply IH in H; [|exact Hnd'|exact Hsid].
    destruct H as (Hacc & Hoth & Harr & Hsc & Hin & Hout).
    rewrite page_at_on_page in Harr, Hsc, Hin, Hout.
    split; [exact Hacc|]. split.
    { intros other Hne. rewrite (Hoth other Hne).
      now apply other_on_page. }
    split; [exact Harr|]. split; [exact Hsc|]. split.
    + intros ik iv [Heq|Hr].
      * inversion Heq; subst. rewrite Hout by (right; exact Hnotin).
        rewrite frame_at_append. now rewrite !String.eqb_refl.
      * rewrite (Hin ik iv Hr). rewrite frame_at_append.
        destruct (String.eqb ik ik0) eqn:E; [|now rewrite andb_false_r].
        apply String.eqb_eq in E. subst ik0. exfalso. apply Hnotin.
        apply (in_map fst) in Hr. exact Hr.
    + intros k ik Hcase. rewrite Hout.
      * rewrite frame_at_append.
        destruct (String.eqb k key) eqn:E; [|reflexivity].
        destruct (String.eqb ik ik0) eqn:E'; [|reflexivity].
        apply String.eqb_eq in E. apply String.eqb_eq in E'. subst.
        destruct Hcase as [Hc|Hc]; [congruence|].
        exfalso. apply Hc. simpl. now left.
      * destruct Hcase as [Hc|Hc]; [now left|].
        right. intros Hi. apply Hc. simpl. now right.
Qed.
End BufferRunsFacts.

Section BufferPages.
Context {encoder : Bson}.

Lemma get_in {V} k (v : V) (d : Dict.t V) :
  Dict.get k d = Some v -> In (k, v) d.
Proof.
  induction d as [|[k' v'] r IH]; simpl; [discriminate|].
  destruct (String.eqb k k') eqn:E.
  - apply String.eqb_eq in E. intros H. inversion H; subst. now left.
  - intros H. right. auto.
Qed.

(** What one turn of the loop of [insert] does to the page of the stream. *)
Lemma embed_item_page ak dk e d sid k v e1 :
  Embedder._array_keys e = ak -> Embedder._dataframe_keys e = dk ->
  Dict.get (Embedder._stream_id_key e) d = Some (VStr sid) ->
  (forall inner, Dict.get k d = Some (VDict inner) ->
                 NoDup (Dict.keys inner)) ->
  Embedder.embed_item d (k, v) e = (Ok tt, e1) ->
  accounts e1 = accounts e
  /\ (forall other, other <> sid ->
        Dict.get other (Embedder._embedder e1)
        = Dict.get other (Embedder._embedder e))
  /\ (forall k',
        array_at k' (page_at sid e1)
        = if Embedder.key_in k ak && String.eqb k' k
          then array_at k' (page_at sid e) ++ [v]
          else array_at k' (page_at sid e))
  /\ (forall k',
        Dict.get k' (Embedder.scalars (page_at sid e1))
        = if negb (Embedder.key_in k ak) && negb (Embedder.key_in k dk)
             && String.eqb k' k
          then Some v
          else Dict.get k' (Embedder.scalars (page_at sid e)))
  /\ (forall k' ik, k' <> k ->
        frame_at k' ik (page_at sid e1) = frame_at k' ik (page_at sid e))
  /\ (Embedder.key_in k ak = false -> Embedder.key_in k dk = true ->
      exists inner,
        Dict.get k d = Some (VDict inner)
        /\ (forall ik iv, In (ik, iv) inner ->
              frame_at k ik (page_at sid e1)
              = frame_at k ik (page_at sid e) ++ [iv])
        /\ (forall ik, ~ In ik (Dict.keys inner) ->
              frame_at k ik (page_at sid e1)
              = frame_at k ik (page_at sid e))).
Proof.
  intros Hak Hdk Hsid Hinner H.
  unfold Embedder.embed_item in H. unfold bind at 1, get at 1 in H.
  rewrite Hak, Hdk in H.
  destruct (Embedder.key_in k ak) eqn:Ea.
  - rewrite (on_stream_page e d sid _ Hsid) in H.
    assert (Hp : page_at sid e1
                 = Embedder.append_array k v (page_at sid e))
      by (injection H as <-; apply page_at_on_page).
    rewrite Hp.
    split; [injection H as <-; reflexivity|].
    split; [injection H as <-; intros; now apply other_on_page|].
    split; [intros k'; simpl; apply array_at_append|].
    split; [intros k'; reflexivity|].
    split; [intros; reflexivity|].
    intros Hf; discriminate.
  - destruct (Embedder.key_in k dk) eqn:Ed.
    + destruct (bind_inv _ _ _ _ _ H)
        as [(inner & e0 & H1 & H2)|[(ex & _ & Hr)|[_ Hr]]];
        try discriminate.
      unfold Embedder.items_of in H1.
      destruct (Dict.get k d) as [[| | | | |inner']|] eqn:Hget;
        unfold raise, ret in H1; try discriminate.
      inversion H1; subst inner' e0.
      destruct (append_frames_page d k sid inner e e1
                  (Hinner inner eq_refl) Hsid H2)
        as (Hacc & Hoth & Harr & Hsc & Hin & Hout).
      split; [exact Hacc|]. split; [exact Hoth|].
      split. { intros k'. simpl. unfold array_at. now rewrite Harr. }
      split. { intros k'. simpl. now rewrite Hsc. }
      split. { intros k' ik Hne. apply Hout. now left. }
      intros _ _. exists inner. split; [reflexivity|]. split; [exact Hin|].
      intros ik Hni. apply Hout. now right.
    + rewrite (on_stream_page e d sid _ Hsid) in H.
      assert (Hp : page_at sid e1
                   = Embedder.set_scalar k v (page_at sid e))
        by (injection H as <-; apply page_at_on_page).
      rewrite Hp.
      split; [injection H as <-; reflexivity|].
      split; [injection H as <-; intros; now apply other_on_page|].
      split; [intros k'; reflexivity|].
      split.
      { intros k'. simpl. destruct (String.eqb k' k) eqn:E.
        - apply String.eqb_eq in E. subst k'. apply get_set_same.
        - apply String.eqb_neq in E. now apply get_set_other. }
      split; [intros; reflexivity|].
      intros _ Hf; discriminate.
Qed.

(** The loop of [insert] touches the page of the document's stream only. *)
Lemma embed_all_others d sid skey (x : string -> option Embedder.Page) items :
  Dict.get skey d = Some (VStr sid) ->
  preserves (fun e => Embedder._stream_id_key e = skey
                      /\ forall other, other <> sid ->
                           Dict.get other (Embedder._embedder e) = x other)
            (for_each items (Embedder.embed_item d)).
Proof.
  intros Hsid.
  assert (Hpage : forall f,
             preserves (fun e => Embedder._stream_id_key e = skey
                                 /\ forall other, other <> sid ->
                                      Dict.get other (Embedder._embedder e)
                                      = x other)
                       (sid <- Embedder.stream_of d ;;
                        Embedder.on_page sid f)).
  { intros f s r s' H [Hk Ho].
    assert (Hs : Dict.get (Embedder._stream_id_key s) d = Some (VStr sid))
      by (rewrite Hk; exact Hsid).
    rewrite (on_stream_page s d sid f Hs) in H.
    assert (Hs' : s' = snd (Embedder.on_page sid f s)) by congruence.
    subst s'. split; [exact Hk|].
    intros other Hne. rewrite other_on_page by exact Hne. now apply Ho. }
  apply preserves_for_each. intros [k v]. unfold Embedder.embed_item.
  apply preserves_bind; [apply preserves_get|]. intros e.
  destruct (Embedder.key_in k (Embedder._array_keys e)); [apply Hpage|].
  destruct (Embedder.key_in k (Embedder._dataframe_keys e));
    [|apply Hpage].
  apply preserves_bind; [apply items_of_keeps|]. intros inner.
  apply preserves_for_each. intros iv. apply Hpage.
Qed.

Lemma embed_all_page ak dk d sid items :
  forall e e1,
    Embedder._array_keys e = ak -> Embedder._dataframe_keys e = dk ->
    Dict.get (Embedder._stream_id_key e) d = Some (VStr sid) ->
    (forall k inner, Dict.get k d = Some (VDict inner) ->
                     NoDup (Dict.keys inner)) ->
    NoDup (Dict.keys items) ->
    for_each items (Embedder.embed_item d) e = (Ok tt, e1) ->
    (forall k v, In (k, v) items -> Embedder.key_in k ak = true ->
       array_at k (page_at sid e1) = array_at k (page_at sid e) ++ [v])
    /\ (forall k v, In (k, v) items ->
          Embedder.key_in k ak = false -> Embedder.key_in k dk = false ->
          Dict.get k (Embedder.scalars (page_at sid e1)) = Some v)
    /\ (forall k v, In (k, v) items ->
          Embedder.key_in k ak = false -> Embedder.key_in k dk = true ->
          exists inner,
            Dict.get k d = Some (VDict inner)
            /\ (forall ik iv, In (ik, iv) inner ->
                  frame_at k ik (page_at sid e1)
                  = frame_at k ik (page_at sid e) ++ [iv])
            /\ (forall ik, ~ In ik (Dict.keys inner) ->
                  frame_at k ik (page_at sid e1)
                  = frame_at k ik (page_at sid e)))
    /\ (forall k, ~ In k (Dict.keys items) ->
          array_at k (page_at sid e1) = array_at k (page_at sid e)
          /\ Dict.get k (Embedder.scalars (page_at sid e1))
             = Dict.get k (Embedder.scalars (page_at sid e))
          /\ forall ik, frame_at k ik (page_at sid e1)
                        = frame_at k ik (page_at sid e)).
Proof.
  induction items as [|[k0 v0] r IH];
    intros e e1 Hak Hdk Hsid Hinner Hnd H; simpl in H.
  - inversion H; subst.
    split; [intros k v []|]. split; [intros k v []|].
    split; [intros k v []|]. intros k _. repeat split.
  - destruct (bind_inv _ _ _ _ _ H)
      as [([] & em & H1 & H2)|[(ex & _ & Hr)|[_ Hr]]]; try discriminate.
    destruct (embed_item_page ak dk e d sid k0 v0 em Hak Hdk Hsid
                (Hinner k0) H1)
      as (Hacc1 & Hoth1 & Harr1 & Hsc1 & Hfr1 & Hdf1).
    unfold accounts in Hacc1.
    inversion Hacc1 as [[Hcs' Hss' Hmax' Hak' Hdk' Hkey']].
    inversion Hnd as [|? ? Hnotin Hnd']; subst.
    destruct (IH em e1) as (Harr2 & Hsc2 & Hdf2 & Hout2); auto.
    { now rewrite Hkey'. }
    assert (Hother : forall k v, In (k, v) r -> String.eqb k k0 = false).
    { intros k v Hin. apply String.eqb_neq. intros ->. apply Hnotin.
      apply (in_map fst) in Hin. exact Hin. }
    split; [|split; [|split]].
    + intros k v [Heq|Hin] Ha.
      * inversion Heq; subst.
        destruct (Hout2 k Hnotin) as (Ha2 & _ & _).
        rewrite Ha2, Harr1, Ha, String.eqb_refl. reflexivity.
      * rewrite (Harr2 k v Hin Ha), Harr1, (Hother k v Hin).
        now rewrite andb_false_r.
    + intros k v [Heq|Hin] Ha Hd.
      * inversion Heq; subst.
        destruct (Hout2 k Hnotin) as (_ & Hs2 & _).
        rewrite Hs2, Hsc1, Ha, Hd, String.eqb_refl. reflexivity.
      * exact (Hsc2 k v Hin Ha Hd).
    + intros k v [Heq|Hin] Ha Hd.
      * inversion Heq; subst.
        destruct (Hout2 k Hnotin) as (_ & _ & Hf2).
        destruct (Hdf1 Ha Hd) as (inner & Hget & Hin1 & Hout1).
        exists inner. split; [exact Hget|]. split.
        -- intros ik iv Hi. rewrite Hf2. now apply Hin1.
        -- intros ik Hi. rewrite Hf2. now apply Hout1.
      * destruct (Hdf2 k v Hin Ha Hd) as (inner & Hget & Hin2 & Hout2').
        assert (Hne : k <> k0).
        { apply String.eqb_neq. exact (Hother k v Hin). }
        exists inner. split; [exact Hget|]. split.
        -- intros ik iv Hi. rewrite (Hin2 ik iv Hi).
           now rewrite (Hfr1 k ik Hne).
        -- intros ik Hi. rewrite (Hout2' ik Hi). now apply Hfr1.
    + intros k Hk.
      assert (Hne : k <> k0) by (intros ->; apply Hk; simpl; now left).
      assert (Hk' : ~ In k (Dict.keys r))
        by (intros Hi; apply Hk; simpl; now right).
      destruct (Hout2 k Hk') as (Ha2 & Hs2 & Hf2).
      apply String.eqb_neq in Hne.
      split; [|split].
      * rewrite Ha2, Harr1, Hne. now rewrite andb_false_r.
      * rewrite Hs2, Hsc1, Hne. now rewrite andb_false_r.
      * intros ik. rewrite Hf2. apply Hfr1.
        now apply String.eqb_neq.
Qed.

(** How an [insert] that returned went. *)
Lemma insert_returned e d r e' :
  Embedder.insert d e = (Ok r, e') ->
  (r = Some d /\ e' = e
   /\ Embedder.current_size e + Embedder.doc_size d > Embedder._max_size e)
  \/ (r = None
      /\ Embedder.current_size e + Embedder.doc_size d
         <= Embedder._max_size e
      /\ exists sid e1,
           Dict.get (Embedder._stream_id_key e) d = Some (VStr sid)
           /\ for_each d (Embedder.embed_item d) e = (Ok tt, e1)
           /\ accounts e1 = accounts e
           /\ e' = Embedder.with_stream_size
                     (Dict.add sid (Embedder.doc_size d)
                               (Embedder.stream_size e1))
                     (Embedder.with_current_size
                        (Embedder.current_size e1 + Embedder.doc_size d)
                        e1)).
Proof.
  unfold Embedder.insert. unfold bind at 1, get at 1.
  destruct (_ >? _) eqn:Hfit.
  - intros H. inversion H; subst. left.
    rewrite Z.gtb_ltb in Hfit. apply Z.ltb_lt in Hfit.
    split; [reflexivity|]. split; [reflexivity|]. lia.
  - intros H. right. rewrite Z.gtb_ltb in Hfit. apply Z.ltb_ge in Hfit.
    destruct (bind_inv _ _ _ _ _ H)
      as [([] & e1 & H1 & H2)|[(ex & _ & Hr)|[_ Hr]]]; try discriminate.
    pose proof (embed_all_accounts (accounts e) d d e _ e1 H1 eq_refl)
      as Hacc.
    unfold bind at 1, modify at 1 in H2.
    destruct (bind_inv _ _ _ _ _ H2)
      as [(sid & e2 & H3 & H4)|[(ex & _ & Hr)|[_ Hr]]]; try discriminate.
    unfold Embedder.stream_of, bind, get in H3. simpl in H3.
    destruct (Dict.get (Embedder._stream_id_key e1) d)
      as [[| | |sid'| |]|] eqn:Hsid;
      unfold raise, ret in H3; try discriminate.
    inversion H3; subst sid' e2.
    unfold bind, modify, ret in H4. inversion H4; subst.
    split; [reflexivity|]. split; [lia|].
    exists sid, e1. unfold accounts in Hacc.
    inversion Hacc as [[Hcs Hss Hmax Hak Hdk Hkey]].
    split; [congruence|]. split; [exact H1|].
    split; [unfold accounts; congruence|]. reflexivity.
Qed.

(** X3.  When every key of a document is its own ([NoDup]) and the
    document was consumed, each array field's value is now the last
    element of that field's list in the page of the document's stream,
    each item of a dataframe field is the last element of its column, every
    other field holds the document's value, the fields the document does
    not have are as before, and the pages of the other streams are as
    before. *)
Theorem insert_appends (e : Embedder.t) (d : doc) (sid : string)
    (e' : Embedder.t) :
  NoDup (Dict.keys d) ->
  (forall k inner, In (k, VDict inner) d -> NoDup (Dict.keys inner)) ->
  Dict.get (Embedder._stream_id_key e) d = Some (VStr sid) ->
  Embedder.insert d e = (Ok None, e') ->
  (forall k v, In (k, v) d ->
     Embedder.key_in k (Embedder._array_keys e) = true ->
     array_at k (page_at sid e') = array_at k (page_at sid e) ++ [v])
  /\ (forall k inner ik iv, In (k, VDict inner) d ->
        Embedder.key_in k (Embedder._array_keys e) = false ->
        Embedder.key_in k (Embedder._dataframe_keys e) = true ->
        In (ik, iv) inner ->
        frame_at k ik (page_at sid e')
        = frame_at k ik (page_at sid e) ++ [iv])
  /\ (forall k v, In (k, v) d ->
        Embedder.key_in k (Embedder._array_keys e) = false ->
        Embedder.key_in k (Embedder._dataframe_keys e) = false ->
        Dict.get k (Embedder.scalars (page_at sid e')) = Some v)
  /\ (forall k, ~ In k (Dict.keys d) ->
        array_at k (page_at sid e') = array_at k (page_at sid e)
        /\ Dict.get k (Embedder.scalars (page_at sid e'))
           = Dict.get k (Embedder.scalars (page_at sid e))
        /\ forall ik, frame_at k ik (page_at sid e')
                      = frame_at k ik (page_at sid e))
  /\ (forall other, other <> sid -> page_at other e' = page_at other e).
Proof.
  intros Hnd Hinner Hsid H.
  destruct (insert_returned e d None e' H)
    as [(Hr & _)|(_ & Hfit & sid' & e1 & Hsid' & Hloop & Hacc & He')];
    [discriminate|].
  assert (sid' = sid) by congruence. subst sid'.
  assert (Hpage : forall x, page_at x e' = page_at x e1)
    by (intros x; subst e'; reflexivity).
  destruct (embed_all_page (Embedder._array_keys e)
              (Embedder._dataframe_keys e) d sid d e e1 eq_refl eq_refl
              Hsid)
    as (Harr & Hsc & Hdf & Hout); auto.
  { intros k inner Hget. apply (Hinner k). now apply get_in. }
  rewrite !Hpage.
  split; [exact Harr|]. split.
  { intros k inner ik iv Hin Ha Hd Hi.
    destruct (Hdf k (VDict inner) Hin Ha Hd) as (inner' & Hget & Hin' & _).
    rewrite (in_get k (VDict inner) d Hnd Hin) in Hget.
    inversion Hget; subst inner'. now apply Hin'. }
  split; [exact Hsc|]. split; [exact Hout|].
  intros other Hne. rewrite Hpage. unfold page_at, Dict.get_default.
  pose proof (embed_all_others d sid (Embedder._stream_id_key e)
                (fun o => Dict.get o (Embedder._embedder e)) d Hsid
                e _ e1 Hloop) as Hoth.
  destruct Hoth as [_ Hoth]; [split; [reflexivity|auto]|].
  now rewrite (Hoth other Hne).
Qed.
End BufferPages.

Section BufferAccounts.
Context {encoder : Bson}.

Lemma stream_of_missing {A} e d (k : string -> M Embedder.t A) :
  Dict.get (Embedder._stream_id_key e) d = None ->
  bind (Embedder.stream_of d) k e
  = (Raise (Exn KeyError (Embedder._stream_id_key e) None), e).
Proof.
  intros H. unfold Embedder.stream_of, bind, get. now rewrite H.
Qed.

Lemma embed_item_no_stream e d kv :
  Dict.get (Embedder._stream_id_key e) d = None ->
  exists r, Embedder.embed_item d kv e = (r, e) /\ r <> Blocked.
Proof.
  intros Hnone. destruct kv as [key v].
  unfold Embedder.embed_item. unfold bind at 1, get at 1.
  destruct (Embedder.key_in key (Embedder._array_keys e)).
  { eexists. split; [now apply stream_of_missing|discriminate]. }
  destruct (Embedder.key_in key (Embedder._dataframe_keys e)).
  2:{ eexists. split; [now apply stream_of_missing|discriminate]. }
  unfold bind at 1, Embedder.items_of.
  destruct (Dict.get key d) as [[| | | | |[|iv r]]|];
    try (eexists; split; [reflexivity|discriminate]).
  cbn [for_each ret]. unfold bind at 1.
  rewrite stream_of_missing by exact Hnone.
  eexists. split; [reflexivity|discriminate].
Qed.

Lemma embed_all_no_stream d items :
  forall e,
    Dict.get (Embedder._stream_id_key e) d = None ->
    exists r, for_each items (Embedder.embed_item d) e = (r, e)
              /\ r <> Blocked.
Proof.
  induction items as [|kv r IH]; intros e Hnone; cbn [for_each].
  - eexists. split; [reflexivity|discriminate].
  - unfold bind at 1.
    destruct (embed_item_no_stream e d kv Hnone) as ([[]|ex|] & H & Hb);
      rewrite H.
    + now apply IH.
    + eexists. split; [reflexivity|discriminate].
    + contradiction.
Qed.

(** X4.  A document without the stream key ([descriptor] for events,
    [resource] for data) that fits the buffer is never consumed: [insert]
    raises, and no page and no stream size has changed.  When the
    document's first field is not a dataframe field the error is the
    [KeyError] of the stream key and the buffer is exactly as before; for
    the empty document the [KeyError] comes after [current_size] has
    grown by the document's length. *)
Theorem insert_needs_stream (e : Embedder.t) (d : doc) :
  Dict.get (Embedder._stream_id_key e) d = None ->
  Embedder.current_size e + Embedder.doc_size d <= Embedder._max_size e ->
  (exists ex e',
     Embedder.insert d e = (Raise ex, e')
     /\ Embedder._embedder e' = Embedder._embedder e
     /\ Embedder.stream_size e' = Embedder.stream_size e
     /\ configuration e' = configuration e
     /\ (Embedder.current_size e' = Embedder.current_size e
         \/ Embedder.current_size e'
            = Embedder.current_size e + Embedder.doc_size d))
  /\ (forall k v r, d = (k, v) :: r ->
        Embedder.key_in k (Embedder._dataframe_keys e) = false ->
        Embedder.insert d e
        = (Raise (Exn KeyError (Embedder._stream_id_key e) None), e))
  /\ (d = [] ->
      Embedder.insert d e
      = (Raise (Exn KeyError (Embedder._stream_id_key e) None),
         Embedder.with_current_size
           (Embedder.current_size e + Embedder.doc_size d) e)).
Proof.
  intros Hnone Hfit.
  assert (Hgo : (Embedder.current_size e + Embedder.doc_size d
                   >? Embedder._max_size e) = false).
  { rewrite Z.gtb_ltb. apply Z.ltb_ge. lia. }
  split; [|split].
  - unfold Embedder.insert. unfold bind at 1, get at 1. rewrite Hgo.
    unfold bind at 1.
    destruct (embed_all_no_stream d d e Hnone) as ([[]|ex|] & H & Hb);
      rewrite H.
    + unfold bind at 1, modify at 1.
      rewrite stream_of_missing by exact Hnone.
      eexists. eexists. split; [reflexivity|]. simpl.
      split; [reflexivity|]. split; [reflexivity|].
      split; [reflexivity|]. now right.
    + exists ex, e. split; [reflexivity|]. split; [reflexivity|].
      split; [reflexivity|]. split; [reflexivity|]. now left.
    + contradiction.
  - intros k v r -> Hdf.
    unfold Embedder.insert. unfold bind at 1, get at 1. rewrite Hgo.
    unfold bind at 1. cbn [for_each]. unfold bind at 1.
    unfold Embedder.embed_item. unfold bind at 1, get at 1.
    rewrite Hdf.
    destruct (Embedder.key_in k (Embedder._array_keys e));
      rewrite stream_of_missing by exact Hnone; reflexivity.
  - intros ->.
    unfold Embedder.insert. unfold bind at 1, get at 1. rewrite Hgo.
    unfold bind at 1. cbn [for_each ret].
    unfold bind at 1, modify at 1.
    rewrite stream_of_missing by exact Hnone. reflexivity.
Qed.

(** What a run of calls that all returned keeps. *)
Lemma returned_run_keeps max ops :
  forall e,
    all_returned ops e = true ->
    Embedder._max_size e = max ->
    Embedder.current_size e <= max ->
    Embedder.current_size e = Dict.sum (Embedder.stream_size e) ->
    Forall (fun kv => 0 <= snd kv) (Embedder.stream_size e) ->
    (forall sid, Dict.mem sid (Embedder._embedder e) = true ->
                 Dict.mem sid (Embedder.stream_size e) = true) ->
    let e' := run_ops ops e in
    Embedder.current_size e' <= max
    /\ Embedder.current_size e' = Dict.sum (Embedder.stream_size e')
    /\ Forall (fun kv => 0 <= snd kv) (Embedder.stream_size e')
    /\ (forall sid, Dict.mem sid (Embedder._embedder e') = true ->
                    Dict.mem sid (Embedder.stream_size e') = true).
Proof.
  induction ops as [|o r IH]; intros e Hall Hmax Hle Hsum Hpos Hmem;
    [simpl; auto|].
  cbn [all_returned] in Hall. apply andb_true_iff in Hall.
  destruct Hall as [Ho Hr]. cbn [run_ops fold_left].
  change (fold_left apply_op r (apply_op e o))
    with (run_ops r (apply_op e o)).
  destruct o as [d|]; cbn [apply_op] in *.
  - destruct (Embedder.insert d e) as [[res|ex|] e'] eqn:E;
      try discriminate. cbn [snd] in *.
    destruct (insert_returned e d res e' E)
      as [(_ & -> & _)
         |(_ & Hfit & sid & e1 & Hsid & Hloop & Hacc & ->)].
    { apply IH; auto. }
    unfold accounts in Hacc.
    inversion Hacc as [[Hcs Hss Hmax' Hak Hdk Hkey]].
    apply IH;
      cbn [Embedder.current_size Embedder.stream_size Embedder._max_size
           Embedder._embedder Embedder.with_stream_size
           Embedder.with_current_size].
    + exact Hr.
    + congruence.
    + rewrite Hcs. lia.
    + rewrite sum_add, Hcs, Hss. lia.
    + rewrite Hss. apply nonneg_add; [apply doc_size_nonneg|exact Hpos].
    + intros x Hx. destruct (String.eqb x sid) eqn:Ex.
      * apply String.eqb_eq in Ex. subst x. apply mem_add_same.
      * apply String.eqb_neq in Ex. rewrite mem_add_other by exact Ex.
        rewrite Hss. apply Hmem.
        pose proof (embed_all_others d sid (Embedder._stream_id_key e)
                      (fun o => Dict.get o (Embedder._embedder e)) d Hsid
                      e _ e1 Hloop) as Hoth.
        destruct Hoth as [_ Hoth]; [split; [reflexivity|auto]|].
        unfold Dict.mem in *. now rewrite <- (Hoth x Ex).
  - apply IH; simpl.
    + exact Hr.
    + exact Hmax.
    + pose proof (proj2 (sizes_bounded "" _ Hpos)). lia.
    + reflexivity.
    + constructor.
    + intros sid Hf. discriminate.
Qed.

Lemma init_accounts doc_type max e0 :
  Embedder.__init__ doc_type max = Done e0 ->
  Embedder._max_size e0 = max /\ 1000 <= max
  /\ Embedder.current_size e0 = 0
  /\ Embedder.stream_size e0 = [] /\ Embedder._embedder e0 = [].
Proof.
  unfold Embedder.__init__. intros H.
  destruct (_ && _) eqn:Hr; [|discriminate].
  apply andb_true_iff in Hr. destruct Hr as [Hlo _].
  apply Z.leb_le in Hlo.
  destruct (String.eqb doc_type "event").
  - inversion H. repeat split; auto.
  - destruct (String.eqb doc_type "datum"); [|discriminate].
    inversion H. repeat split; auto.
Qed.

(** X5.  In a buffer built by the constructor, as long as no call has
    raised, the two size accounts agree: [current_size] is the sum of the
    stream sizes, it is at most [max_size], and no stream's size is
    negative or larger than [current_size]. *)
Theorem size_accounts_agree (doc_type : string) (max : Z)
    (e0 : Embedder.t) (ops : list buffer_op) :
  Embedder.__init__ doc_type max = Done e0 ->
  all_returned ops e0 = true ->
  let e := run_ops ops e0 in
  Embedder.current_size e = Dict.sum (Embedder.stream_size e)
  /\ Embedder.current_size e <= max
  /\ forall sid,
       0 <= size_of sid (Embedder.stream_size e) <= Embedder.current_size e.
Proof.
  intros Hinit Hall e.
  destruct (init_accounts doc_type max e0 Hinit)
    as (Hmax & Hlo & Hcs & Hss & Hpages).
  destruct (returned_run_keeps max ops e0 Hall Hmax)
    as (Hle & Hsum & Hpos & _).
  - lia.
  - now rewrite Hcs, Hss.
  - rewrite Hss. constructor.
  - rewrite Hpages. intros sid Hf. discriminate.
  - fold e in Hle, Hsum, Hpos.
    split; [exact Hsum|]. split; [exact Hle|].
    intros sid. rewrite Hsum. exact (proj1 (sizes_bounded sid _ Hpos)).
Qed.

(** X6.  In a buffer built by the constructor, as long as no call has
    raised, every stream that has a page has a recorded size: the lookup
    [dump_sizes[stream]] the bulk writers make for each page of a dump
    finds its key. *)
Theorem pages_have_sizes (doc_type : string) (max : Z)
    (e0 : Embedder.t) (ops : list buffer_op) :
  Embedder.__init__ doc_type max = Done e0 ->
  all_returned ops e0 = true ->
  let e := run_ops ops e0 in
  (forall sid, Dict.mem sid (Embedder._embedder e) = true ->
               Dict.mem sid (Embedder.stream_size e) = true)
  /\ forall pages sizes e',
       Embedder.dump e = (Ok (pages, sizes), e') ->
       forall entry s, In entry pages ->
         exists n, Serializer.size_for (fst entry) sizes s = (Ok n, s).
Proof.
  intros Hinit Hall e.
  destruct (init_accounts doc_type max e0 Hinit)
    as (Hmax & Hlo & Hcs & Hss & Hpages).
  destruct (returned_run_keeps max ops e0 Hall Hmax)
    as (_ & _ & _ & Hmem).
  - lia.
  - now rewrite Hcs, Hss.
  - rewrite Hss. constructor.
  - rewrite Hpages. intros sid Hf. discriminate.
  - fold e in Hmem. split; [exact Hmem|].
    intros pages sizes e' Hdump [sid page] s Hin.
    rewrite dump_clears in Hdump. inversion Hdump; subst.
    pose proof (Hmem sid (in_mem sid page _ Hin)) as Hsize.
    unfold Dict.mem in Hsize. unfold Serializer.size_for. simpl.
    destruct (Dict.get sid (Embedder.stream_size e)) as [n|];
      [|discriminate].
    exists n. reflexivity.
Qed.

Lemma insert_within max d :
  preserves (fun e => 0 <= Embedder.current_size e <= max
                      /\ Embedder._max_size e = max)
            (Embedder.insert d).
Proof.
  intros e r e' H [Hcs Hmax].
  unfold Embedder.insert in H. unfold bind at 1, get at 1 in H.
  destruct (_ >? _) eqn:Hfit.
  { inversion H; subst. auto. }
  rewrite Z.gtb_ltb in Hfit. apply Z.ltb_ge in Hfit.
  pose proof (doc_size_nonneg d) as Hd.
  assert (Hrest : preserves
            (fun e1 => Embedder._max_size e1 = max
                       /\ Embedder.current_size e1
                          = Embedder.current_size e + Embedder.doc_size d)
            (sid <- Embedder.stream_of d ;;
             modify (fun e =>
               Embedder.with_stream_size
                 (Dict.add sid (Embedder.doc_size d)
                           (Embedder.stream_size e)) e) ;;
             ret (@None doc))).
  { apply preserves_bind; [apply stream_of_keeps|]. intros sid.
    apply preserves_bind; [|intros; apply preserves_ret].
    apply preserves_modify. intros x Hx. exact Hx. }
  destruct (bind_inv _ _ _ _ _ H)
    as [([] & e1 & H1 & H2)|[(ex & H1 & _)|[H1 _]]];
    pose proof (embed_all_accounts (accounts e) d d e _ _ H1 eq_refl)
      as Hacc;
    unfold accounts in Hacc;
    inversion Hacc as [[Hcs' Hss' Hmax' Hak Hdk Hkey]].
  - unfold bind at 1, modify at 1 in H2.
    destruct (Hrest _ _ _ H2) as [Hm Hc].
    + simpl. split; [congruence|]. now rewrite Hcs'.
    + rewrite Hc, Hm. split; [lia|reflexivity].
  - rewrite Hcs', Hmax'. auto.
  - rewrite Hcs', Hmax'. auto.
Qed.

(** X7.  Whatever is inserted and dumped, and however the calls end, the
    buffer never holds more than it was built for: [current_size] stays
    between 0 and [max_size]. *)
Theorem buffer_never_overfull (doc_type : string) (max : Z)
    (e0 : Embedder.t) (ops : list buffer_op) :
  Embedder.__init__ doc_type max = Done e0 ->
  0 <= Embedder.current_size (run_ops ops e0) <= max
  /\ Embedder._max_size (run_ops ops e0) = max.
Proof.
  intros Hinit.
  destruct (init_accounts doc_type max e0 Hinit)
    as (Hmax & Hlo & Hcs & _).
  assert (H0 : 0 <= Embedder.current_size e0 <= max
               /\ Embedder._max_size e0 = max) by (split; [lia|exact Hmax]).
  clear Hinit Hcs Hmax. revert e0 H0.
  induction ops as [|o r IH]; intros e He; [exact He|].
  cbn [run_ops fold_left].
  change (fold_left apply_op r (apply_op e o))
    with (run_ops r (apply_op e o)).
  apply IH. destruct o as [d|]; unfold apply_op.
  - destruct (Embedder.insert d e) as [res e'] eqn:E.
    exact (insert_within max d e res e' E He).
  - rewrite dump_clears. simpl. destruct He as [_ Hm].
    split; [lia|exact Hm].
Qed.
End BufferAccounts.

(** ** The pipeline: what each call leaves alone *)

Import Mongo Serializer.

Lemma preserves_fold_m {A B} (P : t -> Prop) (xs : list A) (acc : B)
    (body : B -> A -> M t B) :
  (forall acc x, preserves P (body acc x)) ->
  preserves P (fold_m xs acc body).
Proof.
  intros Hb. revert acc. induction xs as [|x r IH]; intros acc; simpl.
  - apply preserves_ret.
  - apply preserves_bind; auto.
Qed.

Create HintDb pipeline.
#[local] Hint Unfold _insert_header _set_header on_db on_event_embedder
  on_datum_embedder size_for missing_argument defaultdict_attribute
  _check_start single_stream assert _bulkwrite_event _bulkwrite_datum
  _updateone_eventpage _updateone_datumpage : pipeline.

(** Breaks a computation of the pipeline down to the places where it writes
    the state. *)
Ltac keeps :=
  repeat first
    [ apply preserves_ret
    | apply preserves_raise
    | apply preserves_lift
    | apply preserves_get
    | apply preserves_bind; [|intros ?]
    | apply preserves_for_each; intros ?
    | apply preserves_comprehension; intros ?
    | apply preserves_fold_m; intros ? ?
    | apply preserves_modify; intros ? ?; assumption
    | apply preserves_zoom_frame; intros ? ? ?; assumption
    | match goal with
      | |- preserves _ (match ?x with _ => _ end) => destruct x
      end
    | progress cbv zeta
    | progress autounfold with pipeline ].

Section PipelineFrames.
Context {encoder : Bson}.

Lemma set_header_keeps (P : t -> Prop) name d :
  (forall x s, P s -> P (with_volatile_db x s)) ->
  preserves P (_set_header name d).
Proof. intros H. keeps. apply preserves_zoom_frame. exact H. Qed.

Lemma check_start_found d s r s' :
  _check_start d s = (r, s') -> _start_found s' = true.
Proof.
  unfold _check_start, bind, get. destruct (_start_found s) eqn:E.
  - intros H. inversion H; subst. exact E.
  - intros H. inversion H; subst. reflexivity.
Qed.

Lemma start_found d s :
  _start_found (snd (start d s)) = true.
Proof.
  destruct (start d s) as [r s'] eqn:E. simpl. unfold start in E.
  destruct (bind_inv _ _ _ _ _ E)
    as [(a & s1 & H1 & H2)|[(e & H1 & _)|[H1 _]]];
    try (eapply check_start_found; eassumption).
  apply check_start_found in H1.
  assert (Hk : preserves (fun s => _start_found s = true)
                 (uid <- lift (py_getitem (VDict d) "uid") ;;
                  modify (with_run_uid uid) ;;
                  _insert_header "start" (VDict d) ;;
                  _insert_header "event_count" (VDict d) ;;
                  _insert_header "datum_count" (VDict d) ;;
                  ret d)) by keeps.
  exact (Hk s1 r s' H2 H1).
Qed.

(** C7.  After a call of [start], whatever its outcome, a further call of
    [start] raises the usage error and changes nothing: the pipeline,
    with its run identifier and the header collection of the volatile
    store, is as it was before the call.  The same holds when the
    document arrives through [__call__]. *)
Theorem second_start_rejected (s : t) (d1 d2 : doc) :
  let s1 := snd (start d1 s) in
  start d2 s1 = (Raise two_starts, s1)
  /\ _run_uid (snd (start d2 s1)) = _run_uid s1
  /\ header (_volatile_db (snd (start d2 s1))) = header (_volatile_db s1)
  /\ exists e, __call__ NStart d2 s1 = (Raise e, s1).
Proof.
  intros s1.
  assert (Hfound : _start_found s1 = true) by apply start_found.
  assert (Hstart : start d2 s1 = (Raise two_starts, s1)).
  { unfold start, _check_start, bind, get. now rewrite Hfound. }
  rewrite Hstart. repeat split.
  unfold __call__, bind, get.
  destruct (_worker_error s1) as [error|]; [eexists; reflexivity|].
  destruct (_frozen s1); [eexists; reflexivity|].
  unfold dispatch, bind. rewrite Hstart. eexists. reflexivity.
Qed.

(** C8.  [event_page] and [datum_page] raise on every document and in
    every state, and leave the pipeline as it was: nothing is written to
    the volatile store and no document is returned. *)
Theorem page_handlers_raise (s : t) (d : doc) :
  (exists e, event_page d s = (Raise e, s))
  /\ (exists e, datum_page d s = (Raise e, s))
  /\ (exists e, __call__ NEventPage d s = (Raise e, s))
  /\ (exists e, __call__ NDatumPage d s = (Raise e, s)).
Proof.
  assert (He : exists e, event_page d s = (Raise e, s)).
  { unfold event_page, single_stream, bind, lift, missing_argument, raise.
    unfold py_getitem.
    destruct (Dict.get "descriptor" d) as [k|];
      [destruct (hashable k)|]; eexists; reflexivity. }
  assert (Hd : exists e, datum_page d s = (Raise e, s)).
  { unfold datum_page, single_stream, bind, lift, missing_argument, raise.
    unfold py_getitem.
    destruct (Dict.get "resource" d) as [k|];
      [destruct (hashable k)|]; eexists; reflexivity. }
  repeat split; auto.
  - unfold __call__, bind, get.
    destruct (_worker_error s) as [error|]; [eexists; reflexivity|].
    destruct (_frozen s); [eexists; reflexivity|].
    destruct He as [e He]. unfold dispatch, bind. rewrite He.
    eexists. reflexivity.
  - unfold __call__, bind, get.
    destruct (_worker_error s) as [error|]; [eexists; reflexivity|].
    destruct (_frozen s); [eexists; reflexivity|].
    destruct Hd as [e Hd]. unfold dispatch, bind. rewrite Hd.
    eexists. reflexivity.
Qed.

(** On a page with a hashable stream identifier the error is the missing
    argument of the bulk writer. *)
Lemma event_page_missing_argument s d k :
  Dict.get "descriptor" d = Some k -> hashable k = true ->
  event_page d s
  = (Raise (Exn TypeError
                "_bulkwrite_event() missing 1 required positional argument: 'dump_sizes'"
                None), s).
Proof.
  intros Hk Hh.
  unfold event_page, single_stream, bind, lift, py_getitem.
  rewrite Hk, Hh. reflexivity.
Qed.

(** C3.  When the datum worker flushes a buffer that is not empty, the
    buffer is dumped and the call of the bulk writer raises
    [AttributeError] before anything is sent: the volatile store and the
    datum insert counters are as before, and the dumped documents are in
    neither the buffer nor the store. *)
Theorem datum_flush_raises (s : t) :
  Embedder.empty (_datum_embedder s) = false ->
  exists s',
    datum_flush s = (Raise no_dump_sizes, s')
    /\ _volatile_db s' = _volatile_db s
    /\ _db_datum_count s' = _db_datum_count s
    /\ _datum_count s' = _datum_count s
    /\ _datum_embedder s' = cleared (_datum_embedder s).
Proof.
  intros Hne. unfold datum_flush, bind, get. rewrite Hne. simpl.
  eexists. split; [reflexivity|]. repeat split.
Qed.

(** The iteration of the datum worker that finds its queue empty and its
    buffer not: the worker fails, its error is recorded, and neither the
    store nor the insert counters have changed. *)
Lemma datum_worker_dies_on_flush late s :
  status (datum_thread s) = Running ->
  local (datum_thread s) = None ->
  _datum_queue s = [] ->
  Embedder.empty (_datum_embedder s) = false ->
  status (datum_thread (_datum_worker late s)) = Failed no_dump_sizes
  /\ _worker_error (_datum_worker late s) = Some no_dump_sizes
  /\ _volatile_db (_datum_worker late s) = _volatile_db s
  /\ _db_datum_count (_datum_worker late s) = _db_datum_count s.
Proof.
  intros Hst Hlocal Hq Hne.
  unfold _datum_worker, _try_wrapper, _datum_worker_iteration, bind, get.
  rewrite Hst, Hlocal, Hq. simpl.
  unfold datum_flush, bind, get. simpl. rewrite Hne. simpl.
  repeat split.
Qed.

(** Once the two local variables of the count worker refer to the
    pipeline's own counters, a wake compares each total with itself. *)
Lemma aliased_wake_is_silent (s : t) :
  last_event_count (count_thread s) = SelfDbEventCount ->
  last_datum_count (count_thread s) = SelfDbDatumCount ->
  _count_worker_iteration s = (Ok tt, s).
Proof.
  intros He Hd. unfold _count_worker_iteration, bind, get.
  rewrite He, Hd. simpl.
  rewrite !Z.gtb_ltb, !Z.ltb_irrefl. reflexivity.
Qed.

(** The wake that writes the counts makes the two variables refer to the
    pipeline's counters. *)
Lemma updating_wake_aliases (s s' : t) :
  (Dict.sum (_db_event_count s)
     >? Dict.sum (deref (last_event_count (count_thread s)) s))
  || (Dict.sum (_db_datum_count s)
        >? Dict.sum (deref (last_datum_count (count_thread s)) s)) = true ->
  _count_worker_iteration s = (Ok tt, s') ->
  last_event_count (count_thread s') = SelfDbEventCount
  /\ last_datum_count (count_thread s') = SelfDbDatumCount.
Proof.
  intros Hcond. unfold _count_worker_iteration. unfold bind at 1, get at 1.
  rewrite Hcond. intros H.
  destruct (bind_inv _ _ _ _ _ H)
    as [(a & s1 & H1 & H2)|[(e & H1 & Hr)|[H1 Hr]]]; try discriminate.
  inversion H2; subst. split; reflexivity.
Qed.

Lemma event_iteration_count_thread x late :
  preserves (fun s => count_thread s = x) (_event_worker_iteration late).
Proof. unfold _event_worker_iteration, event_flush. keeps. Qed.

Lemma datum_iteration_count_thread x late :
  preserves (fun s => count_thread s = x) (_datum_worker_iteration late).
Proof. unfold _datum_worker_iteration, datum_flush. keeps. Qed.

(** No iteration of any worker undoes the sharing: from the first write on,
    the two variables refer to the pipeline's counters for good. *)
Lemma sharing_is_permanent tk s :
  last_event_count (count_thread s) = SelfDbEventCount ->
  last_datum_count (count_thread s) = SelfDbDatumCount ->
  last_event_count (count_thread (step tk s)) = SelfDbEventCount
  /\ last_datum_count (count_thread (step tk s)) = SelfDbDatumCount.
Proof.
  intros He Hd. destruct tk as [late|late|]; simpl.
  - unfold _event_worker. destruct (status (event_thread s)); auto.
    unfold _try_wrapper.
    destruct (_event_worker_iteration late s) as [[u|e|] s'] eqn:E;
      pose proof (event_iteration_count_thread (count_thread s) late
                    s _ s' E eq_refl) as H; simpl; rewrite H; auto.
  - unfold _datum_worker. destruct (status (datum_thread s)); auto.
    unfold _try_wrapper.
    destruct (_datum_worker_iteration late s) as [[u|e|] s'] eqn:E;
      pose proof (datum_iteration_count_thread (count_thread s) late
                    s _ s' E eq_refl) as H; simpl; rewrite H; auto.
  - unfold _count_worker. destruct (count_status (count_thread s)); auto.
    unfold _try_wrapper. rewrite (aliased_wake_is_silent s He Hd).
    destruct (_frozen s); simpl; auto.
Qed.

(** C9.  After one wake has written the counts to the header, no later
    wake writes anything, however much the totals have grown since: the
    wake returns with the pipeline, and so the header, unchanged. *)
Theorem count_worker_goes_quiet (s s1 s2 : t) :
  (Dict.sum (_db_event_count s)
     >? Dict.sum (deref (last_event_count (count_thread s)) s))
  || (Dict.sum (_db_datum_count s)
        >? Dict.sum (deref (last_datum_count (count_thread s)) s)) = true ->
  _count_worker_iteration s = (Ok tt, s1) ->
  count_thread s2 = count_thread s1 ->
  _count_worker_iteration s2 = (Ok tt, s2)
  /\ _count_worker s2
      = (if stopped (count_status (count_thread s2)) then s2
         else if _frozen s2 then
           with_count_thread
             (with_count_status Finished (count_thread s2)) s2
         else s2).
Proof.
  intros Hcond Hwake Hsame.
  destruct (updating_wake_aliases s s1 Hcond Hwake) as [He Hd].
  rewrite <- Hsame in He, Hd.
  pose proof (aliased_wake_is_silent s2 He Hd) as Hquiet.
  split; [exact Hquiet|].
  unfold _count_worker, _try_wrapper. rewrite Hquiet.
  destruct (count_status (count_thread s2)); reflexivity.
Qed.
End PipelineFrames.

(** ** A document larger than the buffer *)

Section Oversize.
Context {encoder : Bson}.

Lemma datum_iteration_event_side x late :
  preserves (fun s => event_side s = x) (_datum_worker_iteration late).
Proof. unfold _datum_worker_iteration, datum_flush. keeps. Qed.

Lemma count_iteration_event_side x :
  preserves (fun s => event_side s = x) _count_worker_iteration.
Proof. unfold _count_worker_iteration. keeps. Qed.

Lemma datum_worker_event_side late s :
  event_side (_datum_worker late s) = event_side s.
Proof.
  unfold _datum_worker. destruct (status (datum_thread s)); auto.
  unfold _try_wrapper.
  destruct (_datum_worker_iteration late s) as [[u|e|] s'] eqn:E;
    pose proof (datum_iteration_event_side (event_side s) late s _ s' E
                  eq_refl) as H; exact H.
Qed.

Lemma count_worker_event_side s :
  event_side (_count_worker s) = event_side s.
Proof.
  unfold _count_worker. destruct (count_status (count_thread s)); auto.
  unfold _try_wrapper.
  destruct (_count_worker_iteration s) as [[u|e|] s'] eqn:E;
    pose proof (count_iteration_event_side (event_side s) s _ s' E
                  eq_refl) as H; [destruct (_frozen s')|..]; exact H.
Qed.

Lemma event_flush_keeps_holding max d :
  preserves (fun s => local (event_thread s) = Some (Doc d)
                      /\ status (event_thread s) = Running
                      /\ sound_buffer max (_event_embedder s))
            event_flush.
Proof.
  unfold event_flush. keeps.
  apply (preserves_zoom _ (sound_buffer max)).
  - apply dump_sound.
  - intros s (_ & _ & H). exact H.
  - intros x s (Hl & Hs & _) Hx. split; [exact Hl|split; [exact Hs|exact Hx]].
Qed.

Lemma event_worker_keeps_stuck max d late s :
  Embedder.doc_size d > max ->
  stuck_with max d s -> stuck_with max d (_event_worker late s).
Proof.
  intros Hbig (Hlocal & Hstatus & Hsound).
  unfold _event_worker.
  destruct (status (event_thread s)) eqn:Hst;
    try (split; [exact Hlocal|split; [congruence|exact Hsound]]).
  unfold _try_wrapper.
  destruct (_event_worker_iteration late s) as [r s'] eqn:E.
  unfold _event_worker_iteration in E.
  unfold bind at 1, get at 1 in E. rewrite Hlocal in E.
  unfold bind at 1, ret at 1 in E. simpl in E.
  unfold bind at 1 in E. unfold bind at 1 in E.
  unfold on_event_embedder, zoom in E.
  rewrite (oversize_rejected max _ d Hsound Hbig) in E.
  unfold ret at 1 in E. simpl in E.
  unfold bind at 1, modify at 1 in E.
  match type of E with
  | event_flush ?s2 = _ =>
      assert (H2 : local (event_thread s2) = Some (Doc d)
                   /\ status (event_thread s2) = Running
                   /\ sound_buffer max (_event_embedder s2))
        by (split; [reflexivity|split; [exact Hst|exact Hsound]])
  end.
  pose proof (event_flush_keeps_holding max d _ _ _ E H2)
    as (Hl' & Hs' & Hb').
  destruct r as [u|e|]; unfold stuck_with; simpl.
  - unfold after_iteration. rewrite Hl'.
    split; [exact Hl'|split; [congruence|exact Hb']].
  - split; [exact Hl'|split; [discriminate|exact Hb']].
  - split; [exact Hl'|split; [congruence|exact Hb']].
Qed.

Lemma step_keeps_stuck max d tk s :
  Embedder.doc_size d > max ->
  stuck_with max d s -> stuck_with max d (step tk s).
Proof.
  intros Hbig Hs. destruct tk as [late|late|]; simpl.
  - now apply event_worker_keeps_stuck.
  - pose proof (datum_worker_event_side late s) as H.
    unfold event_side in H. inversion H as [[Ht He Hq]].
    unfold stuck_with. rewrite Ht, He. exact Hs.
  - pose proof (count_worker_event_side s) as H.
    unfold event_side in H. inversion H as [[Ht He Hq]].
    unfold stuck_with. rewrite Ht, He. exact Hs.
Qed.

Lemma run_ticks_keeps_stuck max d ticks :
  Embedder.doc_size d > max ->
  forall s, stuck_with max d s -> stuck_with max d (run_ticks ticks s).
Proof.
  intros Hbig. induction ticks as [|tk r IH]; intros s Hs; simpl; auto.
  apply IH. now apply step_keeps_stuck.
Qed.

(** The iteration that takes the document from the queue leaves the
    worker holding it. *)
Lemma dequeue_gets_stuck max d q late s :
  Embedder.doc_size d > max ->
  status (event_thread s) = Running ->
  local (event_thread s) = None ->
  _event_queue s = Doc d :: q ->
  sound_buffer max (_event_embedder s) ->
  stuck_with max d (_event_worker late s)
  /\ _event_queue (_event_worker late s) = q.
Proof.
  intros Hbig Hst Hlocal Hq Hsound.
  unfold _event_worker. rewrite Hst.
  unfold _try_wrapper.
  destruct (_event_worker_iteration late s) as [r s'] eqn:E.
  unfold _event_worker_iteration in E.
  unfold bind at 1, get at 1 in E. rewrite Hlocal, Hq in E.
  unfold bind at 1 in E. unfold bind at 1, modify at 1, ret at 1 in E.
  simpl in E.
  unfold bind at 1 in E. unfold bind at 1 in E.
  unfold on_event_embedder, zoom in E. simpl in E.
  rewrite (oversize_rejected max _ d Hsound Hbig) in E.
  unfold ret at 1 in E. simpl in E.
  unfold bind at 1, modify at 1 in E.
  match type of E with
  | event_flush ?s2 = _ =>
      assert (H2 : (local (event_thread s2) = Some (Doc d)
                    /\ status (event_thread s2) = Running
                    /\ sound_buffer max (_event_embedder s2))
                   /\ _event_queue s2 = q)
        by (split; [split; [reflexivity|split; [exact Hst|exact Hsound]]
                   |reflexivity])
  end.
  destruct H2 as [H2 H2q].
  pose proof (event_flush_keeps_holding max d _ _ _ E H2)
    as (Hl' & Hs' & Hb').
  assert (Hq' : _event_queue s' = q).
  { assert (Hk : preserves (fun s => _event_queue s = q) event_flush)
      by (unfold event_flush; keeps).
    exact (Hk _ _ _ E H2q). }
  destruct r as [u|e|]; unfold stuck_with; simpl.
  - unfold after_iteration. rewrite Hl'.
    split; [split; [exact Hl'|split; [congruence|exact Hb']]|exact Hq'].
  - split; [split; [exact Hl'|split; [discriminate|exact Hb']]|exact Hq'].
  - split; [split; [exact Hl'|split; [congruence|exact Hb']]|exact Hq'].
Qed.

(** C10.  A document whose encoded length exceeds [max_size] is handed
    back by [insert] whatever was inserted or dumped before, the buffer
    being left as it was; and a worker that holds such a document still
    holds it after any number of iterations of the workers, without ever
    reaching the end of its loop. *)
Theorem oversize_is_never_consumed :
  (forall doc_type max e0 d ops,
      Embedder.__init__ doc_type max = Done e0 ->
      Embedder.doc_size d > max ->
      Embedder.insert d (run_ops ops e0) = (Ok (Some d), run_ops ops e0))
  /\ (forall max d s ticks,
        Embedder.doc_size d > max ->
        sound_buffer max (_event_embedder s) ->
        local (event_thread s) = Some (Doc d) ->
        status (event_thread s) = Running ->
        let s' := run_ticks ticks s in
        local (event_thread s') = Some (Doc d)
        /\ status (event_thread s') <> Finished
        /\ Embedder.insert d (_event_embedder s')
           = (Ok (Some d), _event_embedder s')).
Proof.
  split.
  - intros doc_type max e0 d ops Hinit Hbig.
    apply (oversize_rejected max); auto.
    apply run_ops_sound. eapply init_sound; eauto.
  - intros max d s ticks Hbig Hsound Hlocal Hst s'.
    assert (Hs : stuck_with max d s).
    { split; [exact Hlocal|split; [congruence|exact Hsound]]. }
    destruct (run_ticks_keeps_stuck max d ticks Hbig s Hs)
      as (Hl & Hn & Hb).
    split; [exact Hl|split; [exact Hn|]].
    now apply (oversize_rejected max).
Qed.
End Oversize.

(** ** Outcomes *)

Lemma hoare_bind {S A B} (Pre : S -> Prop) (Mid : outcome A -> S -> Prop)
    (Post : outcome B -> S -> Prop) (c : M S A) (k : A -> M S B) :
  hoare Pre c Mid ->
  (forall a, hoare (Mid (Ok a)) (k a) Post) ->
  (forall e s, Mid (Raise e) s -> Post (Raise e) s) ->
  (forall s, Mid Blocked s -> Post Blocked s) ->
  hoare Pre (bind c k) Post.
Proof.
  intros Hc Hk Hraise Hblocked s r s' H Hpre.
  destruct (bind_inv _ _ _ _ _ H)
    as [(a & s1 & H1 & H2)|[(e & H1 & Hr)|[H1 Hr]]].
  - eapply Hk; eauto.
  - subst r. apply Hraise. eapply Hc; eauto.
  - subst r. apply Hblocked. eapply Hc; eauto.
Qed.

Lemma hoare_modify {S} (Pre : S -> Prop) (f : S -> S)
    (Post : outcome unit -> S -> Prop) :
  (forall s, Pre s -> Post (Ok tt) (f s)) -> hoare Pre (modify f) Post.
Proof. intros H s r s' E Hpre. inversion E; subst. auto. Qed.

Lemma hoare_get {S} (Pre : S -> Prop) (Post : outcome S -> S -> Prop) :
  (forall s, Pre s -> Post (Ok s) s) -> hoare Pre get Post.
Proof. intros H s r s' E Hpre. inversion E; subst. auto. Qed.

(** ** The store: writes that cannot be refused *)

Lemma set_field_ok k v (d : doc) :
  split_dots k = [k] -> String.eqb k "" = false ->
  apply_update [SetField k v] d = Done (Dict.set k v d).
Proof.
  intros Hpath Hne. simpl. rewrite Hpath. simpl. rewrite Hne. reflexivity.
Qed.

Lemma update_first_set_field k v f c :
  split_dots k = [k] -> String.eqb k "" = false ->
  update_first f [SetField k v] c = None
  \/ exists c', update_first f [SetField k v] c = Some (Done c').
Proof.
  intros Hpath Hne. induction c as [|d r IH]; cbn [update_first].
  - now left.
  - destruct (matches f d).
    + right. rewrite set_field_ok by assumption. simpl. eauto.
    + destruct IH as [IH|[c' IH]]; rewrite IH; [now left|].
      right. simpl. eauto.
Qed.

Section FreezeOnError.
Context {encoder : Bson}.

(** [_set_header] on a plain field name ends normally unless the store
    refuses the write. *)
Lemma set_header_outcome name v s r s' :
  split_dots name = [name] -> String.eqb name "" = false ->
  _set_header name v s = (r, s') ->
  r = Ok tt
  \/ exists e0, r = Raise e0 /\ fault (_volatile_db s') = Some e0.
Proof.
  intros Hpath Hne.
  unfold _set_header, on_db, zoom, update_one, available.
  unfold bind at 1, get at 1.
  unfold bind at 1. unfold bind at 1, get at 1.
  destruct (fault (_volatile_db s)) as [e0|] eqn:Hf.
  - simpl. intros H. inversion H; subst. right. exists e0. split; auto.
  - unfold ret at 1. unfold bind at 1, get at 1. unfold lift, run_update.
    simpl uo_filter. simpl uo_update. simpl uo_upsert.
    destruct (update_first_set_field name v
                [Eq "run_id" (_run_uid s)]
                (coll Header (_volatile_db s)) Hpath Hne)
      as [Hu|[c' Hu]]; rewrite Hu.
    + simpl. intros H. inversion H; subst. now left.
    + simpl. intros H. inversion H; subst. now left.
Qed.

Lemma event_iteration_control x late :
  preserves (fun s => control s = x) (_event_worker_iteration late).
Proof. unfold _event_worker_iteration, event_flush. keeps. Qed.

Lemma datum_iteration_control x late :
  preserves (fun s => control s = x) (_datum_worker_iteration late).
Proof. unfold _datum_worker_iteration, datum_flush. keeps. Qed.

Lemma count_iteration_control x :
  preserves (fun s => control s = x) _count_worker_iteration.
Proof. unfold _count_worker_iteration. keeps. Qed.

Lemma recorded_while_later s0 s s2 e' :
  recorded_while s0 s e' ->
  (status (event_thread s) = Failed e' ->
   status (event_thread s2) = Failed e') ->
  (status (datum_thread s) = Failed e' ->
   status (datum_thread s2) = Failed e') ->
  (count_status (count_thread s) = Failed e' ->
   count_status (count_thread s2) = Failed e') ->
  recorded_while s0 s2 e'.
Proof.
  intros [[H0 H]|[[H0 H]|[H0 H]]] He Hd Hc.
  - left. auto.
  - right. left. auto.
  - right. right. auto.
Qed.

(** [draining] looks at [control] only. *)
Lemma draining_frame s0 e s s2 :
  control s2 = control s -> draining s0 e s -> draining s0 e s2.
Proof.
  unfold control. intros Hc. inversion Hc as [[Hp Hw Hes Hds Hcs]].
  intros [Dp De Dd Dc (e' & Dw & Dor)]. constructor.
  - congruence.
  - rewrite Hes. exact De.
  - rewrite Hds. exact Dd.
  - rewrite Hcs. exact Dc.
  - exists e'. split; [congruence|].
    destruct Dor as [Heq|R]; [now left|right].
    apply (recorded_while_later s0 s s2 e' R); congruence.
Qed.

Lemma draining_keeps {A} s0 e (c : M t A) :
  (forall x, preserves (fun s => control s = x) c) ->
  preserves (draining s0 e) c.
Proof.
  intros H s r s' E D.
  apply (draining_frame s0 e s s'); auto.
  exact (H (control s) s r s' E eq_refl).
Qed.

Lemma event_worker_draining s0 e late s :
  draining s0 e s -> draining s0 e (_event_worker late s).
Proof.
  intros D. unfold _event_worker.
  destruct (status (event_thread s)) eqn:Hst; auto.
  unfold _try_wrapper.
  destruct (_event_worker_iteration late s) as [[u|e2|] s1] eqn:E;
    pose proof (event_iteration_control (control s) late s _ s1 E eq_refl)
      as Hc;
    unfold control in Hc; inversion Hc as [[Hp Hw Hes Hds Hcs]];
    destruct D as [Dp De Dd Dc (e' & Dw & Dor)].
  - constructor; simpl.
    + congruence.
    + intros _. auto.
    + rewrite Hds. exact Dd.
    + rewrite Hcs. exact Dc.
    + exists e'. split; [congruence|].
      destruct Dor as [Heq|R]; [now left|right].
      apply (recorded_while_later s0 s _ e' R); simpl; congruence.
  - constructor; simpl.
    + congruence.
    + discriminate.
    + rewrite Hds. exact Dd.
    + rewrite Hcs. exact Dc.
    + exists e2. split; [reflexivity|]. right. left. split; auto.
  - apply (draining_frame s0 e s s1).
    + unfold control. congruence.
    + constructor; eauto.
Qed.

Lemma datum_worker_draining s0 e late s :
  draining s0 e s -> draining s0 e (_datum_worker late s).
Proof.
  intros D. unfold _datum_worker.
  destruct (status (datum_thread s)) eqn:Hst; auto.
  unfold _try_wrapper.
  destruct (_datum_worker_iteration late s) as [[u|e2|] s1] eqn:E;
    pose proof (datum_iteration_control (control s) late s _ s1 E eq_refl)
      as Hc;
    unfold control in Hc; inversion Hc as [[Hp Hw Hes Hds Hcs]];
    destruct D as [Dp De Dd Dc (e' & Dw & Dor)].
  - constructor; simpl.
    + congruence.
    + rewrite Hes. exact De.
    + intros _. auto.
    + rewrite Hcs. exact Dc.
    + exists e'. split; [congruence|].
      destruct Dor as [Heq|R]; [now left|right].
      apply (recorded_while_later s0 s _ e' R); simpl; congruence.
  - constructor; simpl.
    + congruence.
    + rewrite Hes. exact De.
    + discriminate.
    + rewrite Hcs. exact Dc.
    + exists e2. split; [reflexivity|]. right. right. left. split; auto.
  - apply (draining_frame s0 e s s1).
    + unfold control. congruence.
    + constructor; eauto.
Qed.

Lemma count_worker_draining s0 e s :
  draining s0 e s -> draining s0 e (_count_worker s).
Proof.
  intros D. unfold _count_worker.
  destruct (count_status (count_thread s)) eqn:Hst; auto.
  unfold _try_wrapper.
  destruct (_count_worker_iteration s) as [[u|e2|] s1] eqn:E;
    pose proof (count_iteration_control (control s) s _ s1 E eq_refl)
      as Hc;
    unfold control in Hc; inversion Hc as [[Hp Hw Hes Hds Hcs]];
    destruct D as [Dp De Dd Dc (e' & Dw & Dor)].
  - destruct (_frozen s1).
    + constructor; simpl.
      * congruence.
      * rewrite Hes. exact De.
      * rewrite Hds. exact Dd.
      * discriminate.
      * exists e'. split; [congruence|].
        destruct Dor as [Heq|R]; [now left|right].
        apply (recorded_while_later s0 s _ e' R); simpl; congruence.
    + apply (draining_frame s0 e s s1).
      * unfold control. congruence.
      * constructor; eauto.
  - constructor; simpl.
    + congruence.
    + rewrite Hes. exact De.
    + rewrite Hds. exact Dd.
    + discriminate.
    + exists e2. split; [reflexivity|]. right. right. right. split; auto.
  - apply (draining_frame s0 e s s1).
    + unfold control. congruence.
    + constructor; eauto.
Qed.

Lemma step_draining s0 e tk s :
  draining s0 e s -> draining s0 e (step tk s).
Proof.
  destruct tk as [late|late|]; simpl.
  - apply event_worker_draining.
  - apply datum_worker_draining.
  - apply count_worker_draining.
Qed.

Lemma await_draining s0 e ready :
  hoare (draining s0 e) (await ready)
        (fun r s' => draining s0 e s' /\ no_raise r).
Proof.
  unfold await. intros s r s' E D. revert E.
  generalize (env s) as sch. intros sch. revert s D.
  induction sch as [|tk sch IH]; intros s D; simpl.
  - destruct (ready s); intros E; inversion E; subst; split;
      simpl; auto; apply (draining_frame s0 e s); auto.
  - destruct (ready s).
    + intros E; inversion E; subst. split; simpl; auto.
      apply (draining_frame s0 e s); auto.
    + apply IH. now apply step_draining.
Qed.

Lemma put_event_draining s0 e x :
  hoare (draining s0 e) (put_event x)
        (fun r s' => draining s0 e s' /\ no_raise r).
Proof.
  unfold put_event.
  apply (hoare_bind _ (fun r s' => draining s0 e s' /\ no_raise r)).
  - apply await_draining.
  - intros []. apply hoare_modify. intros s [D _]. split; simpl; auto.
    apply (draining_frame s0 e s); auto.
  - intros e0 s [_ []].
  - intros s [D _]. split; simpl; auto.
Qed.

Lemma put_datum_draining s0 e x :
  hoare (draining s0 e) (put_datum x)
        (fun r s' => draining s0 e s' /\ no_raise r).
Proof.
  unfold put_datum.
  apply (hoare_bind _ (fun r s' => draining s0 e s' /\ no_raise r)).
  - apply await_draining.
  - intros []. apply hoare_modify. intros s [D _]. split; simpl; auto.
    apply (draining_frame s0 e s); auto.
  - intros e0 s [_ []].
  - intros s [D _]. split; simpl; auto.
Qed.

Lemma set_header_draining s0 e name v :
  split_dots name = [name] -> String.eqb name "" = false ->
  hoare (draining s0 e) (_set_header name v)
        (fun r s' =>
           draining s0 e s'
           /\ (r = Ok tt
               \/ exists e0, r = Raise e0
                             /\ fault (_volatile_db s') = Some e0)).
Proof.
  intros Hpath Hne s r s' E D. split.
  - revert E D. apply draining_keeps. intros x.
    apply set_header_keeps. intros y s1 H. exact H.
  - eapply set_header_outcome; eauto.
Qed.

Lemma freeze_drain_on_error s0 e :
  hoare (draining s0 e) freeze_drain
        (fun r s' => draining s0 e s' /\ ends_on_error r s').
Proof.
  unfold freeze_drain.
  pose (Mid := fun (r : outcome unit) s' =>
                 draining s0 e s' /\ no_raise r).
  assert (Hraise : forall e0 s, Mid (Raise e0) s ->
                                draining s0 e s
                                /\ ends_on_error (@Raise unit e0) s)
    by (intros e0 s [_ []]).
  assert (Hblocked : forall s, Mid Blocked s ->
                               draining s0 e s
                               /\ ends_on_error (@Blocked unit) s)
    by (intros s [D _]; split; simpl; auto).
  assert (Hpre : forall a s, Mid (Ok a) s -> draining s0 e s)
    by (intros a s [D _]; exact D).
  assert (Hweak : forall (c : M t unit) Post,
             hoare (draining s0 e) c Post ->
             forall a, hoare (Mid (Ok a)) c Post).
  { intros c Post Hc a s r s' E Hm. eapply Hc; eauto. }
  apply (hoare_bind _ Mid); auto.
  { apply hoare_modify. intros s D. split; simpl; auto.
    apply (draining_frame s0 e s); auto. }
  apply Hweak. apply (hoare_bind _ Mid); auto.
  { apply put_event_draining. }
  apply Hweak. apply (hoare_bind _ Mid); auto.
  { apply put_datum_draining. }
  apply Hweak. apply (hoare_bind _ Mid); auto.
  { apply hoare_modify. intros s D. split; simpl; auto.
    apply (draining_frame s0 e s); auto. }
  apply Hweak. apply (hoare_bind _ Mid); auto.
  { apply await_draining. }
  apply Hweak. apply (hoare_bind _ Mid); auto.
  { apply await_draining. }
  apply Hweak. apply (hoare_bind _ Mid); auto.
  { apply await_draining. }
  apply Hweak.
  apply (hoare_bind _ (fun r s' => draining s0 e s' /\ exists a, r = Ok a)).
  { apply hoare_get. intros s D. split; eauto. }
  2:{ intros e0 s [_ [a Ha]]. discriminate. }
  2:{ intros s [_ [a Ha]]. discriminate. }
  intros s1.
  pose (Mid2 := fun (r : outcome unit) s' =>
                  draining s0 e s'
                  /\ (r = Ok tt
                      \/ exists e0, r = Raise e0
                                    /\ fault (_volatile_db s') = Some e0)).
  assert (Hraise2 : forall e0 s, Mid2 (Raise e0) s ->
                                 draining s0 e s
                                 /\ ends_on_error (@Raise unit e0) s).
  { intros e0 s [D [H|(e1 & H & Hf)]]; [discriminate|].
    inversion H; subst. split; simpl; auto. }
  assert (Hblocked2 : forall s, Mid2 Blocked s ->
                                draining s0 e s
                                /\ ends_on_error (@Blocked unit) s)
    by (intros s [D _]; split; simpl; auto).
  apply (hoare_bind _ Mid2); auto.
  { intros s r s' E [D _]. revert E D.
    apply set_header_draining; reflexivity. }
  intros ?.
  apply (hoare_bind _ Mid2); auto.
  { intros s r s' E [D _]. revert E D.
    apply set_header_draining; reflexivity. }
  intros ?.
  apply (hoare_bind _ (fun r s' => draining s0 e s' /\ r = Ok s')).
  { apply hoare_get. intros s [D _]. split; auto. }
  2:{ intros e0 s [_ H]. discriminate. }
  2:{ intros s [_ H]. discriminate. }
  intros s2 s r s' E [D Hr]. inversion Hr; subst s2.
  destruct (dr_error _ _ _ D) as (e' & Hw & _).
  rewrite Hw in E. inversion E; subst. split; auto.
  simpl. right. exists e'. auto.
Qed.

Lemma freeze_on_error s0 e uid :
  hoare (draining s0 e) (freeze uid)
        (fun r s' => draining s0 e s' /\ ends_on_error r s').
Proof.
  unfold freeze.
  apply (hoare_bind _ (fun r s' => draining s0 e s' /\ ends_on_error r s')).
  - apply freeze_drain_on_error.
  - intros a s r s' _ [_ []].
  - intros e0 s H. exact H.
  - intros s H. exact H.
Qed.

Lemma draining_start s e :
  _worker_error s = Some e -> draining s e s.
Proof. intros H. constructor; auto. exists e. auto. Qed.

(** C6, as the code has it.  With a worker error recorded, every document
    handed to [__call__] is refused with a [RuntimeError] caused by that
    error, and the pipeline is unchanged.  [freeze] never ends normally
    and leaves the permanent store as it was; unless it is still waiting
    or the store refuses one of its two count writes, it raises a
    [RuntimeError] caused by the worker error recorded at that moment:
    the one recorded before, or the one of a worker that failed while
    [freeze] waited for it. *)
Theorem worker_error_is_raised (s : t) (e : exn) :
  _worker_error s = Some e ->
  (forall name d, __call__ name d s = (Raise (worker_exception e), s))
  /\ (forall uid r s',
        freeze uid s = (r, s') ->
        _permanent_db s' = _permanent_db s
        /\ (r = Blocked
            \/ (exists e0, r = Raise e0
                           /\ fault (_volatile_db s') = Some e0)
            \/ (exists e', r = Raise (worker_exception e')
                           /\ _worker_error s' = Some e'
                           /\ (e' = e \/ recorded_while s s' e')))).
Proof.
  intros Herr. split.
  - intros name d. unfold __call__, bind, get. now rewrite Herr.
  - intros uid r s' E.
    destruct (freeze_on_error s e uid s r s' E (draining_start s e Herr))
      as [D Hend].
    split; [apply (dr_permanent _ _ _ D)|].
    destruct r as [u|e0|]; simpl in Hend.
    + contradiction.
    + destruct Hend as [Hf|(e' & He0 & Hw)].
      * right. left. eauto.
      * right. right. exists e'. subst e0. repeat split; auto.
        destruct (dr_error _ _ _ D) as (e2 & Hw2 & Hor).
        rewrite Hw in Hw2. inversion Hw2; subst. exact Hor.
    + now left.
Qed.
End FreezeOnError.

(** ** Freeze: the comparison fails *)

Section FreezeMismatch.
Context {encoder : Bson}.

Lemma hoare_fold_m {A B} (P : t -> Prop) (I : B -> Prop)
    (body : B -> A -> M t B) :
  (forall acc x, I acc ->
     hoare P (body acc x)
           (fun r s' => P s' /\ forall b, r = Ok b -> I b)) ->
  forall xs acc, I acc ->
    hoare P (fold_m xs acc body)
          (fun r s' => P s' /\ forall b, r = Ok b -> I b).
Proof.
  intros Hbody. induction xs as [|x xs IH]; intros acc Hacc; simpl.
  - intros s r s' E HP. inversion E; subst. split; auto.
    intros b Hb. inversion Hb; subst. exact Hacc.
  - intros s r s' E HP.
    destruct (bind_inv _ _ _ _ _ E)
      as [(a & s1 & H1 & H2)|[(e & H1 & Hr)|[H1 Hr]]].
    + destruct (Hbody acc x Hacc s _ s1 H1 HP) as [HP1 HI].
      exact (IH a (HI a eq_refl) s1 r s' H2 HP1).
    + destruct (Hbody acc x Hacc s _ s' H1 HP) as [HP1 _].
      subst r. split; auto. discriminate.
    + destruct (Hbody acc x Hacc s _ s' H1 HP) as [HP1 _].
      subst r. split; auto. discriminate.
Qed.

(** Reading the volatile store changes nothing and returns documents of
    the collection read. *)
Lemma find_volatile v c f :
  hoare (fun s => _volatile_db s = v) (on_db Volatile (find c f))
        (fun r s' => _volatile_db s' = v
                     /\ forall docs, r = Ok docs ->
                                     forall d, In d docs -> In d (coll c v)).
Proof.
  intros s r s' E Hv. unfold on_db, zoom, find, available in E.
  unfold bind at 1 in E. unfold bind at 1, get at 1 in E.
  destruct (fault (_volatile_db s)) as [e0|].
  - simpl in E. inversion E; subst. split; auto. discriminate.
  - simpl in E. inversion E; subst. split; auto.
    intros docs Hd d Hin. inversion Hd; subst.
    apply filter_In in Hin. tauto.
Qed.

Lemma find_one_volatile v c f :
  hoare (fun s => _volatile_db s = v) (on_db Volatile (find_one c f))
        (fun r s' => _volatile_db s' = v
                     /\ forall d, r = Ok (Some d) -> In d (coll c v)).
Proof.
  intros s r s' E Hv. unfold on_db, zoom, find_one, available in E.
  unfold bind at 1 in E. unfold bind at 1, get at 1 in E.
  destruct (fault (_volatile_db s)) as [e0|].
  - simpl in E. inversion E; subst. split; auto. discriminate.
  - simpl in E. inversion E; subst. split; auto.
    intros d Hd. inversion Hd as [Hfind].
    apply find_some in Hfind. tauto.
Qed.

Lemma within_app v r c docs :
  within v r -> (forall d, In d docs -> In d (coll c v)) ->
  within v (r ++ map (pair c) docs).
Proof.
  intros Hr Hdocs c' d Hin. apply in_app_or in Hin.
  destruct Hin as [Hin|Hin]; [now apply Hr|].
  apply in_map_iff in Hin. destruct Hin as (d' & Heq & Hin).
  inversion Heq; subst. now apply Hdocs.
Qed.

Lemma gather_within v c key (header : doc) r0 :
  within v r0 ->
  hoare (fun s => _volatile_db s = v)
        (if Dict.mem key header then
           xs <- lift (obind (py_getitem (VDict header) key) py_iter) ;;
           fold_m xs r0 (fun run x =>
             uid <- lift (py_getitem x "uid") ;;
             docs <- on_db Volatile
                       (find c [Eq (match c with
                                    | Event => "descriptor"
                                    | _ => "resource"
                                    end) uid]) ;;
             ret (run ++ map (pair c) docs))
         else ret r0)
        (fun r s' => _volatile_db s' = v
                     /\ forall run, r = Ok run -> within v run).
Proof.
  intros Hr0. destruct (Dict.mem key header).
  - apply (hoare_bind _ (fun r s' => _volatile_db s' = v)).
    + intros s r s' E Hv.
      exact (preserves_lift (fun s => _volatile_db s = v) _ s r s' E Hv).
    + intros xs. apply hoare_fold_m; auto.
      intros acc x Hacc.
      apply (hoare_bind _ (fun r s' => _volatile_db s' = v)).
      * intros s r s' E Hv.
      exact (preserves_lift (fun s => _volatile_db s = v) _ s r s' E Hv).
      * intros uid.
        apply (hoare_bind _ (fun r s' =>
                 _volatile_db s' = v
                 /\ forall docs, r = Ok docs ->
                                 forall d, In d docs -> In d (coll c v))).
        -- apply find_volatile.
        -- intros docs s r s' E [Hv Hdocs]. inversion E; subst.
           split; auto. intros b Hb. inversion Hb; subst.
           apply within_app; auto. exact (Hdocs docs eq_refl).
        -- intros e s [Hv _]. split; auto. discriminate.
        -- intros s [Hv _]. split; auto. discriminate.
      * intros e s Hv. split; auto. discriminate.
      * intros s Hv. split; auto. discriminate.
    + intros e s Hv. split; auto. discriminate.
    + intros s Hv. split; auto. discriminate.
  - intros s r s' E Hv. inversion E; subst. split; auto.
    intros run Hrun. inversion Hrun; subst. exact Hr0.
Qed.

(** [_get_run] on the volatile store leaves it as it was and returns
    documents that are in it. *)
Lemma get_run_volatile v uid :
  hoare (fun s => _volatile_db s = v) (_get_run Volatile uid)
        (fun r s' => _volatile_db s' = v
                     /\ forall run, r = Ok run -> within v run).
Proof.
  unfold _get_run.
  apply (hoare_bind _ (fun r s' =>
           _volatile_db s' = v
           /\ forall d, r = Ok (Some d) -> In d (coll Header v))).
  - apply find_one_volatile.
  - intros [header|].
    2:{ intros s r s' E [Hv _]. inversion E; subst. split; auto.
        discriminate. }
    apply (hoare_bind _ (fun r s' =>
             _volatile_db s' = v
             /\ forall run, r = Ok run -> within v run)).
    + intros s r s' E [Hv Hh]. revert s r s' E Hv.
      apply (gather_within v Event "descriptors" header).
      intros c d [Heq|[]]. inversion Heq; subst. now apply Hh.
    + intros run1.
      apply (hoare_bind _ (fun r s' =>
               _volatile_db s' = v
               /\ forall run, r = Ok run -> within v run)).
      * intros s r s' E [Hv Hw]. revert s r s' E Hv.
        apply (gather_within v Datum "resources" header).
        now apply Hw.
      * intros run2 s r s' E [Hv Hw]. inversion E; subst.
        split; auto.
      * intros e s [Hv _]. split; auto. discriminate.
      * intros s [Hv _]. split; auto. discriminate.
    + intros e s [Hv _]. split; auto. discriminate.
    + intros s [Hv _]. split; auto. discriminate.
  - intros e s [Hv _]. split; auto. discriminate.
  - intros s [Hv _]. split; auto. discriminate.
Qed.

(** Writing to and reading from the permanent store leaves the volatile
    store alone. *)
Lemma insert_run_volatile v r :
  preserves (fun s => _volatile_db s = v) (_insert_run Permanent r).
Proof. unfold _insert_run. keeps. Qed.

Lemma get_run_permanent_volatile v uid :
  preserves (fun s => _volatile_db s = v) (_get_run Permanent uid).
Proof.
  unfold _get_run. keeps.
Qed.

(** C1.  When the run read back from the permanent store differs from the
    run read from the volatile store, [freeze] raises the error of a
    failed move and deletes nothing: the volatile store is what it was
    when the run was read from it, and every document of that run is
    still in its collection. *)
Theorem freeze_mismatch_keeps_volatile
    (s s1 s2 s3 s4 : t) (uid : value) (volatile_run permanent_run : run) :
  freeze_drain s = (Ok tt, s1) ->
  _get_run Volatile uid s1 = (Ok volatile_run, s2) ->
  _insert_run Permanent volatile_run s2 = (Ok tt, s3) ->
  _get_run Permanent uid s3 = (Ok permanent_run, s4) ->
  run_eq volatile_run permanent_run = false ->
  freeze uid s = (Raise move_failed, s4)
  /\ _volatile_db s4 = _volatile_db s1
  /\ within (_volatile_db s4) volatile_run.
Proof.
  intros Hdrain Hget Hins Hback Hneq.
  destruct (get_run_volatile (_volatile_db s1) uid s1 _ s2 Hget eq_refl)
    as [Hv2 Hw].
  pose proof (insert_run_volatile (_volatile_db s1) volatile_run
                s2 _ s3 Hins Hv2) as Hv3.
  pose proof (get_run_permanent_volatile (_volatile_db s1) uid
                s3 _ s4 Hback Hv3) as Hv4.
  split; [|split].
  - unfold freeze. rewrite (bind_ok _ _ _ _ _ Hdrain).
    unfold freeze_move. rewrite (bind_ok _ _ _ _ _ Hget).
    rewrite (bind_ok _ _ _ _ _ Hins). rewrite (bind_ok _ _ _ _ _ Hback).
    rewrite Hneq. reflexivity.
  - exact Hv4.
  - rewrite Hv4. now apply Hw.
Qed.
End FreezeMismatch.

(** ** The store: one page update *)

Lemma update_at_other path f (d d' : doc) k :
  update_at path f d = Done d' -> k <> hd "" path ->
  Dict.get k d' = Dict.get k d.
Proof.
  destruct path as [|k0 rest]; simpl; [discriminate|].
  destruct (String.eqb k0 ""); [discriminate|].
  intros H Hne. destruct rest as [|k1 rest].
  - destruct (f (Dict.get k0 d)) as [v|e]; simpl in H; [|discriminate].
    inversion H; subst. now apply get_set_other.
  - destruct (Dict.get k0 d) as [[| | | | |sub]|]; try discriminate.
    + destruct (update_at (k1 :: rest) f sub) as [sub'|e]; simpl in H;
        [|discriminate].
      inversion H; subst. now apply get_set_other.
    + destruct (update_at (k1 :: rest) f []) as [sub'|e]; simpl in H;
        [|discriminate].
      inversion H; subst. now apply get_set_other.
Qed.

Lemma update_at_leaf k f (d d' : doc) :
  update_at [k] f d = Done d' ->
  exists v, f (Dict.get k d) = Done v /\ d' = Dict.set k v d.
Proof.
  simpl. destruct (String.eqb k ""); [discriminate|].
  destruct (f (Dict.get k d)) as [v|e]; simpl; [|discriminate].
  intros H. inversion H; subst. eauto.
Qed.

Lemma in_reserved_free k r :
  free_head k = true -> In r reserved -> r <> head_of k.
Proof.
  unfold free_head. intros Hfree Hin Heq. subst r.
  apply negb_true_iff in Hfree.
  assert (existsb (String.eqb (head_of k)) reserved = true).
  { apply existsb_exists. exists (head_of k). split; auto.
    apply String.eqb_refl. }
  congruence.
Qed.

(** The appends of the page writer leave its reserved fields alone. *)
Lemma pushes_keep_reserved fields :
  Forall (fun kv => free_head (fst kv) = true) fields ->
  forall (d d' : doc) r,
    apply_update (pushes fields) d = Done d' -> In r reserved ->
    Dict.get r d' = Dict.get r d.
Proof.
  induction 1 as [|[k vs] fields Hk Hall IH]; intros d d' r Hrun Hin.
  - simpl in Hrun. inversion Hrun. reflexivity.
  - unfold pushes in Hrun. cbn [map apply_update fst snd] in Hrun.
    fold (pushes fields) in Hrun.
    destruct (apply_op (PushEach k vs) d) as [d1|e] eqn:Hop;
      cbn [obind] in Hrun; [|discriminate].
    rewrite (IH d1 d' r Hrun Hin).
    destruct vs; simpl in Hop; try discriminate.
    eapply update_at_other; eauto.
    apply (in_reserved_free k r Hk Hin).
Qed.

Lemma apply_update_app u1 u2 (d : doc) :
  apply_update (u1 ++ u2) d = obind (apply_update u1 d) (apply_update u2).
Proof.
  revert d. induction u1 as [|op u1 IH]; intros d; simpl; auto.
  destruct (apply_op op d) as [d1|e]; simpl; auto.
Qed.

(** What the three closing operators of a page update do. *)
Lemma bounds_applied size a b (d d' : doc) :
  apply_update [Inc "size" size; Min "first_index" a; Max "last_index" b] d
  = Done d' ->
  Dict.get "descriptor" d' = Dict.get "descriptor" d
  /\ Dict.get "resource" d' = Dict.get "resource" d
  /\ min_with a (Dict.get "first_index" d)
     = Done (match Dict.get "first_index" d' with
             | Some v => v
             | None => VNone
             end)
  /\ max_with b (Dict.get "last_index" d)
     = Done (match Dict.get "last_index" d' with
             | Some v => v
             | None => VNone
             end)
  /\ Dict.get "first_index" d' <> None
  /\ Dict.get "last_index" d' <> None.
Proof.
  cbn [apply_update apply_op].
  change (split_dots "size") with ["size"].
  change (split_dots "first_index") with ["first_index"].
  change (split_dots "last_index") with ["last_index"].
  destruct (update_at ["size"] (inc_by size) d) as [d1|e] eqn:H1;
    [|discriminate].
  cbn [obind].
  destruct (update_at ["first_index"] (min_with a) d1) as [d2|e] eqn:H2;
    [|discriminate].
  cbn [obind].
  destruct (update_at ["last_index"] (max_with b) d2) as [d3|e] eqn:H3;
    [|discriminate].
  cbn [obind]. intros H. inversion H; subst d3. clear H.
  destruct (update_at_leaf _ _ _ _ H1) as (v1 & Hv1 & ->).
  destruct (update_at_leaf _ _ _ _ H2) as (v2 & Hv2 & ->).
  destruct (update_at_leaf _ _ _ _ H3) as (v3 & Hv3 & ->).
  rewrite !get_set_other in Hv3 by discriminate.
  rewrite !get_set_other in Hv2 by discriminate.
  repeat split.
  - now rewrite !get_set_other by discriminate.
  - now rewrite !get_set_other by discriminate.
  - rewrite get_set_other by discriminate. rewrite get_set_same. exact Hv2.
  - rewrite get_set_same. exact Hv3.
  - rewrite get_set_other by discriminate. rewrite get_set_same.
    discriminate.
  - rewrite get_set_same. discriminate.
Qed.

Lemma page_update id_key stream page_size a b op (d d' : doc) :
  page_op id_key stream page_size a b op ->
  In id_key ["descriptor"; "resource"] ->
  apply_update (uo_update op) d = Done d' ->
  Dict.get id_key d' = Dict.get id_key d
  /\ min_with a (Dict.get "first_index" d)
     = Done (match Dict.get "first_index" d' with
             | Some v => v
             | None => VNone
             end)
  /\ max_with b (Dict.get "last_index" d)
     = Done (match Dict.get "last_index" d' with
             | Some v => v
             | None => VNone
             end)
  /\ Dict.get "first_index" d' <> None
  /\ Dict.get "last_index" d' <> None.
Proof.
  intros (_ & _ & fields & size & Hupd & Hfree) Hkey Hrun.
  rewrite Hupd, apply_update_app in Hrun.
  destruct (apply_update (pushes fields) d) as [d1|e] eqn:Hpush;
    cbn [obind] in Hrun; [|discriminate].
  destruct (bounds_applied _ _ _ _ _ Hrun)
    as (Hdesc & Hres & Hmin & Hmax & Hf & Hl).
  assert (Hkeep : forall r, In r reserved ->
                            Dict.get r d1 = Dict.get r d)
    by (intros r Hr; eapply pushes_keep_reserved; eauto).
  rewrite (Hkeep "first_index") in Hmin by (simpl; tauto).
  rewrite (Hkeep "last_index") in Hmax by (simpl; tauto).
  repeat split; auto.
  destruct Hkey as [<-|[<-|[]]].
  - rewrite Hdesc. apply Hkeep. simpl. tauto.
  - rewrite Hres. apply Hkeep. simpl. tauto.
Qed.

Lemma page_range_updated id_key stream page_size a b op (d d' : doc) f l :
  page_op id_key stream page_size a b op ->
  In id_key ["descriptor"; "resource"] ->
  apply_update (uo_update op) d = Done d' ->
  page_range d = Some (f, l) ->
  page_range d' = Some (Z.min f a, Z.max l b).
Proof.
  intros Hop Hkey Hrun Hrange.
  destruct (page_update _ _ _ _ _ _ _ _ Hop Hkey Hrun)
    as (_ & Hmin & Hmax & Hf & Hl).
  unfold page_range in *.
  destruct (Dict.get "first_index" d) as [[| |f0| | |]|]; try discriminate.
  destruct (Dict.get "last_index" d) as [[| |l0| | |]|]; try discriminate.
  inversion Hrange; subst f0 l0. simpl in Hmin, Hmax.
  destruct (Dict.get "first_index" d') as [v1|]; [|contradiction].
  destruct (Dict.get "last_index" d') as [v2|]; [|contradiction].
  inversion Hmin; subst v1. inversion Hmax; subst v2. reflexivity.
Qed.

Lemma page_range_created id_key stream page_size a b op (d d' : doc) :
  page_op id_key stream page_size a b op ->
  In id_key ["descriptor"; "resource"] ->
  apply_update (uo_update op) d = Done d' ->
  Dict.get "first_index" d = None -> Dict.get "last_index" d = None ->
  page_range d' = Some (a, b).
Proof.
  intros Hop Hkey Hrun Hnf Hnl.
  destruct (page_update _ _ _ _ _ _ _ _ Hop Hkey Hrun)
    as (_ & Hmin & Hmax & Hf & Hl).
  unfold page_range. rewrite Hnf in Hmin. rewrite Hnl in Hmax.
  simpl in Hmin, Hmax.
  destruct (Dict.get "first_index" d') as [v1|]; [|contradiction].
  destruct (Dict.get "last_index" d') as [v2|]; [|contradiction].
  inversion Hmin; subst v1. inversion Hmax; subst v2. reflexivity.
Qed.

Lemma holds_eq_get k v (d d' : doc) :
  Dict.get k d' = Dict.get k d -> holds (Eq k v) d' = holds (Eq k v) d.
Proof. intros H. unfold holds. now rewrite H. Qed.

Lemma value_beq_str w s : value_beq w (VStr s) = true -> w = VStr s.
Proof.
  destruct w; simpl; try discriminate.
  intros H. apply String.eqb_eq in H. now subst.
Qed.

(** A page belongs to one stream. *)
Lemma other_stream k s1 s2 (d : doc) :
  holds (Eq k (VStr s1)) d = true -> s1 <> s2 ->
  holds (Eq k (VStr s2)) d = false.
Proof.
  unfold holds. destruct (Dict.get k d) as [w|]; [|discriminate].
  intros H Hne. apply value_beq_str in H. subst w. simpl.
  apply String.eqb_neq. exact Hne.
Qed.

(** What [update_first] finds. *)
Lemma update_first_none f u c :
  update_first f u c = None -> forall d, In d c -> matches f d = false.
Proof.
  induction c as [|x r IH]; simpl; [tauto|].
  destruct (matches f x) eqn:Hm; [discriminate|].
  destruct (update_first f u r); [discriminate|].
  intros _ d [<-|Hin]; auto.
Qed.

Lemma update_first_done f u c c' :
  update_first f u c = Some (Done c') ->
  exists front d d' back,
    c = front ++ d :: back
    /\ (forall x, In x front -> matches f x = false)
    /\ matches f d = true
    /\ apply_update u d = Done d'
    /\ c' = front ++ d' :: back.
Proof.
  revert c'. induction c as [|x r IH]; intros c'; simpl; [discriminate|].
  destruct (matches f x) eqn:Hm.
  - destruct (apply_update u x) as [x'|e] eqn:Hx; simpl; [|discriminate].
    intros H. inversion H; subst.
    exists [], x, x', r. repeat split; auto. intros y [].
  - destruct (update_first f u r) as [[r'|e]|]; simpl; try discriminate.
    intros H. inversion H; subst.
    destruct (IH r' eq_refl) as (front & d & d' & back & -> & Hf & Hd & Hu & ->).
    exists (x :: front), d, d', back. repeat split; auto.
    intros y [<-|Hy]; auto.
Qed.

(** ** Pages that follow one another *)

Lemma paged_closed_prefix P a front p back n :
  paged P a (front ++ p :: back) n -> back <> [] -> closed P p.
Proof.
  revert a. induction front as [|x front IH]; intros a; simpl.
  - intros (l & _ & _ & Hc & _) Hb. auto.
  - intros (l & _ & _ & _ & Hr) Hb. eauto.
Qed.

(** Appending a fresh page after pages that are all closed. *)
Lemma paged_append P a ps n p k :
  paged P a ps n -> (forall x, In x ps -> closed P x) ->
  page_range p = Some (n, n + k - 1) -> 0 <= k ->
  paged P a (ps ++ [p]) (n + k).
Proof.
  revert a. induction ps as [|x ps IH]; intros a; simpl.
  - intros <- _ Hp Hk. exists (a + k - 1). repeat split; auto; try lia.
    contradiction.
  - intros (l & Hx & Hle & Hc & Hr) Hall Hp Hk.
    exists l. repeat split; auto.
Qed.

(** Extending the last page. *)
Lemma paged_extend P a front p p' n f l k :
  paged P a (front ++ [p]) n ->
  page_range p = Some (f, l) ->
  page_range p' = Some (Z.min f n, Z.max l (n + k - 1)) -> 0 <= k ->
  paged P a (front ++ [p']) (n + k).
Proof.
  revert a. induction front as [|x front IH]; intros a; simpl.
  - intros (l0 & Hp & Hle & _ & <-) Hr Hp' Hk.
    rewrite Hr in Hp. inversion Hp; subst.
    exists (l0 + 1 + k - 1). repeat split; try lia; try contradiction.
    rewrite Hp'. f_equal. f_equal; lia.
  - intros (l0 & Hx & Hle & Hc & Hrest) Hr Hp' Hk.
    exists l0. split; [exact Hx|split; [exact Hle|split]].
    + intros _. apply Hc. destruct front; discriminate.
    + eapply IH; eauto.
Qed.

Lemma paged_tiles P a ps n :
  paged P a ps n ->
  exists ranges, map page_range ps = map Some ranges /\ tiles a ranges n.
Proof.
  revert a. induction ps as [|p ps IH]; intros a; simpl.
  - intros <-. exists []. split; reflexivity.
  - intros (l & Hp & Hle & _ & Hr).
    destruct (IH _ Hr) as (ranges & Hmap & Ht).
    exists ((a, l) :: ranges). simpl. rewrite Hp, Hmap. repeat split; auto.
Qed.

Lemma paged_last_range P a front p n :
  paged P a (front ++ [p]) n -> exists f l, page_range p = Some (f, l).
Proof.
  revert a. induction front as [|x front IH]; intros a; simpl.
  - intros (l & Hp & _). eauto.
  - intros (l & _ & _ & _ & Hr). eauto.
Qed.

Lemma pages_of_app k s c1 c2 :
  pages_of k s (c1 ++ c2) = pages_of k s c1 ++ pages_of k s c2.
Proof. apply filter_app. Qed.

Lemma matches_page k s P (d : doc) :
  matches [Eq k (VStr s); Lt "size" P] d
  = holds (Eq k (VStr s)) d && holds (Lt "size" P) d.
Proof. unfold matches. simpl. now rewrite andb_true_r. Qed.

Lemma seed_is_fresh k s P :
  In k ["descriptor"; "resource"] ->
  seed [Eq k (VStr s); Lt "size" P] = [(k, VStr s)]
  /\ Dict.get "first_index" (seed [Eq k (VStr s); Lt "size" P]) = None
  /\ Dict.get "last_index" (seed [Eq k (VStr s); Lt "size" P]) = None
  /\ Dict.get k (seed [Eq k (VStr s); Lt "size" P]) = Some (VStr s).
Proof.
  intros [<-|[<-|[]]]; repeat split.
Qed.

(** The update of a stream extends the pages of that stream by the range it
    carries. *)
Lemma own_update id_key stream P c c' n k op :
  In id_key ["descriptor"; "resource"] ->
  paged P 0 (pages_of id_key stream c) n ->
  page_op id_key stream P n (n + k - 1) op -> 0 <= k ->
  run_update op c = Done c' ->
  paged P 0 (pages_of id_key stream c') (n + k).
Proof.
  intros Hkey Hpaged Hop Hk. pose proof Hop as (Hf & Hups & _).
  unfold run_update. rewrite Hf, Hups.
  destruct (update_first _ _ c) as [[c1|e]|] eqn:Hfirst; try discriminate.
  - intros H. inversion H; subst c1. clear H.
    destruct (update_first_done _ _ _ _ Hfirst)
      as (front & d & d' & back & -> & Hfront & Hd & Hu & ->).
    rewrite matches_page in Hd. apply andb_true_iff in Hd.
    destruct Hd as [Hmine Hopen].
    destruct (page_update _ _ _ _ _ _ _ _ Hop Hkey Hu) as (Hid & _).
    rewrite pages_of_app in *. unfold pages_of at 2 in Hpaged.
    unfold pages_of at 2. cbn [List.filter] in *.
    rewrite (holds_eq_get _ _ _ _ Hid). rewrite Hmine in *.
    fold (pages_of id_key stream back) in *.
    destruct (pages_of id_key stream back) as [|y ys] eqn:Hback.
    + destruct (paged_last_range _ _ _ _ _ Hpaged) as (f & l & Hr).
      eapply paged_extend; eauto.
      eapply page_range_updated; eauto.
    + exfalso.
      assert (Hc : closed P d)
        by (eapply paged_closed_prefix; eauto; discriminate).
      unfold closed in Hc. congruence.
  - destruct (apply_update (uo_update op) (seed _)) as [d'|e] eqn:Hu;
      cbn [obind]; [|discriminate].
    intros H. inversion H; subst c'. clear H.
    destruct (seed_is_fresh id_key stream P Hkey) as (_ & Hnf & Hnl & Hsid).
    destruct (page_update _ _ _ _ _ _ _ _ Hop Hkey Hu) as (Hid & _).
    rewrite pages_of_app. unfold pages_of at 2. cbn [List.filter].
    rewrite (holds_eq_get _ _ _ _ Hid).
    unfold holds at 1. rewrite Hsid. cbn [value_beq].
    rewrite String.eqb_refl.
    apply paged_append; auto.
    + intros x Hx. unfold pages_of in Hx. apply filter_In in Hx.
      destruct Hx as [Hin Hmine].
      pose proof (update_first_none _ _ _ Hfirst x Hin) as Hno.
      rewrite matches_page, Hmine in Hno. exact Hno.
    + eapply page_range_created; eauto.
Qed.

(** The update of another stream leaves the pages of this one alone. *)
Lemma other_update id_key stream other P c c' a b op :
  In id_key ["descriptor"; "resource"] ->
  page_op id_key other P a b op -> other <> stream ->
  run_update op c = Done c' ->
  pages_of id_key stream c' = pages_of id_key stream c.
Proof.
  intros Hkey Hop Hne. pose proof Hop as (Hf & Hups & _).
  unfold run_update. rewrite Hf, Hups.
  destruct (update_first _ _ c) as [[c1|e]|] eqn:Hfirst; try discriminate.
  - intros H. inversion H; subst c1. clear H.
    destruct (update_first_done _ _ _ _ Hfirst)
      as (front & d & d' & back & -> & Hfront & Hd & Hu & ->).
    rewrite matches_page in Hd. apply andb_true_iff in Hd.
    destruct Hd as [Hmine _].
    destruct (page_update _ _ _ _ _ _ _ _ Hop Hkey Hu) as (Hid & _).
    rewrite !pages_of_app. f_equal. unfold pages_of. cbn [List.filter].
    rewrite (holds_eq_get _ _ _ _ Hid).
    now rewrite (other_stream _ _ _ _ Hmine Hne).
  - destruct (apply_update (uo_update op) (seed _)) as [d'|e] eqn:Hu;
      cbn [obind]; [|discriminate].
    intros H. inversion H; subst c'. clear H.
    destruct (seed_is_fresh id_key other P Hkey) as (_ & _ & _ & Hsid).
    destruct (page_update _ _ _ _ _ _ _ _ Hop Hkey Hu) as (Hid & _).
    rewrite pages_of_app. unfold pages_of at 2. cbn [List.filter].
    rewrite (holds_eq_get _ _ _ _ Hid).
    unfold holds at 1. rewrite Hsid. cbn [value_beq].
    replace (String.eqb other stream) with false
      by (symmetry; now apply String.eqb_neq).
    apply app_nil_r.
Qed.

(** A bulk write in which every operation succeeded. *)
Lemma chain_applied id_key stream P n ops n' :
  In id_key ["descriptor"; "resource"] ->
  chain id_key stream P n ops n' ->
  forall c c',
    run_unordered ops c = (c', None) ->
    paged P 0 (pages_of id_key stream c) n ->
    paged P 0 (pages_of id_key stream c') n'.
Proof.
  intros Hkey. induction 1 as [c0|c0 k op ops c1 Hk Hop Hch IH
                                  |c0 other a b op ops c1 Hne Hop Hch IH];
    intros c c' Hrun Hpaged; cbn [run_unordered] in Hrun.
  - inversion Hrun; subst. exact Hpaged.
  - destruct (run_update op c) as [c2|e] eqn:Hu.
    + eapply IH; eauto. eapply own_update; eauto.
    + destruct (run_unordered ops c). discriminate.
  - destruct (run_update op c) as [c2|e] eqn:Hu.
    + eapply IH; eauto.
      now rewrite (other_update _ _ _ _ _ _ _ _ _ Hkey Hop Hne Hu).
    + destruct (run_unordered ops c). discriminate.
Qed.

Lemma tiles_lower a ranges b :
  tiles a ranges b -> a <= b /\ forall r, In r ranges -> a <= fst r.
Proof.
  revert a. induction ranges as [|[f l] rs IH]; intros a; simpl.
  - intros <-. split; [lia|tauto].
  - intros (-> & Hle & Hr). destruct (IH _ Hr) as [Hb Hall].
    split; [lia|]. intros r [<-|Hin]; simpl; [lia|].
    specialize (Hall r Hin). lia.
Qed.

Lemma tiles_inside a ranges b i :
  tiles a ranges b ->
  (a <= i < b <-> exists r, In r ranges /\ fst r <= i <= snd r).
Proof.
  revert a. induction ranges as [|[f l] rs IH]; intros a; simpl.
  - intros <-. split; [lia|]. intros (r & [] & _).
  - intros (-> & Hle & Hr). destruct (tiles_lower _ _ _ Hr) as [Hb _].
    specialize (IH _ Hr). split.
    + intros Hi. destruct (Z_le_gt_dec i l) as [Hil|Hil].
      * exists (a, l). simpl. split; [now left|lia].
      * destruct IH as [IH _]. destruct IH as (r & Hin & Hr'); [lia|].
        exists r. split; [now right|exact Hr'].
    + intros (r & [<-|Hin] & Hi); simpl in Hi; [lia|].
      destruct IH as [_ IH]. assert (l + 1 <= i < b) by eauto. lia.
Qed.

Lemma tiles_ordered a ranges b :
  tiles a ranges b ->
  forall j1 j2 r1 r2,
    (j1 < j2)%nat ->
    nth_error ranges j1 = Some r1 -> nth_error ranges j2 = Some r2 ->
    snd r1 < fst r2.
Proof.
  revert a. induction ranges as [|[f l] rs IH]; intros a; simpl.
  - intros _ [|j1] j2 r1 r2 _ H; discriminate.
  - intros (-> & Hle & Hr) j1 j2 r1 r2 Hlt H1 H2.
    destruct j2 as [|j2]; [lia|]. simpl in H2.
    destruct j1 as [|j1]; simpl in H1.
    + inversion H1; subst r1. simpl.
      destruct (tiles_lower _ _ _ Hr) as [_ Hall].
      apply nth_error_In in H2. specialize (Hall _ H2). lia.
    + apply (IH _ Hr j1 j2 r1 r2); auto. lia.
Qed.

Lemma tiles_covers ranges n : tiles 0 ranges n -> covers ranges n.
Proof.
  intros H. split.
  - intros i. now apply tiles_inside.
  - now apply (tiles_ordered 0 ranges n).
Qed.

(** ** The page writer *)

Lemma py_len_nonneg v n : py_len v = Done n -> 0 <= n.
Proof.
  destruct v; simpl; try discriminate; intros H; inversion H;
    unfold len; lia.
Qed.

Lemma forall_set {V} (Q : string -> Prop) k (v : V) (d : Dict.t V) :
  Q k -> Forall (fun kv => Q (fst kv)) d ->
  Forall (fun kv => Q (fst kv)) (Dict.set k v d).
Proof.
  intros Hk. induction 1 as [|[k' v'] r Hx Hr IH]; simpl.
  - constructor; auto.
  - destruct (String.eqb k k'); constructor; auto.
Qed.

Lemma forall_merge {V} (Q : string -> Prop) (a b : Dict.t V) :
  Forall (fun kv => Q (fst kv)) a -> Forall (fun kv => Q (fst kv)) b ->
  Forall (fun kv => Q (fst kv)) (Dict.merge a b).
Proof.
  unfold Dict.merge. intros Ha Hb. revert a Ha.
  induction Hb as [|[k v] r Hk Hr IH]; intros a Ha; simpl; auto.
  apply IH. now apply forall_set.
Qed.

Lemma forall_each_string (Q : string -> Prop) prefix items :
  (forall k, Q (prefix ++ k)%string) ->
  Forall (fun kv => Q (fst kv)) (each_string prefix items).
Proof.
  intros HQ. unfold each_string.
  assert (H : Forall (fun kv : string * value => Q (fst kv)) [])
    by constructor.
  revert H. generalize (@nil (string * value)) as acc.
  induction items as [|[k v] r IH]; intros acc Hacc; simpl; auto.
  apply IH. apply forall_set; auto.
Qed.

Lemma free_data k : free_head ("data." ++ k) = true.
Proof. reflexivity. Qed.
Lemma free_timestamps k : free_head ("timestamps." ++ k) = true.
Proof. reflexivity. Qed.
Lemma free_filled k : free_head ("filled." ++ k) = true.
Proof. reflexivity. Qed.
Lemma free_datum_kwargs k : free_head ("datum_kwargs." ++ k) = true.
Proof. reflexivity. Qed.

Section PageWriter.
Context {encoder : Bson}.

(** What [_updateone_eventpage] returns and does: the counter of the
    stream advances by the number of documents of the page, and the
    update carries the counter before and the counter after, minus one. *)
Lemma updateone_eventpage_spec id page size s op s' :
  _updateone_eventpage id page size s = (Ok op, s') ->
  exists n,
    py_len (page_getitem "seq_num" page) = Done n /\ 0 <= n
    /\ s' = with_event_count (Dict.add id n (_event_count s)) s
    /\ page_op "descriptor" id (_PAGE_SIZE s)
               (event_counter id s) (event_counter id s + n - 1) op
    /\ In (Min "first_index" (event_counter id s)) (uo_update op)
    /\ In (Max "last_index" (event_counter id s' - 1)) (uo_update op).
Proof.
  unfold _updateone_eventpage, bind, lift, modify, get, ret.
  destruct (py_items (page_getitem "data" page)) as [data|e];
    [|discriminate].
  destruct (py_items (page_getitem "timestamps" page)) as [ts|e];
    [|discriminate].
  destruct (py_items (page_getitem "filled" page)) as [filled|e];
    [|discriminate].
  destruct (py_len (page_getitem "seq_num" page)) as [n|e] eqn:Hlen;
    [|discriminate].
  intros H. inversion H; subst op s'. clear H.
  exists n. cbn [_event_count with_event_count _PAGE_SIZE].
  unfold event_counter. cbn [_event_count with_event_count].
  rewrite get_default_add_same.
  replace (Dict.get_default 0 id (_event_count s) + n - n)
    with (Dict.get_default 0 id (_event_count s)) by lia.
  split; [reflexivity|]. split; [eapply py_len_nonneg; eauto|].
  split; [reflexivity|]. split; [|split].
  - split; [reflexivity|]. split; [reflexivity|].
    eexists. eexists. split; [reflexivity|].
    apply (forall_merge (fun k => free_head k = true)).
    + repeat constructor.
    + apply (forall_merge (fun k => free_head k = true)); [apply (forall_merge (fun k => free_head k = true))|].
      * apply (forall_each_string (fun k => free_head k = true)). exact free_data.
      * apply (forall_each_string (fun k => free_head k = true)). exact free_timestamps.
      * apply (forall_each_string (fun k => free_head k = true)). exact free_filled.
  - cbn [uo_update]. apply in_or_app. right. simpl. tauto.
  - cbn [uo_update]. apply in_or_app. right. simpl. tauto.
Qed.

Lemma updateone_datumpage_spec id page size s op s' :
  _updateone_datumpage id page size s = (Ok op, s') ->
  exists n,
    py_len (page_getitem "datum_id" page) = Done n /\ 0 <= n
    /\ s' = with_datum_count (Dict.add id n (_datum_count s)) s
    /\ page_op "resource" id (_PAGE_SIZE s)
               (datum_counter id s) (datum_counter id s + n - 1) op
    /\ In (Min "first_index" (datum_counter id s)) (uo_update op)
    /\ In (Max "last_index" (datum_counter id s' - 1)) (uo_update op).
Proof.
  unfold _updateone_datumpage, bind, lift, modify, get, ret.
  destruct (py_items (page_getitem "datum_kwargs" page)) as [kw|e];
    [|discriminate].
  destruct (py_len (page_getitem "datum_id" page)) as [n|e] eqn:Hlen;
    [|discriminate].
  intros H. inversion H; subst op s'. clear H.
  exists n. cbn [_datum_count with_datum_count _PAGE_SIZE].
  unfold datum_counter. cbn [_datum_count with_datum_count].
  rewrite get_default_add_same.
  replace (Dict.get_default 0 id (_datum_count s) + n - n)
    with (Dict.get_default 0 id (_datum_count s)) by lia.
  split; [reflexivity|]. split; [eapply py_len_nonneg; eauto|].
  split; [reflexivity|]. split; [|split].
  - split; [reflexivity|]. split; [reflexivity|].
    eexists. eexists. split; [reflexivity|].
    apply (forall_merge (fun k => free_head k = true)).
    + repeat constructor.
    + apply (forall_each_string (fun k => free_head k = true)). exact free_datum_kwargs.
  - cbn [uo_update]. apply in_or_app. right. simpl. tauto.
  - cbn [uo_update]. apply in_or_app. right. simpl. tauto.
Qed.
End PageWriter.

(** The bulk writer of either document class, over what the two have in
    common. *)
Section BulkWriter.
Context {encoder : Bson}.
Variable build : string -> Embedder.Page -> Z -> M t UpdateOne.
Variable counter : string -> t -> Z.
Variables id_key array_key : string.
Variable target : coll_name.

Hypothesis id_key_known : In id_key ["descriptor"; "resource"].

Hypothesis build_spec :
  forall id page size s op s',
    build id page size s = (Ok op, s') ->
    counter id s' = counter id s + count_of array_key page
    /\ 0 <= count_of array_key page
    /\ (forall other, other <> id -> counter other s' = counter other s)
    /\ _volatile_db s' = _volatile_db s
    /\ _PAGE_SIZE s' = _PAGE_SIZE s
    /\ page_op id_key id (_PAGE_SIZE s) (counter id s)
               (counter id s + count_of array_key page - 1) op.

Hypothesis counter_frame :
  forall db s stream, counter stream (with_volatile_db db s)
                      = counter stream s.

Lemma operations_chain stream sizes buffer :
  forall s ops s',
    operations build buffer sizes s = (Ok ops, s') ->
    chain id_key stream (_PAGE_SIZE s) (counter stream s) ops
          (counter stream s')
    /\ counter stream s'
       = counter stream s + batch_total array_key stream buffer
    /\ _volatile_db s' = _volatile_db s
    /\ _PAGE_SIZE s' = _PAGE_SIZE s.
Proof.
  unfold operations.
  induction buffer as [|[id page] buffer IH]; intros s ops s' H.
  - simpl in H. inversion H; subst. simpl.
    repeat split; try lia. constructor.
  - cbn [comprehension fst snd] in H.
    destruct (bind_inv _ _ _ _ _ H)
      as [(op & s1 & H1 & H2)|[(e & _ & Hr)|[_ Hr]]]; try discriminate.
    destruct (bind_inv _ _ _ _ _ H2)
      as [(ops1 & s2 & H3 & H4)|[(e & _ & Hr)|[_ Hr]]]; try discriminate.
    inversion H4; subst ops s'. clear H4 H2 H.
    destruct (bind_inv _ _ _ _ _ H1)
      as [(size & s0 & Hs & Hb)|[(e & _ & Hr)|[_ Hr]]]; try discriminate.
    assert (s0 = s).
    { unfold size_for in Hs. destruct (Dict.get id sizes);
        inversion Hs; reflexivity. }
    subst s0.
    destruct (build_spec _ _ _ _ _ _ Hb)
      as (Hc & Hn & Hother & Hv & HP & Hop).
    destruct (IH _ _ _ H3) as (Hch & Htot & Hv2 & HP2).
    rewrite HP in Hch. cbn [batch_total fold_right fst snd].
    fold (batch_total array_key stream buffer).
    destruct (String.eqb id stream) eqn:Hid.
    + apply String.eqb_eq in Hid. subst id.
      rewrite Hc in Hch, Htot.
      repeat split; try congruence; try lia.
      eapply chain_here; eauto.
    + apply String.eqb_neq in Hid.
      rewrite (Hother stream) in Hch, Htot by congruence.
      repeat split; try congruence; try lia.
      eapply chain_other; eauto.
Qed.

(** One bulk write that ends normally extends the pages of every stream
    by what the buffer held for it. *)
Lemma bulk_write_paged stream buffer sizes s s' :
  (ops <- operations build buffer sizes ;;
   on_db Volatile (bulk_write target ops))
    s = (Ok tt, s') ->
  paged (_PAGE_SIZE s) 0
        (pages_of id_key stream (coll target (_volatile_db s)))
        (counter stream s) ->
  paged (_PAGE_SIZE s') 0
        (pages_of id_key stream (coll target (_volatile_db s')))
        (counter stream s')
  /\ counter stream s'
     = counter stream s + batch_total array_key stream buffer
  /\ _PAGE_SIZE s' = _PAGE_SIZE s.
Proof.
  intros H Hpaged.
  destruct (bind_inv _ _ _ _ _ H)
    as [(ops & s1 & H1 & H2)|[(e & _ & Hr)|[_ Hr]]]; try discriminate.
  destruct (operations_chain stream _ _ _ _ _ H1)
    as (Hch & Htot & Hv & HP).
  unfold on_db, zoom, bulk_write in H2.
  destruct ops as [|op ops]; [discriminate|].
  unfold available in H2.
  unfold bind at 1 in H2. unfold bind at 1, get at 1 in H2.
  destruct (fault (_volatile_db s1)); [discriminate|].
  unfold ret at 1 in H2. unfold bind at 1, get at 1 in H2.
  destruct (run_unordered (op :: ops) (coll target (_volatile_db s1)))
    as [c' err] eqn:Hrun.
  unfold bind at 1, modify at 1 in H2.
  destruct err as [e|]; [discriminate|].
  inversion H2; subst s'. clear H2.
  rewrite !counter_frame.
  assert (Hcoll : coll target
                    (_volatile_db
                       (with_volatile_db
                          (with_coll target c' (_volatile_db s1)) s1))
                  = c') by (destruct target; reflexivity).
  rewrite Hcoll. cbn [_PAGE_SIZE with_volatile_db]. rewrite HP.
  split; [|split; [exact Htot|reflexivity]].
  eapply chain_applied; eauto. now rewrite Hv.
Qed.
End BulkWriter.

Section IndexRanges.
Context {encoder : Bson}.

Lemma count_of_len key page n :
  py_len (page_getitem key page) = Done n -> count_of key page = n.
Proof. unfold count_of. now intros ->. Qed.

Lemma event_build_spec id page size s op s' :
  _updateone_eventpage id page size s = (Ok op, s') ->
  event_counter id s' = event_counter id s + count_of "seq_num" page
  /\ 0 <= count_of "seq_num" page
  /\ (forall other, other <> id ->
        event_counter other s' = event_counter other s)
  /\ _volatile_db s' = _volatile_db s
  /\ _PAGE_SIZE s' = _PAGE_SIZE s
  /\ page_op "descriptor" id (_PAGE_SIZE s) (event_counter id s)
             (event_counter id s + count_of "seq_num" page - 1) op.
Proof.
  intros H.
  destruct (updateone_eventpage_spec _ _ _ _ _ _ H)
    as (n & Hlen & Hn & -> & Hop & _).
  rewrite (count_of_len _ _ _ Hlen). unfold event_counter in *.
  cbn [_event_count with_event_count].
  split; [apply get_default_add_same|]. split; [exact Hn|].
  split; [intros other Hne; now apply get_default_add_other|].
  split; [reflexivity|]. split; [reflexivity|exact Hop].
Qed.

Lemma datum_build_spec id page size s op s' :
  _updateone_datumpage id page size s = (Ok op, s') ->
  datum_counter id s' = datum_counter id s + count_of "datum_id" page
  /\ 0 <= count_of "datum_id" page
  /\ (forall other, other <> id ->
        datum_counter other s' = datum_counter other s)
  /\ _volatile_db s' = _volatile_db s
  /\ _PAGE_SIZE s' = _PAGE_SIZE s
  /\ page_op "resource" id (_PAGE_SIZE s) (datum_counter id s)
             (datum_counter id s + count_of "datum_id" page - 1) op.
Proof.
  intros H.
  destruct (updateone_datumpage_spec _ _ _ _ _ _ H)
    as (n & Hlen & Hn & -> & Hop & _).
  rewrite (count_of_len _ _ _ Hlen). unfold datum_counter in *.
  cbn [_datum_count with_datum_count].
  split; [apply get_default_add_same|]. split; [exact Hn|].
  split; [intros other Hne; now apply get_default_add_other|].
  split; [reflexivity|]. split; [reflexivity|exact Hop].
Qed.

Lemma event_batches_paged stream batches :
  forall s s',
    write_event_batches batches s = (Ok tt, s') ->
    paged (_PAGE_SIZE s) 0
          (pages_of "descriptor" stream (Mongo.event (_volatile_db s)))
          (event_counter stream s) ->
    paged (_PAGE_SIZE s') 0
          (pages_of "descriptor" stream (Mongo.event (_volatile_db s')))
          (event_counter stream s')
    /\ event_counter stream s'
       = event_counter stream s + total "seq_num" stream batches.
Proof.
  unfold write_event_batches.
  induction batches as [|[buffer sizes] batches IH]; intros s s' H Hp.
  - simpl in H. inversion H; subst. simpl. split; [exact Hp|lia].
  - cbn [for_each fst snd] in H.
    destruct (bind_inv _ _ _ _ _ H)
      as [([] & s1 & H1 & H2)|[(e & _ & Hr)|[_ Hr]]]; try discriminate.
    destruct (bulk_write_paged _updateone_eventpage event_counter
                "descriptor" "seq_num" Event
                (or_introl eq_refl) event_build_spec
                (fun _ _ _ => eq_refl)
                stream buffer sizes s s1 H1 Hp) as (Hp1 & Hc1 & _).
    destruct (IH _ _ H2 Hp1) as (Hp' & Hc').
    split; [exact Hp'|]. cbn [total fold_right fst].
    fold (total "seq_num" stream batches). lia.
Qed.

Lemma datum_batches_paged stream batches :
  forall s s',
    write_datum_batches batches s = (Ok tt, s') ->
    paged (_PAGE_SIZE s) 0
          (pages_of "resource" stream (Mongo.datum (_volatile_db s)))
          (datum_counter stream s) ->
    paged (_PAGE_SIZE s') 0
          (pages_of "resource" stream (Mongo.datum (_volatile_db s')))
          (datum_counter stream s')
    /\ datum_counter stream s'
       = datum_counter stream s + total "datum_id" stream batches.
Proof.
  unfold write_datum_batches.
  induction batches as [|[buffer sizes] batches IH]; intros s s' H Hp.
  - simpl in H. inversion H; subst. simpl. split; [exact Hp|lia].
  - cbn [for_each fst snd] in H.
    destruct (bind_inv _ _ _ _ _ H)
      as [([] & s1 & H1 & H2)|[(e & _ & Hr)|[_ Hr]]]; try discriminate.
    destruct (bulk_write_paged _updateone_datumpage datum_counter
                "resource" "datum_id" Datum
                (or_intror (or_introl eq_refl)) datum_build_spec
                (fun _ _ _ => eq_refl)
                stream buffer sizes s s1 H1 Hp) as (Hp1 & Hc1 & _).
    destruct (IH _ _ H2 Hp1) as (Hp' & Hc').
    split; [exact Hp'|]. cbn [total fold_right fst].
    fold (total "datum_id" stream batches). lia.
Qed.

(** C2.  For a stream that starts without pages and with its counter at
    zero, after any sequence of bulk writes that ended normally the
    pages of the stream carry index ranges that cover [0 .. N - 1]
    exactly, one after the other, [N] being the number of documents
    written for the stream, which is also where its counter stands.
    This holds of event pages and of datum pages.  The update built for
    a page sets [first_index] to the minimum of its value and the counter
    before the batch, and [last_index] to the maximum of its value and
    the counter after the batch minus one. *)
Theorem index_ranges_tile :
  (forall s batches s' stream,
      pages_of "descriptor" stream (Mongo.event (_volatile_db s)) = [] ->
      event_counter stream s = 0 ->
      write_event_batches batches s = (Ok tt, s') ->
      let N := total "seq_num" stream batches in
      event_counter stream s' = N
      /\ exists ranges,
           map page_range
               (pages_of "descriptor" stream (Mongo.event (_volatile_db s')))
           = map Some ranges
           /\ tiles 0 ranges N /\ covers ranges N)
  /\ (forall s batches s' stream,
        pages_of "resource" stream (Mongo.datum (_volatile_db s)) = [] ->
        datum_counter stream s = 0 ->
        write_datum_batches batches s = (Ok tt, s') ->
        let N := total "datum_id" stream batches in
        datum_counter stream s' = N
        /\ exists ranges,
             map page_range
                 (pages_of "resource" stream (Mongo.datum (_volatile_db s')))
             = map Some ranges
             /\ tiles 0 ranges N /\ covers ranges N)
  /\ (forall id page size s op s',
        _updateone_eventpage id page size s = (Ok op, s') ->
        In (Min "first_index" (event_counter id s)) (uo_update op)
        /\ In (Max "last_index" (event_counter id s' - 1)) (uo_update op))
  /\ (forall id page size s op s',
        _updateone_datumpage id page size s = (Ok op, s') ->
        In (Min "first_index" (datum_counter id s)) (uo_update op)
        /\ In (Max "last_index" (datum_counter id s' - 1)) (uo_update op))
  /\ (forall n current,
        min_with n (Some (VInt current)) = Done (VInt (Z.min current n))
        /\ max_with n (Some (VInt current)) = Done (VInt (Z.max current n))).
Proof.
  split; [|split; [|split; [|split]]].
  - intros s batches s' stream Hnone Hzero Hrun N.
    destruct (event_batches_paged stream batches s s' Hrun) as (Hp & Hc).
    { rewrite Hnone, Hzero. reflexivity. }
    rewrite Hzero in Hc. simpl in Hc. split; [exact Hc|].
    rewrite Hc in Hp.
    destruct (paged_tiles _ _ _ _ Hp) as (ranges & Hmap & Ht).
    exists ranges. split; [exact Hmap|]. split; [exact Ht|].
    now apply tiles_covers.
  - intros s batches s' stream Hnone Hzero Hrun N.
    destruct (datum_batches_paged stream batches s s' Hrun) as (Hp & Hc).
    { rewrite Hnone, Hzero. reflexivity. }
    rewrite Hzero in Hc. simpl in Hc. split; [exact Hc|].
    rewrite Hc in Hp.
    destruct (paged_tiles _ _ _ _ Hp) as (ranges & Hmap & Ht).
    exists ranges. split; [exact Hmap|]. split; [exact Ht|].
    now apply tiles_covers.
  - intros id page size s op s' H.
    destruct (updateone_eventpage_spec _ _ _ _ _ _ H)
      as (n & _ & _ & _ & _ & Hmin & Hmax). auto.
  - intros id page size s op s' H.
    destruct (updateone_datumpage_spec _ _ _ _ _ _ H)
      as (n & _ & _ & _ & _ & Hmin & Hmax). auto.
  - intros n current. split; reflexivity.
Qed.
End IndexRanges.

(** ** The properties, read on the run *)

Section Readings.
Import Scenario BsonRef.

Lemma insert_backpressure_witness :
  Embedder.insert (event_doc 9) nearly_full
  = (Ok (Some (event_doc 9)), nearly_full)
  /\ exists sid e',
       Dict.get "descriptor" (event_doc 1) = Some (VStr sid)
       /\ Embedder.insert (event_doc 1) (Embedder.event_buffer 1000)
          = (Ok None, e')
       /\ Embedder.current_size e' = 0 + Embedder.doc_size (event_doc 1)
       /\ size_of sid (Embedder.stream_size e')
          = 0 + Embedder.doc_size (event_doc 1).
Proof.
  split.
  - apply (proj1 (insert_backpressure nearly_full (event_doc 9))).
    vm_compute. reflexivity.
  - destruct (proj2 (insert_backpressure (Embedder.event_buffer 1000)
                       (event_doc 1)))
      as (sid & e' & Hsid & Hins & Hcs & Hss & _).
    + vm_compute. discriminate.
    + vm_compute. reflexivity.
    + exists sid, e'. repeat split; assumption.
Defined.

Lemma oversize_is_never_consumed_witness :
  Embedder.insert big_doc
    (run_ops [Insert (event_doc 1); Dump; Insert (event_doc 2)]
             (Embedder.event_buffer 1000))
  = (Ok (Some big_doc),
     run_ops [Insert (event_doc 1); Dump; Insert (event_doc 2)]
             (Embedder.event_buffer 1000))
  /\ (let s' := run_ticks [EventTick false; DatumTick false; CountTick;
                           EventTick true; EventTick false] holding_big in
      local (event_thread s') = Some (Doc big_doc)
      /\ status (event_thread s') <> Finished
      /\ Embedder.insert big_doc (_event_embedder s')
         = (Ok (Some big_doc), _event_embedder s')).
Proof.
  split.
  - apply (proj1 oversize_is_never_consumed "event" 1000).
    + vm_compute. reflexivity.
    + vm_compute. reflexivity.
  - apply (proj2 oversize_is_never_consumed 1000 big_doc holding_big).
    + vm_compute. reflexivity.
    + split; vm_compute; [discriminate|reflexivity].
    + vm_compute. reflexivity.
    + vm_compute. reflexivity.
Defined.

(** The datum worker on its first flush: it fails, nothing reaches the
    store, nothing is counted, and the buffer is empty. *)
Lemma datum_flush_raises_witness :
  Embedder.empty (_datum_embedder datum_buffered) = false
  /\ exists s',
       datum_flush datum_buffered = (Raise no_dump_sizes, s')
       /\ _volatile_db s' = _volatile_db datum_buffered
       /\ _db_datum_count s' = _db_datum_count datum_buffered
       /\ _datum_count s' = _datum_count datum_buffered
       /\ _datum_embedder s' = cleared (_datum_embedder datum_buffered).
Proof.
  split.
  - vm_compute. reflexivity.
  - apply (datum_flush_raises datum_buffered). vm_compute. reflexivity.
Defined.

Lemma datum_worker_fails_on_first_flush :
  let s' := step (DatumTick false) datum_buffered in
  status (datum_thread s') = Failed no_dump_sizes
  /\ _worker_error s' = Some no_dump_sizes
  /\ Mongo.datum (_volatile_db s') = []
  /\ _db_datum_count s' = []
  /\ Embedder._embedder (_datum_embedder s') = [].
Proof. vm_compute. repeat split. Qed.

(** The count worker after its first write: the total goes from 2 to 3 and
    the header keeps saying 2. *)
Lemma count_worker_goes_quiet_witness :
  Dict.sum (_db_event_count counted) < Dict.sum (_db_event_count three_events)
  /\ _count_worker_iteration three_events = (Ok tt, three_events)
  /\ _count_worker three_events = three_events.
Proof.
  split; [vm_compute; reflexivity|].
  destruct (count_worker_goes_quiet two_events counted three_events)
    as [Hquiet Hworker].
  - vm_compute. reflexivity.
  - vm_compute. reflexivity.
  - vm_compute. reflexivity.
  - split; [exact Hquiet|]. rewrite Hworker. vm_compute. reflexivity.
Defined.

Lemma count_in_header_is_stale :
  Dict.get "count_d1" (_db_event_count three_events) = Some 3
  /\ forall h, In h (header (_volatile_db (step CountTick three_events))) ->
               Dict.get "count_d1" h = Some (VInt 2).
Proof.
  split; [vm_compute; reflexivity|].
  vm_compute. intros h [<-|[]]. reflexivity.
Qed.

(** An event page handed to a pipeline that has just started. *)
Lemma event_page_is_refused :
  __call__ NEventPage (event_doc 1) (described fresh)
  = (Raise (Exn TypeError
                "_bulkwrite_event() missing 1 required positional argument: 'dump_sizes'"
                None), described fresh)
  /\ Mongo.event (_volatile_db (described fresh)) = [].
Proof. vm_compute. split; reflexivity. Qed.

Lemma worker_error_is_raised_witness :
  _worker_error event_failed = Some store_down
  /\ (forall name d,
         __call__ name d event_failed
         = (Raise (worker_exception store_down), event_failed))
  /\ fst (freeze (VStr "run1") event_failed)
     = Raise (worker_exception store_down)
  /\ _permanent_db (snd (freeze (VStr "run1") event_failed))
     = _permanent_db event_failed.
Proof.
  assert (H : _worker_error event_failed = Some store_down)
    by (vm_compute; reflexivity).
  destruct (worker_error_is_raised event_failed store_down H)
    as [Hcall Hfreeze].
  split; [exact H|]. split; [exact Hcall|].
  destruct (freeze (VStr "run1") event_failed) as [r s'] eqn:E.
  destruct (Hfreeze (VStr "run1") r s' E) as [Hperm _].
  split; [|exact Hperm].
  rewrite <- E. vm_compute. reflexivity.
Defined.

(** The claim that [freeze] raises with the exception first recorded as
    cause fails on [event_failed_datum_buffered]: the datum worker fails
    while [freeze] waits for it, and its exception is the cause. *)
Lemma freeze_cause_is_the_last_error :
  _worker_error event_failed_datum_buffered = Some store_down
  /\ fst (freeze (VStr "run1") event_failed_datum_buffered)
     = Raise (worker_exception no_dump_sizes)
  /\ fst (freeze (VStr "run1") event_failed_datum_buffered)
     <> Raise (worker_exception store_down).
Proof.
  split; [vm_compute; reflexivity|].
  split; [vm_compute; reflexivity|].
  vm_compute. discriminate.
Qed.

Lemma freeze_mismatch_keeps_volatile_witness :
  run_eq volatile_run permanent_run = false
  /\ freeze (VStr "run1") ready_to_freeze = (Raise move_failed, read_back)
  /\ _volatile_db read_back = _volatile_db drained
  /\ within (_volatile_db read_back) volatile_run
  /\ List.length volatile_run = 2%nat.
Proof.
  assert (Hneq : run_eq volatile_run permanent_run = false)
    by (vm_compute; reflexivity).
  split; [exact Hneq|].
  destruct (freeze_mismatch_keeps_volatile
              ready_to_freeze drained run_read copied read_back
              (VStr "run1") volatile_run permanent_run)
    as (Hfreeze & Hsame & Hin).
  - vm_compute. reflexivity.
  - vm_compute. reflexivity.
  - vm_compute. reflexivity.
  - vm_compute. reflexivity.
  - exact Hneq.
  - split; [exact Hfreeze|]. split; [exact Hsame|].
    split; [exact Hin|]. vm_compute. reflexivity.
Defined.

Lemma index_ranges_tile_witness :
  (exists ranges,
      map page_range
          (pages_of "descriptor" "d1"
             (Mongo.event
                (_volatile_db
                   (snd (write_event_batches event_batches
                                             (described fresh))))))
      = map Some ranges
      /\ tiles 0 ranges 11 /\ covers ranges 11)
  /\ (exists ranges,
         map page_range
             (pages_of "resource" "r1"
                (Mongo.datum
                   (_volatile_db
                      (snd (write_datum_batches datum_batches
                                                (described fresh))))))
         = map Some ranges
         /\ tiles 0 ranges 3 /\ covers ranges 3).
Proof.
  destruct index_ranges_tile as (Hevent & Hdatum & _).
  split.
  - destruct (Hevent (described fresh) event_batches
                (snd (write_event_batches event_batches (described fresh)))
                "d1") as (_ & ranges & H).
    + vm_compute. reflexivity.
    + vm_compute. reflexivity.
    + vm_compute. reflexivity.
    + exists ranges. exact H.
  - destruct (Hdatum (described fresh) datum_batches
                (snd (write_datum_batches datum_batches (described fresh)))
                "r1") as (_ & ranges & H).
    + vm_compute. reflexivity.
    + vm_compute. reflexivity.
    + vm_compute. reflexivity.
    + exists ranges. exact H.
Defined.

(** The two event pages of the run: ranges 0 to 8 and 9 to 10. *)
Lemma two_pages_in_the_store :
  map page_range
      (pages_of "descriptor" "d1"
         (Mongo.event
            (_volatile_db
               (snd (write_event_batches event_batches
                                         (described fresh))))))
  = [Some (0, 8); Some (9, 10)].
Proof. vm_compute. reflexivity. Qed.
End Readings.

(** ** The constructors *)

Section Constructors.
Context {encoder : Bson}.


(** X2.  [Serializer(...)] is built exactly when [num_threads] is between 1
    and 10, [page_size] is at least 1000, [embedder_size + page_size] is at
    most 15000000 and [embedder_size] is at least 1000 (the last is the
    buffer's own check); [queue_size] and [max_insert_time] are free.  The
    pipeline built has seen no start document, is not frozen, has no
    worker error, and its queues and buffers are empty. *)
Theorem serializer_init_checks
    (volatile_db permanent_db : Database)
    (num_threads queue_size embedder_size page_size max_insert_time : Z) :
  ((exists s,
       Serializer.__init__ volatile_db permanent_db num_threads queue_size
                           embedder_size page_size max_insert_time = Done s)
   <-> (1 <= num_threads <= 10 /\ 1000 <= page_size
        /\ embedder_size + page_size <= 15000000
        /\ 1000 <= embedder_size))
  /\ (forall s,
        Serializer.__init__ volatile_db permanent_db num_threads queue_size
                            embedder_size page_size max_insert_time = Done s ->
        embedder_size <= 14999000
        /\ _start_found s = false /\ _frozen s = false
        /\ _worker_error s = None
        /\ _event_queue s = [] /\ _datum_queue s = []
        /\ Embedder.empty (_event_embedder s) = true
        /\ Embedder.empty (_datum_embedder s) = true
        /\ Embedder._max_size (_event_embedder s) = embedder_size
        /\ _volatile_db s = volatile_db /\ _permanent_db s = permanent_db).
Proof.
  unfold Serializer.__init__, Embedder.__init__.
  destruct ((num_threads >? 10) || (num_threads <? 1)) eqn:Hn.
  { split.
    - split; [intros [s H]; discriminate|].
      intros (Hnt & _). exfalso. apply orb_true_iff in Hn.
      destruct Hn as [H|H]; [rewrite Z.gtb_ltb in H|];
        apply Z.ltb_lt in H; lia.
    - intros s H. discriminate. }
  apply orb_false_iff in Hn. destruct Hn as [Hn1 Hn2].
  rewrite Z.gtb_ltb in Hn1. apply Z.ltb_ge in Hn1. apply Z.ltb_ge in Hn2.
  destruct (page_size <? 1000) eqn:Hp.
  { apply Z.ltb_lt in Hp. split.
    - split; [intros [s H]; discriminate|]. intros (_ & Hps & _). lia.
    - intros s H. discriminate. }
  apply Z.ltb_ge in Hp.
  destruct (embedder_size + page_size >? 15000000) eqn:Hsum.
  { rewrite Z.gtb_ltb in Hsum. apply Z.ltb_lt in Hsum. split.
    - split; [intros [s H]; discriminate|]. intros (_ & _ & Hs & _). lia.
    - intros s H. discriminate. }
  rewrite Z.gtb_ltb in Hsum. apply Z.ltb_ge in Hsum.
  destruct ((1000 <=? embedder_size) && (embedder_size <=? 15000000))
    eqn:He.
  - apply andb_true_iff in He. destruct He as [Hlo Hhi].
    apply Z.leb_le in Hlo. apply Z.leb_le in Hhi. simpl. split.
    + split; [intros _; lia|]. intros _. eexists. reflexivity.
    + intros s H. inversion H; subst. simpl.
      split; [lia|]. repeat split; reflexivity.
  - simpl. split.
    + split; [intros [s H]; discriminate|]. intros (_ & _ & _ & Hlo).
      apply andb_false_iff in He.
      destruct He as [H|H]; apply Z.leb_gt in H; lia.
    + intros s H. discriminate.
Qed.
End Constructors.

(** * Further properties of the pipeline *)

(** ** What the workers and the waits leave alone *)

Lemma coll_with_coll_other c c' x db :
  c <> c' -> coll c' (with_coll c x db) = coll c' db.
Proof. destruct c, c'; intros H; try reflexivity; congruence. Qed.

Lemma coll_with_coll_same c x db : coll c (with_coll c x db) = x.
Proof. destruct c; reflexivity. Qed.

(** A store operation on one collection leaves the others, and whether the
    store answers, as they were. *)
Lemma available_keeps (P : Database -> Prop) : preserves P available.
Proof.
  unfold available. apply preserves_bind; [apply preserves_get|].
  intros db. destruct (fault db); [apply preserves_raise|apply preserves_ret].
Qed.

Lemma update_one_only {X} (R : Database -> X) c f u upsert x :
  (forall y db, R (with_coll c y db) = R db) ->
  preserves (fun db => R db = x) (update_one c f u upsert).
Proof.
  intros HR. unfold update_one.
  apply preserves_bind; [apply available_keeps|]. intros _.
  apply preserves_bind; [apply preserves_get|]. intros db.
  apply preserves_bind; [apply preserves_lift|]. intros y.
  apply preserves_modify. intros db' H. now rewrite HR.
Qed.

Lemma bulk_write_only {X} (R : Database -> X) c ops x :
  (forall y db, R (with_coll c y db) = R db) ->
  preserves (fun db => R db = x) (bulk_write c ops).
Proof.
  intros HR. unfold bulk_write.
  destruct ops as [|op ops]; [apply preserves_raise|].
  apply preserves_bind; [apply available_keeps|]. intros _.
  apply preserves_bind; [apply preserves_get|]. intros db.
  destruct (run_unordered (op :: ops) (coll c db)) as [y err].
  apply preserves_bind.
  - apply preserves_modify. intros db' H. now rewrite HR.
  - intros _. destruct err; [apply preserves_raise|apply preserves_ret].
Qed.

Lemma insert_one_only {X} (R : Database -> X) c d x :
  (forall y db, R (with_coll c y db) = R db) ->
  preserves (fun db => R db = x) (insert_one c d).
Proof.
  intros HR. unfold insert_one.
  apply preserves_bind; [apply available_keeps|]. intros _.
  apply preserves_modify. intros db' H. now rewrite HR.
Qed.

Lemma remove_only {X} (R : Database -> X) c f x :
  (forall y db, R (with_coll c y db) = R db) ->
  preserves (fun db => R db = x) (remove c f).
Proof.
  intros HR. unfold remove.
  apply preserves_bind; [apply available_keeps|]. intros _.
  apply preserves_modify. intros db' H. now rewrite HR.
Qed.

(** A write to the volatile store keeps what it keeps of the store, and
    the permanent store. *)
Lemma volatile_write_keeps {A X} (R : Database -> X) (c : M Database A) x :
  (forall y, preserves (fun db => R db = y) c) ->
  preserves (fun s => (R (_volatile_db s), _permanent_db s) = x)
            (zoom _volatile_db with_volatile_db c).
Proof.
  intros Hc s r s' E HP. unfold zoom in E.
  destruct (c (_volatile_db s)) as [r0 db'] eqn:Ec.
  inversion E; subst. simpl.
  now rewrite (Hc _ _ _ _ Ec eq_refl).
Qed.

Section WorkerFrames.
Context {encoder : Bson}.

Lemma step_keeps (P : t -> Prop) :
  thread_blind P -> loops_keep P ->
  forall tk s, P s -> P (step tk s).
Proof.
  intros (Hw & Het & Hdt & Hct & _) (He & Hd & Hc) tk s HP.
  destruct tk as [late|late|]; simpl.
  - unfold _event_worker. destruct (status (event_thread s)); auto.
    unfold _try_wrapper.
    destruct (_event_worker_iteration late s) as [[u|e|] s'] eqn:E;
      pose proof (He late s _ s' E HP); auto.
  - unfold _datum_worker. destruct (status (datum_thread s)); auto.
    unfold _try_wrapper.
    destruct (_datum_worker_iteration late s) as [[u|e|] s'] eqn:E;
      pose proof (Hd late s _ s' E HP); auto.
  - unfold _count_worker. destruct (count_status (count_thread s)); auto.
    unfold _try_wrapper.
    destruct (_count_worker_iteration s) as [[u|e|] s'] eqn:E;
      pose proof (Hc s _ s' E HP); [destruct (_frozen s')|..]; auto.
Qed.

Lemma run_ticks_keeps (P : t -> Prop) :
  thread_blind P -> loops_keep P ->
  forall ticks s, P s -> P (run_ticks ticks s).
Proof.
  intros Hb Hl. induction ticks as [|tk r IH]; intros s HP; simpl; auto.
  apply IH. now apply step_keeps.
Qed.

Lemma await_keeps (P : t -> Prop) ready :
  thread_blind P -> loops_keep P -> preserves P (await ready).
Proof.
  intros Hb Hl s r s' E HP. unfold await in E. revert E.
  generalize (env s) as sch. intros sch. revert s HP.
  destruct Hb as (Hw & Het & Hdt & Hct & Henv).
  induction sch as [|tk sch IH]; intros s HP; simpl.
  - destruct (ready s); intros E; inversion E; subst; auto.
  - destruct (ready s).
    + intros E; inversion E; subst. auto.
    + apply IH. apply step_keeps; auto.
      split; [exact Hw|]. split; [exact Het|]. split; [exact Hdt|].
      split; [exact Hct|exact Henv].
Qed.

(** The calls that wait keep such a property when the queues are not part
    of it. *)
Lemma waits_keep (P : t -> Prop) :
  thread_blind P -> loops_keep P ->
  (forall x s, P s -> P (with_event_queue x s)) ->
  (forall x s, P s -> P (with_datum_queue x s)) ->
  (forall x, preserves P (put_event x))
  /\ (forall x, preserves P (put_datum x))
  /\ preserves P join_count /\ preserves P join_event
  /\ preserves P join_datum.
Proof.
  intros Hb Hl Heq Hdq.
  split; [|split; [|split; [|split]]];
    try (apply await_keeps; assumption).
  - intros x. unfold put_event.
    apply preserves_bind; [now apply await_keeps|]. intros _.
    apply preserves_modify. intros s HP. now apply Heq.
  - intros x. unfold put_datum.
    apply preserves_bind; [now apply await_keeps|]. intros _.
    apply preserves_modify. intros s HP. now apply Hdq.
Qed.

Lemma frozen_blind : thread_blind (fun s => _frozen s = true).
Proof. repeat split; intros x s H; exact H. Qed.

Lemma frozen_loops : loops_keep (fun s => _frozen s = true).
Proof.
  split; [|split].
  - intros late. unfold _event_worker_iteration, event_flush. keeps.
  - intros late. unfold _datum_worker_iteration, datum_flush. keeps.
  - unfold _count_worker_iteration. keeps.
Qed.

Lemma get_run_keeps (P : t -> Prop) db uid :
  (forall x s, P s -> P (with_volatile_db x s)) ->
  (forall x s, P s -> P (with_permanent_db x s)) ->
  preserves P (_get_run db uid).
Proof.
  intros Hv Hp. unfold _get_run.
  destruct db; keeps; apply preserves_zoom_frame; assumption.
Qed.

Lemma insert_run_keeps (P : t -> Prop) db r :
  (forall x s, P s -> P (with_volatile_db x s)) ->
  (forall x s, P s -> P (with_permanent_db x s)) ->
  preserves P (_insert_run db r).
Proof.
  intros Hv Hp. unfold _insert_run.
  destruct db; keeps; apply preserves_zoom_frame; assumption.
Qed.

Lemma delete_run_keeps (P : t -> Prop) db uid :
  (forall x s, P s -> P (with_volatile_db x s)) ->
  (forall x s, P s -> P (with_permanent_db x s)) ->
  preserves P (_delete_run db uid).
Proof.
  intros Hv Hp. unfold _delete_run.
  destruct db; keeps; apply preserves_zoom_frame; assumption.
Qed.

Lemma frozen_from_first {A} (c : M t A) s :
  preserves (fun s => _frozen s = true) c ->
  _frozen (snd ((modify (with_frozen true) ;; c) s)) = true.
Proof.
  intros Hc. unfold bind at 1, modify at 1.
  destruct (c (with_frozen true s)) as [r s'] eqn:E. simpl.
  exact (Hc _ _ _ E eq_refl).
Qed.

Lemma freeze_drain_freezes s : _frozen (snd (freeze_drain s)) = true.
Proof.
  destruct (waits_keep _ frozen_blind frozen_loops)
    as (Hpe & Hpd & Hjc & Hje & Hjd);
    try (intros x s0 H; exact H).
  unfold freeze_drain. apply frozen_from_first.
  apply preserves_bind; [apply Hpe|]. intros _.
  apply preserves_bind; [apply Hpd|]. intros _.
  apply preserves_bind; [keeps|]. intros _.
  apply preserves_bind; [apply Hjc|]. intros _.
  apply preserves_bind; [apply Hje|]. intros _.
  apply preserves_bind; [apply Hjd|]. intros _.
  keeps.
Qed.

Lemma freeze_freezes uid s : _frozen (snd (freeze uid s)) = true.
Proof.
  pose proof (freeze_drain_freezes s) as Hd.
  unfold freeze, bind.
  destruct (freeze_drain s) as [[[]|e|] s1]; simpl in Hd; auto.
  destruct (freeze_move uid s1) as [r s'] eqn:E. simpl.
  assert (Hk : preserves (fun s => _frozen s = true) (freeze_move uid)).
  { unfold freeze_move.
    apply preserves_bind; [apply get_run_keeps; auto|]. intros vr.
    apply preserves_bind; [apply insert_run_keeps; auto|]. intros _.
    apply preserves_bind; [apply get_run_keeps; auto|]. intros pr.
    destruct (negb _); [apply preserves_raise|].
    apply delete_run_keeps; auto. }
  exact (Hk _ _ _ E Hd).
Qed.

Lemma explicit_freeze_freezes uid s :
  _frozen (snd (explicit_freeze uid s)) = true.
Proof.
  destruct (waits_keep _ frozen_blind frozen_loops)
    as (Hpe & Hpd & Hjc & Hje & Hjd);
    try (intros x s0 H; exact H).
  unfold explicit_freeze. apply frozen_from_first.
  apply preserves_bind; [apply Hpe|]. intros _.
  apply preserves_bind; [apply Hpd|]. intros _.
  apply preserves_bind; [apply Hje|]. intros _.
  apply preserves_bind; [apply Hjd|]. intros _.
  apply preserves_bind; [apply preserves_get|]. intros s1.
  destruct (_worker_error s1); [apply preserves_raise|].
  apply preserves_bind; [keeps|]. intros _.
  apply preserves_bind; [keeps|]. intros _.
  apply preserves_bind; [keeps|]. intros _.
  apply preserves_bind; [keeps|]. intros _.
  apply preserves_bind; [apply get_run_keeps; auto|]. intros vr.
  apply preserves_bind; [apply insert_run_keeps; auto|]. intros _.
  apply preserves_bind; [apply get_run_keeps; auto|]. intros pr.
  destruct (negb _); [apply preserves_raise|].
  keeps.
Qed.

Lemma frozen_refuses s name d :
  _frozen s = true -> exists e, __call__ name d s = (Raise e, s).
Proof.
  intros Hf. unfold __call__, bind, get.
  destruct (_worker_error s); [eexists; reflexivity|].
  rewrite Hf. eexists. reflexivity.
Qed.

(** X8.  [freeze], [close], [stop] and [explicit_freeze] leave the
    pipeline frozen however they end (normally, with an exception, or still
    waiting), and a frozen pipeline refuses every document: [__call__]
    raises and changes nothing. *)
Theorem freeze_closes_the_pipeline (s : t) (run_uid : value) (d : doc) :
  (let s' := snd (freeze run_uid s) in
   _frozen s' = true
   /\ forall name d', exists e, __call__ name d' s' = (Raise e, s'))
  /\ (let s' := snd (explicit_freeze run_uid s) in
      _frozen s' = true
      /\ forall name d', exists e, __call__ name d' s' = (Raise e, s'))
  /\ (let s' := snd (close s) in
      _frozen s' = true
      /\ forall name d', exists e, __call__ name d' s' = (Raise e, s'))
  /\ (let s' := snd (stop d s) in
      _frozen s' = true
      /\ forall name d', exists e, __call__ name d' s' = (Raise e, s')).
Proof.
  assert (Hclose : forall s0, _frozen (snd (close s0)) = true).
  { intros s0. unfold close, bind, get. apply freeze_freezes. }
  split; [|split; [|split]]; intros s'.
  - assert (H : _frozen s' = true) by apply freeze_freezes.
    split; [exact H|]. intros name d'. now apply frozen_refuses.
  - assert (H : _frozen s' = true) by apply explicit_freeze_freezes.
    split; [exact H|]. intros name d'. now apply frozen_refuses.
  - assert (H : _frozen s' = true) by apply Hclose.
    split; [exact H|]. intros name d'. now apply frozen_refuses.
  - assert (H : _frozen s' = true).
    { subst s'. unfold stop. unfold bind at 1, modify at 1.
      unfold bind at 1.
      pose proof (Hclose (with_stop_doc (VDict d) s)) as Hc.
      destruct (close (with_stop_doc (VDict d) s)) as [[[]|e|] s1];
        exact Hc. }
    split; [exact H|]. intros name d'. now apply frozen_refuses.
Qed.
End WorkerFrames.

(** ** Who writes where *)

Section WriteSets.
Context {encoder : Bson}.

Lemma event_worker_keeps (P : t -> Prop) late s :
  thread_blind P -> preserves P (_event_worker_iteration late) ->
  P s -> P (_event_worker late s).
Proof.
  intros (Hw & Het & _) He HP.
  unfold _event_worker. destruct (status (event_thread s)); auto.
  unfold _try_wrapper.
  destruct (_event_worker_iteration late s) as [[u|e|] s'] eqn:E;
    pose proof (He s _ s' E HP); auto.
Qed.

Lemma datum_worker_keeps (P : t -> Prop) late s :
  thread_blind P -> preserves P (_datum_worker_iteration late) ->
  P s -> P (_datum_worker late s).
Proof.
  intros (Hw & _ & Hdt & _) Hd HP.
  unfold _datum_worker. destruct (status (datum_thread s)); auto.
  unfold _try_wrapper.
  destruct (_datum_worker_iteration late s) as [[u|e|] s'] eqn:E;
    pose proof (Hd s _ s' E HP); auto.
Qed.

Lemma count_worker_keeps (P : t -> Prop) s :
  thread_blind P -> preserves P _count_worker_iteration ->
  P s -> P (_count_worker s).
Proof.
  intros (Hw & _ & _ & Hct & _) Hc HP.
  unfold _count_worker. destruct (count_status (count_thread s)); auto.
  unfold _try_wrapper.
  destruct (_count_worker_iteration s) as [[u|e|] s'] eqn:E;
    pose proof (Hc s _ s' E HP); [destruct (_frozen s')|..]; auto.
Qed.

Lemma event_iteration_writes {X} (R : Database -> X) x late :
  (forall y db, R (with_coll Event y db) = R db) ->
  preserves (fun s => (R (_volatile_db s), _permanent_db s) = x)
            (_event_worker_iteration late).
Proof.
  intros HR. unfold _event_worker_iteration, event_flush. keeps.
  apply volatile_write_keeps. intros y. now apply bulk_write_only.
Qed.

Lemma datum_iteration_writes x late :
  preserves (fun s => (_volatile_db s, _permanent_db s) = x)
            (_datum_worker_iteration late).
Proof. unfold _datum_worker_iteration, datum_flush. keeps. Qed.

Lemma count_iteration_writes {X} (R : Database -> X) x :
  (forall y db, R (with_coll Header y db) = R db) ->
  preserves (fun s => (R (_volatile_db s), _permanent_db s) = x)
            _count_worker_iteration.
Proof.
  intros HR. unfold _count_worker_iteration. keeps.
  apply volatile_write_keeps. intros y. now apply update_one_only.
Qed.

Lemma stores_blind {X} (R : Database -> X) x :
  thread_blind (fun s => (R (_volatile_db s), _permanent_db s) = x).
Proof. repeat split; intros y s H; exact H. Qed.

(** X9.  Each worker writes to one place only.  An iteration of the event
    worker leaves the header and the datum collection of the volatile store
    and the whole permanent store as they were; an iteration of the datum
    worker leaves both stores as they were; a wake of the count worker
    leaves the event and datum collections and the permanent store as they
    were. *)
Theorem worker_write_sets (s : t) (late : bool) :
  (header (_volatile_db (_event_worker late s)) = header (_volatile_db s)
   /\ Mongo.datum (_volatile_db (_event_worker late s))
      = Mongo.datum (_volatile_db s)
   /\ _permanent_db (_event_worker late s) = _permanent_db s)
  /\ (_volatile_db (_datum_worker late s) = _volatile_db s
      /\ _permanent_db (_datum_worker late s) = _permanent_db s)
  /\ (Mongo.event (_volatile_db (_count_worker s))
      = Mongo.event (_volatile_db s)
      /\ Mongo.datum (_volatile_db (_count_worker s))
         = Mongo.datum (_volatile_db s)
      /\ _permanent_db (_count_worker s) = _permanent_db s).
Proof.
  split; [|split].
  - pose proof (event_worker_keeps _ late s
                  (stores_blind (fun db => (header db, Mongo.datum db)) _)
                  (event_iteration_writes
                     (fun db => (header db, Mongo.datum db)) _ late
                     (fun _ _ => eq_refl))
                  eq_refl) as H.
    inversion H as [[Hh Hd Hp]]. rewrite Hh, Hd, Hp. repeat split.
  - pose proof (datum_worker_keeps _ late s
                  (stores_blind (fun db => db) _)
                  (datum_iteration_writes _ late) eq_refl) as H.
    inversion H as [[Hv Hp]]. rewrite Hv, Hp. repeat split.
  - pose proof (count_worker_keeps _ s
                  (stores_blind
                     (fun db => (Mongo.event db, Mongo.datum db)) _)
                  (count_iteration_writes
                     (fun db => (Mongo.event db, Mongo.datum db)) _
                     (fun _ _ => eq_refl))
                  eq_refl) as H.
    inversion H as [[He Hd Hp]]. rewrite He, Hd, Hp. repeat split.
Qed.

Lemma out_of_reach_loops x : loops_keep (fun s => out_of_reach s = x).
Proof.
  unfold out_of_reach. split; [|split].
  - intros late.
    apply (event_iteration_writes Mongo.datum). reflexivity.
  - intros late.
    apply (preserves_via (fun s => (_volatile_db s, _permanent_db s))
             (fun y => (Mongo.datum (fst y), snd y) = x)).
    intros y. apply datum_iteration_writes.
  - apply (count_iteration_writes Mongo.datum). reflexivity.
Qed.

Lemma insert_header_out_of_reach x name d :
  preserves (fun s => out_of_reach s = x) (_insert_header name d).
Proof.
  unfold _insert_header, on_db, out_of_reach.
  apply preserves_bind; [apply preserves_get|]. intros s.
  apply (volatile_write_keeps Mongo.datum). intros y.
  now apply update_one_only.
Qed.

(** X10.  While the pipeline takes documents in, nothing is written to
    the datum collection of the volatile store or to the permanent store:
    they are the same after any number of worker iterations, and after
    any call of [__call__] other than with a stop document. *)
Theorem no_datum_reaches_the_store (s : t) :
  (forall ticks, out_of_reach (run_ticks ticks s) = out_of_reach s)
  /\ (forall name d, name <> NStop ->
        out_of_reach (snd (__call__ name d s)) = out_of_reach s).
Proof.
  pose proof (stores_blind Mongo.datum (out_of_reach s)) as Hb.
  pose proof (out_of_reach_loops (out_of_reach s)) as Hl.
  split.
  - intros ticks.
    exact (run_ticks_keeps _ Hb Hl ticks s eq_refl).
  - intros name d Hname.
    destruct (waits_keep _ Hb Hl) as (Hpe & Hpd & _);
      try (intros y s0 H; exact H).
    destruct (__call__ name d s) as [r s'] eqn:E. simpl.
    assert (Hk : preserves (fun s0 => out_of_reach s0 = out_of_reach s)
                           (__call__ name d)).
    { unfold __call__, dispatch.
      apply preserves_bind; [apply preserves_get|]. intros s0.
      destruct (_worker_error s0); [apply preserves_raise|].
      destruct (_frozen s0); [apply preserves_raise|].
      apply preserves_bind; [|intros; apply preserves_ret].
      destruct name; try congruence.
      - unfold start.
        apply preserves_bind; [keeps|]. intros _.
        apply preserves_bind; [keeps|]. intros uid.
        apply preserves_bind; [keeps|]. intros _.
        apply preserves_bind; [apply insert_header_out_of_reach|].
        intros _.
        apply preserves_bind; [apply insert_header_out_of_reach|].
        intros _.
        apply preserves_bind; [apply insert_header_out_of_reach|].
        intros _. apply preserves_ret.
      - unfold descriptor.
        apply preserves_bind; [apply insert_header_out_of_reach|].
        intros _. apply preserves_ret.
      - unfold resource.
        apply preserves_bind; [apply insert_header_out_of_reach|].
        intros _. apply preserves_ret.
      - unfold event.
        apply preserves_bind; [apply Hpe|]. intros _. apply preserves_ret.
      - unfold datum.
        apply preserves_bind; [apply Hpd|]. intros _. apply preserves_ret.
      - unfold event_page. keeps.
      - unfold datum_page. keeps. }
    exact (Hk _ _ _ E eq_refl).
Qed.
End WriteSets.

(** ** Moving a run *)

Section MovingRuns.
Context {encoder : Bson}.

Lemma with_volatile_same s : with_volatile_db (_volatile_db s) s = s.
Proof. destruct s; reflexivity. Qed.

Lemma with_permanent_same s : with_permanent_db (_permanent_db s) s = s.
Proof. destruct s; reflexivity. Qed.

(** A read changes nothing, and fails only when the store does not
    answer. *)
Lemma find_reads db c f s :
  on_db db (find c f) s
  = match fault (store_of db s) with
    | Some e => (Raise e, s)
    | None => (Ok (List.filter (matches f) (coll c (store_of db s))), s)
    end.
Proof.
  destruct db; unfold on_db, zoom, find, available, bind, get, store_of.
  - destruct (fault (_volatile_db s)); simpl;
      now rewrite with_volatile_same.
  - destruct (fault (_permanent_db s)); simpl;
      now rewrite with_permanent_same.
Qed.

Lemma find_one_reads db c f s :
  on_db db (find_one c f) s
  = match fault (store_of db s) with
    | Some e => (Raise e, s)
    | None => (Ok (List.find (matches f) (coll c (store_of db s))), s)
    end.
Proof.
  destruct db; unfold on_db, zoom, find_one, available, bind, get, store_of.
  - destruct (fault (_volatile_db s)); simpl;
      now rewrite with_volatile_same.
  - destruct (fault (_permanent_db s)); simpl;
      now rewrite with_permanent_same.
Qed.

(** The two loops of [_get_run]. *)
Lemma gather_pages db c key id_key (header h0 : doc) s0 r0 :
  c <> Header ->
  (exists rest, r0 = (Header, h0) :: rest
                /\ Forall (page_in (store_of db s0)) rest) ->
  hoare (fun s => s = s0)
        (if Dict.mem key header then
           xs <- lift (obind (py_getitem (VDict header) key) py_iter) ;;
           fold_m xs r0 (fun run x =>
             uid <- lift (py_getitem x "uid") ;;
             docs <- on_db db (find c [Eq id_key uid]) ;;
             ret (run ++ map (pair c) docs))
         else ret r0)
        (fun r s' =>
           s' = s0
           /\ forall run, r = Ok run ->
                exists rest, run = (Header, h0) :: rest
                             /\ Forall (page_in (store_of db s0)) rest).
Proof.
  intros Hc Hr0. destruct (Dict.mem key header).
  - apply (hoare_bind _ (fun r s' => s' = s0)).
    + intros s r s' E Hs.
      exact (preserves_lift (fun s => s = s0) _ s r s' E Hs).
    + intros xs.
      apply (hoare_fold_m (fun s => s = s0)
               (fun run => exists rest,
                  run = (Header, h0) :: rest
                  /\ Forall (page_in (store_of db s0)) rest));
        [|exact Hr0].
      intros acc x (rest & -> & Hrest) s r s' E Hs. subst s.
      unfold bind at 1, lift at 1 in E.
      destruct (py_getitem x "uid") as [uid|e].
      2:{ inversion E; subst. split; [reflexivity|discriminate]. }
      unfold bind at 1 in E. rewrite find_reads in E.
      destruct (fault (store_of db s0)).
      { inversion E; subst. split; [reflexivity|discriminate]. }
      inversion E; subst. split; [reflexivity|].
      intros b Hb. inversion Hb; subst.
      eexists. split; [reflexivity|].
      apply Forall_app. split; [exact Hrest|].
      apply Forall_forall. intros cd Hin.
      apply in_map_iff in Hin. destruct Hin as (d & <- & Hin).
      apply filter_In in Hin. split; [exact Hc|]. simpl. tauto.
    + intros e s Hs. split; [exact Hs|discriminate].
    + intros s Hs. split; [exact Hs|discriminate].
  - intros s r s' E Hs. inversion E; subst. split; [reflexivity|].
    intros run Hrun. inversion Hrun; subst. exact Hr0.
Qed.

Lemma get_run_outcome db uid s r s' :
  _get_run db uid s = (r, s') ->
  s' = s
  /\ (forall run, r = Ok run ->
        exists h rest,
          run = (Header, h) :: rest
          /\ header_of uid (store_of db s) = Some h
          /\ Forall (page_in (store_of db s)) rest).
Proof.
  unfold _get_run. unfold bind at 1. rewrite find_one_reads.
  destruct (fault (store_of db s)).
  { intros E. inversion E; subst. split; [reflexivity|discriminate]. }
  change (List.find (matches [Eq "run_id" uid])
                    (coll Header (store_of db s)))
    with (header_of uid (store_of db s)).
  destruct (header_of uid (store_of db s)) as [h|] eqn:Hh.
  2:{ intros E. inversion E; subst. split; [reflexivity|discriminate]. }
  intros E.
  assert (Hshape :
    hoare (fun s1 => s1 = s)
      (run <- (if Dict.mem "descriptors" h then
                 descriptors <- lift (obind (py_getitem (VDict h)
                                                        "descriptors")
                                            py_iter) ;;
                 fold_m descriptors [(Header, h)] (fun run descriptor =>
                   uid <- lift (py_getitem descriptor "uid") ;;
                   docs <- on_db db (find Event [Eq "descriptor" uid]) ;;
                   ret (run ++ map (pair Event) docs))
               else ret [(Header, h)]) ;;
       run <- (if Dict.mem "resources" h then
                 resources <- lift (obind (py_getitem (VDict h)
                                                      "resources")
                                          py_iter) ;;
                 fold_m resources run (fun run resource =>
                   uid <- lift (py_getitem resource "uid") ;;
                   docs <- on_db db (find Datum [Eq "resource" uid]) ;;
                   ret (run ++ map (pair Datum) docs))
               else ret run) ;;
       ret run)
      (fun r s' =>
         s' = s
         /\ forall run, r = Ok run ->
              exists rest, run = (Header, h) :: rest
                           /\ Forall (page_in (store_of db s)) rest)).
  { apply (hoare_bind _ (fun r s' =>
             s' = s
             /\ forall run, r = Ok run ->
                  exists rest, run = (Header, h) :: rest
                               /\ Forall (page_in (store_of db s)) rest)).
    - apply (gather_pages db Event "descriptors" "descriptor" h h s);
        [discriminate|].
      exists []. split; [reflexivity|constructor].
    - intros run1.
      apply (hoare_bind _ (fun r s' =>
               s' = s
               /\ forall run, r = Ok run ->
                    exists rest, run = (Header, h) :: rest
                                 /\ Forall (page_in (store_of db s)) rest)).
      + intros s1 r1 s1' E1 [Hs Hrun]. revert s1 r1 s1' E1 Hs.
        apply (gather_pages db Datum "resources" "resource" h h s);
          [discriminate|].
        now apply Hrun.
      + intros run2 s1 r1 s1' E1 [Hs Hrun]. inversion E1; subst.
        split; [reflexivity|exact Hrun].
      + intros e s1 [Hs _]. split; [exact Hs|discriminate].
      + intros s1 [Hs _]. split; [exact Hs|discriminate].
    - intros e s1 [Hs _]. split; [exact Hs|discriminate].
    - intros s1 [Hs _]. split; [exact Hs|discriminate]. }
  destruct (Hshape s r s' E eq_refl) as [Hs Hrun].
  split; [exact Hs|]. intros run Hr.
  destruct (Hrun run Hr) as (rest & -> & Hrest).
  exists h, rest. split; [reflexivity|]. split; [reflexivity|exact Hrest].
Qed.

End MovingRuns.

Section DeletingRuns.
Context {encoder : Bson}.

Lemma find_filtered {A} (f : A -> bool) l :
  List.find f (List.filter (fun x => negb (f x)) l) = None.
Proof.
  induction l as [|x l IH]; simpl; auto.
  destruct (f x) eqn:E; simpl; auto. now rewrite E.
Qed.

(** One [remove]: the documents that match go, from that collection of
    that store and from nowhere else. *)
Lemma remove_step db c f s r s' :
  on_db db (remove c f) s = (r, s') ->
  (r = Ok tt \/ exists e, r = Raise e /\ s' = s)
  /\ (r = Ok tt ->
      coll c (store_of db s')
      = List.filter (fun d => negb (matches f d)) (coll c (store_of db s))
      /\ (forall c', c' <> c ->
            coll c' (store_of db s') = coll c' (store_of db s))
      /\ (forall db', db' <> db -> store_of db' s' = store_of db' s)).
Proof.
  destruct db; unfold on_db, zoom, remove, available, bind, get, modify,
    store_of.
  - destruct (fault (_volatile_db s)) eqn:Hf; simpl; intros E;
      inversion E; subst.
    + split; [right; eexists; split;
              [reflexivity|apply with_volatile_same]|discriminate].
    + split; [now left|]. intros _. simpl.
      split; [apply coll_with_coll_same|].
      split; [intros c' Hne; apply coll_with_coll_other; congruence|].
      intros [] Hne; [congruence|reflexivity].
  - destruct (fault (_permanent_db s)) eqn:Hf; simpl; intros E;
      inversion E; subst.
    + split; [right; eexists; split;
              [reflexivity|apply with_permanent_same]|discriminate].
    + split; [now left|]. intros _. simpl.
      split; [apply coll_with_coll_same|].
      split; [intros c' Hne; apply coll_with_coll_other; congruence|].
      intros [] Hne; [reflexivity|congruence].
Qed.

(** The two loops of [_delete_run]. *)
Lemma remove_loop db c id_key xs :
  forall s s',
    for_each xs (fun x =>
      uid <- lift (py_getitem x "uid") ;;
      on_db db (remove c [Eq id_key uid])) s = (Ok tt, s') ->
    (forall c', c' <> c ->
       coll c' (store_of db s') = coll c' (store_of db s))
    /\ (forall db', db' <> db -> store_of db' s' = store_of db' s)
    /\ (forall d, In d (coll c (store_of db s')) ->
          In d (coll c (store_of db s)))
    /\ (forall x uid, In x xs -> py_getitem x "uid" = Done uid ->
          forall d, In d (coll c (store_of db s')) ->
                    matches [Eq id_key uid] d = false).
Proof.
  induction xs as [|x xs IH]; intros s s' H; simpl in H.
  - inversion H; subst. repeat split; auto. intros x uid [].
  - destruct (bind_inv _ _ _ _ _ H)
      as [([] & s1 & H1 & H2)|[(e & _ & Hr)|[_ Hr]]]; try discriminate.
    unfold bind at 1, lift at 1 in H1.
    destruct (py_getitem x "uid") as [uid0|e] eqn:Huid; [|discriminate].
    destruct (remove_step _ _ _ _ _ _ H1) as [_ Hstep].
    destruct (Hstep eq_refl) as (Hc1 & Ho1 & Hdb1).
    destruct (IH _ _ H2) as (Ho2 & Hdb2 & Hsub2 & Hgone2).
    split; [|split; [|split]].
    + intros c' Hne. rewrite (Ho2 c' Hne). now apply Ho1.
    + intros db' Hne. rewrite (Hdb2 db' Hne). now apply Hdb1.
    + intros d Hin. apply Hsub2 in Hin. rewrite Hc1 in Hin.
      apply filter_In in Hin. tauto.
    + intros y uid [<-|Hin] Hy d Hd.
      * apply Hsub2 in Hd. rewrite Hc1 in Hd.
        apply filter_In in Hd. destruct Hd as [_ Hd].
        rewrite Huid in Hy. inversion Hy; subst.
        now apply negb_true_iff in Hd.
      * now apply (Hgone2 y uid Hin Hy).
Qed.

(** [_delete_run] after its header was found. *)
Lemma delete_run_found db uid (h : doc) s s' :
  fault (store_of db s) = None ->
  header_of uid (store_of db s) = Some h ->
  _delete_run db uid s = (Ok tt, s') ->
  header (_volatile_db s')
  = List.filter (fun d => negb (matches [Eq "run_id" uid] d))
                (header (_volatile_db s))
  /\ header (_permanent_db s') = header (_permanent_db s)
  /\ (forall c d, In d (coll c (store_of db s')) ->
                  In d (coll c (store_of db s)))
  /\ (db = Volatile -> _permanent_db s' = _permanent_db s)
  /\ (Dict.mem "descriptors" h = true ->
      forall xs, obind (py_getitem (VDict h) "descriptors") py_iter
                 = Done xs ->
      forall x u, In x xs -> py_getitem x "uid" = Done u ->
      forall d, In d (Mongo.event (store_of db s')) ->
                matches [Eq "descriptor" u] d = false)
  /\ (Dict.mem "resources" h = true ->
      forall xs, obind (py_getitem (VDict h) "resources") py_iter
                 = Done xs ->
      forall x u, In x xs -> py_getitem x "uid" = Done u ->
      forall d, In d (Mongo.datum (store_of db s')) ->
                matches [Eq "resource" u] d = false).
Proof.
  intros Hf Hh H. unfold _delete_run in H. unfold bind at 1 in H.
  rewrite find_one_reads, Hf in H.
  change (List.find (matches [Eq "run_id" uid])
                    (coll Header (store_of db s)))
    with (header_of uid (store_of db s)) in H.
  rewrite Hh in H.
  destruct (bind_inv _ _ _ _ _ H)
    as [([] & s1 & H1 & H2)|[(e & _ & Hr)|[_ Hr]]]; try discriminate.
  destruct (bind_inv _ _ _ _ _ H2)
    as [([] & s2 & H3 & H4)|[(e & _ & Hr)|[_ Hr]]]; try discriminate.
  clear H H2.
  (* the events *)
  assert (L1 :
    (forall c', c' <> Event ->
       coll c' (store_of db s1) = coll c' (store_of db s))
    /\ (forall db', db' <> db -> store_of db' s1 = store_of db' s)
    /\ (forall d, In d (coll Event (store_of db s1)) ->
          In d (coll Event (store_of db s)))
    /\ (Dict.mem "descriptors" h = true ->
        forall xs, obind (py_getitem (VDict h) "descriptors") py_iter
                   = Done xs ->
        forall x u, In x xs -> py_getitem x "uid" = Done u ->
        forall d, In d (coll Event (store_of db s1)) ->
                  matches [Eq "descriptor" u] d = false)).
  { destruct (Dict.mem "descriptors" h).
    - unfold bind at 1, lift at 1 in H1.
      destruct (obind (py_getitem (VDict h) "descriptors") py_iter)
        as [xs|e]; [|discriminate].
      destruct (remove_loop _ _ _ _ _ _ H1) as (Ho & Hdb & Hsub & Hgone).
      split; [exact Ho|]. split; [exact Hdb|]. split; [exact Hsub|].
      intros _ xs' Hxs. inversion Hxs; subst. exact Hgone.
    - inversion H1; subst. repeat split; auto. discriminate. }
  (* the data *)
  assert (L2 :
    (forall c', c' <> Datum ->
       coll c' (store_of db s2) = coll c' (store_of db s1))
    /\ (forall db', db' <> db -> store_of db' s2 = store_of db' s1)
    /\ (forall d, In d (coll Datum (store_of db s2)) ->
          In d (coll Datum (store_of db s1)))
    /\ (Dict.mem "resources" h = true ->
        forall xs, obind (py_getitem (VDict h) "resources") py_iter
                   = Done xs ->
        forall x u, In x xs -> py_getitem x "uid" = Done u ->
        forall d, In d (coll Datum (store_of db s2)) ->
                  matches [Eq "resource" u] d = false)).
  { destruct (Dict.mem "resources" h).
    - unfold bind at 1, lift at 1 in H3.
      destruct (obind (py_getitem (VDict h) "resources") py_iter)
        as [xs|e]; [|discriminate].
      destruct (remove_loop _ _ _ _ _ _ H3) as (Ho & Hdb & Hsub & Hgone).
      split; [exact Ho|]. split; [exact Hdb|]. split; [exact Hsub|].
      intros _ xs' Hxs. inversion Hxs; subst. exact Hgone.
    - inversion H3; subst. repeat split; auto. discriminate. }
  destruct L1 as (Ho1 & Hdb1 & Hsub1 & Hgone1).
  destruct L2 as (Ho2 & Hdb2 & Hsub2 & Hgone2).
  (* the header *)
  destruct (remove_step Volatile _ _ _ _ _ H4) as [_ Hstep].
  destruct (Hstep eq_refl) as (Hc3 & Ho3 & Hdb3).
  assert (Hperm3 : _permanent_db s' = _permanent_db s2)
    by (apply (Hdb3 Permanent); discriminate).
  cbn [store_of] in Hc3, Ho3.
  destruct db; cbn [store_of] in *.
  - (* the run is deleted from the volatile store *)
    assert (Hp1 : _permanent_db s1 = _permanent_db s)
      by (apply (Hdb1 Permanent); discriminate).
    assert (Hp2 : _permanent_db s2 = _permanent_db s1)
      by (apply (Hdb2 Permanent); discriminate).
    split; [|split; [|split; [|split; [|split]]]].
    + change (header (_volatile_db s'))
        with (coll Header (_volatile_db s')). rewrite Hc3.
      rewrite (Ho2 Header) by discriminate.
      rewrite (Ho1 Header) by discriminate. reflexivity.
    + congruence.
    + intros [] d Hin.
      * rewrite Hc3 in Hin. apply filter_In in Hin.
        destruct Hin as [Hin _].
        rewrite (Ho2 Header) in Hin by discriminate.
        rewrite (Ho1 Header) in Hin by discriminate. exact Hin.
      * rewrite (Ho3 Event) in Hin by discriminate.
        rewrite (Ho2 Event) in Hin by discriminate.
        now apply Hsub1.
      * rewrite (Ho3 Datum) in Hin by discriminate.
        apply Hsub2 in Hin.
        rewrite (Ho1 Datum) in Hin by discriminate. exact Hin.
    + intros _. congruence.
    + intros Hm xs Hxs x u Hx Hu d Hin.
      change (Mongo.event (_volatile_db s'))
        with (coll Event (_volatile_db s')) in Hin.
      rewrite (Ho3 Event) in Hin by discriminate.
      rewrite (Ho2 Event) in Hin by discriminate.
      exact (Hgone1 Hm xs Hxs x u Hx Hu d Hin).
    + intros Hm xs Hxs x u Hx Hu d Hin.
      change (Mongo.datum (_volatile_db s'))
        with (coll Datum (_volatile_db s')) in Hin.
      rewrite (Ho3 Datum) in Hin by discriminate.
      exact (Hgone2 Hm xs Hxs x u Hx Hu d Hin).
  - (* the pages go from the permanent store, the header from the
       volatile one *)
    assert (Hv1 : _volatile_db s1 = _volatile_db s)
      by (apply (Hdb1 Volatile); discriminate).
    assert (Hv2 : _volatile_db s2 = _volatile_db s1)
      by (apply (Hdb2 Volatile); discriminate).
    split; [|split; [|split; [|split; [|split]]]].
    + change (header (_volatile_db s'))
        with (coll Header (_volatile_db s')). rewrite Hc3.
      now rewrite Hv2, Hv1.
    + rewrite Hperm3.
      change (header (_permanent_db s2))
        with (coll Header (_permanent_db s2)).
      rewrite (Ho2 Header) by discriminate.
      now rewrite (Ho1 Header) by discriminate.
    + rewrite Hperm3. intros [] d Hin.
      * rewrite (Ho2 Header) in Hin by discriminate.
        rewrite (Ho1 Header) in Hin by discriminate. exact Hin.
      * rewrite (Ho2 Event) in Hin by discriminate. now apply Hsub1.
      * apply Hsub2 in Hin.
        rewrite (Ho1 Datum) in Hin by discriminate. exact Hin.
    + discriminate.
    + rewrite Hperm3. intros Hm xs Hxs x u Hx Hu d Hin.
      change (Mongo.event (_permanent_db s2))
        with (coll Event (_permanent_db s2)) in Hin.
      rewrite (Ho2 Event) in Hin by discriminate.
      exact (Hgone1 Hm xs Hxs x u Hx Hu d Hin).
    + rewrite Hperm3. intros Hm xs Hxs x u Hx Hu d Hin.
      exact (Hgone2 Hm xs Hxs x u Hx Hu d Hin).
Qed.

Lemma delete_run_outcome db uid s s' :
  _delete_run db uid s = (Ok tt, s') ->
  fault (store_of db s) = None
  /\ exists h, header_of uid (store_of db s) = Some h.
Proof.
  intros H. unfold _delete_run in H. unfold bind at 1 in H.
  rewrite find_one_reads in H.
  destruct (fault (store_of db s)); [discriminate|].
  split; [reflexivity|].
  change (List.find (matches [Eq "run_id" uid])
                    (coll Header (store_of db s)))
    with (header_of uid (store_of db s)) in H.
  destruct (header_of uid (store_of db s)) as [h|]; [|discriminate].
  eauto.
Qed.

End DeletingRuns.

(** ** A freeze that succeeds *)

Lemma bind_ok_inv {S A B} (c : M S A) (k : A -> M S B) s b s' :
  bind c k s = (Ok b, s') ->
  exists a s1, c s = (Ok a, s1) /\ k a s1 = (Ok b, s').
Proof.
  intros H.
  destruct (bind_inv _ _ _ _ _ H) as [H1|[(e & _ & Hr)|[_ Hr]]];
    [exact H1|discriminate|discriminate].
Qed.

Section FreezeSucceeds.
Context {encoder : Bson}.

Lemma assert_ok b s u s' : assert b s = (Ok u, s') -> b = true /\ s' = s.
Proof.
  unfold assert. destruct b; intros H; inversion H; auto.
Qed.

Lemma set_header_out_of_reach x name d :
  preserves (fun s => out_of_reach s = x) (_set_header name d).
Proof.
  unfold _set_header, on_db, out_of_reach.
  apply preserves_bind; [apply preserves_get|]. intros s.
  apply (volatile_write_keeps Mongo.datum). intros y.
  now apply update_one_only.
Qed.

(** Up to the copy, a freeze writes the header of the volatile store
    only. *)
Lemma freeze_drain_out_of_reach x :
  preserves (fun s => out_of_reach s = x) freeze_drain.
Proof.
  destruct (waits_keep _ (stores_blind Mongo.datum x)
              (out_of_reach_loops x))
    as (Hpe & Hpd & Hjc & Hje & Hjd);
    try (intros y s0 H; exact H).
  unfold freeze_drain.
  apply preserves_bind; [keeps|]. intros _.
  apply preserves_bind; [apply Hpe|]. intros _.
  apply preserves_bind; [apply Hpd|]. intros _.
  apply preserves_bind; [keeps|]. intros _.
  apply preserves_bind; [apply Hjc|]. intros _.
  apply preserves_bind; [apply Hje|]. intros _.
  apply preserves_bind; [apply Hjd|]. intros _.
  apply preserves_bind; [apply preserves_get|]. intros s1.
  apply preserves_bind; [apply set_header_out_of_reach|]. intros _.
  apply preserves_bind; [apply set_header_out_of_reach|]. intros _.
  apply preserves_bind; [apply preserves_get|]. intros s2.
  destruct (_worker_error s2); [apply preserves_raise|].
  apply preserves_bind; [keeps|]. intros _.
  apply preserves_bind; [keeps|]. intros _.
  apply preserves_bind; [keeps|]. intros _.
  apply preserves_bind; [keeps|]. intros _.
  apply insert_header_out_of_reach.
Qed.

(** A freeze that gets to the copy has found no worker error, empty
    queues and empty buffers. *)
Lemma freeze_drain_ok s s1 :
  freeze_drain s = (Ok tt, s1) ->
  _worker_error s1 = None
  /\ _event_queue s1 = [] /\ _datum_queue s1 = []
  /\ Embedder.empty (_event_embedder s1) = true
  /\ Embedder.empty (_datum_embedder s1) = true.
Proof.
  intros H. unfold freeze_drain in H.
  do 10 (apply bind_ok_inv in H; destruct H as (? & ? & _ & H)).
  unfold bind at 1, get at 1 in H.
  match type of H with
  | match _worker_error ?x with _ => _ end _ = _ =>
      destruct (_worker_error x) eqn:Hw; [discriminate|]
  end.
  apply bind_ok_inv in H. destruct H as ([] & ? & Ha1 & H).
  apply assert_ok in Ha1. destruct Ha1 as [Hq1 ->].
  apply bind_ok_inv in H. destruct H as ([] & ? & Ha2 & H).
  apply assert_ok in Ha2. destruct Ha2 as [Hq2 ->].
  apply bind_ok_inv in H. destruct H as ([] & ? & Ha3 & H).
  apply assert_ok in Ha3. destruct Ha3 as [Hq3 ->].
  apply bind_ok_inv in H. destruct H as ([] & ? & Ha4 & H).
  apply assert_ok in Ha4. destruct Ha4 as [Hq4 ->].
  match type of H with
  | _insert_header _ _ ?x = _ =>
      assert (Hx : _worker_error x = None
                   /\ _event_queue x = [] /\ _datum_queue x = []
                   /\ Embedder.empty (_event_embedder x) = true
                   /\ Embedder.empty (_datum_embedder x) = true)
  end.
  { split; [exact Hw|].
    split; [destruct (_event_queue _); [reflexivity|discriminate]|].
    split; [destruct (_datum_queue _); [reflexivity|discriminate]|].
    split; assumption. }
  revert H Hx.
  match goal with
  | |- _insert_header ?n ?v ?x = _ -> _ =>
      generalize x; intros st H Hx
  end.
  assert (Hk : preserves
                 (fun s => _worker_error s = None
                           /\ _event_queue s = [] /\ _datum_queue s = []
                           /\ Embedder.empty (_event_embedder s) = true
                           /\ Embedder.empty (_datum_embedder s) = true)
                 (_insert_header "stop" (_stop_doc st))) by keeps.
  exact (Hk _ _ _ H Hx).
Qed.

Lemma insert_run_grows db r :
  forall s s',
    _insert_run db r s = (Ok tt, s') ->
    (forall c d, In d (coll c (store_of db s)) ->
                 In d (coll c (store_of db s')))
    /\ (forall db', db' <> db -> store_of db' s' = store_of db' s).
Proof.
  unfold _insert_run.
  induction r as [|[c0 d0] r IH]; intros s s' H; simpl in H.
  - inversion H; subst. auto.
  - apply bind_ok_inv in H. destruct H as ([] & s1 & H1 & H2).
    destruct (IH _ _ H2) as [Hin2 Hdb2].
    assert (Hstep :
      (forall c d, In d (coll c (store_of db s)) ->
                   In d (coll c (store_of db s1)))
      /\ (forall db', db' <> db -> store_of db' s1 = store_of db' s)).
    { clear -H1. destruct db;
        unfold on_db, zoom, insert_one, available, bind, get, modify in H1;
        cbn [fst snd] in H1.
      - destruct (fault (_volatile_db s)); [discriminate|].
        inversion H1; subst. cbn [store_of _volatile_db with_volatile_db].
        split.
        + intros c d Hin. destruct c, c0; simpl in *; auto;
            apply in_or_app; now left.
        + intros [] Hne; [congruence|reflexivity].
      - destruct (fault (_permanent_db s)); [discriminate|].
        inversion H1; subst.
        cbn [store_of _permanent_db with_permanent_db].
        split.
        + intros c d Hin. destruct c, c0; simpl in *; auto;
            apply in_or_app; now left.
        + intros [] Hne; [reflexivity|congruence]. }
    destruct Hstep as [Hin1 Hdb1]. split.
    + intros c d Hin. apply Hin2. now apply Hin1.
    + intros db' Hne. rewrite (Hdb2 db' Hne). now apply Hdb1.
Qed.

Lemma drop_step c s s' :
  on_db Volatile (drop c) s = (Ok tt, s') ->
  coll c (_volatile_db s') = []
  /\ (forall c', c' <> c ->
        coll c' (_volatile_db s') = coll c' (_volatile_db s))
  /\ _permanent_db s' = _permanent_db s.
Proof.
  unfold on_db, zoom, drop, available, bind, get, modify.
  destruct (fault (_volatile_db s)); [discriminate|].
  intros H. inversion H; subst. simpl.
  split; [apply coll_with_coll_same|]. split; [|reflexivity].
  intros c' Hne. apply coll_with_coll_other. congruence.
Qed.

(** X13.  When [freeze] returns, the pipeline is frozen, no worker
    error is recorded, the queues and the buffers are empty, the run read back
    from the permanent store equalled the run read from the volatile
    store, the volatile store has no header of the run left, the
    permanent store has one, every document the permanent store held
    before is still in it, and the volatile datum collection has gained
    nothing. *)
Theorem freeze_moves_the_run (s s' : t) (run_uid : value) :
  freeze run_uid s = (Ok tt, s') ->
  _frozen s' = true
  /\ _worker_error s' = None
  /\ _event_queue s' = [] /\ _datum_queue s' = []
  /\ Embedder.empty (_event_embedder s') = true
  /\ Embedder.empty (_datum_embedder s') = true
  /\ header_of run_uid (_volatile_db s') = None
  /\ (exists h, header_of run_uid (_permanent_db s') = Some h)
  /\ (forall c d, In d (coll c (_permanent_db s)) ->
                  In d (coll c (_permanent_db s')))
  /\ (forall d, In d (Mongo.datum (_volatile_db s')) ->
                In d (Mongo.datum (_volatile_db s))).
Proof.
  intros H.
  assert (Hfrozen : _frozen s' = true).
  { pose proof (freeze_freezes run_uid s) as Hf. now rewrite H in Hf. }
  unfold freeze in H.
  apply bind_ok_inv in H. destruct H as ([] & s1 & Hdrain & H).
  pose proof (freeze_drain_ok s s1 Hdrain) as Hq.
  pose proof (freeze_drain_out_of_reach (out_of_reach s) s _ s1 Hdrain
                eq_refl) as Hreach.
  unfold out_of_reach in Hreach. inversion Hreach as [[Hdat1 Hperm1]].
  unfold freeze_move in H.
  apply bind_ok_inv in H. destruct H as (vrun & s2 & Hget & H).
  destruct (get_run_outcome _ _ _ _ _ Hget) as [-> _].
  apply bind_ok_inv in H. destruct H as ([] & s3 & Hins & H).
  apply bind_ok_inv in H. destruct H as (prun & s4 & Hback & H).
  destruct (get_run_outcome _ _ _ _ _ Hback) as [-> Hprun].
  destruct (Hprun prun eq_refl) as (hp & rest & _ & Hhp & _).
  destruct (negb (run_eq vrun prun)); [discriminate|].
  destruct (insert_run_grows _ _ _ _ Hins) as [Hgrow Hvol3].
  specialize (Hvol3 Volatile). cbn [store_of] in Hgrow, Hvol3, Hhp.
  destruct (delete_run_outcome _ _ _ _ H) as (Hf & h & Hh).
  destruct (delete_run_found _ _ h _ _ Hf Hh H)
    as (Hhead & _ & Hsub & Hperm' & _).
  cbn [store_of] in Hsub.
  assert (Hk : preserves
                 (fun s => _worker_error s = None
                           /\ _event_queue s = [] /\ _datum_queue s = []
                           /\ Embedder.empty (_event_embedder s) = true
                           /\ Embedder.empty (_datum_embedder s) = true)
                 (_insert_run Permanent vrun ;; _delete_run Volatile run_uid)).
  { apply preserves_bind; [|intros _].
    - apply insert_run_keeps; intros x s0 Hs; exact Hs.
    - apply delete_run_keeps; intros x s0 Hs; exact Hs. }
  assert (Hq' : _worker_error s' = None
                /\ _event_queue s' = [] /\ _datum_queue s' = []
                /\ Embedder.empty (_event_embedder s') = true
                /\ Embedder.empty (_datum_embedder s') = true).
  { apply (Hk s1 (Ok tt) s'); [|exact Hq].
    unfold bind. rewrite Hins. exact H. }
  destruct Hq' as (Q1 & Q2 & Q3 & Q4 & Q5).
  split; [exact Hfrozen|]. split; [exact Q1|]. split; [exact Q2|].
  split; [exact Q3|]. split; [exact Q4|]. split; [exact Q5|].
  split; [unfold header_of; rewrite Hhead; apply find_filtered|].
  split; [exists hp; rewrite (Hperm' eq_refl); exact Hhp|].
  split.
  - intros c d Hin. rewrite (Hperm' eq_refl). apply Hgrow. congruence.
  - intros d Hin. apply (Hsub Datum) in Hin.
    rewrite Hvol3 in Hin by discriminate.
    simpl in Hin. congruence.
Qed.

(** X14.  When [explicit_freeze] returns, the pipeline is frozen, no
    worker error is recorded, the queues and the buffers are empty, the
    permanent store has a header of the run and has lost nothing, and the
    three collections of the volatile store are empty: they were dropped
    whole, whatever run their documents belonged to. *)
Theorem explicit_freeze_drops_everything (s s' : t) (run_uid : value) :
  explicit_freeze run_uid s = (Ok tt, s') ->
  _frozen s' = true
  /\ _worker_error s' = None
  /\ _event_queue s' = [] /\ _datum_queue s' = []
  /\ Embedder.empty (_event_embedder s') = true
  /\ Embedder.empty (_datum_embedder s') = true
  /\ header (_volatile_db s') = []
  /\ Mongo.event (_volatile_db s') = []
  /\ Mongo.datum (_volatile_db s') = []
  /\ (exists h, header_of run_uid (_permanent_db s') = Some h)
  /\ (forall c d, In d (coll c (_permanent_db s)) ->
                  In d (coll c (_permanent_db s'))).
Proof.
  intros H.
  assert (Hfrozen : _frozen s' = true).
  { pose proof (explicit_freeze_freezes run_uid s) as Hf.
    now rewrite H in Hf. }
  assert (Hreach : forall x,
             preserves (fun s => out_of_reach s = x)
               (modify (with_frozen true) ;;
                put_event Sentinel ;;
                put_datum Sentinel ;;
                join_event ;;
                join_datum)).
  { intros x.
    destruct (waits_keep _ (stores_blind Mongo.datum x)
                (out_of_reach_loops x))
      as (Hpe & Hpd & Hjc & Hje & Hjd);
      try (intros y s0 H0; exact H0).
    apply preserves_bind; [keeps|]. intros _.
    apply preserves_bind; [apply Hpe|]. intros _.
    apply preserves_bind; [apply Hpd|]. intros _.
    apply preserves_bind; [apply Hje|]. intros _. apply Hjd. }
  unfold explicit_freeze in H.
  apply bind_ok_inv in H. destruct H as ([] & a1 & H1 & H).
  apply bind_ok_inv in H. destruct H as ([] & a2 & H2 & H).
  apply bind_ok_inv in H. destruct H as ([] & a3 & H3 & H).
  apply bind_ok_inv in H. destruct H as ([] & a4 & H4 & H).
  apply bind_ok_inv in H. destruct H as ([] & s1 & H5 & H).
  assert (Hperm1 : _permanent_db s1 = _permanent_db s).
  { assert (Hrun : (modify (with_frozen true) ;;
                    put_event Sentinel ;;
                    put_datum Sentinel ;;
                    join_event ;;
                    join_datum) s = (Ok tt, s1)).
    { rewrite (bind_ok _ _ _ _ _ H1). rewrite (bind_ok _ _ _ _ _ H2).
      rewrite (bind_ok _ _ _ _ _ H3). rewrite (bind_ok _ _ _ _ _ H4).
      exact H5. }
    pose proof (Hreach (out_of_reach s) s _ s1 Hrun eq_refl) as Hr.
    unfold out_of_reach in Hr. congruence. }
  clear H1 H2 H3 H4 H5 Hreach.
  unfold bind at 1, get at 1 in H.
  destruct (_worker_error s1) eqn:Hw; [discriminate|].
  apply bind_ok_inv in H. destruct H as ([] & ? & Ha1 & H).
  apply assert_ok in Ha1. destruct Ha1 as [Hq1 ->].
  apply bind_ok_inv in H. destruct H as ([] & ? & Ha2 & H).
  apply assert_ok in Ha2. destruct Ha2 as [Hq2 ->].
  apply bind_ok_inv in H. destruct H as ([] & ? & Ha3 & H).
  apply assert_ok in Ha3. destruct Ha3 as [Hq3 ->].
  apply bind_ok_inv in H. destruct H as ([] & ? & Ha4 & H).
  apply assert_ok in Ha4. destruct Ha4 as [Hq4 ->].
  assert (Hq : _worker_error s1 = None
               /\ _event_queue s1 = [] /\ _datum_queue s1 = []
               /\ Embedder.empty (_event_embedder s1) = true
               /\ Embedder.empty (_datum_embedder s1) = true).
  { split; [exact Hw|].
    split; [destruct (_event_queue s1); [reflexivity|discriminate]|].
    split; [destruct (_datum_queue s1); [reflexivity|discriminate]|].
    split; assumption. }
  assert (Hk : preserves
                 (fun s => _worker_error s = None
                           /\ _event_queue s = [] /\ _datum_queue s = []
                           /\ Embedder.empty (_event_embedder s) = true
                           /\ Embedder.empty (_datum_embedder s) = true)
                 (volatile_run <- _get_run Volatile run_uid ;;
                  _insert_run Permanent volatile_run ;;
                  permanent_run <- _get_run Permanent run_uid ;;
                  if negb (run_eq volatile_run permanent_run)
                  then raise move_failed
                  else
                    on_db Volatile (drop Header) ;;
                    on_db Volatile (drop Event) ;;
                    on_db Volatile (drop Datum))).
  { apply preserves_bind;
      [apply get_run_keeps; intros x s0 Hs; exact Hs|]. intros vr.
    apply preserves_bind;
      [apply insert_run_keeps; intros x s0 Hs; exact Hs|]. intros _.
    apply preserves_bind;
      [apply get_run_keeps; intros x s0 Hs; exact Hs|]. intros pr.
    destruct (negb _); [apply preserves_raise|]. keeps. }
  destruct (Hk _ _ _ H Hq) as (Q1 & Q2 & Q3 & Q4 & Q5). clear Hk.
  apply bind_ok_inv in H. destruct H as (vrun & s2 & Hget & H).
  destruct (get_run_outcome _ _ _ _ _ Hget) as [-> _].
  apply bind_ok_inv in H. destruct H as ([] & s3 & Hins & H).
  apply bind_ok_inv in H. destruct H as (prun & s4 & Hback & H).
  destruct (get_run_outcome _ _ _ _ _ Hback) as [-> Hprun].
  destruct (Hprun prun eq_refl) as (hp & rest & _ & Hhp & _).
  destruct (negb (run_eq vrun prun)); [discriminate|].
  destruct (insert_run_grows _ _ _ _ Hins) as [Hgrow _].
  cbn [store_of] in Hgrow, Hhp.
  apply bind_ok_inv in H. destruct H as ([] & s5 & Hd1 & H).
  apply bind_ok_inv in H. destruct H as ([] & s6 & Hd2 & Hd3).
  destruct (drop_step _ _ _ Hd1) as (He1 & Ho1 & Hp1).
  destruct (drop_step _ _ _ Hd2) as (He2 & Ho2 & Hp2).
  destruct (drop_step _ _ _ Hd3) as (He3 & Ho3 & Hp3).
  split; [exact Hfrozen|]. split; [exact Q1|]. split; [exact Q2|].
  split; [exact Q3|]. split; [exact Q4|]. split; [exact Q5|].
  split.
  { change (header (_volatile_db s')) with (coll Header (_volatile_db s')).
    rewrite (Ho3 Header) by discriminate.
    rewrite (Ho2 Header) by discriminate. exact He1. }
  split.
  { change (Mongo.event (_volatile_db s'))
      with (coll Event (_volatile_db s')).
    rewrite (Ho3 Event) by discriminate. exact He2. }
  split; [exact He3|].
  split; [exists hp; rewrite Hp3, Hp2, Hp1; exact Hhp|].
  intros c d Hin. rewrite Hp3, Hp2, Hp1. apply Hgrow.
  now rewrite Hperm1.
Qed.
End FreezeSucceeds.

(** ** Computations that never wait *)

Lemma nb_ret {S A} (a : A) : never_blocks (@ret S A a).
Proof. intros s. discriminate. Qed.

Lemma nb_raise {S A} (e : exn) : never_blocks (@raise S A e).
Proof. intros s. discriminate. Qed.

Lemma nb_lift {S A} (x : result A) : never_blocks (@lift S A x).
Proof. intros s. destruct x; discriminate. Qed.

Lemma nb_get {S} : never_blocks (@get S).
Proof. intros s. discriminate. Qed.

Lemma nb_modify {S} (f : S -> S) : never_blocks (modify f).
Proof. intros s. discriminate. Qed.

Lemma nb_bind {S A B} (c : M S A) (k : A -> M S B) :
  never_blocks c -> (forall a, never_blocks (k a)) ->
  never_blocks (bind c k).
Proof.
  intros Hc Hk s. unfold bind. specialize (Hc s).
  destruct (c s) as [[a|e|] s1]; simpl in *.
  - apply Hk.
  - discriminate.
  - contradiction.
Qed.

Lemma nb_for_each {S A} (xs : list A) (body : A -> M S unit) :
  (forall x, never_blocks (body x)) -> never_blocks (for_each xs body).
Proof.
  intros Hb. induction xs as [|x r IH]; simpl.
  - apply nb_ret.
  - apply nb_bind; auto.
Qed.

Lemma nb_comprehension {S A B} (xs : list A) (f : A -> M S B) :
  (forall x, never_blocks (f x)) -> never_blocks (comprehension xs f).
Proof.
  intros Hf. induction xs as [|x r IH]; simpl.
  - apply nb_ret.
  - apply nb_bind; auto. intros y. apply nb_bind; auto.
    intros ys. apply nb_ret.
Qed.

Lemma nb_zoom {S T A} (proj : S -> T) (upd : T -> S -> S) (c : M T A) :
  never_blocks c -> never_blocks (zoom proj upd c).
Proof.
  intros Hc s. unfold zoom. specialize (Hc (proj s)).
  destruct (c (proj s)) as [r t']. exact Hc.
Qed.

Ltac runs :=
  repeat first
    [ apply nb_ret
    | apply nb_raise
    | apply nb_lift
    | apply nb_get
    | apply nb_modify
    | apply nb_bind; [|intros ?]
    | apply nb_for_each; intros ?
    | apply nb_comprehension; intros ?
    | apply nb_zoom
    | match goal with
      | |- never_blocks (match ?x with _ => _ end) => destruct x
      end
    | progress cbv zeta
    | progress autounfold with pipeline ].

(** ** The counts the event worker reports *)

Section ReportedCounts.
Context {encoder : Bson}.

Lemma insert_never_blocks d : never_blocks (Embedder.insert d).
Proof.
  unfold Embedder.insert, Embedder.embed_item, Embedder.stream_of,
    Embedder.on_page, Embedder.items_of.
  runs.
Qed.

Lemma bulk_write_never_blocks c ops : never_blocks (bulk_write c ops).
Proof. unfold bulk_write, available. runs. Qed.

Lemma event_flush_never_blocks : never_blocks event_flush.
Proof.
  unfold event_flush, Embedder.dump. runs.
  apply bulk_write_never_blocks.
Qed.

Lemma event_iteration_never_blocks late :
  never_blocks (_event_worker_iteration late).
Proof.
  unfold _event_worker_iteration.
  apply nb_bind; [apply nb_get|]. intros s0.
  apply nb_bind.
  { destruct (local (event_thread s0)); [apply nb_ret|].
    destruct (_event_queue s0); runs. }
  intros got. apply nb_bind.
  { destruct (snd got); [apply nb_ret|].
    destruct (fst got) as [[d|]|]; try apply nb_ret.
    apply nb_bind; [|intros; apply nb_ret].
    apply nb_zoom. apply insert_never_blocks. }
  intros ev. apply nb_bind; [apply nb_modify|]. intros _.
  destruct (_ || _ || _); [apply event_flush_never_blocks|apply nb_ret].
Qed.

Lemma append_inj (p a b : string) : (p ++ a = p ++ b)%string -> a = b.
Proof.
  induction p as [|c p IH]; simpl; auto.
  intros H. inversion H. auto.
Qed.

(** The loop that follows the bulk write. *)
Lemma report_loop pages :
  forall s s',
    for_each pages (fun entry =>
      n <- lift (py_len (page_getitem "seq_num" (snd entry))) ;;
      modify (fun s =>
        with_db_event_count
          (count_up (_db_event_count s) "count_" (fst entry) n) s))
      s = (Ok tt, s') ->
    _event_count s' = _event_count s
    /\ forall d, reported d s'
                 = reported d s + batch_total "seq_num" d pages.
Proof.
  induction pages as [|[id page] pages IH]; intros s s' H; simpl in H.
  - inversion H; subst. split; [reflexivity|]. intros d. simpl. lia.
  - apply bind_ok_inv in H. destruct H as ([] & s1 & H1 & H2).
    unfold bind, lift, modify in H1.
    destruct (py_len (page_getitem "seq_num" page)) as [n|e] eqn:Hlen;
      [|discriminate].
    inversion H1; subst s1. clear H1.
    destruct (IH _ _ H2) as [Hc Hr]. split; [exact Hc|].
    intros d. rewrite Hr. cbn [batch_total fold_right fst snd].
    fold (batch_total "seq_num" d pages).
    unfold reported, count_up. cbn [_db_event_count with_db_event_count].
    unfold count_of. rewrite Hlen.
    destruct (String.eqb id d) eqn:E.
    + apply String.eqb_eq in E. subst id.
      rewrite get_default_add_same. lia.
    + apply String.eqb_neq in E.
      rewrite get_default_add_other; [lia|].
      intros Heq. apply E. symmetry. now apply append_inj in Heq.
Qed.

(** A flush that ends normally advances the reported count and the index
    counter of every stream by the same number. *)
Lemma event_flush_counts s s' :
  event_flush s = (Ok tt, s') ->
  forall d, reported d s' - reported d s
            = event_counter d s' - event_counter d s.
Proof.
  unfold event_flush. unfold bind at 1, get at 1.
  destruct (negb (Embedder.empty (_event_embedder s))).
  2:{ intros H. inversion H; subst. intros d. lia. }
  intros H. apply bind_ok_inv in H.
  destruct H as ([pages sizes] & s1 & Hdump & H).
  cbn [fst snd] in H.
  assert (Hs1 : _event_count s1 = _event_count s
                /\ _db_event_count s1 = _db_event_count s).
  { unfold on_event_embedder, zoom in Hdump.
    destruct (Embedder.dump (_event_embedder s)) as [r0 e0].
    inversion Hdump; subst. split; reflexivity. }
  destruct Hs1 as [Hc1 Hr1].
  apply bind_ok_inv in H. destruct H as ([] & s2 & Hwrite & Hloop).
  assert (Hr2 : _db_event_count s2 = _db_event_count s1).
  { assert (Hk : preserves
                   (fun s => _db_event_count s = _db_event_count s1)
                   (_bulkwrite_event pages sizes)) by keeps.
    exact (Hk _ _ _ Hwrite eq_refl). }
  unfold _bulkwrite_event in Hwrite.
  apply bind_ok_inv in Hwrite. destruct Hwrite as (ops & s1' & Hops & Hbw).
  assert (Hc2 : _event_count s2 = _event_count s1').
  { assert (Hk : preserves
                   (fun s => _event_count s = _event_count s1')
                   (on_db Volatile (bulk_write Event ops))) by keeps.
    exact (Hk _ _ _ Hbw eq_refl). }
  destruct (report_loop pages s2 s' Hloop) as [Hc3 Hr3].
  intros d.
  destruct (operations_chain _updateone_eventpage event_counter
              "descriptor" "seq_num" event_build_spec
              d sizes pages s1 ops s1' Hops) as (_ & Htot & _).
  rewrite Hr3. unfold reported, event_counter in *.
  rewrite Hc3, Hc2, Hr2, Hr1, Htot, Hc1. lia.
Qed.

Lemma event_iteration_counts late s s' :
  _event_worker_iteration late s = (Ok tt, s') ->
  forall d, reported d s' - reported d s
            = event_counter d s' - event_counter d s.
Proof.
  intros H d. unfold _event_worker_iteration in H.
  apply bind_ok_inv in H. destruct H as (s0 & s1 & H0 & H).
  inversion H0; subst s0 s1. clear H0.
  apply bind_ok_inv in H. destruct H as (got & s1 & H1 & H).
  assert (K1 : _event_count s1 = _event_count s
               /\ _db_event_count s1 = _db_event_count s).
  { assert (Hk : preserves
                   (fun x => _event_count x = _event_count s
                             /\ _db_event_count x = _db_event_count s)
                   (match local (event_thread s) with
                    | None =>
                        match _event_queue s with
                        | [] => ret (@None item, true)
                        | x :: q =>
                            modify (with_event_queue q) ;;
                            ret (Some x, false)
                        end
                    | Some _ => ret (local (event_thread s), false)
                    end)) by keeps.
    exact (Hk _ _ _ H1 (conj eq_refl eq_refl)). }
  apply bind_ok_inv in H. destruct H as (ev & s2 & H2 & H).
  assert (K2 : _event_count s2 = _event_count s1
               /\ _db_event_count s2 = _db_event_count s1).
  { assert (Hk : preserves
                   (fun x => _event_count x = _event_count s1
                             /\ _db_event_count x = _db_event_count s1)
                   (if snd got then ret (fst got)
                    else
                      match fst got with
                      | Some (Doc d) =>
                          r <- on_event_embedder (Embedder.insert d) ;;
                          ret (option_map Doc r)
                      | other => ret other
                      end)) by keeps.
    exact (Hk _ _ _ H2 (conj eq_refl eq_refl)). }
  apply bind_ok_inv in H. destruct H as ([] & s3 & H3 & H).
  inversion H3; subst s3. clear H3.
  assert (K3 : forall d,
             reported d s' - reported d s2
             = event_counter d s' - event_counter d s2).
  { destruct (_ || _ || _).
    - intros d0.
      pose proof (event_flush_counts _ _ H d0) as Hf.
      unfold reported, event_counter in *. exact Hf.
    - inversion H; subst. intros d0. unfold reported, event_counter.
      simpl. lia. }
  specialize (K3 d). unfold reported, event_counter in *.
  destruct K1 as [A1 B1]. destruct K2 as [A2 B2].
  rewrite A2, B2, A1, B1 in K3. exact K3.
Qed.

Lemma other_loops_keep_counts x :
  (forall late,
     preserves (fun s => (_event_count s, _db_event_count s) = x)
               (_datum_worker_iteration late))
  /\ preserves (fun s => (_event_count s, _db_event_count s) = x)
               _count_worker_iteration.
Proof.
  split.
  - intros late. unfold _datum_worker_iteration, datum_flush. keeps.
  - unfold _count_worker_iteration. keeps.
Qed.

Lemma step_keeps_agreement tk s :
  ((forall e, status (event_thread s) <> Failed e) ->
   forall d, reported d s = event_counter d s) ->
  (forall e, status (event_thread (step tk s)) <> Failed e) ->
  forall d, reported d (step tk s) = event_counter d (step tk s).
Proof.
  intros Hinv Hok. destruct tk as [late|late|]; cbn [step] in *.
  - unfold _event_worker in *.
    destruct (status (event_thread s)) eqn:Hst.
    2:{ apply Hinv. intros e. try rewrite Hst. discriminate. }
    2:{ exfalso. apply (Hok e). exact Hst. }
    unfold _try_wrapper in *.
    pose proof (event_iteration_never_blocks late s) as Hnb.
    destruct (_event_worker_iteration late s) as [[[]|e|] s1] eqn:E.
    + intros d.
      pose proof (event_iteration_counts late s s1 E d) as Hd.
      assert (Hs : reported d s = event_counter d s).
      { apply Hinv. intros e. try rewrite Hst. discriminate. }
      unfold reported, event_counter in *.
      cbn [_db_event_count _event_count with_event_thread]. lia.
    + exfalso. apply (Hok e). reflexivity.
    + exfalso. apply Hnb. reflexivity.
  - assert (Ht : event_thread (_datum_worker late s) = event_thread s).
    { pose proof (datum_worker_event_side late s) as Hside.
      unfold event_side in Hside. congruence. }
    destruct (other_loops_keep_counts (_event_count s, _db_event_count s))
      as [Hd _].
    assert (Hc : (_event_count (_datum_worker late s),
                  _db_event_count (_datum_worker late s))
                 = (_event_count s, _db_event_count s)).
    { apply (datum_worker_keeps
               (fun x => (_event_count x, _db_event_count x)
                         = (_event_count s, _db_event_count s)));
        [repeat split; intros y s0 H; exact H|apply Hd|reflexivity]. }
    inversion Hc as [[Hc1 Hc2]]. intros d.
    unfold reported, event_counter. rewrite Hc1, Hc2.
    apply Hinv. intros e. rewrite <- Ht. apply Hok.
  - assert (Ht : event_thread (_count_worker s) = event_thread s).
    { pose proof (count_worker_event_side s) as Hside.
      unfold event_side in Hside. congruence. }
    destruct (other_loops_keep_counts (_event_count s, _db_event_count s))
      as [_ Hcw].
    assert (Hc : (_event_count (_count_worker s),
                  _db_event_count (_count_worker s))
                 = (_event_count s, _db_event_count s)).
    { apply (count_worker_keeps
               (fun x => (_event_count x, _db_event_count x)
                         = (_event_count s, _db_event_count s)));
        [repeat split; intros y s0 H; exact H|apply Hcw|reflexivity]. }
    inversion Hc as [[Hc1 Hc2]]. intros d.
    unfold reported, event_counter. rewrite Hc1, Hc2.
    apply Hinv. intros e. rewrite <- Ht. apply Hok.
Qed.

(** X15.  As long as the event worker has not failed, what it reports for
    the header agrees with what it has written: for every descriptor,
    [_db_event_count['count_' + descriptor]] equals the index counter
    [_event_count[descriptor]], after any number of iterations of the
    three workers. *)
Theorem reported_counts_agree (s : t) (ticks : list tick) :
  (forall d, reported d s = event_counter d s) ->
  (forall e, status (event_thread (run_ticks ticks s)) <> Failed e) ->
  forall d, reported d (run_ticks ticks s)
            = event_counter d (run_ticks ticks s).
Proof.
  intros Hstart.
  assert (Hinv : (forall e, status (event_thread s) <> Failed e) ->
                 forall d, reported d s = event_counter d s)
    by (intros _; exact Hstart).
  clear Hstart. revert s Hinv.
  induction ticks as [|tk r IH]; intros s Hinv Hok; [now apply Hinv|].
  cbn [run_ticks fold_left] in *.
  apply IH; [|exact Hok].
  now apply step_keeps_agreement.
Qed.
End ReportedCounts.

(** ** The size of the stored pages *)

Lemma size_applied fields size a b (d d' : doc) :
  Forall (fun kv => free_head (fst kv) = true) fields ->
  apply_update (pushes fields
                  ++ [Inc "size" size; Min "first_index" a;
                      Max "last_index" b]) d = Done d' ->
  exists v, inc_by size (Dict.get "size" d) = Done v
            /\ Dict.get "size" d' = Some v.
Proof.
  intros Hfree Hrun. rewrite apply_update_app in Hrun.
  destruct (apply_update (pushes fields) d) as [d1|e] eqn:Hpush;
    cbn [obind] in Hrun; [|discriminate].
  assert (Hsize : Dict.get "size" d1 = Dict.get "size" d).
  { eapply pushes_keep_reserved; eauto. simpl. tauto. }
  cbn [apply_update apply_op] in Hrun.
  change (split_dots "size") with ["size"] in Hrun.
  change (split_dots "first_index") with ["first_index"] in Hrun.
  change (split_dots "last_index") with ["last_index"] in Hrun.
  destruct (update_at ["size"] (inc_by size) d1) as [d2|e] eqn:H1;
    [|discriminate].
  cbn [obind] in Hrun.
  destruct (update_at ["first_index"] (min_with a) d2) as [d3|e] eqn:H2;
    [|discriminate].
  cbn [obind] in Hrun.
  destruct (update_at ["last_index"] (max_with b) d3) as [d4|e] eqn:H3;
    [|discriminate].
  cbn [obind] in Hrun. inversion Hrun; subst d4. clear Hrun.
  destruct (update_at_leaf _ _ _ _ H1) as (v1 & Hv1 & ->).
  destruct (update_at_leaf _ _ _ _ H2) as (v2 & Hv2 & ->).
  destruct (update_at_leaf _ _ _ _ H3) as (v3 & Hv3 & ->).
  exists v1. rewrite <- Hsize. split; [exact Hv1|].
  rewrite !get_set_other by discriminate. apply get_set_same.
Qed.

Lemma open_page_size k s P (d : doc) :
  matches [Eq k (VStr s); Lt "size" P] d = true ->
  exists n, Dict.get "size" d = Some (VInt n) /\ n < P.
Proof.
  rewrite matches_page. intros H. apply andb_true_iff in H.
  destruct H as [_ H]. unfold holds in H.
  destruct (Dict.get "size" d) as [[| |n| | |]|]; try discriminate.
  exists n. split; [reflexivity|]. now apply Z.ltb_lt.
Qed.

(** One update of the page writer keeps the pages small. *)
Lemma run_update_small P B op c c' :
  0 < P -> bounded_op P B op ->
  Forall (page_sized (P + B)) c ->
  run_update op c = Done c' ->
  Forall (page_sized (P + B)) c'.
Proof.
  intros HP (id_key & stream & fields & size & a & b
             & Hkey & Hfilter & Hupd & Hfree & Hsize) Hc Hrun.
  unfold run_update in Hrun. rewrite Hfilter, Hupd in Hrun.
  destruct (update_first _ _ c) as [[c1|e]|] eqn:Hfirst;
    try discriminate.
  - inversion Hrun; subst c1. clear Hrun.
    destruct (update_first_done _ _ _ _ Hfirst)
      as (front & d & d' & back & -> & _ & Hm & Hu & ->).
    apply Forall_app in Hc. destruct Hc as [Hfront Hrest].
    inversion Hrest as [|? ? Hd Hback]; subst.
    apply Forall_app. split; [exact Hfront|]. constructor; [|exact Hback].
    destruct (open_page_size _ _ _ _ Hm) as (n & Hn & Hlt).
    destruct (size_applied _ _ _ _ _ _ Hfree Hu) as (v & Hv & Hget).
    rewrite Hn in Hv. simpl in Hv. inversion Hv; subst v.
    exists (n + size). split; [exact Hget|lia].
  - destruct (uo_upsert op).
    2:{ inversion Hrun; subst. exact Hc. }
    destruct (apply_update _ (seed _)) as [d'|e] eqn:Hu;
      cbn [obind] in Hrun; [|discriminate].
    inversion Hrun; subst c'. clear Hrun.
    apply Forall_app. split; [exact Hc|]. constructor; [|constructor].
    destruct (size_applied _ _ _ _ _ _ Hfree Hu) as (v & Hv & Hget).
    assert (Hnone : Dict.get "size"
                      (seed [Eq id_key (VStr stream); Lt "size" P]) = None).
    { destruct Hkey as [<-|[<-|[]]]; reflexivity. }
    rewrite Hnone in Hv. simpl in Hv. inversion Hv; subst v.
    exists size. split; [exact Hget|lia].
Qed.

Lemma run_unordered_small P B ops :
  0 < P -> Forall (bounded_op P B) ops ->
  forall c, Forall (page_sized (P + B)) c ->
            Forall (page_sized (P + B)) (fst (run_unordered ops c)).
Proof.
  intros HP. induction 1 as [|op ops Hop Hops IH]; intros c Hc; simpl.
  - exact Hc.
  - destruct (run_update op c) as [c1|e] eqn:Hrun.
    + apply IH. eapply run_update_small; eauto.
    + specialize (IH c Hc).
      destruct (run_unordered ops c) as [c2 err]. exact IH.
Qed.

Lemma value_le_sum k n (d : Dict.t Z) :
  Forall (fun kv => 0 <= snd kv) d -> Dict.get k d = Some n ->
  n <= Dict.sum d.
Proof.
  intros Hpos Hget.
  pose proof (proj1 (sizes_bounded k d Hpos)) as Hb.
  unfold size_of, Dict.get_default in Hb. rewrite Hget in Hb. lia.
Qed.

Section SmallPages.
Context {encoder : Bson}.

Lemma small_pages_via P B s s' :
  event_store s' = event_store s -> small_pages P B s -> small_pages P B s'.
Proof.
  unfold event_store, small_pages. intros H. inversion H as [[HP He Hv]].
  now rewrite HP, He, Hv.
Qed.

Lemma small_pages_keeps {A} P B (c : M t A) :
  (forall x, preserves (fun s => event_store s = x) c) ->
  preserves (small_pages P B) c.
Proof.
  intros H s r s' E Hs. apply (small_pages_via P B s); [|exact Hs].
  exact (H (event_store s) s r s' E eq_refl).
Qed.

(** A write to another collection of the volatile store. *)
Lemma volatile_write_event_store {A} (c : M Database A) x :
  (forall y, preserves (fun db => Mongo.event db = y) c) ->
  preserves (fun s => event_store s = x)
            (zoom _volatile_db with_volatile_db c).
Proof.
  intros Hc s r s' E HP. unfold zoom in E.
  destruct (c (_volatile_db s)) as [r0 db'] eqn:Ec.
  inversion E; subst. unfold event_store. simpl.
  now rewrite (Hc _ _ _ _ Ec eq_refl).
Qed.

Lemma insert_buffer_ok B d : preserves (buffer_ok B) (Embedder.insert d).
Proof.
  intros e r e' H (Hmax & Hpos & Hsum).
  assert (Hloop : forall r1 e1,
            for_each d (Embedder.embed_item d) e = (r1, e1) ->
            Embedder.current_size e1 = Embedder.current_size e
            /\ Embedder.stream_size e1 = Embedder.stream_size e
            /\ Embedder._max_size e1 = Embedder._max_size e).
  { intros r1 e1 E.
    pose proof (embed_all_accounts (accounts e) d d e _ _ E eq_refl)
      as Hacc.
    unfold accounts in Hacc. inversion Hacc. auto. }
  unfold Embedder.insert in H. unfold bind at 1, get at 1 in H.
  destruct (_ >? _) eqn:Hfit.
  { assert (He : e' = e) by (unfold ret in H; congruence).
    subst e'. split; [exact Hmax|]. split; assumption. }
  rewrite Z.gtb_ltb in Hfit. apply Z.ltb_ge in Hfit.
  pose proof (doc_size_nonneg d) as Hd.
  destruct (bind_inv _ _ _ _ _ H)
    as [([] & e1 & H1 & H2)|[(ex & H1 & _)|[H1 _]]];
    destruct (Hloop _ _ H1) as (Hcs' & Hss' & Hmax').
  - unfold bind at 1, modify at 1 in H2.
    destruct (bind_inv _ _ _ _ _ H2)
      as [(sid & e2 & H3 & H4)|[(ex & H3 & _)|[H3 _]]];
      pose proof (stream_of_keeps
                    (fun x => x = Embedder.with_current_size
                                    (Embedder.current_size e1
                                     + Embedder.doc_size d) e1)
                    d _ _ _ H3 eq_refl) as He2;
      cbv beta in He2.
    + subst e2. cbv [bind modify ret] in H4.
      apply (f_equal snd) in H4. cbn [snd] in H4. subst e'.
      unfold buffer_ok. simpl. rewrite Hss', Hcs', Hmax'.
      split; [exact Hmax|]. split.
      * apply nonneg_add; assumption.
      * rewrite sum_add. lia.
    + subst e'. unfold buffer_ok. simpl. rewrite Hss', Hcs', Hmax'.
      split; [exact Hmax|]. split; [exact Hpos|]. lia.
    + subst e'. unfold buffer_ok. simpl. rewrite Hss', Hcs', Hmax'.
      split; [exact Hmax|]. split; [exact Hpos|]. lia.
  - unfold buffer_ok. rewrite Hss', Hcs', Hmax'.
    split; [exact Hmax|]. split; assumption.
  - unfold buffer_ok. rewrite Hss', Hcs', Hmax'.
    split; [exact Hmax|]. split; assumption.
Qed.

Lemma cleared_buffer_ok B e : buffer_ok B e -> buffer_ok B (cleared e).
Proof.
  intros (Hmax & Hpos & Hsum).
  pose proof (proj2 (sizes_bounded "" _ Hpos)) as H0.
  unfold buffer_ok. simpl. split; [exact Hmax|].
  split; [constructor|]. unfold Dict.sum. simpl. lia.
Qed.

(** What [_updateone_eventpage] returns adds the size it was given. *)
Lemma updateone_eventpage_bounded B id page size s op s' :
  size <= B ->
  _updateone_eventpage id page size s = (Ok op, s') ->
  bounded_op (_PAGE_SIZE s) B op
  /\ exists n, s' = with_event_count (Dict.add id n (_event_count s)) s.
Proof.
  intros Hsize.
  unfold _updateone_eventpage, bind, lift, modify, get, ret.
  destruct (py_items (page_getitem "data" page)) as [data|e];
    [|discriminate].
  destruct (py_items (page_getitem "timestamps" page)) as [ts|e];
    [|discriminate].
  destruct (py_items (page_getitem "filled" page)) as [filled|e];
    [|discriminate].
  destruct (py_len (page_getitem "seq_num" page)) as [n|e] eqn:Hlen;
    [|discriminate].
  intros H. inversion H; subst op s'. clear H.
  split; [|exists n; reflexivity].
  exists "descriptor", id. eexists. exists size. eexists. eexists.
  split; [simpl; tauto|]. split; [reflexivity|]. split; [reflexivity|].
  split; [|exact Hsize].
  apply (forall_merge (fun k => free_head k = true)).
  - repeat constructor.
  - apply (forall_merge (fun k => free_head k = true));
      [apply (forall_merge (fun k => free_head k = true))|].
    + apply (forall_each_string (fun k => free_head k = true)).
      exact free_data.
    + apply (forall_each_string (fun k => free_head k = true)).
      exact free_timestamps.
    + apply (forall_each_string (fun k => free_head k = true)).
      exact free_filled.
Qed.

Lemma build_keeps_small P B id page sizes :
  preserves (small_pages P B)
            (size <- size_for id sizes ;;
             _updateone_eventpage id page size).
Proof.
  apply small_pages_keeps. intros x. keeps.
Qed.

(** The updates the bulk writer builds from a dump. *)
Lemma operations_bounded P B sizes pages :
  (forall k n, Dict.get k sizes = Some n -> n <= B) ->
  forall s r s',
    operations _updateone_eventpage pages sizes s = (r, s') ->
    small_pages P B s ->
    small_pages P B s'
    /\ forall ops, r = Ok ops -> Forall (bounded_op P B) ops.
Proof.
  intros Hsizes. unfold operations.
  induction pages as [|[id page] pages IH]; intros s r s' H Hs.
  - simpl in H. inversion H; subst. split; [exact Hs|].
    intros ops Hops. inversion Hops. constructor.
  - cbn [comprehension fst snd] in H.
    destruct (bind_inv _ _ _ _ _ H)
      as [(op & s1 & H1 & H2)|[(e & H1 & ->)|[H1 ->]]].
    + pose proof (build_keeps_small P B id page sizes _ _ _ H1 Hs) as Hs1.
      assert (Hop : bounded_op P B op).
      { apply bind_ok_inv in H1. destruct H1 as (size & s0 & Hsz & Hb).
        unfold size_for in Hsz.
        destruct (Dict.get id sizes) as [n|] eqn:Hget; [|discriminate].
        inversion Hsz; subst size s0.
        destruct Hs as (HP & _).
        rewrite <- HP.
        exact (proj1 (updateone_eventpage_bounded B id page n s op s1
                        (Hsizes id n Hget) Hb)). }
      destruct (bind_inv _ _ _ _ _ H2)
        as [(ys & s2 & H3 & H4)|[(e & H3 & ->)|[H3 ->]]].
      * destruct (IH _ _ _ H3 Hs1) as (Hs2 & Hops).
        inversion H4; subst r s'.
        split; [exact Hs2|].
        intros ops Ho. inversion Ho; subst ops.
        constructor; [exact Hop|]. now apply Hops.
      * destruct (IH _ _ _ H3 Hs1) as (Hs2 & _).
        split; [exact Hs2|]. discriminate.
      * destruct (IH _ _ _ H3 Hs1) as (Hs2 & _).
        split; [exact Hs2|]. discriminate.
    + split; [exact (build_keeps_small P B id page sizes _ _ _ H1 Hs)|].
      discriminate.
    + split; [exact (build_keeps_small P B id page sizes _ _ _ H1 Hs)|].
      discriminate.
Qed.

Lemma bulk_write_small P B ops s r s' :
  Forall (bounded_op P B) ops ->
  on_db Volatile (bulk_write Event ops) s = (r, s') ->
  small_pages P B s -> small_pages P B s'.
Proof.
  intros Hops H (HPs & HP & Hbuf & Hpages).
  unfold on_db, zoom, bulk_write in H.
  destruct ops as [|op ops].
  { inversion H; subst s'. rewrite with_volatile_same.
    split; [exact HPs|]. split; [exact HP|]. split; assumption. }
  unfold available in H.
  unfold bind at 1 in H. unfold bind at 1, get at 1 in H.
  destruct (fault (_volatile_db s)).
  { inversion H; subst s'. rewrite with_volatile_same.
    split; [exact HPs|]. split; [exact HP|]. split; assumption. }
  unfold ret at 1 in H. unfold bind at 1, get at 1 in H.
  pose proof (run_unordered_small P B (op :: ops) HP Hops _ Hpages)
    as Hsmall.
  change (coll Event (_volatile_db s)) with (Mongo.event (_volatile_db s))
    in H.
  destruct (run_unordered (op :: ops) (Mongo.event (_volatile_db s)))
    as [c' err].
  unfold bind at 1, modify at 1 in H. cbn [fst] in Hsmall.
  destruct err; inversion H; subst s';
    (split; [exact HPs|]; split; [exact HP|];
     split; [exact Hbuf|exact Hsmall]).
Qed.

Lemma bulkwrite_event_small P B pages sizes :
  (forall k n, Dict.get k sizes = Some n -> n <= B) ->
  preserves (small_pages P B) (_bulkwrite_event pages sizes).
Proof.
  intros Hsizes s r s' H Hs. unfold _bulkwrite_event in H.
  destruct (bind_inv _ _ _ _ _ H)
    as [(ops & s1 & H1 & H2)|[(e & H1 & _)|[H1 _]]].
  - destruct (operations_bounded P B sizes pages Hsizes _ _ _ H1 Hs)
      as (Hs1 & Hops).
    apply (bulk_write_small P B ops s1 r s'); auto.
  - exact (proj1 (operations_bounded P B sizes pages Hsizes _ _ _ H1 Hs)).
  - exact (proj1 (operations_bounded P B sizes pages Hsizes _ _ _ H1 Hs)).
Qed.

Lemma event_flush_small P B : preserves (small_pages P B) event_flush.
Proof.
  intros s r s' H Hs. unfold event_flush in H.
  unfold bind at 1, get at 1 in H.
  destruct (negb (Embedder.empty (_event_embedder s)));
    [|inversion H; subst; exact Hs].
  unfold bind at 1 in H. unfold on_event_embedder, zoom in H.
  rewrite dump_clears in H. cbn [fst snd] in H.
  destruct Hs as (HPs & HP & Hbuf & Hpages).
  assert (Hs1 : small_pages P B
                  (with_event_embedder (cleared (_event_embedder s)) s)).
  { split; [exact HPs|]. split; [exact HP|]. split; [|exact Hpages].
    now apply cleared_buffer_ok. }
  assert (Hsizes : forall k n,
             Dict.get k (Embedder.stream_size (_event_embedder s)) = Some n ->
             n <= B).
  { intros k n Hget. destruct Hbuf as (_ & Hpos & Hsum).
    pose proof (value_le_sum k n _ Hpos Hget). lia. }
  assert (Hloop : preserves (small_pages P B)
                    (for_each (Embedder._embedder (_event_embedder s))
                       (fun entry =>
                          n <- lift (py_len (page_getitem "seq_num"
                                                          (snd entry))) ;;
                          modify (fun s =>
                            with_db_event_count
                              (count_up (_db_event_count s) "count_"
                                        (fst entry) n) s)))).
  { apply small_pages_keeps. intros x. keeps. }
  destruct (bind_inv _ _ _ _ _ H)
    as [([] & s2 & H1 & H2)|[(e & H1 & _)|[H1 _]]].
  - apply (Hloop _ _ _ H2).
    exact (bulkwrite_event_small P B _ _ Hsizes _ _ _ H1 Hs1).
  - exact (bulkwrite_event_small P B _ _ Hsizes _ _ _ H1 Hs1).
  - exact (bulkwrite_event_small P B _ _ Hsizes _ _ _ H1 Hs1).
Qed.

Lemma small_pages_blind P B : thread_blind (small_pages P B).
Proof.
  unfold thread_blind.
  split; [|split; [|split; [|split]]]; intros x s H; exact H.
Qed.

Lemma small_pages_loops P B : loops_keep (small_pages P B).
Proof.
  split; [|split].
  - intros late. unfold _event_worker_iteration.
    apply preserves_bind; [apply preserves_get|]. intros s0.
    apply preserves_bind.
    { apply small_pages_keeps. intros x. keeps. }
    intros got. apply preserves_bind.
    { destruct (snd got); [apply preserves_ret|].
      destruct (fst got) as [[d|]|]; try apply preserves_ret.
      apply preserves_bind; [|intros; apply preserves_ret].
      apply (preserves_zoom _ (buffer_ok B)).
      - apply insert_buffer_ok.
      - intros s (_ & _ & Hb & _). exact Hb.
      - intros x s (HPs & HP & _ & Hpages) Hx.
        split; [exact HPs|]. split; [exact HP|].
        split; [exact Hx|exact Hpages]. }
    intros ev. apply preserves_bind.
    { apply preserves_modify. intros s H. exact H. }
    intros _. destruct (_ || _ || _);
      [apply event_flush_small|apply preserves_ret].
  - intros late. apply small_pages_keeps. intros x.
    unfold _datum_worker_iteration, datum_flush. keeps.
  - apply small_pages_keeps. intros x.
    unfold _count_worker_iteration. keeps.
    apply volatile_write_event_store. intros y.
    now apply update_one_only.
Qed.

(** Reads keep everything. *)
Lemma find_one_keeps (Q : t -> Prop) db c f :
  preserves Q (on_db db (find_one c f)).
Proof.
  intros s r s' E HQ. rewrite find_one_reads in E.
  destruct (fault (store_of db s)); inversion E; subst; exact HQ.
Qed.

Lemma get_run_any (Q : t -> Prop) db uid : preserves Q (_get_run db uid).
Proof.
  intros s r s' E HQ.
  destruct (get_run_outcome db uid s r s' E) as [-> _]. exact HQ.
Qed.

Lemma header_write_small P B f u upsert :
  preserves (small_pages P B)
            (on_db Volatile (update_one Header f u upsert)).
Proof.
  apply small_pages_keeps. intros x. unfold on_db.
  apply volatile_write_event_store. intros y.
  now apply update_one_only.
Qed.

Lemma insert_header_small P B name d :
  preserves (small_pages P B) (_insert_header name d).
Proof.
  unfold _insert_header.
  apply preserves_bind; [apply preserves_get|]. intros s.
  apply header_write_small.
Qed.

Lemma set_header_small P B name d :
  preserves (small_pages P B) (_set_header name d).
Proof.
  unfold _set_header.
  apply preserves_bind; [apply preserves_get|]. intros s.
  apply header_write_small.
Qed.

(** A [remove] on the volatile store takes pages away; it makes none
    larger. *)
Lemma remove_small P B c f :
  preserves (small_pages P B) (on_db Volatile (remove c f)).
Proof.
  intros s r s' E (HPs & HP & Hbuf & Hpages).
  unfold on_db, zoom, remove, available, bind, get, modify in E.
  destruct (fault (_volatile_db s)); simpl in E; inversion E; subst s'.
  - rewrite with_volatile_same.
    split; [exact HPs|]. split; [exact HP|]. split; assumption.
  - split; [exact HPs|]. split; [exact HP|]. split; [exact Hbuf|].
    destruct c; simpl; try exact Hpages.
    apply Forall_forall. intros d Hin. apply filter_In in Hin.
    destruct Hin as [Hin _].
    exact (proj1 (Forall_forall _ _) Hpages d Hin).
Qed.

Lemma delete_run_small P B uid :
  preserves (small_pages P B) (_delete_run Volatile uid).
Proof.
  unfold _delete_run.
  apply preserves_bind; [apply find_one_keeps|]. intros [h|];
    [|apply preserves_raise].
  apply preserves_bind.
  { destruct (Dict.mem "descriptors" h); [|apply preserves_ret].
    apply preserves_bind; [apply preserves_lift|]. intros xs.
    apply preserves_for_each. intros x.
    apply preserves_bind; [apply preserves_lift|]. intros u.
    apply remove_small. }
  intros _. apply preserves_bind.
  { destruct (Dict.mem "resources" h); [|apply preserves_ret].
    apply preserves_bind; [apply preserves_lift|]. intros xs.
    apply preserves_for_each. intros x.
    apply preserves_bind; [apply preserves_lift|]. intros u.
    apply remove_small. }
  intros _. apply remove_small.
Qed.

Lemma freeze_small P B uid : preserves (small_pages P B) (freeze uid).
Proof.
  destruct (waits_keep _ (small_pages_blind P B) (small_pages_loops P B))
    as (Hpe & Hpd & Hjc & Hje & Hjd);
    try (intros x s0 H; exact H).
  unfold freeze. apply preserves_bind.
  - unfold freeze_drain.
    apply preserves_bind.
    { apply preserves_modify. intros s H. exact H. }
    intros _.
    apply preserves_bind; [apply Hpe|]. intros _.
    apply preserves_bind; [apply Hpd|]. intros _.
    apply preserves_bind.
    { apply preserves_modify. intros s H. exact H. }
    intros _.
    apply preserves_bind; [apply Hjc|]. intros _.
    apply preserves_bind; [apply Hje|]. intros _.
    apply preserves_bind; [apply Hjd|]. intros _.
    apply preserves_bind; [apply preserves_get|]. intros s1.
    apply preserves_bind; [apply set_header_small|]. intros _.
    apply preserves_bind; [apply set_header_small|]. intros _.
    apply preserves_bind; [apply preserves_get|]. intros s2.
    destruct (_worker_error s2); [apply preserves_raise|].
    apply preserves_bind; [unfold assert; keeps|]. intros _.
    apply preserves_bind; [unfold assert; keeps|]. intros _.
    apply preserves_bind; [unfold assert; keeps|]. intros _.
    apply preserves_bind; [unfold assert; keeps|]. intros _.
    apply insert_header_small.
  - intros _. unfold freeze_move.
    apply preserves_bind; [apply get_run_any|]. intros vr.
    apply preserves_bind.
    { apply small_pages_keeps. intros x. unfold _insert_run. keeps. }
    intros _.
    apply preserves_bind; [apply get_run_any|]. intros pr.
    destruct (negb _); [apply preserves_raise|].
    apply delete_run_small.
Qed.

Lemma call_small P B name d : preserves (small_pages P B) (__call__ name d).
Proof.
  destruct (waits_keep _ (small_pages_blind P B) (small_pages_loops P B))
    as (Hpe & Hpd & _);
    try (intros x s0 H; exact H).
  unfold __call__, dispatch.
  apply preserves_bind; [apply preserves_get|]. intros s0.
  destruct (_worker_error s0); [apply preserves_raise|].
  destruct (_frozen s0); [apply preserves_raise|].
  apply preserves_bind; [|intros; apply preserves_ret].
  destruct name.
  - unfold start.
    apply preserves_bind.
    { apply small_pages_keeps. intros x. keeps. }
    intros _.
    apply preserves_bind; [apply preserves_lift|]. intros uid.
    apply preserves_bind.
    { apply preserves_modify. intros s H. exact H. }
    intros _.
    apply preserves_bind; [apply insert_header_small|]. intros _.
    apply preserves_bind; [apply insert_header_small|]. intros _.
    apply preserves_bind; [apply insert_header_small|]. intros _.
    apply preserves_ret.
  - unfold stop.
    apply preserves_bind.
    { apply preserves_modify. intros s H. exact H. }
    intros _. apply preserves_bind; [|intros; apply preserves_ret].
    unfold close.
    apply preserves_bind; [apply preserves_get|]. intros s1.
    apply freeze_small.
  - unfold descriptor.
    apply preserves_bind; [apply insert_header_small|]. intros _.
    apply preserves_ret.
  - unfold resource.
    apply preserves_bind; [apply insert_header_small|]. intros _.
    apply preserves_ret.
  - unfold event.
    apply preserves_bind; [apply Hpe|]. intros _. apply preserves_ret.
  - unfold datum.
    apply preserves_bind; [apply Hpd|]. intros _. apply preserves_ret.
  - apply small_pages_keeps. intros x. unfold event_page. keeps.
  - apply small_pages_keeps. intros x. unfold datum_page. keeps.
Qed.

Lemma session_small P B acts :
  forall s, small_pages P B s -> small_pages P B (session acts s).
Proof.
  induction acts as [|a acts IH]; intros s Hs; [exact Hs|].
  cbn [session fold_left].
  change (fold_left act acts (act s a)) with (session acts (act s a)).
  apply IH. destruct a as [name d|tk|sch]; cbn [act].
  - destruct (__call__ name d s) as [r s'] eqn:E. simpl.
    exact (call_small P B name d s r s' E Hs).
  - apply step_keeps; auto.
    + apply small_pages_blind.
    + apply small_pages_loops.
  - exact Hs.
Qed.

(** X16.  In a pipeline built by the constructor on a volatile store
    whose event pages are below [page_size + embedder_size] (an empty
    collection, for one), every event page stays below
    [page_size + embedder_size], which is at most 15000000, whatever
    documents are handed to it and whatever the workers do: after any
    session of calls and worker iterations. *)
Theorem pages_stay_small
    (volatile_db permanent_db : Database)
    (num_threads queue_size embedder_size page_size max_insert_time : Z)
    (s0 : t) (acts : list action) :
  Serializer.__init__ volatile_db permanent_db num_threads queue_size
                      embedder_size page_size max_insert_time = Done s0 ->
  Forall (page_sized (page_size + embedder_size))
         (Mongo.event volatile_db) ->
  page_size + embedder_size <= 15000000
  /\ Forall (page_sized (page_size + embedder_size))
            (Mongo.event (_volatile_db (session acts s0))).
Proof.
  intros Hinit Hpages. unfold Serializer.__init__ in Hinit.
  destruct ((num_threads >? 10) || (num_threads <? 1)); [discriminate|].
  destruct (page_size <? 1000) eqn:Hp; [discriminate|].
  apply Z.ltb_ge in Hp.
  destruct (embedder_size + page_size >? 15000000) eqn:Hsum;
    [discriminate|].
  rewrite Z.gtb_ltb in Hsum. apply Z.ltb_ge in Hsum.
  unfold Embedder.__init__ in Hinit.
  destruct ((1000 <=? embedder_size) && (embedder_size <=? 15000000))
    eqn:He; [|discriminate].
  apply andb_true_iff in He. destruct He as [Hlo _].
  apply Z.leb_le in Hlo. simpl in Hinit. inversion Hinit; subst s0.
  split; [lia|].
  assert (Hs0 : small_pages page_size embedder_size
                  (boot volatile_db permanent_db queue_size embedder_size
                        page_size max_insert_time
                        (Embedder.event_buffer embedder_size)
                        (Embedder.datum_buffer embedder_size))).
  { split; [reflexivity|]. split; [lia|]. split; [|exact Hpages].
    unfold buffer_ok. simpl. split; [reflexivity|].
    split; [constructor|]. unfold Dict.sum. simpl. lia. }
  exact (proj2 (proj2 (proj2
           (session_small page_size embedder_size acts _ Hs0)))).
Qed.
End SmallPages.

(** ** After a worker has failed *)

Section WorkerFailure.
Context {encoder : Bson}.

Lemma control_error s s' : control s' = control s ->
  _worker_error s' = _worker_error s.
Proof. unfold control. intros H. congruence. Qed.

Lemma step_keeps_error tk s :
  _worker_error s <> None -> _worker_error (step tk s) <> None.
Proof.
  intros Herr. destruct tk as [late|late|]; cbn [step].
  - unfold _event_worker. destruct (status (event_thread s)); auto.
    unfold _try_wrapper.
    destruct (_event_worker_iteration late s) as [[u|e|] s'] eqn:E;
      simpl; try discriminate;
      rewrite (control_error s s'
                 (event_iteration_control (control s) late s _ s' E
                    eq_refl)); exact Herr.
  - unfold _datum_worker. destruct (status (datum_thread s)); auto.
    unfold _try_wrapper.
    destruct (_datum_worker_iteration late s) as [[u|e|] s'] eqn:E;
      simpl; try discriminate;
      rewrite (control_error s s'
                 (datum_iteration_control (control s) late s _ s' E
                    eq_refl)); exact Herr.
  - unfold _count_worker. destruct (count_status (count_thread s)); auto.
    unfold _try_wrapper.
    destruct (_count_worker_iteration s) as [[u|e|] s'] eqn:E;
      [destruct (_frozen s')|..]; simpl; try discriminate;
      rewrite (control_error s s'
                 (count_iteration_control (control s) s _ s' E eq_refl));
      exact Herr.
Qed.

Lemma call_with_error s name d e :
  _worker_error s = Some e ->
  __call__ name d s = (Raise (worker_exception e), s).
Proof. intros H. unfold __call__, bind, get. now rewrite H. Qed.

Lemma session_keeps_error acts :
  forall s, _worker_error s <> None ->
            _worker_error (session acts s) <> None.
Proof.
  induction acts as [|a acts IH]; intros s Herr; [exact Herr|].
  cbn [session fold_left].
  change (fold_left act acts (act s a)) with (session acts (act s a)).
  apply IH. destruct a as [name d|tk|sch]; cbn [act].
  - destruct (_worker_error s) as [e|] eqn:He; [|congruence].
    rewrite (call_with_error s name d e He). simpl. congruence.
  - now apply step_keeps_error.
  - exact Herr.
Qed.

(** X17.  A worker iteration that raises leaves the exception in
    [_worker_error] and the worker dead; and once an error is recorded
    the pipeline takes no document any more: after any further calls and
    worker iterations, [__call__] raises the [RuntimeError] that carries a
    recorded error and changes nothing. *)
Theorem worker_failure_stops_intake (s : t) :
  (forall late e s1,
      status (event_thread s) = Running ->
      _event_worker_iteration late s = (Raise e, s1) ->
      _worker_error (_event_worker late s) = Some e
      /\ status (event_thread (_event_worker late s)) = Failed e)
  /\ (forall late e s1,
        status (datum_thread s) = Running ->
        _datum_worker_iteration late s = (Raise e, s1) ->
        _worker_error (_datum_worker late s) = Some e
        /\ status (datum_thread (_datum_worker late s)) = Failed e)
  /\ (_worker_error s <> None ->
      forall acts name d,
      exists e,
        _worker_error (session acts s) = Some e
        /\ __call__ name d (session acts s)
           = (Raise (worker_exception e), session acts s)).
Proof.
  split; [|split].
  - intros late e s1 Hst E. unfold _event_worker, _try_wrapper.
    rewrite Hst, E. split; reflexivity.
  - intros late e s1 Hst E. unfold _datum_worker, _try_wrapper.
    rewrite Hst, E. split; reflexivity.
  - intros Herr acts name d.
    pose proof (session_keeps_error acts s Herr) as H.
    destruct (_worker_error (session acts s)) as [e|] eqn:He;
      [|congruence].
    exists e. split; [reflexivity|]. now apply call_with_error.
Qed.
End WorkerFailure.

(** ** Calls and sessions *)

Section Calls.
Context {encoder : Bson}.

(** What every call keeps, given what its waits and its writes keep. *)
Lemma call_keeps (P : t -> Prop) :
  thread_blind P -> loops_keep P -> handler_blind P ->
  (forall x, preserves P (put_event x)) ->
  (forall x, preserves P (put_datum x)) ->
  (forall f u upsert,
     preserves P (on_db Volatile (update_one Header f u upsert))) ->
  (forall c f, preserves P (on_db Volatile (remove c f))) ->
  (forall c d, preserves P (on_db Permanent (insert_one c d))) ->
  forall name d, preserves P (__call__ name d).
Proof.
  intros Hb Hl (Hsf & Hru & Hsd & Hfr & Hco) Hpe Hpd Hup Hrm Hins name d.
  assert (Hih : forall n v, preserves P (_insert_header n v)).
  { intros n v. unfold _insert_header.
    apply preserves_bind; [apply preserves_get|]. intros s. apply Hup. }
  assert (Hsh : forall n v, preserves P (_set_header n v)).
  { intros n v. unfold _set_header.
    apply preserves_bind; [apply preserves_get|]. intros s. apply Hup. }
  assert (Hassert : forall b, preserves P (assert b)).
  { intros b. unfold assert.
    destruct b; [apply preserves_ret|apply preserves_raise]. }
  assert (Hfreeze : forall uid, preserves P (freeze uid)).
  { intros uid. unfold freeze. apply preserves_bind.
    - unfold freeze_drain.
      apply preserves_bind.
      { apply preserves_modify. intros s H. now apply Hfr. }
      intros _.
      apply preserves_bind; [apply Hpe|]. intros _.
      apply preserves_bind; [apply Hpd|]. intros _.
      apply preserves_bind.
      { apply preserves_modify. intros s H. now apply Hco. }
      intros _.
      apply preserves_bind; [now apply await_keeps|]. intros _.
      apply preserves_bind; [now apply await_keeps|]. intros _.
      apply preserves_bind; [now apply await_keeps|]. intros _.
      apply preserves_bind; [apply preserves_get|]. intros s1.
      apply preserves_bind; [apply Hsh|]. intros _.
      apply preserves_bind; [apply Hsh|]. intros _.
      apply preserves_bind; [apply preserves_get|]. intros s2.
      destruct (_worker_error s2); [apply preserves_raise|].
      apply preserves_bind; [apply Hassert|]. intros _.
      apply preserves_bind; [apply Hassert|]. intros _.
      apply preserves_bind; [apply Hassert|]. intros _.
      apply preserves_bind; [apply Hassert|]. intros _.
      apply Hih.
    - intros _. unfold freeze_move.
      apply preserves_bind; [apply get_run_any|]. intros vr.
      apply preserves_bind.
      { unfold _insert_run. apply preserves_for_each. intros x.
        apply Hins. }
      intros _.
      apply preserves_bind; [apply get_run_any|]. intros pr.
      destruct (negb _); [apply preserves_raise|].
      unfold _delete_run.
      apply preserves_bind; [apply find_one_keeps|]. intros [h|];
        [|apply preserves_raise].
      apply preserves_bind.
      { destruct (Dict.mem "descriptors" h); [|apply preserves_ret].
        apply preserves_bind; [apply preserves_lift|]. intros xs.
        apply preserves_for_each. intros x.
        apply preserves_bind; [apply preserves_lift|]. intros u.
        apply Hrm. }
      intros _. apply preserves_bind.
      { destruct (Dict.mem "resources" h); [|apply preserves_ret].
        apply preserves_bind; [apply preserves_lift|]. intros xs.
        apply preserves_for_each. intros x.
        apply preserves_bind; [apply preserves_lift|]. intros u.
        apply Hrm. }
      intros _. apply Hrm. }
  unfold __call__, dispatch.
  apply preserves_bind; [apply preserves_get|]. intros s0.
  destruct (_worker_error s0); [apply preserves_raise|].
  destruct (_frozen s0); [apply preserves_raise|].
  apply preserves_bind; [|intros; apply preserves_ret].
  destruct name.
  - unfold start.
    apply preserves_bind.
    { unfold _check_start.
      apply preserves_bind; [apply preserves_get|]. intros s1.
      destruct (_start_found s1); [apply preserves_raise|].
      apply preserves_modify. intros s H. now apply Hsf. }
    intros _.
    apply preserves_bind; [apply preserves_lift|]. intros uid.
    apply preserves_bind.
    { apply preserves_modify. intros s H. now apply Hru. }
    intros _.
    apply preserves_bind; [apply Hih|]. intros _.
    apply preserves_bind; [apply Hih|]. intros _.
    apply preserves_bind; [apply Hih|]. intros _.
    apply preserves_ret.
  - unfold stop.
    apply preserves_bind.
    { apply preserves_modify. intros s H. now apply Hsd. }
    intros _. apply preserves_bind; [|intros; apply preserves_ret].
    unfold close.
    apply preserves_bind; [apply preserves_get|]. intros s1.
    apply Hfreeze.
  - unfold descriptor.
    apply preserves_bind; [apply Hih|]. intros _. apply preserves_ret.
  - unfold resource.
    apply preserves_bind; [apply Hih|]. intros _. apply preserves_ret.
  - unfold event.
    apply preserves_bind; [apply Hpe|]. intros _. apply preserves_ret.
  - unfold datum.
    apply preserves_bind; [apply Hpd|]. intros _. apply preserves_ret.
  - unfold event_page. keeps.
  - unfold datum_page. keeps.
Qed.

Lemma session_keeps (P : t -> Prop) :
  thread_blind P -> loops_keep P ->
  (forall name d, preserves P (__call__ name d)) ->
  forall acts s, P s -> P (session acts s).
Proof.
  intros Hb Hl Hcall.
  induction acts as [|a acts IH]; intros s Hs; [exact Hs|].
  cbn [session fold_left].
  change (fold_left act acts (act s a)) with (session acts (act s a)).
  apply IH. destruct a as [name d|tk|sch]; cbn [act].
  - destruct (__call__ name d s) as [r s'] eqn:E. simpl.
    exact (Hcall name d s r s' E Hs).
  - now apply step_keeps.
  - destruct Hb as (_ & _ & _ & _ & Henv). now apply Henv.
Qed.
End Calls.

(** ** The queues *)

Section Queues.
Context {encoder : Bson}.

Lemma queues_bounded_via n s s' :
  queues s' = queues s -> queues_bounded n s -> queues_bounded n s'.
Proof.
  unfold queues, queues_bounded. intros H. inversion H as [[HQ He Hd]].
  now rewrite HQ, He, Hd.
Qed.

Lemma queues_keeps {A} n (c : M t A) :
  (forall x, preserves (fun s => queues s = x) c) ->
  preserves (queues_bounded n) c.
Proof.
  intros H s r s' E Hs. apply (queues_bounded_via n s); [|exact Hs].
  exact (H (queues s) s r s' E eq_refl).
Qed.

Lemma queues_blind n : thread_blind (queues_bounded n).
Proof.
  unfold thread_blind.
  split; [|split; [|split; [|split]]]; intros x s H; exact H.
Qed.

Lemma queues_handler_blind n : handler_blind (queues_bounded n).
Proof.
  unfold handler_blind.
  split; [|split; [|split; [|split]]]; intros x s H; exact H.
Qed.

Lemma len_cons {A} (x : A) l : len (x :: l) = len l + 1.
Proof. unfold len. simpl List.length. lia. Qed.

Lemma len_snoc {A} (x : A) l : len (l ++ [x]) = len l + 1.
Proof. unfold len. rewrite length_app. simpl. lia. Qed.

Lemma len_nonneg {A} (l : list A) : 0 <= len l.
Proof. unfold len. lia. Qed.

(** A worker takes from its queue; it puts nothing in. *)
Lemma event_iteration_queues n late :
  preserves (queues_bounded n) (_event_worker_iteration late).
Proof.
  intros s r s' E Hs. unfold _event_worker_iteration in E.
  unfold bind at 1, get at 1 in E.
  assert (Hgot : forall r1 s1,
            match local (event_thread s) with
            | None =>
                match _event_queue s with
                | [] => ret (@None item, true)
                | x :: q => modify (with_event_queue q) ;; ret (Some x, false)
                end
            | Some _ => ret (local (event_thread s), false)
            end s = (r1, s1) -> queues_bounded n s1).
  { intros r1 s1 H.
    destruct (local (event_thread s)).
    - inversion H; subst. exact Hs.
    - destruct (_event_queue s) as [|x q] eqn:Hq.
      + inversion H; subst. exact Hs.
      + cbv [bind modify ret] in H. inversion H; subst s1.
        destruct Hs as (HQ & Hn & He & Hd).
        split; [exact HQ|]. split; [exact Hn|]. split; [|exact Hd].
        cbn [_event_queue with_event_queue].
        rewrite Hq, len_cons in He. lia. }
  destruct (bind_inv _ _ _ _ _ E)
    as [(got & s1 & H1 & H2)|[(e & H1 & _)|[H1 _]]];
    try exact (Hgot _ _ H1).
  pose proof (Hgot _ _ H1) as Hs1.
  revert H2 Hs1.
  match goal with
  | |- ?c s1 = _ -> _ =>
      assert (Hk : forall x, preserves (fun st => queues st = x) c)
        by (intros x; unfold event_flush; keeps)
  end.
  intros H2 Hs1. exact (queues_keeps n _ Hk _ _ _ H2 Hs1).
Qed.

Lemma datum_iteration_queues n late :
  preserves (queues_bounded n) (_datum_worker_iteration late).
Proof.
  intros s r s' E Hs. unfold _datum_worker_iteration in E.
  unfold bind at 1, get at 1 in E.
  assert (Hgot : forall r1 s1,
            match local (datum_thread s) with
            | None =>
                match _datum_queue s with
                | [] => ret (@None item, true)
                | x :: q => modify (with_datum_queue q) ;; ret (Some x, false)
                end
            | Some _ => ret (local (datum_thread s), false)
            end s = (r1, s1) -> queues_bounded n s1).
  { intros r1 s1 H.
    destruct (local (datum_thread s)).
    - inversion H; subst. exact Hs.
    - destruct (_datum_queue s) as [|x q] eqn:Hq.
      + inversion H; subst. exact Hs.
      + cbv [bind modify ret] in H. inversion H; subst s1.
        destruct Hs as (HQ & Hn & He & Hd).
        split; [exact HQ|]. split; [exact Hn|]. split; [exact He|].
        cbn [_datum_queue with_datum_queue].
        rewrite Hq, len_cons in Hd. lia. }
  destruct (bind_inv _ _ _ _ _ E)
    as [(got & s1 & H1 & H2)|[(e & H1 & _)|[H1 _]]];
    try exact (Hgot _ _ H1).
  pose proof (Hgot _ _ H1) as Hs1.
  revert H2 Hs1.
  match goal with
  | |- ?c s1 = _ -> _ =>
      assert (Hk : forall x, preserves (fun st => queues st = x) c)
        by (intros x; unfold datum_flush; keeps)
  end.
  intros H2 Hs1. exact (queues_keeps n _ Hk _ _ _ H2 Hs1).
Qed.

Lemma queues_loops n : loops_keep (queues_bounded n).
Proof.
  split; [|split].
  - intros late. apply event_iteration_queues.
  - intros late. apply datum_iteration_queues.
  - apply queues_keeps. intros x. unfold _count_worker_iteration. keeps.
Qed.

(** A wait that ends has found what it waited for. *)
Lemma await_ready (ready : t -> bool) s s' :
  (forall sch x, ready (with_env sch x) = ready x) ->
  await ready s = (Ok tt, s') -> ready s' = true.
Proof.
  intros Henv. unfold await. generalize (env s) as sch. intros sch.
  revert s. induction sch as [|tk sch IH]; intros s; simpl.
  - destruct (ready s) eqn:Hr; intros H; inversion H; subst.
    now rewrite Henv.
  - destruct (ready s) eqn:Hr.
    + intros H; inversion H; subst. now rewrite Henv.
    + apply IH.
Qed.

Lemma put_event_queues n x : preserves (queues_bounded n) (put_event x).
Proof.
  intros s r s' E Hs. unfold put_event in E.
  destruct (bind_inv _ _ _ _ _ E)
    as [([] & s1 & H1 & H2)|[(e & H1 & _)|[H1 _]]];
    pose proof (await_keeps _ _ (queues_blind n) (queues_loops n)
                  _ _ _ H1 Hs) as Hs1; try exact Hs1.
  apply await_ready in H1; [|reflexivity].
  inversion H2; subst s'. destruct Hs1 as (HQ & Hn & He & Hd).
  split; [exact HQ|]. split; [exact Hn|]. split; [|exact Hd].
  cbn [_event_queue with_event_queue]. rewrite len_snoc.
  unfold has_room in H1. rewrite HQ in H1.
  apply orb_true_iff in H1. destruct H1 as [H1|H1].
  - apply Z.leb_le in H1. lia.
  - apply Z.ltb_lt in H1. lia.
Qed.

Lemma put_datum_queues n x : preserves (queues_bounded n) (put_datum x).
Proof.
  intros s r s' E Hs. unfold put_datum in E.
  destruct (bind_inv _ _ _ _ _ E)
    as [([] & s1 & H1 & H2)|[(e & H1 & _)|[H1 _]]];
    pose proof (await_keeps _ _ (queues_blind n) (queues_loops n)
                  _ _ _ H1 Hs) as Hs1; try exact Hs1.
  apply await_ready in H1; [|reflexivity].
  inversion H2; subst s'. destruct Hs1 as (HQ & Hn & He & Hd).
  split; [exact HQ|]. split; [exact Hn|]. split; [exact He|].
  cbn [_datum_queue with_datum_queue]. rewrite len_snoc.
  unfold has_room in H1. rewrite HQ in H1.
  apply orb_true_iff in H1. destruct H1 as [H1|H1].
  - apply Z.leb_le in H1. lia.
  - apply Z.ltb_lt in H1. lia.
Qed.

Lemma call_queues n name d :
  preserves (queues_bounded n) (__call__ name d).
Proof.
  apply call_keeps.
  - apply queues_blind.
  - apply queues_loops.
  - apply queues_handler_blind.
  - apply put_event_queues.
  - apply put_datum_queues.
  - intros f u upsert. apply queues_keeps. intros x. keeps.
  - intros c f. apply queues_keeps. intros x. keeps.
  - intros c d0. apply queues_keeps. intros x. keeps.
Qed.

(** X18.  With a positive [queue_size], neither queue ever holds more
    than [queue_size] items: [event], [datum] and the freeze wait for room
    before they put, and the workers only take.  This holds after any
    session of calls and worker iterations on a pipeline built by the
    constructor. *)
Theorem queues_stay_bounded
    (volatile_db permanent_db : Database)
    (num_threads queue_size embedder_size page_size max_insert_time : Z)
    (s0 : t) (acts : list action) :
  Serializer.__init__ volatile_db permanent_db num_threads queue_size
                      embedder_size page_size max_insert_time = Done s0 ->
  0 < queue_size ->
  len (_event_queue (session acts s0)) <= queue_size
  /\ len (_datum_queue (session acts s0)) <= queue_size.
Proof.
  intros Hinit Hq. unfold Serializer.__init__ in Hinit.
  destruct ((num_threads >? 10) || (num_threads <? 1)); [discriminate|].
  destruct (page_size <? 1000); [discriminate|].
  destruct (embedder_size + page_size >? 15000000); [discriminate|].
  unfold Embedder.__init__ in Hinit.
  destruct ((1000 <=? embedder_size) && (embedder_size <=? 15000000));
    [|discriminate].
  simpl in Hinit. inversion Hinit; subst s0.
  assert (Hs0 : queues_bounded queue_size
                  (boot volatile_db permanent_db queue_size embedder_size
                        page_size max_insert_time
                        (Embedder.event_buffer embedder_size)
                        (Embedder.datum_buffer embedder_size))).
  { split; [reflexivity|]. split; [exact Hq|]. simpl. unfold len. simpl.
    lia. }
  destruct (session_keeps _ (queues_blind queue_size)
              (queues_loops queue_size) (call_queues queue_size)
              acts _ Hs0) as (_ & _ & He & Hd).
  split; assumption.
Qed.
End Queues.

(** ** The header of a run *)

Lemma update_first_here f u front (h : doc) back :
  (forall x, In x front -> matches f x = false) ->
  matches f h = true ->
  update_first f u (front ++ h :: back)
  = Some (obind (apply_update u h)
                (fun h' => Done (front ++ h' :: back))).
Proof.
  intros Hfront Hm. induction front as [|x front IH]; simpl.
  - now rewrite Hm.
  - rewrite (Hfront x) by (now left).
    rewrite IH by (intros y Hy; apply Hfront; now right).
    destruct (apply_update u h); reflexivity.
Qed.

Lemma update_first_absent f u c :
  (forall x, In x c -> matches f x = false) -> update_first f u c = None.
Proof.
  induction c as [|x c IH]; intros H; simpl; [reflexivity|].
  rewrite (H x) by (now left).
  rewrite IH by (intros y Hy; apply H; now right). reflexivity.
Qed.

Lemma push_plain name v (d : doc) :
  split_dots name = [name] -> String.eqb name "" = false ->
  apply_update [Push name v] d
  = obind (push_all [v] (Dict.get name d))
          (fun w => Done (Dict.set name w d)).
Proof.
  intros Hpath Hne. simpl. rewrite Hpath. simpl. rewrite Hne.
  destruct (push_all [v] (Dict.get name d)); reflexivity.
Qed.

Lemma header_of_none uid db :
  header_of uid db = None ->
  forall x, In x (header db) -> matches [Eq "run_id" uid] x = false.
Proof.
  unfold header_of. intros H x Hin.
  exact (find_none _ _ H x Hin).
Qed.

Section Headers.
Context {encoder : Bson}.

(** [_insert_header] on a store that has a header for the run. *)
Lemma insert_header_appends s name v front (h : doc) back w :
  fault (_volatile_db s) = None ->
  split_dots name = [name] -> String.eqb name "" = false ->
  header (_volatile_db s) = front ++ h :: back ->
  (forall x, In x front -> matches [Eq "run_id" (_run_uid s)] x = false) ->
  matches [Eq "run_id" (_run_uid s)] h = true ->
  push_all [v] (Dict.get name h) = Done w ->
  _insert_header name v s
  = (Ok tt,
     with_volatile_db
       (with_coll Header (front ++ Dict.set name w h :: back)
                  (_volatile_db s)) s).
Proof.
  intros Hf Hpath Hne Hhead Hfront Hm Hpush.
  unfold _insert_header, on_db, zoom, update_one, available.
  unfold bind, get, lift, modify, ret, run_update.
  rewrite Hf. cbn [uo_filter uo_update uo_upsert coll].
  rewrite Hhead, (update_first_here _ _ _ _ _ Hfront Hm).
  rewrite (push_plain _ _ _ Hpath Hne), Hpush. reflexivity.
Qed.

(** [_insert_header] on a store that has none: the upsert. *)
Lemma insert_header_creates s name v :
  fault (_volatile_db s) = None ->
  split_dots name = [name] -> String.eqb name "" = false ->
  String.eqb name "run_id" = false ->
  header_of (_run_uid s) (_volatile_db s) = None ->
  _insert_header name v s
  = (Ok tt,
     with_volatile_db
       (with_coll Header
          (header (_volatile_db s)
             ++ [[("run_id", _run_uid s); (name, VList [v])]])
          (_volatile_db s)) s).
Proof.
  intros Hf Hpath Hne Hrun Hnone.
  unfold _insert_header, on_db, zoom, update_one, available.
  unfold bind, get, lift, modify, ret, run_update.
  rewrite Hf. cbn [uo_filter uo_update uo_upsert coll].
  rewrite (update_first_absent _ _ _ (header_of_none _ _ Hnone)).
  cbn [seed]. rewrite (push_plain _ _ _ Hpath Hne).
  cbn [Dict.get Dict.set]. rewrite Hrun. reflexivity.
Qed.

(** X19.  [_insert_header] appends: in the first header of the run
    identifier, the document goes to the end of the list under [name]
    (a new list when the header has no such field), and no other header
    and no other field changes; without a header of that identifier, one
    is created that holds the identifier and the one-element list.  When
    the field holds something other than a list, the store refuses the
    write and nothing changes. *)
Theorem insert_header_pushes (s : t) (name : string) (v : value) :
  fault (_volatile_db s) = None ->
  split_dots name = [name] -> String.eqb name "" = false ->
  (forall front h back,
      header (_volatile_db s) = front ++ h :: back ->
      (forall x, In x front ->
                 matches [Eq "run_id" (_run_uid s)] x = false) ->
      matches [Eq "run_id" (_run_uid s)] h = true ->
      (Dict.get name h = None ->
       _insert_header name v s
       = (Ok tt,
          with_volatile_db
            (with_coll Header
               (front ++ Dict.set name (VList [v]) h :: back)
               (_volatile_db s)) s))
      /\ (forall l, Dict.get name h = Some (VList l) ->
            _insert_header name v s
            = (Ok tt,
               with_volatile_db
                 (with_coll Header
                    (front ++ Dict.set name (VList (l ++ [v])) h :: back)
                    (_volatile_db s)) s))
      /\ (forall other,
            Dict.get name h = Some other ->
            (forall l, other <> VList l) ->
            exists e, _insert_header name v s = (Raise e, s)))
  /\ (String.eqb name "run_id" = false ->
      header_of (_run_uid s) (_volatile_db s) = None ->
      _insert_header name v s
      = (Ok tt,
         with_volatile_db
           (with_coll Header
              (header (_volatile_db s)
                 ++ [[("run_id", _run_uid s); (name, VList [v])]])
              (_volatile_db s)) s)).
Proof.
  intros Hf Hpath Hne. split.
  - intros front h back Hhead Hfront Hm. split; [|split].
    + intros Hnone.
      apply (insert_header_appends s name v front h back); auto.
      now rewrite Hnone.
    + intros l Hl.
      apply (insert_header_appends s name v front h back); auto.
      now rewrite Hl.
    + intros other Hother Hnot.
      unfold _insert_header, on_db, zoom, update_one, available.
      unfold bind, get, lift, modify, ret, run_update.
      rewrite Hf. cbn [uo_filter uo_update uo_upsert coll].
      rewrite Hhead, (update_first_here _ _ _ _ _ Hfront Hm).
      rewrite (push_plain _ _ _ Hpath Hne), Hother.
      destruct other as [| | | |l|]; try (exfalso; now apply (Hnot l));
        cbn [push_all write_error obind];
        rewrite with_volatile_same; eexists; reflexivity.
  - intros Hrun Hnone. now apply insert_header_creates.
Qed.

(** X20.  The first [start] of a run whose identifier is a string, on a
    store that answers and has no header of that identifier, returns the
    document, records the identifier, and adds one header to the volatile
    store: the identifier under [run_id], and the start document itself
    as the one element of three lists, [start], [event_count] and
    [datum_count].  Nothing else of the two stores changes. *)
Theorem start_opens_the_header (s : t) (d : doc) (u : string) :
  _start_found s = false ->
  Dict.get "uid" d = Some (VStr u) ->
  fault (_volatile_db s) = None ->
  header_of (VStr u) (_volatile_db s) = None ->
  exists s',
    start d s = (Ok d, s')
    /\ header (_volatile_db s')
       = header (_volatile_db s)
           ++ [[("run_id", VStr u); ("start", VList [VDict d]);
                ("event_count", VList [VDict d]);
                ("datum_count", VList [VDict d])]]
    /\ _run_uid s' = VStr u /\ _start_found s' = true
    /\ Mongo.event (_volatile_db s') = Mongo.event (_volatile_db s)
    /\ Mongo.datum (_volatile_db s') = Mongo.datum (_volatile_db s)
    /\ _permanent_db s' = _permanent_db s.
Proof.
  intros Hsf Huid Hf Hnone.
  pose proof (header_of_none _ _ Hnone) as Hold.
  unfold start.
  erewrite bind_ok.
  2:{ unfold _check_start, bind, get. rewrite Hsf. reflexivity. }
  erewrite bind_ok.
  2:{ unfold lift, py_getitem. rewrite Huid. reflexivity. }
  erewrite bind_ok by reflexivity.
  erewrite bind_ok.
  2:{ apply insert_header_creates; auto. }
  erewrite bind_ok.
  2:{ apply (insert_header_appends _ "event_count" (VDict d)
               (header (_volatile_db s))
               [("run_id", VStr u); ("start", VList [VDict d])] []);
        try reflexivity; auto.
      - unfold matches. simpl. now rewrite String.eqb_refl. }
  erewrite bind_ok.
  2:{ apply (insert_header_appends _ "datum_count" (VDict d)
               (header (_volatile_db s))
               [("run_id", VStr u); ("start", VList [VDict d]);
                ("event_count", VList [VDict d])] []);
        try reflexivity; auto.
      - unfold matches. simpl. now rewrite String.eqb_refl. }
  eexists. split; [reflexivity|]. simpl. repeat split.
Qed.
End Headers.

(** ** The further properties, read on the run *)

Section FurtherReadings.
Import Scenario BsonRef Runs.

Ltac distinct := repeat constructor; simpl; intuition discriminate.


Lemma serializer_init_checks_witness :
  (exists s, Serializer.__init__ Mongo.empty_db Mongo.empty_db 1 20 1000
                                 1000 10 = Done s)
  /\ ~ (exists s, Serializer.__init__ Mongo.empty_db Mongo.empty_db 1 20
                                      500 1000 10 = Done s).
Proof.
  split.
  - apply (proj2 (proj1 (serializer_init_checks
                           Mongo.empty_db Mongo.empty_db 1 20 1000 1000
                           10))). lia.
  - intros H.
    apply (proj1 (proj1 (serializer_init_checks
                           Mongo.empty_db Mongo.empty_db 1 20 500 1000
                           10))) in H. lia.
Defined.

Lemma insert_appends_witness :
  array_at "seq_num"
           (page_at "d1" (snd (Embedder.insert (event_doc 2) one_event)))
  = array_at "seq_num" (page_at "d1" one_event) ++ [VInt 2]
  /\ frame_at "data" "x"
              (page_at "d1" (snd (Embedder.insert (event_doc 2) one_event)))
     = frame_at "data" "x" (page_at "d1" one_event) ++ [VInt 2].
Proof.
  assert (Hnd : NoDup (Dict.keys (event_doc 2))) by distinct.
  assert (Hinner : forall k inner,
             In (k, VDict inner) (event_doc 2) -> NoDup (Dict.keys inner)).
  { intros k inner Hin. simpl in Hin.
    repeat (destruct Hin as [Hin|Hin]; [inversion Hin; subst; distinct|]).
    contradiction. }
  assert (Hsid : Dict.get (Embedder._stream_id_key one_event) (event_doc 2)
                 = Some (VStr "d1")) by reflexivity.
  assert (Hins : Embedder.insert (event_doc 2) one_event
                 = (Ok None, snd (Embedder.insert (event_doc 2) one_event)))
    by (vm_compute; reflexivity).
  destruct (insert_appends one_event (event_doc 2) "d1" _
              Hnd Hinner Hsid Hins) as (Harr & Hfr & _).
  split.
  - apply Harr; [simpl; tauto|reflexivity].
  - apply (Hfr "data" [("x", VInt 2)] "x" (VInt 2));
      [simpl; tauto|reflexivity|reflexivity|simpl; tauto].
Defined.

Lemma insert_needs_stream_witness :
  Embedder.insert orphan_doc (Embedder.event_buffer 1000)
  = (Raise (Exn KeyError "descriptor" None), Embedder.event_buffer 1000).
Proof.
  assert (Hfit : Embedder.current_size (Embedder.event_buffer 1000)
                 + Embedder.doc_size orphan_doc
                 <= Embedder._max_size (Embedder.event_buffer 1000)).
  { apply Z.leb_le. vm_compute. reflexivity. }
  exact (proj1 (proj2 (insert_needs_stream (Embedder.event_buffer 1000)
                         orphan_doc eq_refl Hfit))
           "seq_num" (VInt 1) [("time", VInt 100)] eq_refl eq_refl).
Defined.

Lemma size_accounts_agree_witness :
  Embedder.current_size (run_ops quiet_calls (Embedder.event_buffer 1000))
  = Dict.sum (Embedder.stream_size
                (run_ops quiet_calls (Embedder.event_buffer 1000))).
Proof.
  assert (Hall : all_returned quiet_calls (Embedder.event_buffer 1000)
                 = true) by (vm_compute; reflexivity).
  exact (proj1 (size_accounts_agree "event" 1000
                  (Embedder.event_buffer 1000) quiet_calls eq_refl Hall)).
Defined.

Lemma pages_have_sizes_witness :
  Dict.mem "d1" (Embedder.stream_size
                   (run_ops quiet_calls (Embedder.event_buffer 1000)))
  = true.
Proof.
  assert (Hall : all_returned quiet_calls (Embedder.event_buffer 1000)
                 = true) by (vm_compute; reflexivity).
  apply (proj1 (pages_have_sizes "event" 1000
                  (Embedder.event_buffer 1000) quiet_calls eq_refl Hall)).
  vm_compute. reflexivity.
Defined.

Lemma buffer_never_overfull_witness :
  0 <= Embedder.current_size
         (run_ops mixed_calls (Embedder.event_buffer 1000)) <= 1000.
Proof.
  exact (proj1 (buffer_never_overfull "event" 1000
                  (Embedder.event_buffer 1000) mixed_calls eq_refl)).
Defined.

Lemma no_datum_reaches_the_store_witness :
  out_of_reach (snd (__call__ NDatum (datum_doc 1) (described fresh)))
  = out_of_reach (described fresh).
Proof.
  apply (proj2 (no_datum_reaches_the_store (described fresh))).
  discriminate.
Defined.



Lemma freeze_moves_the_run_witness :
  header_of (VStr "run1")
            (_volatile_db (snd (freeze (VStr "run1") ready_to_move)))
  = None
  /\ exists h,
       header_of (VStr "run1")
                 (_permanent_db (snd (freeze (VStr "run1") ready_to_move)))
       = Some h.
Proof.
  assert (H : freeze (VStr "run1") ready_to_move
              = (Ok tt, snd (freeze (VStr "run1") ready_to_move)))
    by (vm_compute; reflexivity).
  destruct (freeze_moves_the_run ready_to_move _ (VStr "run1") H)
    as (_ & _ & _ & _ & _ & _ & Hv & Hp & _).
  split; [exact Hv|exact Hp].
Defined.

Lemma explicit_freeze_drops_everything_witness :
  Mongo.header
    (_volatile_db (snd (explicit_freeze (VStr "run1") ready_to_rescue)))
  = []
  /\ Mongo.event
       (_volatile_db (snd (explicit_freeze (VStr "run1") ready_to_rescue)))
     = [].
Proof.
  assert (H : explicit_freeze (VStr "run1") ready_to_rescue
              = (Ok tt, snd (explicit_freeze (VStr "run1") ready_to_rescue)))
    by (vm_compute; reflexivity).
  destruct (explicit_freeze_drops_everything ready_to_rescue _
              (VStr "run1") H)
    as (_ & _ & _ & _ & _ & _ & Hh & He & _).
  split; [exact Hh|exact He].
Defined.

Lemma reported_counts_agree_witness :
  reported "d1"
           (run_ticks [EventTick false; EventTick false; EventTick false]
                      two_queued)
  = event_counter "d1"
      (run_ticks [EventTick false; EventTick false; EventTick false]
                 two_queued).
Proof.
  apply (reported_counts_agree two_queued
           [EventTick false; EventTick false; EventTick false]).
  - intros d. vm_compute. reflexivity.
  - intros e. vm_compute. discriminate.
Defined.

Lemma pages_stay_small_witness :
  Forall (page_sized (1000 + 1000))
         (Mongo.event (_volatile_db (session whole_run fresh))).
Proof.
  apply (pages_stay_small Mongo.empty_db Mongo.empty_db 1 20 1000 1000 10
           fresh whole_run).
  - reflexivity.
  - constructor.
Defined.

Lemma worker_failure_stops_intake_witness :
  exists e,
    _worker_error (session whole_run event_failed) = Some e
    /\ __call__ NEvent (event_doc 1) (session whole_run event_failed)
       = (Raise (worker_exception e), session whole_run event_failed).
Proof.
  apply (proj2 (proj2 (worker_failure_stops_intake event_failed))).
  vm_compute. discriminate.
Defined.

Lemma queues_stay_bounded_witness :
  len (_event_queue (session whole_run fresh)) <= 20
  /\ len (_datum_queue (session whole_run fresh)) <= 20.
Proof.
  apply (queues_stay_bounded Mongo.empty_db Mongo.empty_db 1 20 1000 1000
           10 fresh whole_run).
  - reflexivity.
  - lia.
Defined.

Lemma insert_header_pushes_witness :
  _insert_header "descriptors" (VDict descriptor_doc) started
  = (Ok tt,
     with_volatile_db
       (with_coll Header
          ([] ++ Dict.set "descriptors" (VList [VDict descriptor_doc])
                          (hd [] (Mongo.header (_volatile_db started)))
              :: [])
          (_volatile_db started)) started).
Proof.
  apply (proj1 (proj1 (insert_header_pushes started "descriptors"
                         (VDict descriptor_doc) eq_refl eq_refl eq_refl)
                  [] (hd [] (Mongo.header (_volatile_db started))) []
                  eq_refl (fun x H => match H with end) eq_refl)).
  reflexivity.
Defined.

Lemma start_opens_the_header_witness :
  exists s',
    start start_doc fresh = (Ok start_doc, s')
    /\ Mongo.header (_volatile_db s')
       = [[("run_id", VStr "run1"); ("start", VList [VDict start_doc]);
           ("event_count", VList [VDict start_doc]);
           ("datum_count", VList [VDict start_doc])]].
Proof.
  destruct (start_opens_the_header fresh start_doc "run1"
              eq_refl eq_refl eq_refl eq_refl)
    as (s' & Hs & Hh & _).
  exists s'. split; [exact Hs|exact Hh].
Defined.
End FurtherReadings.
